(* ===== verification/_CoqProject ===== *)
-Q . S2P
Prelude.v
Cosmwasm.v
Protocol.v
Wire.v
WireProofs.v
WireSpec.v
Arith.v
LpStaking.v
LpStakingProofs.v
LpStakingSpec.v
Vault.v
VaultProofs.v
VaultSpec.v
VaultBacking.v
Gov.v
GovProofs.v
GovSpec.v
GovPaging.v
XprismBoost.v
XprismBoostProofs.v
XprismBoostSpec.v
LaunchPool.v
LaunchPoolProofs.v
LaunchPoolSpec.v
PoolBoost.v
Prismswap.v
AirdropRegistry.v
YassetStaking.v
YassetProofs.v
YassetSpec.v
Collector.v
CollectorSpec.v
AirdropFlow.v
RewardFlow.v
Queries.v
ClaimFlow.v
