(* ===== verification/Prelude.v ===== *)
(** * Verification of the Prism Protocol contracts

    Prism refracts staked Luna into principal and yield tokens.  The repository
    holds eight CosmWasm contracts (src/contracts) and the packages they share
    (src/packages).  A contract is a set of entry points over its own key-value
    storage; it answers a message with a new storage and a list of messages for
    other contracts and for the chain, which run after it has returned.  This
    library is a shallow embedding of the contracts in Rocq with the theorems
    that make them correct.

    ** How a contract is modelled

    - A contract is a Module ([LpStaking], [Vault], [Gov], [XprismBoost],
      [LaunchPool], [YassetStaking], [Collector], [AirdropRegistry]) with a
      record [Storage], one field per storage item of the source ([Item]: option,
      [Map] and [Bucket]: [gmap] with the components of the key), and one
      definition per handler, in the order of its statements: the guards with
      their errors, the queries, the writes, the messages.
    - A handler returns an [outcome] (Prelude): [Ok] with the new storage and
      the response, [Err], or [Panic] for an [unwrap] of an error, an overflow
      (the workspace is compiled with overflow checks) or a division by zero.
      [let? x := m in k] is the [?] operator with its error conversion, and
      [let! x := o in k] an operation that can only panic.  A failed
      transaction leaves the storage as it was, so only [Ok] results are steps.
    - Machine integers are [N] with their bounds written out: [u64_add] and its
      like check the width, [Uint128] and [Decimal] operations are those of the
      platform.
    - What the contracts call but the repository does not hold (cosmwasm_std,
      cw-storage-plus, cw0, rand) is the class [Cosmwasm] of operations with
      the class [CosmwasmLaws] of their documented behaviour (file Cosmwasm).
      Theorems hold for every platform with these laws; [Reference.platform] is
      one, on which the witnesses run the contracts.  [CwAsset] (cw-asset),
      [Terra] (terra-cosmwasm) and [Astroport] are smaller classes of the same
      kind.  JSON parsing of a hook message is an argument [from_binary] of the
      handlers that parse.  The answers of the chain are a record [Querier],
      and those of other contracts a record [Peers] of the contract that asks.
    - The messages of each contract are in file Protocol, in one Module per file
      of packages/prism_protocol/src.  A [Binary] built by a contract is the
      message it serialises.

    ** The files

    - Prelude: outcomes, loops, machine integers, sums over lists and maps,
      the tactics [inv_ok], [ok_facts], [lia_div] that take the result of a
      handler apart.
    - Cosmwasm: the platform interface, its laws, [platform_facts] and
      [inv_body], the reference platform.
    - Protocol: messages, responses, queries (packages/prism_protocol,
      packages/prismswap).
    - Prismswap: the methods packages/prismswap adds to assets and messages,
      and its queries as requests with typed answers.
    - Wire, WireProofs, WireSpec: the protobuf reply parser and the decoding of
      storage keys (packages/prism_protocol/src/internal), against reference
      encoders.  [WireSpec]: round trips of varints, replies and keys; the
      parser is total; it ignores the third bit of a wire type.
    - Arith: packages/signed_integers and the vault's [math.rs].
    - LpStaking, LpStakingProofs, LpStakingSpec: contracts/prism-lp-staking,
      staking of LP tokens against a schedule of rewards, with queued unbonding.
    - Vault, VaultProofs, VaultSpec: contracts/prism-vault, bonding of Luna,
      the derivative tokens, batches of unbonding requests, slashing.
    - VaultBacking: the vault among its tokens, its validators and its holders.
    - Gov, GovProofs, GovSpec: contracts/prism-gov, polls over staked xPRISM
      and the PRISM / xPRISM exchange.
    - GovPaging: the keys of the polls as stored bytes, and reading the polls
      page by page.
    - XprismBoost, XprismBoostProofs, XprismBoostSpec:
      contracts/prism-xprism-boost, a boost that accrues on bonded xPRISM.
    - LaunchPool, LaunchPoolProofs, LaunchPoolSpec: contracts/prism-launch-pool,
      PRISM for bonded yLuna, by bond and by boosted bond, with vesting.
    - YassetStaking, YassetProofs, YassetSpec: contracts/prism-yasset-staking,
      rewards in many tokens for staked yLuna.
    - Collector, CollectorSpec: contracts/prism-collector, which swaps what it
      is given or has collected.
    - AirdropRegistry: contracts/prism-airdrop-registry, with its theorem.
    - PoolBoost: the boost contract and the launch pool together, across the
      interface [BoostService].
    - AirdropFlow: registry, vault and yLuna staking together.
    - RewardFlow: vault and yLuna staking together, from the staking rewards of
      the validators to the index of the stakers.
    - ClaimFlow: yLuna staking, collector and governance together, from a claim
      of rewards to xPRISM.
    - Queries: the reward queries of the two staking contracts against their
      claims.

    In each group of three the first file holds the definitions, the second (the lemmas
    of the collector are in its last) the lemmas
    on every operation and the invariant, the third the runs (the states that
    entry points can reach), the properties, and their witnesses.

    ** What the theorems show

    - LP staking ([LpStakingSpec]).  The totals of each pool are the sums over
      its stakers and orders in every reachable state ([lp_bookkeeping]), and
      the contract's balance of a staking token covers them ([lp_solvent],
      over a ledger of transfers).  Rewards: a pool update distributes what the
      schedule owes with a loss below one atomic per token
      ([lp_pool_reward_split]), the schedule never pays more than its budget
      ([lp_schedule_budget]), the reward of a staker does not depend on when it
      is settled ([lp_reward_path_independent]).  Claims, hooks and unbonding
      orders behave as specified ([lp_claim_unbonded_pays],
      [lp_auto_stake_absorbs], [lp_unbond_keeps_orders],
      [lp_duplicate_staking_token]).
    - Vault ([VaultSpec]).  Requests and batches agree ([vault_books]); a
      release never promises more than the Luna that arrived plus a rounding
      bound, gives every batch its share of a loss or a surplus up to a few
      units ([vault_release_bounded]), and terminates
      ([vault_release_terminates]); bonding, splitting, unbonding, withdrawal
      and slashing do exactly what they say ([vault_bond_mints],
      [vault_bond_split_refines_bond], [vault_unbond], [vault_withdraw_pays],
      [vault_slashing]); the undelegations of an epoch sum to what is due and
      the random choice of validators terminates ([vault_undelegation_exact]);
      a dust batch blocks every withdrawal ([vault_dust_batch_blocks]).
    - The vault among its tokens ([VaultBacking]).  Over a ledger of the token
      supplies and of the Luna staked: as long as the derivative tokens are
      minted and burned by the vault alone, the Luna staked backs the cLuna and
      the pairs of pLuna and yLuna at the exchange rate, slashing included
      ([vault_backed]); equal amounts of pLuna and yLuna can always be merged
      back into cLuna ([vault_merge_redeems]); and unbonding in an epoch without
      slashing pays the face value ([vault_unbond_at_par]).
    - Governance ([GovSpec]).  Index, tallies, votes and pending redemptions
      agree with polls, accounts and orders ([gov_books]); no poll counts more
      than is staked ([gov_votes_staked]); a poll only moves forward and its
      result is final ([gov_poll_lifecycle]); [end_poll] decides by exact
      inequalities ([gov_end_poll]); withdrawals and claims succeed exactly when
      they should and pay exactly what they should ([gov_withdraw_voting],
      [gov_claim_redeemed]).  Module [GovSpec.Exchange] is an abstract
      specification of custody and exchange; every step of the contract among
      its token contracts refines it, or is a message of a passed poll to one
      of the two tokens ([gov_refines_exchange]), which may do anything.  So only
      a vote lowers the price of xPRISM ([gov_price_monotone]), and as long as
      no executed poll has called a token the contract is solvent
      ([gov_solvent]).
    - Reading polls ([GovPaging]).  The byte keys order the polls by id, and a
      client that reads page after page sees every poll once
      ([gov_polls_paging]).
    - Boost and launch pool ([XprismBoostSpec], [LaunchPoolSpec], [PoolBoost]).
      The boost contract holds what is bonded ([boost_solvent]), its records are
      well formed ([boost_records_wf]) and it never refuses an unbonding itself
      ([boost_accepts_unbond]).  In the pool the weights are the sums over the
      accounts ([pool_books]); what is promised, vesting and paid stays within
      the schedule, up to two units per settlement ([pool_promises_bounded]);
      a withdrawal vests exactly what was earned ([pool_withdraw_vests]) and
      what has vested can be claimed ([pool_vests_paid]).  Together: between
      transactions no account has a weight its present boost does not justify,
      unless, since the pool last settled it, the owner of the boost contract
      lowered the rate or it unbonded while the pool was not the one notified
      (the field [late] of the system, [pool_no_stale_boost]); a pool that cannot settle blocks the unbonding of
      xPRISM ([pool_blocks_unbond]), and a late change of the ratio makes it one
      ([pool_late_ratio_change_blocks]).
    - yLuna staking ([YassetSpec]).  While no reward asset is removed, the
      rewards promised, paid and passed on and the stakes stay within what came
      in, up to one unit per settlement ([yasset_rewards_covered]); a staker can
      claim and is paid exactly what is owed ([yasset_claim_pays]); a deposit is
      split as specified ([yasset_deposit_splits]).  The condition is needed:
      [yasset_rewhitelisting_overpays].
    - Collector ([CollectorSpec]).  What is paid in leaves once and in full
      towards the receiver, with a hook exactly when something goes through
      astroport ([collector_passes_through]), collected fees towards
      the distribution contract ([collector_distributes]), and the hook moves on
      exactly what astroport paid ([collector_hook_swaps_gain]).
    - Airdrops.  The registry's list and records agree ([registry_agrees]); a
      claim goes from the registry through the vault to the index of the token,
      unless the token is cLuna ([AirdropFlow.airdrop_reaches_stakers]).
    - Rewards.  The native coins the validators pay are bonded, split and
      credited to the stakers ([RewardFlow.rewards_reach_stakers]); a claim in
      one token pays, or hands to the collector, every reward it resets, except
      PRISM when xPRISM is asked for, and mints xPRISM for the PRISM that comes
      back, and for no other PRISM ([ClaimFlow.claim_converts]); what a reward query answers is what the
      claim then pays ([yasset_query_is_claim], [lp_query_is_claim]).

    ** Fuel

    Three loops of the vault carry fuel.  [pick_unbond_validator] removes one
    delegation per turn and starts with one more unit than there are
    delegations; [sum_due_batches] and [release_batches] visit consecutive
    batches and start with the number of stored batches.  The lemmas
    [pick_unbond_loop_spec], [sum_due_batches_fuel] and [release_batches_fuel]
    show that the fuel is never what stops them.  The protobuf parsers recurse
    on their data.  All other loops are folds over finite lists.  The client
    of [GovPaging.walk] has one unit of fuel more than there are polls.

    ** Not modelled

    JSON serialisation, the cw2 version record, the empty migrate entry points,
    gas, and the text of formatted errors (kept as format strings).  The ledgers
    of the runs count the token messages a contract sends itself; the message
    of an executed poll may change the token it is addressed to in any way.  The prismswap and astroport pairs, the router, the factories
    and the token contracts are not in the repository: only their messages and
    answers are.  packages/prism_common is the mock of the unit tests. *)
From stdpp Require Export base tactics option list list_numbers numbers strings gmap sorting.
From Stdlib Require Export Lia.

(** * Outcomes of a handler

    A Rust handler returns [Result<_, E>] or panics (an [unwrap] of an error,
    an arithmetic overflow under [overflow-checks = true], a division by zero).
    The contract virtual machine turns a panic into a failed transaction. *)
Inductive outcome (E A : Type) : Type :=
  | Ok (a : A)
  | Err (e : E)
  | Panic.
Arguments Ok {_ _} _.
Arguments Err {_ _} _.
Arguments Panic {_ _}.

Lemma Ok_inj {E A} (a b : A) : Ok (E:=E) a = Ok b → a = b.
Proof. by intros [= ->]. Qed.

(** The [From] conversion the [?] operator applies to the error it propagates. *)
Class FromErr (E1 E2 : Type) : Type := from_err : E1 → E2.
#[global] Instance from_err_refl E : FromErr E E := λ e, e.

(** [m?] followed by the rest of the body. *)
Definition qbind {E1 E2 A B} `{FromErr E1 E2}
    (m : outcome E1 A) (k : A → outcome E2 B) : outcome E2 B :=
  match m with
  | Ok a => k a
  | Err e => Err (from_err e)
  | Panic => Panic
  end.

(** A computation that can only panic ([None]) followed by the rest. *)
Definition obind {E A B} (o : option A) (k : A → outcome E B) : outcome E B :=
  match o with
  | Some a => k a
  | None => Panic
  end.

Declare Scope prism_scope.
Delimit Scope prism_scope with prism.
Notation "'let?' x := m 'in' k" := (qbind m (λ x, k))
  (at level 200, x name, m at level 100, k at level 200, right associativity) : prism_scope.
Notation "'let?' ' p := m 'in' k" := (qbind m (λ p, k))
  (at level 200, p strict pattern, m at level 100, k at level 200, right associativity) : prism_scope.
Notation "'let!' x := m 'in' k" := (obind m (λ x, k))
  (at level 200, x name, m at level 100, k at level 200, right associativity) : prism_scope.
Notation "'let!' ' p := m 'in' k" := (obind m (λ p, k))
  (at level 200, p strict pattern, m at level 100, k at level 200, right associativity) : prism_scope.
#[global] Open Scope prism_scope.
#[global] Open Scope N_scope.

Definition map_err {E1 E2 A} (f : E1 → E2) (m : outcome E1 A) : outcome E2 A :=
  match m with Ok a => Ok a | Err e => Err (f e) | Panic => Panic end.

(** [r.unwrap_or(d)]: the default replaces an error, a panic stays a panic. *)
Definition unwrap_or {E A} (m : outcome E A) (d : A) : option A :=
  match m with Ok a => Some a | Err _ => Some d | Panic => None end.

(** [r.unwrap()] and [r.expect(_)]: an error becomes a panic. *)
Definition unwrap {E A} (m : outcome E A) : option A :=
  match m with Ok a => Some a | _ => None end.

Definition ok_or {E A} (o : option A) (e : E) : outcome E A :=
  match o with Some a => Ok a | None => Err e end.

Definition is_ok {E A} (m : outcome E A) : bool :=
  match m with Ok _ => true | _ => false end.

(** A [for] loop whose body may return early with an error or panic. *)
Fixpoint ofold {E S A} (f : S → A → outcome E S) (s : S) (l : list A) : outcome E S :=
  match l with
  | [] => Ok s
  | a :: l => let? s' := f s a in ofold f s' l
  end.

(** A loop whose body can only panic. *)
Fixpoint optfold {S A} (f : S → A → option S) (s : S) (l : list A) : option S :=
  match l with
  | [] => Some s
  | a :: l => s' ← f s a; optfold f s' l
  end.

(** [iter().map(f).collect::<Result<Vec<_>, _>>()]. *)
Fixpoint omapM {E A B} (f : A → outcome E B) (l : list A) : outcome E (list B) :=
  match l with
  | [] => Ok []
  | a :: l => let? b := f a in let? bs := omapM f l in Ok (b :: bs)
  end.

(** The entries of a key-ordered iteration after an exclusive lower bound. *)
Definition after {K V} (ltb : K → K → bool) (start : option K) (l : list (K * V)) : list (K * V) :=
  match start with
  | None => l
  | Some s => List.filter (λ kv, ltb s kv.1) l
  end.

(** The entries of a key-ordered iteration before an exclusive upper bound. *)
Definition before {K V} (ltb : K → K → bool) (stop : option K) (l : list (K * V)) : list (K * V) :=
  match stop with
  | None => l
  | Some s => List.filter (λ kv, ltb kv.1 s) l
  end.

Lemma filter_keys {K V} (f : K → bool) (l : list (K * V)) :
  List.filter f l.*1 = (List.filter (λ kv, f kv.1) l).*1.
Proof. induction l as [|[k v] l IH]; csimpl; [done|]. destruct (f k); csimpl; [by f_equal|done]. Qed.

Section outcome_lemmas.
Context {E1 E2 : Type} {FE : FromErr E1 E2}.

Lemma qbind_Ok {A B} (m : outcome E1 A) (k : A → outcome E2 B) r :
  qbind m k = Ok r ↔ ∃ a, m = Ok a ∧ k a = Ok r.
Proof. split; [destruct m; simpl; eauto; discriminate|by intros (? & -> & ?)]. Qed.

Lemma obind_Ok {A B} (o : option A) (k : A → outcome E2 B) r :
  obind o k = Ok r ↔ ∃ a, o = Some a ∧ k a = Ok r.
Proof. split; [destruct o; simpl; eauto; discriminate|by intros (? & -> & ?)]. Qed.
End outcome_lemmas.

Lemma map_err_Ok {E1 E2 A} (f : E1 → E2) (m : outcome E1 A) r :
  map_err f m = Ok r ↔ m = Ok r.
Proof. destruct m; simpl; naive_solver. Qed.

Lemma ok_or_Ok {E A} (o : option A) (e : E) r : ok_or o e = Ok r ↔ o = Some r.
Proof. destruct o; simpl; naive_solver. Qed.

Lemma unwrap_Some {E A} (m : outcome E A) r : unwrap m = Some r ↔ m = Ok r.
Proof. destruct m; simpl; naive_solver. Qed.

Lemma ofold_app {E S A} (f : S → A → outcome E S) s l1 l2 :
  ofold f s (l1 ++ l2) = (let? s' := ofold f s l1 in ofold f s' l2).
Proof.
  revert s; induction l1 as [|a l1 IH]; intros s; simpl; [done|].
  destruct (f s a); simpl; [apply IH|done|done].
Qed.

Lemma optfold_app {S A} (f : S → A → option S) s l1 l2 :
  optfold f s (l1 ++ l2) = (s' ← optfold f s l1; optfold f s' l2).
Proof.
  revert s; induction l1 as [|a l1 IH]; intros s; simpl; [done|].
  destruct (f s a); simpl; [apply IH|done].
Qed.

(** Invariant rule for a loop: what every successful iteration preserves holds
    of the final state. *)
Lemma ofold_ind {E S A} (P : S → Prop) (f : S → A → outcome E S) l s s' :
  P s → (∀ s a s'', a ∈ l → P s → f s a = Ok s'' → P s'') →
  ofold f s l = Ok s' → P s'.
Proof.
  revert s; induction l as [|a l IH]; intros s Hs Hf; simpl.
  - by intros [= <-].
  - intros (s1 & Hs1 & Hl)%qbind_Ok. apply (IH s1); [|intros s2 b s3 Hb|done].
    + by apply (Hf s a); [apply list_elem_of_here|..].
    + apply Hf. by apply list_elem_of_further.
Qed.

(** [inv_ok H] decomposes a hypothesis [body = Ok r] into the equations of the
    intermediate results, discarding the branches that return early. *)
Ltac inv_ok_step H :=
  cbv beta in H;
  lazymatch type of H with
  | qbind _ _ = Ok _ =>
      let a := fresh "a" in let Ha := fresh "Ha" in
      apply qbind_Ok in H as (a & Ha & H)
  | obind _ _ = Ok _ =>
      let a := fresh "a" in let Ha := fresh "Ha" in
      apply obind_Ok in H as (a & Ha & H)
  | Err _ = Ok _ => discriminate H
  | Panic = Ok _ => discriminate H
  | Ok _ = Ok _ => injection H as H
  | (if ?b then _ else _) = Ok _ => let E := fresh "E" in destruct b eqn:E
  | match ?x with _ => _ end = Ok _ => let E := fresh "E" in destruct x eqn:E
  end.
Ltac inv_ok H := repeat (inv_ok_step H; try discriminate H).

(** Unfolds the innermost results of library-style helpers. *)
Ltac ok_facts :=
  repeat match goal with
  | H : ok_or _ _ = Ok _ |- _ => apply ok_or_Ok in H
  | H : map_err _ _ = Ok _ |- _ => apply map_err_Ok in H
  | H : unwrap _ = Some _ |- _ => apply unwrap_Some in H
  | H : negb _ = true |- _ => apply negb_true_iff in H
  | H : negb _ = false |- _ => apply negb_false_iff in H
  | H : (_ && _)%bool = true |- _ => apply andb_true_iff in H as [??]
  | H : (_ || _)%bool = false |- _ => apply orb_false_iff in H as [??]
  | H : bool_decide _ = true |- _ => apply bool_decide_eq_true in H
  | H : bool_decide _ = false |- _ => apply bool_decide_eq_false in H
  | H : N.ltb _ _ = true |- _ => apply N.ltb_lt in H
  | H : N.ltb _ _ = false |- _ => apply N.ltb_ge in H
  | H : N.leb _ _ = true |- _ => apply N.leb_le in H
  | H : N.leb _ _ = false |- _ => apply N.leb_gt in H
  | H : N.eqb _ _ = true |- _ => apply N.eqb_eq in H
  | H : N.eqb _ _ = false |- _ => apply N.eqb_neq in H
  end.

(** Splits an equation of tuples into the equations of their components. *)
Ltac split_pairs := repeat match goal with |- (_, _) = (_, _) => f_equal end.

(** Names the quotients in the context, so that [lia] takes them as atoms. *)
Ltac atomize_div :=
  repeat match goal with
  | H : context [N.div ?a ?b] |- _ => let q := fresh "quot" in set (q := N.div a b) in *; clearbody q
  | |- context [N.div ?a ?b] => let q := fresh "quot" in set (q := N.div a b) in *; clearbody q
  end.
Ltac lia_div := atomize_div; lia.

(** * Machine integers

    Arithmetic on [u64] and [u128] panics on overflow: the release profile of
    the workspace sets [overflow-checks = true] (Cargo.toml). *)
Definition u64_limit : N := 2 ^ 64.
Definition u128_limit : N := 2 ^ 128.

Definition checked_width (limit n : N) : option N := if n <? limit then Some n else None.
Definition u64_add (a b : N) : option N := checked_width u64_limit (a + b).
Definition u64_sub (a b : N) : option N := if b <=? a then Some (a - b) else None.
Definition u64_mul (a b : N) : option N := checked_width u64_limit (a * b).
Definition u128_add (a b : N) : option N := checked_width u128_limit (a + b).
Definition u128_mul (a b : N) : option N := checked_width u128_limit (a * b).

Lemma checked_width_Some limit n m : checked_width limit n = Some m ↔ m = n ∧ n < limit.
Proof.
  unfold checked_width. destruct (N.ltb_spec n limit); split.
  all: first [by intros [= ->]|by intros [-> ?]|discriminate|intros [-> ?]; lia].
Qed.
Lemma checked_width_intro limit n : n < limit → checked_width limit n = Some n.
Proof. intros. by apply checked_width_Some. Qed.
Lemma u64_add_Some a b c : u64_add a b = Some c ↔ c = a + b ∧ a + b < u64_limit.
Proof. apply checked_width_Some. Qed.
Lemma u64_mul_Some a b c : u64_mul a b = Some c ↔ c = a * b ∧ a * b < u64_limit.
Proof. apply checked_width_Some. Qed.
Lemma u64_sub_Some a b c : u64_sub a b = Some c ↔ b ≤ a ∧ c = a - b.
Proof.
  unfold u64_sub. destruct (N.leb_spec b a); split.
  all: first [by intros [= <-]|by intros [_ ->]|discriminate|intros [? _]; lia].
Qed.
Lemma u128_add_Some a b c : u128_add a b = Some c ↔ c = a + b ∧ a + b < u128_limit.
Proof. apply checked_width_Some. Qed.
Lemma u128_mul_Some a b c : u128_mul a b = Some c ↔ c = a * b ∧ a * b < u128_limit.
Proof. apply checked_width_Some. Qed.

(** * Sums over lists and maps *)
Fixpoint sum_N (l : list N) : N :=
  match l with [] => 0 | n :: l => n + sum_N l end.

Lemma sum_N_app l k : sum_N (l ++ k) = sum_N l + sum_N k.
Proof. induction l as [|x l IH]; simpl; lia. Qed.

#[global] Instance sum_N_perm : Proper ((≡ₚ) ==> (=)) sum_N.
Proof. induction 1; simpl; lia. Qed.

Lemma sublist_full {A} (l k : list A) :
  l `sublist_of` k → (length k ≤ length l)%nat → l = k.
Proof.
  induction 1 as [|x l k Hs IH|x l k Hs IH]; simpl; intros Hlen; [done|..].
  - f_equal. apply IH. lia.
  - apply sublist_length in Hs. lia.
Qed.

Lemma is_Some_insert {K V} `{Countable K} (m : gmap K V) i x k :
  is_Some (<[i:=x]> m !! k) ↔ k = i ∨ is_Some (m !! k).
Proof.
  rewrite lookup_insert_is_Some. split; [intros [->|[_ ?]]; auto|].
  intros [->|?]; [by left|]. destruct (decide (i = k)); auto.
Qed.

(** The entries whose time has come at [t] in a queue ordered by time, up to
    the first whose time has not. *)
Fixpoint matured {V} (t : N) (l : list (N * V)) : list (N * V) :=
  match l with
  | [] => []
  | e :: l => if t <? e.1 then [] else e :: matured t l
  end.

Lemma sorted_take {A} (R : relation A) n l : StronglySorted R l → StronglySorted R (take n l).
Proof.
  revert n. induction l as [|a l IH]; intros [|n] Hs; simpl; try constructor.
  - inversion Hs; subst. by apply IH.
  - inversion Hs as [|? ? _ Ha]; subst. by apply Forall_take.
Qed.

(** In time order, what has matured is what has expired. *)
Lemma matured_filter {V} t (l : list (N * V)) :
  StronglySorted N.le l.*1 → matured t l = List.filter (λ e, e.1 <=? t) l.
Proof.
  induction l as [|e l IH]; csimpl; intros Hs; [done|]. inversion Hs as [|? ? Hl He]; subst.
  destruct (N.ltb_spec t e.1) as [Hlt|Hge].
  - rewrite (proj2 (N.leb_gt _ _)) by done. symmetry.
    clear IH Hs Hl. induction l as [|e' l IH]; csimpl; [done|]. inversion He; subst.
    rewrite (proj2 (N.leb_gt _ _)) by lia. by apply IH.
  - rewrite (proj2 (N.leb_le _ _)) by done. by rewrite IH.
Qed.

Lemma matured_all {V} t (l : list (N * V)) : Forall (λ e, e.1 ≤ t) l → matured t l = l.
Proof.
  induction 1 as [|e l He _ IH]; simpl; [done|]. rewrite (proj2 (N.ltb_ge _ _)) by done. by rewrite IH.
Qed.

Section map_sum.
Context {K V : Type} `{Countable K}.
Implicit Types (f g : K → V → N) (m : gmap K V).

(** The sum of [f k v] over the entries of a map. *)
Definition map_sum f m : N := sum_N ((λ kv, f kv.1 kv.2) <$> map_to_list m).

Lemma map_sum_empty f : map_sum f ∅ = 0.
Proof. unfold map_sum. by rewrite map_to_list_empty. Qed.

Lemma map_sum_insert_new f m k v :
  m !! k = None → map_sum f (<[k:=v]> m) = f k v + map_sum f m.
Proof. intros Hk. unfold map_sum. by rewrite map_to_list_insert. Qed.

Lemma map_sum_delete f m k v :
  m !! k = Some v → map_sum f m = f k v + map_sum f (delete k m).
Proof.
  intros Hk. rewrite <-(insert_delete_id m k v Hk) at 1.
  rewrite map_sum_insert_new; [done|apply lookup_delete_eq].
Qed.

(** What key [k] contributes to the sum. *)
Definition contrib f m k : N := from_option (f k) 0 (m !! k).

Lemma map_sum_split f m k : map_sum f m = contrib f m k + map_sum f (delete k m).
Proof.
  unfold contrib. destruct (m !! k) as [v|] eqn:Hk; simpl.
  - by apply map_sum_delete.
  - by rewrite delete_id.
Qed.

Lemma map_sum_insert f m k v :
  map_sum f (<[k:=v]> m) + contrib f m k = map_sum f m + f k v.
Proof.
  rewrite (map_sum_split f m k), <-insert_delete_eq, map_sum_insert_new; [lia|].
  apply lookup_delete_eq.
Qed.

Lemma map_sum_delete_contrib f m k :
  map_sum f (delete k m) + contrib f m k = map_sum f m.
Proof. rewrite (map_sum_split f m k). lia. Qed.

Lemma contrib_le f m k : contrib f m k ≤ map_sum f m.
Proof. rewrite (map_sum_split f m k). lia. Qed.

Lemma contrib_Some f m k v : m !! k = Some v → contrib f m k = f k v.
Proof. unfold contrib. by intros ->. Qed.
Lemma contrib_None f m k : m !! k = None → contrib f m k = 0.
Proof. unfold contrib. by intros ->. Qed.

Lemma map_sum_ext f g m :
  (∀ k v, m !! k = Some v → f k v = g k v) → map_sum f m = map_sum g m.
Proof.
  induction m as [|k v m Hk IH] using map_ind; intros Hfg.
  - by rewrite !map_sum_empty.
  - rewrite !map_sum_insert_new by done. rewrite IH.
    + rewrite Hfg; [done|]. apply lookup_insert_eq.
    + intros k' v' Hk'. apply Hfg. rewrite lookup_insert_ne; [done|congruence].
Qed.

Lemma map_sum_zero f m : (∀ k v, m !! k = Some v → f k v = 0) → map_sum f m = 0.
Proof.
  intros Hf. rewrite (map_sum_ext f (λ _ _, 0) m Hf).
  induction m as [|k v m Hk IH] using map_ind; [by rewrite map_sum_empty|].
  rewrite map_sum_insert_new by done. rewrite IH; [done|].
  intros k' v' Hk'. apply (Hf k' v'). rewrite lookup_insert_ne; [done|congruence].
Qed.

Lemma map_sum_add f g m : map_sum (λ k v, f k v + g k v) m = map_sum f m + map_sum g m.
Proof.
  induction m as [|k v m Hk IH] using map_ind; [by rewrite !map_sum_empty|].
  rewrite !map_sum_insert_new by done. rewrite IH. lia.
Qed.

Lemma map_sum_mul f m c : map_sum (λ k v, f k v * c) m = map_sum f m * c.
Proof.
  induction m as [|k v m Hk IH] using map_ind; [by rewrite !map_sum_empty|].
  rewrite !map_sum_insert_new by done. rewrite IH. lia.
Qed.

(** Sums of maps that agree off key [k] differ by what they hold there. *)
Lemma map_sum_change f g m m' k :
  delete k m' = delete k m → (∀ j v, j ≠ k → g j v = f j v) →
  map_sum g m' + contrib f m k = map_sum f m + contrib g m' k.
Proof.
  intros Hm Hfg. rewrite (map_sum_split f m k), (map_sum_split g m' k), Hm.
  rewrite (map_sum_ext g f (delete k m)); [lia|]. intros j v Hj. apply Hfg. intros ->.
  by rewrite lookup_delete_eq in Hj.
Qed.

Lemma contrib_delete f m k j : contrib f (delete k m) j = if decide (j = k) then 0 else contrib f m j.
Proof.
  unfold contrib. case_decide as Hj; [subst j; by rewrite lookup_delete_eq|].
  by rewrite lookup_delete_ne.
Qed.
End map_sum.

Section map_sum_le.
Context {K V W : Type} `{Countable K}.

(** Sums compare as their contributions do, key by key. *)
Lemma map_sum_le (f : K → V → N) (g : K → W → N) (m : gmap K V) (m' : gmap K W) :
  (∀ k, contrib f m k ≤ contrib g m' k) → map_sum f m ≤ map_sum g m'.
Proof.
  revert m'. induction m as [|k v m Hk IH] using map_ind; intros m' Hle.
  { rewrite map_sum_empty. lia. }
  rewrite map_sum_insert_new by done. rewrite (map_sum_split g m' k).
  assert (f k v ≤ contrib g m' k).
  { specialize (Hle k). by rewrite (contrib_Some f _ k v) in Hle by apply lookup_insert_eq. }
  enough (map_sum f m ≤ map_sum g (delete k m')) by lia.
  apply IH. intros j. rewrite contrib_delete. case_decide as Hj.
  - subst j. by rewrite contrib_None.
  - specialize (Hle j). unfold contrib in *. by rewrite lookup_insert_ne in Hle.
Qed.
End map_sum_le.

Lemma map_sum_contrib {K V W} `{Countable K} (f : K → V → N) (g : K → W → N)
    (m : gmap K V) (m' : gmap K W) :
  (∀ k, contrib f m k = contrib g m' k) → map_sum f m = map_sum g m'.
Proof. intros Hk. apply N.le_antisymm; apply map_sum_le; intros k; by rewrite Hk. Qed.

Section map_sum_pointwise.
Context {K V : Type} `{Countable K}.

Lemma map_sum_imap (f : K → V → N) (m : gmap K V) :
  map_sum f m = map_sum (λ _ n, n) (map_imap (λ k v, Some (f k v)) m).
Proof.
  induction m as [|k v m Hk IH] using map_ind.
  - by rewrite map_imap_empty, !map_sum_empty.
  - rewrite (map_imap_insert_Some _ _ _ _ (f k v)) by done.
    rewrite !map_sum_insert_new; [by rewrite IH|by rewrite map_lookup_imap, Hk|done].
Qed.

Lemma map_sum_pointwise (f : K → V → N) (m m' : gmap K V) :
  (∀ k, option_Forall2 (λ v v', f k v = f k v') (m !! k) (m' !! k)) →
  map_sum f m = map_sum f m'.
Proof.
  intros Hk. rewrite (map_sum_imap f m), (map_sum_imap f m'). f_equal. apply map_eq; intros k.
  rewrite !map_lookup_imap. destruct (Hk k) as [v v' Hv|]; simpl; [by rewrite Hv|done].
Qed.
End map_sum_pointwise.

(** * Composite keys

    [prefix m a] is the view [Map::prefix(a)] gives of a map whose keys are
    pairs: the entries whose first component is [a], keyed by the second. *)
Section prefix.
Context {K1 K2 V : Type} `{Countable K1, Countable K2}.
Implicit Types m : gmap (K1 * K2) V.

Definition prefix m (a : K1) : gmap K2 V := 
  default ∅ (map_curry (M1:=gmap K1) (M2:=gmap K2) m !! a).

Lemma lookup_prefix m a b : prefix m a !! b = m !! (a, b).
Proof.
  unfold prefix. rewrite <-(lookup_map_curry (M1:=gmap K1) (M2:=gmap K2) m a b).
  destruct (map_curry m !! a); simpl; [done|]. by rewrite lookup_empty.
Qed.

Lemma prefix_empty_iff m a : prefix m a = ∅ ↔ ∀ b, m !! (a, b) = None.
Proof.
  split; intros Hm.
  - intros b. rewrite <-lookup_prefix, Hm. apply lookup_empty.
  - apply map_eq; intros b. by rewrite lookup_prefix, Hm, lookup_empty.
Qed.

Lemma prefix_insert_eq m a b v : prefix (<[(a, b) := v]> m) a = <[b := v]> (prefix m a).
Proof. apply map_eq; intros c. rewrite lookup_prefix, !lookup_insert, lookup_prefix. by repeat case_decide; simplify_eq. Qed.

Lemma prefix_insert_ne m a a' b v : a' ≠ a → prefix (<[(a', b) := v]> m) a = prefix m a.
Proof. intros Ha. apply map_eq; intros c. rewrite !lookup_prefix, lookup_insert_ne; [done|congruence]. Qed.

Lemma map_sum_prefix (g : K2 → V → N) m a :
  map_sum (λ k v, if decide (k.1 = a) then g k.2 v else 0) m = map_sum g (prefix m a).
Proof.
  induction m as [|[a' b] v m Hk IH] using map_ind.
  { rewrite (proj2 (prefix_empty_iff ∅ a)); [by rewrite !map_sum_empty|]. intros b. apply lookup_empty. }
  rewrite map_sum_insert_new by done. simpl. rewrite IH. case_decide as Ha.
  - subst a'. rewrite prefix_insert_eq, map_sum_insert_new; [done|]. by rewrite lookup_prefix.
  - by rewrite prefix_insert_ne.
Qed.

(** The keys whose second component is [b] weigh no more than all first ones. *)
Lemma map_sum_second m (b : K2) (w : gmap K1 N) :
  map_sum (λ k _, if decide (k.2 = b) then default 0 (w !! k.1) else 0) m ≤ map_sum (λ _ n, n) w.
Proof.
  revert w. induction m as [|[a b'] v m Hk IH] using map_ind; intros w; [rewrite map_sum_empty; lia|].
  rewrite map_sum_insert_new by done. simpl. case_decide as Hb; [subst b'|by apply IH].
  rewrite (map_sum_split (λ _ n, n) w a). specialize (IH (delete a w)). unfold contrib.
  enough (map_sum (λ k _, if decide (k.2 = b) then default 0 (w !! k.1) else 0) m ≤
    map_sum (λ k _, if decide (k.2 = b) then default 0 (delete a w !! k.1) else 0) m)
    by (destruct (w !! a); simpl; lia).
  apply map_sum_le. intros k. unfold contrib. destruct (m !! k) as [x|] eqn:Hm; simpl; [|lia].
  case_decide as Hk2; [|lia]. rewrite lookup_delete_ne; [lia|]. intros ->. destruct k; simpl in *; congruence.
Qed.

(** Removing the listed entries under [a] removes what they contribute. *)
Lemma map_sum_remove (f : K1 * K2 → V → N) m a (l : list (K2 * V)) :
  NoDup l.*1 → (∀ e, e ∈ l → m !! (a, e.1) = Some e.2) →
  map_sum f m = sum_N ((λ e, f (a, e.1) e.2) <$> l) +
                map_sum f (foldl (λ m b, delete (a, b) m) m l.*1).
Proof.
  revert m. induction l as [|[b v] l IH]; intros m; csimpl; intros Hnd Hl; [done|].
  apply NoDup_cons in Hnd as [Hb Hnd]. rewrite (map_sum_delete f m (a, b) v).
  2: { apply (Hl (b, v)). by left. }
  rewrite (IH (delete (a, b) m)); [lia|done|]. intros e He. rewrite lookup_delete_ne.
  - apply Hl. by right.
  - intros [= ->]. apply Hb, list_elem_of_fmap. eauto.
Qed.
(** Deleting the listed keys under [a]. *)
Lemma lookup_remove_keys m a (l : list K2) k :
  foldl (λ m b, delete (a, b) m) m l !! k = if decide (k.1 = a ∧ k.2 ∈ l) then None else m !! k.
Proof.
  revert m. induction l as [|b l IH]; intros m; simpl.
  { rewrite decide_False; [done|]. by intros [_ ?%not_elem_of_nil]. }
  rewrite IH, lookup_delete. clear IH. destruct k as [a' b']; simpl.
  destruct (decide ((a, b) = (a', b'))) as [[= <- <-]|Hne].
  { rewrite (decide_True (P:=_ ∧ b ∈ b :: _)) by (split; [done|by left]).
    by case_decide. }
  case_decide as C1; case_decide as C2; try done; exfalso.
  - apply C2. destruct C1. rewrite elem_of_cons. auto.
  - apply C1. destruct C2 as [-> [->|?]%elem_of_cons]; [done|auto].
Qed.
End prefix.

(** * Hint databases

    [prism_maps] computes sums and prefixes of maps; [prism_lists] shows that
    the parts of a list a handler looks at are parts of the list. *)
Create HintDb prism_maps.
#[export] Hint Rewrite @map_sum_empty @lookup_prefix : prism_maps.
Create HintDb prism_lists.
#[export] Hint Resolve sublist_take sublist_nil_l sublist_skip list.sublist_cons : prism_lists.

Lemma matured_sublist {V} t (l : list (N * V)) : matured t l `sublist_of` l.
Proof. induction l as [|e l IH]; simpl; [done|]. destruct (t <? e.1); eauto with prism_lists. Qed.
#[export] Hint Resolve matured_sublist : prism_lists.
