(* ===== verification/Cosmwasm.v ===== *)
(** * The CosmWasm platform the contracts run on

    The contracts are clients of third-party crates: [cosmwasm_std] ([Uint128],
    [Decimal], [Timestamp], the [Api]), [cw_storage_plus] (key-ordered
    iteration), [cw0] ([must_pay]), [integer-sqrt] and [rand].  Their code is not part of the
    repository, so the class [Cosmwasm] declares the operations the contracts
    call as parameters, and the class [CosmwasmLaws] states the documented
    behaviour the proofs rely on.  [Reference.platform] is a concrete platform
    that satisfies the laws; the witnesses evaluate the contracts on it.

    Data of these crates is represented as follows: a [Uint128] is the number
    it wraps; a [Decimal] is its number of atomics (18 fractional digits, so
    that one is [10^18]); a [Timestamp] is its number of nanoseconds; an [Addr]
    is the string it wraps. *)
From S2P Require Import Prelude.

Abbreviation Uint128 := N (only parsing).
Abbreviation Decimal := N (only parsing).
Abbreviation Timestamp := N (only parsing).
Abbreviation Addr := string (only parsing).

(** The variants of [cosmwasm_std::StdError] the contracts raise or propagate.
    A message built with [format!] is kept as its format string. *)
Inductive StdError : Type :=
  | GenericErr (msg : string)
  | NotFound (kind : string)
  | ParseErr
  | InvalidUtf8
  | Overflow.

#[global] Instance StdError_eq_dec : EqDecision StdError.
Proof. solve_decision. Defined.

Record Coin : Type := mkCoin { coin_denom : string; coin_amount : Uint128 }.
#[global] Instance Coin_eq_dec : EqDecision Coin.
Proof. solve_decision. Defined.

(** [cosmwasm_std::MessageInfo] and the part of [Env] the contracts read. *)
Record MessageInfo : Type := mkInfo { info_sender : Addr; info_funds : list Coin }.
Record Env : Type := mkEnv { block_height : N; block_time : Timestamp; contract_address : Addr }.

Class Cosmwasm : Type := {
  (** [Uint128]: [None] is the panic of an operator, or the [Err] of [checked_sub]. *)
  uint_add : Uint128 → Uint128 → option Uint128;
  uint_sub : Uint128 → Uint128 → option Uint128;
  uint_mul : Uint128 → Uint128 → option Uint128;
  uint_checked_sub : Uint128 → Uint128 → option Uint128;
  uint_multiply_ratio : Uint128 → N → N → option Uint128;
  (** [Decimal]. [uint_mul_dec] is the product of a [Uint128] and a [Decimal], in either order. *)
  dec_one : Decimal;
  dec_from_ratio : N → N → option Decimal;
  dec_from_str : string → option Decimal;
  uint_mul_dec : Uint128 → Decimal → option Uint128;
  dec_add : Decimal → Decimal → option Decimal;
  dec_sub : Decimal → Decimal → option Decimal;
  (** [Timestamp]. *)
  ts_seconds : Timestamp → N;
  ts_plus_seconds : Timestamp → N → option Timestamp;
  ts_minus_seconds : Timestamp → N → option Timestamp;
  (** [Map::range(.., Order::Ascending)] for [u64] keys and for address keys. *)
  range_u64 : ∀ {V : Type}, gmap N V → list (N * V);
  range_addr : ∀ {V : Type}, gmap string V → list (string * V);
  (** [deps.api]. *)
  addr_validate : string → outcome StdError Addr;
  addr_canonicalize : string → outcome StdError string;
  addr_humanize : string → outcome StdError Addr;
  (** [cw0::must_pay], its error converted to [StdError::generic_err]. *)
  must_pay : MessageInfo → string → outcome StdError Uint128;
  (** [XorShiftRng::seed_from_u64(seed).gen_range(0, len)] for [0 < len]. *)
  gen_range : N → N → N;
  (** [IntegerSquareRoot::integer_sqrt] of the crate integer-sqrt, on [u128]. *)
  integer_sqrt : N → N;
}.

(** [10^18], the number of atomics of the decimal one. *)
Definition DECIMAL_UNIT : N := 10 ^ 18.

Class CosmwasmLaws (P : Cosmwasm) : Prop := {
  (** Operators panic when the result does not fit in 128 bits. *)
  uint_add_law a b : uint_add a b = checked_width u128_limit (a + b);
  uint_mul_law a b : uint_mul a b = checked_width u128_limit (a * b);
  uint_sub_law a b : uint_sub a b = if b <=? a then Some (a - b) else None;
  uint_checked_sub_law a b : uint_checked_sub a b = if b <=? a then Some (a - b) else None;
  (** Ratios round down and panic on a zero denominator. *)
  uint_multiply_ratio_law a n d :
    uint_multiply_ratio a n d = if d =? 0 then None else checked_width u128_limit (a * n / d);
  dec_one_law : dec_one = DECIMAL_UNIT;
  dec_from_ratio_law n d :
    dec_from_ratio n d = if d =? 0 then None else checked_width u128_limit (n * DECIMAL_UNIT / d);
  uint_mul_dec_law a r : uint_mul_dec a r = checked_width u128_limit (a * r / DECIMAL_UNIT);
  dec_add_law a b : dec_add a b = checked_width u128_limit (a + b);
  dec_sub_law a b : dec_sub a b = if b <=? a then Some (a - b) else None;
  dec_from_str_1_0 : dec_from_str "1.0" = Some DECIMAL_UNIT;
  dec_from_str_0_5 : dec_from_str "0.5" = Some (DECIMAL_UNIT / 2);
  (** A timestamp counts nanoseconds in a [u64]. *)
  ts_seconds_law t : ts_seconds t = t / 10 ^ 9;
  ts_plus_seconds_law t s : ts_plus_seconds t s = checked_width u64_limit (t + s * 10 ^ 9);
  ts_minus_seconds_law t s :
    ts_minus_seconds t s = if s * 10 ^ 9 <=? t then Some (t - s * 10 ^ 9) else None;
  (** Iteration lists every entry once, in ascending key order. *)
  range_u64_perm {V} (m : gmap N V) : range_u64 m ≡ₚ map_to_list m;
  range_u64_sorted {V} (m : gmap N V) : StronglySorted N.le (range_u64 m).*1;
  range_addr_perm {V} (m : gmap string V) : range_addr m ≡ₚ map_to_list m;
  range_addr_sorted {V} (m : gmap string V) : StronglySorted String.le (range_addr m).*1;
  (** A validated address is the string it was given. *)
  addr_validate_law s a : addr_validate s = Ok a → a = s;
  (** Exactly one coin was sent, of the given denomination and not zero. *)
  must_pay_law info d a : must_pay info d = Ok a → info_funds info = [mkCoin d a] ∧ 0 < a;
  (** The upper end of the range is excluded. *)
  gen_range_law seed len : 0 < len → gen_range seed len < len;
  (** The largest integer whose square is at most the argument. *)
  integer_sqrt_law n : integer_sqrt n = N.sqrt n;
}.

(** [checked_sub(..)?]: the [OverflowError] becomes a [StdError]. *)
Definition checked_sub `{Cosmwasm} (a b : Uint128) : outcome StdError Uint128 :=
  ok_or (uint_checked_sub a b) Overflow.

(** [Item::load] and [Map::load]. *)
Definition load {V} (kind : string) (o : option V) : outcome StdError V := ok_or o (NotFound kind).

Lemma load_Ok {V} kind (o : option V) v : load kind o = Ok v ↔ o = Some v.
Proof. apply ok_or_Ok. Qed.

(** ** What the laws say of a result *)
Section laws.
Context {P : Cosmwasm} {L : CosmwasmLaws P}.

Lemma uint_add_Some a b c : uint_add a b = Some c ↔ c = a + b ∧ a + b < u128_limit.
Proof. rewrite uint_add_law. apply checked_width_Some. Qed.
Lemma uint_mul_Some a b c : uint_mul a b = Some c ↔ c = a * b ∧ a * b < u128_limit.
Proof. rewrite uint_mul_law. apply checked_width_Some. Qed.
Lemma dec_add_Some a b c : dec_add a b = Some c ↔ c = a + b ∧ a + b < u128_limit.
Proof. rewrite dec_add_law. apply checked_width_Some. Qed.
Lemma uint_mul_dec_Some a r c :
  uint_mul_dec a r = Some c ↔ c = a * r / DECIMAL_UNIT ∧ a * r / DECIMAL_UNIT < u128_limit.
Proof. rewrite uint_mul_dec_law. apply checked_width_Some. Qed.
Lemma uint_sub_Some a b c : uint_sub a b = Some c ↔ b ≤ a ∧ c = a - b.
Proof. rewrite uint_sub_law. apply u64_sub_Some. Qed.
Lemma dec_sub_Some a b c : dec_sub a b = Some c ↔ b ≤ a ∧ c = a - b.
Proof. rewrite dec_sub_law. apply u64_sub_Some. Qed.
Lemma uint_checked_sub_Some a b c : uint_checked_sub a b = Some c ↔ b ≤ a ∧ c = a - b.
Proof. rewrite uint_checked_sub_law. apply u64_sub_Some. Qed.
Lemma checked_sub_Ok a b c : checked_sub a b = Ok c ↔ b ≤ a ∧ c = a - b.
Proof. unfold checked_sub. rewrite ok_or_Ok. apply uint_checked_sub_Some. Qed.
Lemma dec_from_ratio_Some n d c :
  dec_from_ratio n d = Some c ↔
  d ≠ 0 ∧ c = n * DECIMAL_UNIT / d ∧ n * DECIMAL_UNIT / d < u128_limit.
Proof.
  rewrite dec_from_ratio_law. destruct (N.eqb_spec d 0); [naive_solver|].
  rewrite checked_width_Some. naive_solver.
Qed.
Lemma uint_multiply_ratio_Some a n d c :
  uint_multiply_ratio a n d = Some c ↔ d ≠ 0 ∧ c = a * n / d ∧ a * n / d < u128_limit.
Proof.
  rewrite uint_multiply_ratio_law. destruct (N.eqb_spec d 0); [naive_solver|].
  rewrite checked_width_Some. naive_solver.
Qed.

Lemma elem_of_range_u64 {V} (m : gmap N V) k v : (k, v) ∈ range_u64 m ↔ m !! k = Some v.
Proof. rewrite range_u64_perm. apply elem_of_map_to_list. Qed.
Lemma elem_of_range_addr {V} (m : gmap string V) k v : (k, v) ∈ range_addr m ↔ m !! k = Some v.
Proof. rewrite range_addr_perm. apply elem_of_map_to_list. Qed.
Lemma NoDup_range_u64 {V} (m : gmap N V) : NoDup (range_u64 m).*1.
Proof. rewrite range_u64_perm. apply NoDup_fst_map_to_list. Qed.
Lemma NoDup_range_addr {V} (m : gmap string V) : NoDup (range_addr m).*1.
Proof. rewrite range_addr_perm. apply NoDup_fst_map_to_list. Qed.

(** The first [n] entries of a queue keyed by time, up to the first that has
    not matured. *)
Definition first_matured {V} (n : nat) (t : N) (m : gmap N V) : list (N * V) := matured t (take n (range_u64 m)).
Lemma first_matured_sublist {V} n t (m : gmap N V) : first_matured n t m `sublist_of` range_u64 m.
Proof. etrans; [apply matured_sublist|auto with prism_lists]. Qed.
Lemma first_matured_NoDup {V} n t (m : gmap N V) : NoDup (first_matured n t m).*1.
Proof. eapply sublist_NoDup; [apply (NoDup_range_u64 m)|]. apply fmap_sublist, first_matured_sublist. Qed.
Lemma elem_of_first_matured {V} n t (m : gmap N V) e : e ∈ first_matured n t m → m !! e.1 = Some e.2.
Proof.
  intros He. apply elem_of_range_u64. destruct e as [k o].
  eapply elem_of_submseteq; [exact He|]. apply sublist_submseteq, first_matured_sublist.
Qed.
Lemma first_matured_filter {V} n t (m : gmap N V) :
  first_matured n t m = List.filter (λ e, e.1 <=? t) (take n (range_u64 m)).
Proof. apply matured_filter. rewrite fmap_take. apply sorted_take, range_u64_sorted. Qed.

(** What a queue under [a] holds splits into what has matured and the rest. *)
Lemma first_matured_split {K V} `{Countable K} (f : K * N → V → N) (m : gmap (K * N) V) a n t :
  let due := first_matured n t (prefix m a) in
  map_sum f m = sum_N ((λ e, f (a, e.1) e.2) <$> due) + map_sum f (foldl (λ m b, delete (a, b) m) m due.*1).
Proof.
  intros due. apply map_sum_remove; [apply first_matured_NoDup|].
  intros e He. rewrite <-lookup_prefix. by eapply elem_of_first_matured.
Qed.
Lemma map_sum_range_u64 {V} (f : N → V → N) (m : gmap N V) :
  map_sum f m = sum_N ((λ kv, f kv.1 kv.2) <$> range_u64 m).
Proof. unfold map_sum. by rewrite range_u64_perm. Qed.
Lemma length_range_u64 {V} (m : gmap N V) : length (range_u64 m) = size m.
Proof. rewrite range_u64_perm. apply length_map_to_list. Qed.
Lemma length_range_addr {V} (m : gmap string V) : length (range_addr m) = size m.
Proof. rewrite range_addr_perm. apply length_map_to_list. Qed.
End laws.

(** Turns the results of platform operations into arithmetic facts. *)
Ltac platform_facts :=
  repeat match goal with
  | H : uint_add _ _ = Some _ |- _ => apply uint_add_Some in H as [-> ?]
  | H : uint_mul _ _ = Some _ |- _ => apply uint_mul_Some in H as [-> ?]
  | H : dec_add _ _ = Some _ |- _ => apply dec_add_Some in H as [-> ?]
  | H : uint_mul_dec _ _ = Some _ |- _ => apply uint_mul_dec_Some in H as [-> ?]
  | H : uint_sub _ _ = Some _ |- _ => apply uint_sub_Some in H as [? ->]
  | H : dec_sub _ _ = Some _ |- _ => apply dec_sub_Some in H as [? ->]
  | H : checked_sub _ _ = Ok _ |- _ => apply checked_sub_Ok in H as [? ->]
  | H : uint_checked_sub _ _ = Some _ |- _ => apply uint_checked_sub_Some in H as [? ->]
  | H : dec_from_ratio _ _ = Some _ |- _ => apply dec_from_ratio_Some in H as (? & -> & ?)
  | H : uint_multiply_ratio _ _ _ = Some _ |- _ => apply uint_multiply_ratio_Some in H as (? & -> & ?)
  | H : u64_add _ _ = Some _ |- _ => apply u64_add_Some in H as [-> ?]
  | H : u64_mul _ _ = Some _ |- _ => apply u64_mul_Some in H as [-> ?]
  | H : u64_sub _ _ = Some _ |- _ => apply u64_sub_Some in H as [? ->]
  | H : u128_add _ _ = Some _ |- _ => apply u128_add_Some in H as [-> ?]
  | H : u128_mul _ _ = Some _ |- _ => apply u128_mul_Some in H as [-> ?]
  | H : load _ _ = Ok _ |- _ => apply load_Ok in H
  | _ => progress ok_facts
  end.

(** Decomposes [H : body = Ok r] completely: intermediate results, pairs, and
    the facts about platform operations. *)
Ltac inv_body H :=
  inv_ok H; subst;
  repeat match goal with x : (_ * _)%type |- _ => destruct x end;
  simplify_eq/=; platform_facts; simplify_eq/=.

(** ** Reward indexes

    What the growth of an index gives a stake, with the rounding of the
    contracts: less than one unit too much. *)
Definition growth (stake now_index then_index : N) : N :=
  stake * now_index / DECIMAL_UNIT - stake * then_index / DECIMAL_UNIT.

Lemma growth_bound stake y x : x ≤ y → DECIMAL_UNIT * growth stake y x ≤ stake * (y - x) + DECIMAL_UNIT.
Proof.
  intros Hxy. unfold growth.
  pose proof (N.Div0.mul_div_le (stake * y) DECIMAL_UNIT).
  pose proof (N.mul_succ_div_gt (stake * x) DECIMAL_UNIT ltac:(done)).
  assert (stake * x ≤ stake * y) by (by apply N.mul_le_mono_l).
  rewrite N.mul_sub_distr_l. rewrite N.mul_sub_distr_l. lia_div.
Qed.

Lemma growth_refl stake x : growth stake x x = 0.
Proof. unfold growth. lia. Qed.

(** * A concrete platform *)
Module Reference.
Definition key_le_u64 {V} (x y : N * V) : Prop := x.1 ≤ y.1.
Definition key_le_addr {V} (x y : string * V) : Prop := String.le x.1 y.1.
#[global] Instance key_le_u64_dec {V} : RelDecision (@key_le_u64 V).
Proof. intros x y. apply N.le_dec. Defined.
#[global] Instance key_le_addr_dec {V} : RelDecision (@key_le_addr V).
Proof. intros x y. apply (decide_rel String.le). Defined.

Definition pay (info : MessageInfo) (d : string) : outcome StdError Uint128 :=
  match info_funds info with
  | [c] =>
      if bool_decide (coin_denom c = d) then
        if coin_amount c =? 0 then Err (GenericErr "No funds sent") else Ok (coin_amount c)
      else Err (GenericErr "Sent unsupported denom")
  | _ => Err (GenericErr "Sent no or more than one denomination")
  end.

#[global] Instance platform : Cosmwasm := {
  uint_add a b := checked_width u128_limit (a + b);
  uint_mul a b := checked_width u128_limit (a * b);
  uint_sub a b := if b <=? a then Some (a - b) else None;
  uint_checked_sub a b := if b <=? a then Some (a - b) else None;
  uint_multiply_ratio a n d := if d =? 0 then None else checked_width u128_limit (a * n / d);
  dec_one := DECIMAL_UNIT;
  dec_from_ratio n d :=
    if d =? 0 then None else checked_width u128_limit (n * DECIMAL_UNIT / d);
  dec_from_str s :=
    if bool_decide (s = "1.0"%string) then Some DECIMAL_UNIT
    else if bool_decide (s = "0.5"%string) then Some (DECIMAL_UNIT / 2) else None;
  uint_mul_dec a r := checked_width u128_limit (a * r / DECIMAL_UNIT);
  dec_add a b := checked_width u128_limit (a + b);
  dec_sub a b := if b <=? a then Some (a - b) else None;
  ts_seconds t := t / 10 ^ 9;
  ts_plus_seconds t s := checked_width u64_limit (t + s * 10 ^ 9);
  ts_minus_seconds t s := if s * 10 ^ 9 <=? t then Some (t - s * 10 ^ 9) else None;
  range_u64 V m := merge_sort key_le_u64 (map_to_list m);
  range_addr V m := merge_sort key_le_addr (map_to_list m);
  addr_validate s := if bool_decide (s = ""%string) then Err (GenericErr "Invalid input") else Ok s;
  addr_canonicalize s := Ok s;
  addr_humanize s := Ok s;
  must_pay := pay;
  gen_range seed len := seed mod len;
  integer_sqrt n := N.sqrt n;
}.

#[global] Instance key_le_u64_total V : Total (@key_le_u64 V).
Proof. intros x y. unfold key_le_u64. lia. Qed.
#[global] Instance key_le_addr_total V : Total (@key_le_addr V).
Proof. intros x y. unfold key_le_addr. apply (total String.le). Qed.
#[global] Instance key_le_u64_trans V : Transitive (@key_le_u64 V).
Proof. intros x y z. unfold key_le_u64. lia. Qed.
#[global] Instance key_le_addr_trans V : Transitive (@key_le_addr V).
Proof. intros x y z. unfold key_le_addr. apply (transitivity (R:=String.le)). Qed.

Lemma sorted_keys {K V} (R : relation K) (l : list (K * V)) :
  StronglySorted (λ x y : K * V, R x.1 y.1) l → StronglySorted R l.*1.
Proof.
  induction 1 as [|x l _ IH Hx]; simpl; constructor; [done|].
  by apply Forall_fmap.
Qed.

#[global] Instance platform_laws : CosmwasmLaws platform.
Proof.
  split; try done.
  - intros V m. simpl. apply merge_sort_Permutation.
  - intros V m. simpl. apply sorted_keys. apply (StronglySorted_merge_sort key_le_u64).
  - intros V m. simpl. apply merge_sort_Permutation.
  - intros V m. simpl. apply sorted_keys. apply (StronglySorted_merge_sort key_le_addr).
  - intros s a. simpl. case_bool_decide; [discriminate|]. by intros [= ->].
  - intros [s [|c [|c' cs]]] d a; simpl; try discriminate. unfold pay; simpl.
    case_bool_decide as Hd; [|discriminate].
    destruct (N.eqb_spec (coin_amount c) 0); [discriminate|]. intros [= <-].
    split; [by destruct c; simpl in *; subst|lia].
  - intros seed len Hlen. simpl. apply N.mod_lt. lia.
Qed.
End Reference.
