(* ===== verification/Protocol.v ===== *)
(** * Messages and responses (packages/prism_protocol, and the message types of
    [cosmwasm_std] and [cw20] the contracts build)

    One module per file of packages/prism_protocol/src holds the messages of
    that contract, with the constructors of the source.  A [Binary] that the
    contracts produce with [to_binary] is represented by the message it
    serialises; [RawBinary] is a byte string received from outside.  Parsing
    ([from_binary]) is JSON deserialisation, code of a third-party crate, and
    is an argument of the handlers that use it. *)
From stdpp Require Import pretty.
From S2P Require Import Prelude Cosmwasm.

(** [cw20::Cw20ReceiveMsg]; [B] is the type of [Binary]. *)
Record Cw20ReceiveMsg (B : Type) : Type := mkCw20Receive {
  cw20_sender : string; cw20_amount : Uint128; cw20_msg : B }.
Arguments mkCw20Receive {B}.
Arguments cw20_sender {B}.
Arguments cw20_amount {B}.
Arguments cw20_msg {B}.

(** [cw_asset::AssetInfo] and [cw_asset::Asset]. *)
Inductive AssetInfo : Type :=
  | Cw20Asset (contract_addr : Addr)
  | NativeAsset (denom : string).
#[global] Instance AssetInfo_eq_dec : EqDecision AssetInfo.
Proof. solve_decision. Defined.
Record Asset : Type := mkAsset { asset_info : AssetInfo; asset_amount : Uint128 }.
#[global] Instance Asset_eq_dec : EqDecision Asset.
Proof. solve_decision. Defined.

(** The part of [cw20::Cw20ExecuteMsg] the contracts send. *)
Module Cw20.
Inductive ExecuteMsg (B : Type) : Type :=
  | Transfer (recipient : string) (amount : Uint128)
  | TransferFrom (owner recipient : string) (amount : Uint128)
  | Mint (recipient : string) (amount : Uint128)
  | Burn (amount : Uint128)
  | BurnFrom (owner : string) (amount : Uint128)
  | Send (contract : string) (amount : Uint128) (msg : B)
  | IncreaseAllowance (spender : string) (amount : Uint128).
Arguments Transfer {B}.
Arguments TransferFrom {B}.
Arguments Mint {B}.
Arguments Burn {B}.
Arguments BurnFrom {B}.
Arguments Send {B}.
Arguments IncreaseAllowance {B}.
End Cw20.

(** packages/prism_protocol/src/vault.rs *)
Module VaultMsg.
Record InstantiateMsg : Type := mkInstantiateMsg {
  epoch_period : N;
  underlying_coin_denom : string;
  unbonding_period : N;
  peg_recovery_fee : Decimal;
  er_threshold : Decimal;
  validator : string;
  token_admin : string;
  token_code_id : N;
  manager : string }.

Inductive ExecuteMsg (B : Type) : Type :=
  | UpdateConfig (owner yluna_staking airdrop_registry_contract manager : option string)
  | RegisterValidator (validator : string)
  | DeregisterValidator (validator redel_validator : string)
  | UpdateParams (epoch_period unbonding_period : option N)
      (peg_recovery_fee er_threshold : option Decimal)
  | Redelegate (source_val target_val : string) (amount : Uint128)
  | Bond (validator : option string)
  | BondSplit (validator : option string)
  | UpdateGlobalIndex (airdrop_hooks : option (list B))
  | WithdrawUnbonded
  | CheckSlashing
  | Receive (msg : Cw20ReceiveMsg B)
  | Split (amount : Uint128)
  | Merge (amount : Uint128)
  | DepositAirdropReward (airdrop_token_contract : string)
  | ClaimAirdrop (airdrop_token_contract airdrop_contract : string) (claim_msg : B).
Arguments UpdateConfig {B}.
Arguments RegisterValidator {B}.
Arguments DeregisterValidator {B}.
Arguments UpdateParams {B}.
Arguments Redelegate {B}.
Arguments Bond {B}.
Arguments BondSplit {B}.
Arguments UpdateGlobalIndex {B}.
Arguments WithdrawUnbonded {B}.
Arguments CheckSlashing {B}.
Arguments Receive {B}.
Arguments Split {B}.
Arguments Merge {B}.
Arguments DepositAirdropReward {B}.
Arguments ClaimAirdrop {B}.

Inductive QueryMsg : Type :=
  | QConfig
  | QState
  | QWhitelistedValidators
  | QCurrentBatch
  | QWithdrawableUnbonded (address : string)
  | QParameters
  | QUnbondRequests (address : string) (start_from : option N) (limit : option N)
  | QAllHistory (start_from : option N) (limit : option N).

Inductive Cw20HookMsg : Type := Unbond.

Record ConfigResponse : Type := mkConfigResponse {
  cr_owner : string;
  cr_yluna_staking : string;
  cr_cluna_contract : string;
  cr_pluna_contract : string;
  cr_yluna_contract : string;
  cr_airdrop_registry_contract : string;
  cr_initialized : bool;
  cr_manager : string }.
Record StateResponse : Type := mkStateResponse {
  sr_exchange_rate : Decimal;
  sr_total_bond_amount : Uint128;
  sr_last_index_modification : N;
  sr_prev_vault_balance : Uint128;
  sr_actual_unbonded_amount : Uint128;
  sr_last_unbonded_time : N;
  sr_last_processed_batch : N }.
Record CurrentBatchResponse : Type := mkCurrentBatchResponse {
  cb_id : N; cb_requested_with_fee : Uint128 }.
Record UnbondRequestsResponse : Type := mkUnbondRequestsResponse {
  ur_address : string; ur_requests : list (N * Uint128) }.
Record UnbondHistoryResponse : Type := mkUnbondHistoryResponse {
  uh_batch_id : N;
  uh_time : N;
  uh_amount : Uint128;
  uh_applied_exchange_rate : Decimal;
  uh_withdraw_rate : Decimal;
  uh_released : bool }.
End VaultMsg.

(** packages/prism_protocol/src/lp_staking.rs *)
Module LpStakingMsg.
Record InstantiateMsg : Type := mkInstantiateMsg {
  owner : string;
  prism_token : string;
  (** start time, end time, reward amount *)
  distribution_schedule : list (N * N * Uint128);
  (** staking token, weight, unbond period *)
  staking_tokens : list (string * N * N) }.

Inductive ExecuteMsg (B : Type) : Type :=
  | Receive (msg : Cw20ReceiveMsg B)
  | UpdateOwner (owner : string)
  | AddDistributionSchedule (schedule : list (N * N * Uint128))
  | RegisterStakingToken (staking_token : string) (unbond_period weight : N)
  | UpdateStakingToken (staking_token : string) (unbond_period weight : option N)
  | Unbond (staking_token : string) (amount : option Uint128)
  | ClaimUnbonded (staking_token : string)
  | ClaimRewards (staking_token : option string)
  | AutoStakeHook (staking_token : string).
Arguments Receive {B}.
Arguments UpdateOwner {B}.
Arguments AddDistributionSchedule {B}.
Arguments RegisterStakingToken {B}.
Arguments UpdateStakingToken {B}.
Arguments Unbond {B}.
Arguments ClaimUnbonded {B}.
Arguments ClaimRewards {B}.
Arguments AutoStakeHook {B}.

Inductive Cw20HookMsg : Type := Bond.

Inductive QueryMsg : Type :=
  | QConfig
  | QPoolInfo (staking_token : string)
  | QStakerInfo (staker : string) (staking_token : option string)
  | QTokenStakersInfo (staking_token : string) (start_after : option string) (limit : option N)
  | QUnbondOrders (staking_token staker : string) (start_after : option N) (limit : option N).

Record RewardInfoResponseItem : Type := mkRewardInfoItem {
  ri_staking_token : string;
  ri_bond_amount : Uint128;
  ri_pending_reward : Uint128;
  ri_withdrawable_amount : Uint128 }.
Record StakerInfoResponse : Type := mkStakerInfo {
  si_staker : string; si_reward_infos : list RewardInfoResponseItem }.
Record PoolInfoResponse : Type := mkPoolInfoResponse {
  pr_weight : N;
  pr_last_distributed : N;
  pr_staking_token : string;
  pr_total_bond_amount : Uint128;
  pr_total_pending_withdraw : Uint128;
  pr_reward_index : Decimal;
  pr_pending_reward : Uint128;
  pr_unbond_period : N }.
Record ConfigResponse : Type := mkConfigResponse {
  cr_owner : string;
  cr_prism_token : string;
  cr_distribution_schedule : list (N * N * Uint128);
  cr_total_weight : N }.
Record UnbondOrdersResponse : Type := mkUnbondOrdersResponse {
  uo_withdrawable_amount : Uint128; uo_orders : list (N * Uint128) }.
End LpStakingMsg.

(** packages/prism_protocol/src/xprism_boost.rs *)
Module XprismBoostMsg.
Record InstantiateMsg : Type := mkInstantiateMsg {
  owner : string;
  xprism_token : string;
  boost_per_hour : Decimal;
  max_boost_per_xprism : Uint128;
  launch_pool_contract : option string }.

Inductive ExecuteMsg (B : Type) : Type :=
  | Receive (msg : Cw20ReceiveMsg B)
  | UpdateConfig (owner : option string) (boost_per_hour : option Decimal)
      (max_boost_per_xprism : option Uint128) (launch_pool_contract : option string)
  | Unbond (amount : option Uint128).
Arguments Receive {B}.
Arguments UpdateConfig {B}.
Arguments Unbond {B}.

Inductive Cw20HookMsg : Type := Bond (user : option string).

Inductive QueryMsg : Type :=
  | QConfig
  | QGetBoost (user : Addr).

Record Config : Type := mkConfig {
  cfg_owner : Addr;
  cfg_xprism_token : Addr;
  cfg_boost_per_hour : Decimal;
  cfg_max_boost_per_xprism : Uint128;
  cfg_launch_pool_contract : option Addr }.

Record UserInfo : Type := mkUserInfo {
  amt_bonded : Uint128;
  total_boost : Uint128;
  last_updated : N;
  boost_accrual_start_time : N }.

(** [#[derive(Default)]] *)
Definition UserInfo_default : UserInfo := mkUserInfo 0 0 0 0.
End XprismBoostMsg.

(** packages/prism_protocol/src/yasset_staking.rs *)
Module YassetStakingMsg.
Definition MAX_PROTOCOL_FEE : string := "0.5".

Record InstantiateMsg : Type := mkInstantiateMsg {
  im_owner : string;
  im_vault : string;
  im_gov : string;
  im_collector : string;
  im_protocol_fee : Decimal;
  im_cluna_token : string;
  im_yluna_token : string;
  im_pluna_token : string;
  im_prism_token : string;
  im_xprism_token : string }.

Inductive ExecuteMsg (B : Type) : Type :=
  | Receive (msg : Cw20ReceiveMsg B)
  | Unbond (amount : option Uint128)
  | ClaimRewards
  | ConvertAndClaimRewards (claim_asset : AssetInfo)
  | MintXprismClaimHook (receiver : Addr) (prev_balance : Uint128)
  | ProcessDelegatorRewards
  | LunaToPylunaHook
  | DepositMintedPylunaHook (prev_pluna_balance prev_yluna_balance : Uint128)
  | DepositRewards (assets : list Asset)
  | UpdateConfig (owner collector : option string) (protocol_fee : option Decimal)
  | WhitelistRewardAsset (asset : AssetInfo)
  | RemoveRewardAsset (asset : AssetInfo).
Arguments Receive {B}.
Arguments Unbond {B}.
Arguments ClaimRewards {B}.
Arguments ConvertAndClaimRewards {B}.
Arguments MintXprismClaimHook {B}.
Arguments ProcessDelegatorRewards {B}.
Arguments LunaToPylunaHook {B}.
Arguments DepositMintedPylunaHook {B}.
Arguments DepositRewards {B}.
Arguments UpdateConfig {B}.
Arguments WhitelistRewardAsset {B}.
Arguments RemoveRewardAsset {B}.

Inductive Cw20HookMsg : Type := Bond.

Inductive QueryMsg : Type :=
  | QConfig
  | QPoolInfo (asset_token : string)
  | QRewardInfo (staker_addr : string)
  | QRewardAssetWhitelist
  | QBondAmount.

Record ConfigResponse : Type := mkConfigResponse {
  cr_owner : string;
  cr_vault : string;
  cr_gov : string;
  cr_collector : string;
  cr_protocol_fee : Decimal;
  cr_cluna_token : string;
  cr_yluna_token : string;
  cr_pluna_token : string;
  cr_prism_token : string;
  cr_xprism_token : string }.
Record PoolInfoResponse : Type := mkPoolInfoResponse {
  pr_asset_token : string; pr_reward_index : Decimal }.
Record RewardInfoResponse : Type := mkRewardInfoResponse {
  rr_staker_addr : string; rr_staked_amount : Uint128; rr_rewards : list Asset }.
Record RewardAssetWhitelistResponse : Type := mkRewardAssetWhitelistResponse {
  wl_assets : list AssetInfo }.
End YassetStakingMsg.

(** packages/prism_protocol/src/launch_pool.rs *)
Module LaunchPoolMsg.
Record InstantiateMsg : Type := mkInstantiateMsg {
  im_owner : string;
  im_operator : string;
  im_prism_token : string;
  im_xprism_token : string;
  im_yluna_staking : string;
  im_yluna_token : string;
  im_gov : string;
  im_vesting_period : N;
  im_boost_contract : string;
  (** start, end, amount to distribute linearly *)
  im_distribution_schedule : N * N * Uint128;
  im_base_pool_ratio : Decimal;
  im_min_bond_amount : Uint128 }.

Inductive ClaimType : Type := Prism | Xprism | Amps.
(** [impl Display for ClaimType], the derived [Debug]. *)
Definition ClaimType_fmt (c : ClaimType) : string :=
  match c with Prism => "Prism" | Xprism => "Xprism" | Amps => "Amps" end.

Inductive ExecuteMsg (B : Type) : Type :=
  | Receive (msg : Cw20ReceiveMsg B)
  | Unbond (amount : option Uint128)
  | ActivateBoost
  | PrivilegedRefreshBoost (account : string)
  | WithdrawRewards
  | WithdrawRewardsBulk (limit : N) (start_after_address : option string)
  | ClaimWithdrawnRewards (claim_type : ClaimType)
  | AdminWithdrawRewards
  | AdminSendWithdrawnRewards (original_balances : list Asset)
  | UpdateConfig (min_bond_amount : option Uint128) (base_pool_ratio : option Decimal)
  | BondWithBoostContractHook (receiver : Addr) (prev_xprism_balance : Uint128).
Arguments Receive {B}.
Arguments Unbond {B}.
Arguments ActivateBoost {B}.
Arguments PrivilegedRefreshBoost {B}.
Arguments WithdrawRewards {B}.
Arguments WithdrawRewardsBulk {B}.
Arguments ClaimWithdrawnRewards {B}.
Arguments AdminWithdrawRewards {B}.
Arguments AdminSendWithdrawnRewards {B}.
Arguments UpdateConfig {B}.
Arguments BondWithBoostContractHook {B}.

Inductive Cw20HookMsg : Type := Bond.

Inductive QueryMsg : Type :=
  | QConfig
  | QDistributionStatus
  | QRewardInfo (staker_addr : string)
  | QVestingStatus (staker_addr : string).

Record ConfigResponse : Type := mkConfigResponse {
  cr_owner : string;
  cr_operator : string;
  cr_prism_token : string;
  cr_xprism_token : string;
  cr_gov : string;
  cr_yluna_staking : string;
  cr_yluna_token : string;
  cr_vesting_period : N;
  cr_boost_contract : string;
  cr_distribution_schedule : N * N * Uint128;
  cr_base_pool_ratio : Decimal;
  cr_min_bond_amount : Uint128 }.
Record DistributionInfo : Type := mkDistributionInfo {
  di_total_distributed : Uint128;
  di_total_weight : Uint128;
  di_pending_reward : Uint128;
  di_reward_index : Decimal }.
Record DistributionStatusResponse : Type := mkDistributionStatusResponse {
  ds_base : DistributionInfo; ds_boost : DistributionInfo }.
Record RewardInfoResponse : Type := mkRewardInfoResponse {
  rr_bond_amount : Uint128;
  rr_base_index : Decimal;
  rr_boost_index : Decimal;
  rr_boost_weight : Uint128;
  rr_active_boost : Uint128;
  rr_pending_reward : Uint128 }.
Record VestingStatusResponse : Type := mkVestingStatusResponse {
  vs_scheduled_vests : list (N * Uint128); vs_withdrawable : Uint128 }.
End LaunchPoolMsg.

(** packages/prism_protocol/src/collector.rs *)
Module CollectorMsg.
Record InstantiateMsg : Type := mkInstantiateMsg {
  im_distribution_contract : string;
  im_astroport_factory : string;
  im_prismswap_factory : string;
  im_prismswap_router : string;
  im_prism_token : string;
  im_base_denom : string }.

Inductive ExecuteMsg : Type :=
  | Distribute (asset_infos : list AssetInfo)
  | ConvertAndSend (assets : list Asset) (receiver : option string) (dest_asset_info : AssetInfo)
  | BaseSwapHook (receiver : Addr) (prev_base_balance : Uint128) (dest_asset_info : AssetInfo).

Inductive QueryMsg : Type := QConfig.

Record ConfigResponse : Type := mkConfigResponse {
  cr_distribution_contract : string;
  cr_astroport_factory : string;
  cr_prismswap_factory : string;
  cr_prismswap_router : string;
  cr_prism_token : string;
  cr_base_denom : string }.

Record MigrateMsg : Type := mkMigrateMsg { mm_prismswap_router : string }.
End CollectorMsg.

(** packages/prism_protocol/src/airdrop_registry.rs *)
Module AirdropRegistryMsg.
Record InstantiateMsg : Type := mkInstantiateMsg { im_vault_contract : string }.

Inductive ClaimType : Type := Generic.
Record AirdropInfo : Type := mkAirdropInfo { airdrop_contract : string; claim_type : ClaimType }.

Inductive ExecuteMsg : Type :=
  | FabricateClaim (airdrop_token : string) (stage : N) (amount : Uint128) (proof : list string)
  | UpdateConfig (owner vault_contract : option string)
  | AddAirdropInfo (airdrop_token : string) (airdrop_info : AirdropInfo)
  | RemoveAirdropInfo (airdrop_token : string)
  | UpdateAirdropInfo (airdrop_token : string) (airdrop_info : AirdropInfo).

Inductive QueryMsg : Type :=
  | QConfig
  | QAirdropInfo (airdrop_token start_after : option string) (limit : option N).

Record ConfigResponse : Type := mkConfigResponse {
  cr_owner : string; cr_vault_contract : string; cr_airdrop_tokens : list string }.
Record AirdropInfoElem : Type := mkAirdropInfoElem { el_airdrop_token : string; el_info : AirdropInfo }.
Record AirdropInfoResponse : Type := mkAirdropInfoResponse { ai_airdrop_info : list AirdropInfoElem }.
End AirdropRegistryMsg.

(** packages/prism_protocol/src/fair_launch.rs *)
Module FairLaunchMsg.
Record LaunchConfig : Type := mkLaunchConfig {
  amount : Uint128;
  (** deposits and withdrawals *)
  phase1_start : N;
  (** one withdrawal, of a share that decreases with time *)
  phase2_start : N;
  phase2_end : N }.
Record InstantiateMsg : Type := mkInstantiateMsg {
  im_owner : string; im_receiver : string; im_token : string; im_base_denom : string }.
Inductive ExecuteMsg : Type :=
  | Deposit
  | Withdraw (amount : option Uint128)
  | WithdrawTokens
  | PostInitialize (launch_config : LaunchConfig)
  | AdminWithdraw
  | ReleaseTokens.
Inductive QueryMsg : Type :=
  | QConfig
  | QDepositInfo (address : string).
Record ConfigResponse : Type := mkConfigResponse {
  cr_owner : string;
  cr_receiver : string;
  cr_token : string;
  cr_launch_config : option LaunchConfig;
  cr_base_denom : string;
  cr_tokens_released : bool }.
Record DepositResponse : Type := mkDepositResponse {
  dr_deposit : Uint128;
  dr_total_deposit : Uint128;
  dr_withdrawable_amount : Uint128;
  dr_tokens_to_claim : Uint128;
  dr_can_claim : bool }.
End FairLaunchMsg.

(** packages/prismswap/src/asset.rs *)
Record PairInfo : Type := mkPairInfo {
  pair_asset_infos : AssetInfo * AssetInfo;
  pair_contract_addr : Addr;
  pair_liquidity_token : Addr }.

(** packages/prismswap/src/pair.rs *)
Module PairMsg.
Definition DEFAULT_SLIPPAGE : string := "0.005".
Definition MAX_ALLOWED_SLIPPAGE : string := "0.5".
Record InstantiateMsg : Type := mkInstantiateMsg {
  im_asset_infos : AssetInfo * AssetInfo; im_token_code_id : N; im_factory : Addr }.
Inductive ExecuteMsg (B : Type) : Type :=
  | Receive (msg : Cw20ReceiveMsg B)
  | ProvideLiquidity (assets : Asset * Asset) (slippage_tolerance : option Decimal) (receiver : option string)
  | Swap (offer_asset : Asset) (belief_price max_spread : option Decimal) (to : option string).
Arguments Receive {B}.
Arguments ProvideLiquidity {B}.
Arguments Swap {B}.
Inductive Cw20HookMsg : Type :=
  | HookSwap (belief_price max_spread : option Decimal) (to : option string)
  | WithdrawLiquidity.
Inductive QueryMsg : Type :=
  | QPair
  | QPool
  | QConfig
  | QSimulation (offer_asset : Asset)
  | QReverseSimulation (ask_asset : Asset).
Record ConfigResponse : Type := mkConfigResponse { cr_pair_info : PairInfo; cr_factory : Addr }.
Record PoolResponse : Type := mkPoolResponse { pr_assets : Asset * Asset; pr_total_share : Uint128 }.
Record SimulationResponse : Type := mkSimulationResponse {
  sr_return_amount : Uint128; sr_spread_amount : Uint128; sr_commission_amount : Uint128 }.
Record ReverseSimulationResponse : Type := mkReverseSimulationResponse {
  rs_offer_amount : Uint128; rs_spread_amount : Uint128; rs_commission_amount : Uint128 }.
End PairMsg.

(** packages/prismswap/src/factory.rs *)
Module FactoryMsg.
Definition DEFAULT_TOTAL_FEE : string := "0.003".
Definition MAX_TOTAL_FEE : string := "0.05".
Definition DEFAULT_PROTOCOL_FEE : string := "0.5".
Definition MAX_PROTOCOL_FEE : string := "0.8".
Record FeeConfig : Type := mkFeeConfig { total_fee : Decimal; protocol_fee : Decimal }.
Record InstantiateMsg : Type := mkInstantiateMsg {
  im_token_code_id : N; im_pair_code_id : N; im_collector : Addr; im_owner : Addr }.
Inductive ExecuteMsg : Type :=
  | UpdateConfig (token_code_id pair_code_id : option N) (collector owner : option Addr)
  | UpdatePairConfig (asset_infos : AssetInfo * AssetInfo) (fee_config : FeeConfig)
  | CreatePair (asset_infos : AssetInfo * AssetInfo) (fee_config : option FeeConfig)
  | Deregister (asset_infos : AssetInfo * AssetInfo).
Inductive QueryMsg : Type :=
  | QConfig
  | QPair (asset_infos : AssetInfo * AssetInfo)
  | QPairConfig (asset_infos : AssetInfo * AssetInfo)
  | QPairs (start_after : option (AssetInfo * AssetInfo)) (limit : option N)
  | QPairsConfig (start_after : option (AssetInfo * AssetInfo)) (limit : option N)
  | QFeeInfo (asset_infos : AssetInfo * AssetInfo).
Record ConfigResponse : Type := mkConfigResponse {
  cr_owner : Addr; cr_token_code_id : N; cr_pair_code_id : N; cr_collector : Addr }.
Record PairConfigResponse : Type := mkPairConfigResponse { pc_pair_info : PairInfo; pc_fee_config : FeeConfig }.
Record PairsResponse : Type := mkPairsResponse { ps_pairs : list PairInfo }.
Record PairsConfigResponse : Type := mkPairsConfigResponse { psc_pairs : list PairConfigResponse }.
Record FeeInfoResponse : Type := mkFeeInfoResponse { fi_fee_config : FeeConfig; fi_collector : Addr }.
End FactoryMsg.

(** packages/prismswap/src/router.rs *)
Module RouterMsg.
Definition MAX_SWAP_OPERATIONS : N := 50.
Record InstantiateMsg : Type := mkInstantiateMsg { im_factory : Addr }.
Inductive SwapOperation : Type :=
  | NativeSwap (offer_denom ask_denom : string)
  | PrismSwap (offer_asset_info ask_asset_info : AssetInfo).
Inductive ExecuteMsg (B : Type) : Type :=
  | Receive (msg : Cw20ReceiveMsg B)
  | ExecuteSwapOperations (operations : list SwapOperation) (minimum_receive : option Uint128) (to : option Addr)
  | ExecuteSwapOperation (operation : SwapOperation) (to : option Addr)
  | AssertMinimumReceive (asset_info : AssetInfo) (prev_balance minimum_receive : Uint128) (receiver : Addr).
Arguments Receive {B}.
Arguments ExecuteSwapOperations {B}.
Arguments ExecuteSwapOperation {B}.
Arguments AssertMinimumReceive {B}.
Inductive Cw20HookMsg : Type :=
  | HookExecuteSwapOperations (operations : list SwapOperation) (minimum_receive : option Uint128) (to : option Addr).
Inductive QueryMsg : Type :=
  | QConfig
  | QSimulateSwapOperations (offer_amount : Uint128) (operations : list SwapOperation).
Record ConfigResponse : Type := mkConfigResponse { cr_factory : Addr }.
Record SimulateSwapOperationsResponse : Type := mkSimulateSwapOperationsResponse { ss_amount : Uint128 }.
End RouterMsg.

(** contracts/prism-airdrop-registry/src/contract.rs: what an airdrop contract
    understands. *)
Inductive GenericAirdropExecuteMsg : Type := Claim (stage : N) (amount : Uint128) (proof : list string).

(** packages/prism_protocol/src/common.rs *)
Inductive OrderBy : Type := Asc | Desc.

(** packages/prism_protocol/src/gov.rs *)
Module GovMsg.
Inductive PollStatus : Type := InProgress | Passed | Rejected | Executed | Failed.
#[global] Instance PollStatus_eq_dec : EqDecision PollStatus.
Proof. solve_decision. Defined.
Definition status_code (s : PollStatus) : N :=
  match s with InProgress => 0 | Passed => 1 | Rejected => 2 | Executed => 3 | Failed => 4 end.
Definition status_of_code (n : N) : option PollStatus :=
  match n with
  | 0 => Some InProgress | 1 => Some Passed | 2 => Some Rejected
  | 3 => Some Executed | 4 => Some Failed | _ => None
  end.
#[global] Instance PollStatus_countable : Countable PollStatus.
Proof. refine (inj_countable status_code status_of_code _). by intros []. Defined.

Inductive VoteOption : Type := Yes | No | Abstain.
#[global] Instance VoteOption_eq_dec : EqDecision VoteOption.
Proof. solve_decision. Defined.

(** [impl Display for VoteOption] *)
Definition VoteOption_fmt (v : VoteOption) : string :=
  match v with Yes => "yes" | No => "no" | Abstain => "abstain" end.

Record VoterInfo : Type := mkVoterInfo { vote : VoteOption; balance : Uint128 }.

Record InstantiateMsg : Type := mkInstantiateMsg {
  im_prism_token : string;
  im_quorum : Decimal;
  im_threshold : Decimal;
  im_voting_period : N;
  im_effective_delay : N;
  im_proposal_deposit : Uint128;
  im_snapshot_period : N;
  im_redemption_time : N;
  im_poll_gas_limit : N;
  im_token_code_id : N }.

Record PollExecuteMsg (B : Type) : Type := mkPollExecuteMsg { pe_contract : string; pe_msg : B }.
Arguments mkPollExecuteMsg {B}.
Arguments pe_contract {B}.
Arguments pe_msg {B}.

Inductive ExecuteMsg (B : Type) : Type :=
  | Receive (msg : Cw20ReceiveMsg B)
  | UpdateConfig (owner : option string) (quorum threshold : option Decimal)
      (voting_period effective_delay : option N) (proposal_deposit : option Uint128)
      (snapshot_period redemption_time poll_gas_limit : option N)
  | CastVote (poll_id : N) (vote : VoteOption) (amount : Uint128)
  | WithdrawVotingTokens (amount : option Uint128)
  | EndPoll (poll_id : N)
  | ExecutePoll (poll_id : N)
  | SnapshotPoll (poll_id : N)
  | ClaimRedeemedXprism.
Arguments Receive {B}.
Arguments UpdateConfig {B}.
Arguments CastVote {B}.
Arguments WithdrawVotingTokens {B}.
Arguments EndPoll {B}.
Arguments ExecutePoll {B}.
Arguments SnapshotPoll {B}.
Arguments ClaimRedeemedXprism {B}.

Inductive Cw20HookMsg (B : Type) : Type :=
  | StakeVotingTokens
  | CreatePoll (title description : string) (link : option string)
      (execute_msg : option (PollExecuteMsg B))
  | MintXprism (receiver : option string)
  | RedeemXprism.
Arguments StakeVotingTokens {B}.
Arguments CreatePoll {B}.
Arguments MintXprism {B}.
Arguments RedeemXprism {B}.

Inductive QueryMsg : Type :=
  | QConfig
  | QVotingTokens (address : string)
  | QPoll (poll_id : N)
  | QPolls (filter : option PollStatus) (start_after : option N) (limit : option N)
      (order_by : option OrderBy)
  | QVoter (poll_id : N) (address : string)
  | QVoters (poll_id : N) (start_after : option string) (limit : option N)
      (order_by : option OrderBy)
  | QPrismWithdrawOrders (address : string) (start_after : option N) (limit : option N)
      (order_by : option OrderBy)
  | QXprismState.

Record ConfigResponse : Type := mkConfigResponse {
  cr_owner : string;
  cr_prism_token : string;
  cr_xprism_token : string;
  cr_quorum : Decimal;
  cr_threshold : Decimal;
  cr_voting_period : N;
  cr_effective_delay : N;
  cr_proposal_deposit : Uint128;
  cr_snapshot_period : N;
  cr_redemption_time : N;
  cr_poll_gas_limit : N }.

Record PollResponse (B : Type) : Type := mkPollResponse {
  pr_id : N;
  pr_creator : string;
  pr_status : PollStatus;
  pr_end_time : N;
  pr_title : string;
  pr_description : string;
  pr_link : option string;
  pr_deposit_amount : Uint128;
  pr_execute_data : option (PollExecuteMsg B);
  pr_yes_votes : Uint128;
  pr_no_votes : Uint128;
  pr_abstain_votes : Uint128;
  pr_supply_snapshot : option Uint128;
  pr_required_quorum : Decimal;
  pr_required_threshold : Decimal }.
Arguments mkPollResponse {B}.

Record VotingTokensResponse : Type := mkVotingTokensResponse {
  vt_balance : Uint128; vt_locked_balance : list (N * VoterInfo) }.
Record VotersResponseItem : Type := mkVotersResponseItem {
  vi_voter : string; vi_vote : VoteOption; vi_balance : Uint128 }.
Record PrismWithdrawOrdersResponse : Type := mkPrismWithdrawOrdersResponse {
  wo_claimable_amount : Uint128; wo_orders : list (N * Uint128) }.
Record XprismStateResponse : Type := mkXprismStateResponse {
  xs_exchange_rate : Decimal;
  xs_effective_xprism_supply : Uint128;
  xs_effective_underlying_prism : Uint128;
  xs_total_pending_withdraw_xprism : Uint128;
  xs_total_pending_withdraw_prism : Uint128 }.
End GovMsg.

(** packages/prismswap/src/token.rs: the instantiation message of a CW20 token,
    with [cw20::MinterResponse]. *)
Module TokenMsg.
Record MinterResponse : Type := mkMinter { minter : string; cap : option Uint128 }.
Record InstantiateMsg : Type := mkInstantiateMsg {
  name : string;
  symbol : string;
  decimals : N;
  initial_balances : list (string * Uint128);
  mint : option MinterResponse }.
End TokenMsg.

(** [Binary]: the message that was serialised, or raw bytes from outside.  No
    proof inspects it, so its induction schemes are not generated. *)
#[local] Unset Elimination Schemes.
Inductive Binary : Type :=
  | RawBinary (bytes : string)
  | BinCw20 (m : Cw20.ExecuteMsg Binary)
  | BinVault (m : VaultMsg.ExecuteMsg Binary)
  | BinYassetStaking (m : YassetStakingMsg.ExecuteMsg Binary)
  | BinLaunchPool (m : LaunchPoolMsg.ExecuteMsg Binary)
  | BinToken (m : TokenMsg.InstantiateMsg)
  | BinGovHook (m : GovMsg.Cw20HookMsg Binary)
  | BinBoostHook (m : XprismBoostMsg.Cw20HookMsg)
  | BinYassetHook (m : YassetStakingMsg.Cw20HookMsg)
  | BinLaunchPoolHook (m : LaunchPoolMsg.Cw20HookMsg)
  | BinCollector (m : CollectorMsg.ExecuteMsg)
  | BinPair (m : PairMsg.ExecuteMsg Binary)
  | BinPairHook (m : PairMsg.Cw20HookMsg)
  | BinRouter (m : RouterMsg.ExecuteMsg Binary)
  | BinRouterHook (m : RouterMsg.Cw20HookMsg)
  | BinAirdrop (m : GenericAirdropExecuteMsg).
#[local] Set Elimination Schemes.

(** [cosmwasm_std::CosmosMsg], flattened; the payload of a custom message of the
    chain is kept serialised. *)
Inductive CosmosMsg : Type :=
  | WasmExecute (contract_addr : string) (msg : Binary) (funds : list Coin)
  | WasmInstantiate (code_id : N) (msg : Binary) (funds : list Coin)
      (admin : option string) (label : string)
  | BankSend (to_address : string) (amount : list Coin)
  | StakingDelegate (validator : string) (amount : Coin)
  | StakingUndelegate (validator : string) (amount : Coin)
  | StakingRedelegate (src_validator dst_validator : string) (amount : Coin)
  | DistributionSetWithdrawAddress (address : string)
  | DistributionWithdrawDelegatorReward (validator : string)
  | Custom (payload : Binary).

Inductive ReplyOn : Type := ReplyAlways | ReplyError | ReplySuccess | ReplyNever.

Record SubMsg : Type := mkSubMsg {
  sub_id : N; sub_msg : CosmosMsg; sub_gas_limit : option N; sub_reply_on : ReplyOn }.

(** [SubMsg::new] *)
Definition sub_new (m : CosmosMsg) : SubMsg := mkSubMsg 0 m None ReplyNever.

(** The value of an event attribute; numbers are kept unprinted. *)
Inductive AttrValue : Type :=
  | AStr (s : string)
  | ANum (n : N)
  | ADec (d : Decimal)
  | ABool (b : bool).

Record Response : Type := mkResponse {
  messages : list SubMsg; attributes : list (string * AttrValue) }.

(** [Response::new().add_messages(ms).add_attributes(ats)] *)
Definition respond (ms : list CosmosMsg) (ats : list (string * AttrValue)) : Response :=
  mkResponse (sub_new <$> ms) ats.

(** [Reply] of a sub-message; [Err] of the chain is a string. *)
Record Reply (Data : Type) : Type := mkReply {
  reply_id : N; reply_result : string + option Data }.
Arguments mkReply {Data}.
Arguments reply_id {Data}.
Arguments reply_result {Data}.

(** ** What the contracts ask of the chain ([deps.querier]) *)
Record Delegation : Type := mkDelegation { del_validator : string; del_amount : Coin }.
Record FullDelegation : Type := mkFullDelegation {
  fd_amount : Coin; fd_can_redelegate : Coin }.

(** The answers of the chain and of other contracts at the time of the call. *)
Record Querier : Type := mkQuerier {
  query_all_delegations : Addr → outcome StdError (list Delegation);
  query_delegation : Addr → string → outcome StdError (option FullDelegation);
  query_validator : string → outcome StdError (option string);
  query_all_validators : outcome StdError (list string);
  (** native balance of an account *)
  query_balance : Addr → string → outcome StdError Uint128;
  (** [Cw20QueryMsg::Balance] of a token contract *)
  query_cw20_balance : Addr → Addr → outcome StdError Uint128;
  (** [Cw20QueryMsg::TokenInfo] of a token contract, its total supply *)
  query_cw20_supply : Addr → outcome StdError Uint128 }.

(** packages/prismswap/src/querier.rs: a failed query counts as a zero balance. *)
Definition query_token_balance (q : Querier) (contract_addr account_addr : Addr)
    : outcome StdError Uint128 :=
  match query_cw20_balance q contract_addr account_addr with
  | Ok b => Ok b
  | Err _ => Ok 0
  | Panic => Panic
  end.

(** packages/prismswap/src/querier.rs, [query_balance] *)
Definition query_native_balance (q : Querier) (account_addr : Addr) (denom : string) : outcome StdError Uint128 :=
  query_balance q account_addr denom.

(** packages/prismswap/src/querier.rs *)
Definition query_supply (q : Querier) (contract_addr : Addr) : outcome StdError Uint128 :=
  query_cw20_supply q contract_addr.

(** The crate cw-asset: the messages that transfer an asset, send it to a
    contract or take it from an account that allowed it, the balance of an
    account in an asset, and how an asset is displayed. *)
Class CwAsset : Type := {
  asset_transfer_msg : Asset → Addr → outcome StdError CosmosMsg;
  asset_send_msg : Asset → Addr → Binary → outcome StdError CosmosMsg;
  asset_transfer_from_msg : Asset → Addr → Addr → outcome StdError CosmosMsg;
  asset_query_balance : Querier → AssetInfo → Addr → outcome StdError Uint128;
  asset_info_to_string : AssetInfo → string;
  asset_to_string : Asset → string }.

Class CwAssetLaws (A : CwAsset) : Prop := {
  asset_transfer_cw20 c n a :
    asset_transfer_msg (mkAsset (Cw20Asset c) n) a = Ok (WasmExecute c (BinCw20 (Cw20.Transfer a n)) []);
  asset_transfer_native d n a :
    asset_transfer_msg (mkAsset (NativeAsset d) n) a = Ok (BankSend a [mkCoin d n]);
  asset_send_cw20 c n a b :
    asset_send_msg (mkAsset (Cw20Asset c) n) a b = Ok (WasmExecute c (BinCw20 (Cw20.Send a n b)) []);
  asset_transfer_from_cw20 c n a b :
    asset_transfer_from_msg (mkAsset (Cw20Asset c) n) a b =
      Ok (WasmExecute c (BinCw20 (Cw20.TransferFrom a b n)) []);
  asset_query_cw20 q c a : asset_query_balance q (Cw20Asset c) a = query_cw20_balance q c a;
  asset_query_native q d a : asset_query_balance q (NativeAsset d) a = query_balance q a d }.

Module ReferenceAsset.
#[global] Instance cw_asset : CwAsset := {
  asset_transfer_msg a to :=
    match asset_info a with
    | Cw20Asset c => Ok (WasmExecute c (BinCw20 (Cw20.Transfer to (asset_amount a))) [])
    | NativeAsset d => Ok (BankSend to [mkCoin d (asset_amount a)])
    end;
  asset_send_msg a to b :=
    match asset_info a with
    | Cw20Asset c => Ok (WasmExecute c (BinCw20 (Cw20.Send to (asset_amount a) b)) [])
    | NativeAsset d => Err (GenericErr "native coins do not have `send` method")
    end;
  asset_transfer_from_msg a from to :=
    match asset_info a with
    | Cw20Asset c => Ok (WasmExecute c (BinCw20 (Cw20.TransferFrom from to (asset_amount a))) [])
    | NativeAsset d => Err (GenericErr "native coins do not have `transfer_from` method")
    end;
  asset_info_to_string i :=
    match i with Cw20Asset c => String.append "cw20:" c | NativeAsset d => String.append "native:" d end;
  asset_to_string a :=
    String.append (match asset_info a with Cw20Asset c => String.append "cw20:" c
                   | NativeAsset d => String.append "native:" d end) (String.append ":" (pretty (asset_amount a)));
  asset_query_balance q i a :=
    match i with
    | Cw20Asset c => query_cw20_balance q c a
    | NativeAsset d => query_balance q a d
    end }.
#[global] Instance cw_asset_laws : CwAssetLaws cw_asset.
Proof. by split. Qed.
End ReferenceAsset.

(** ** Token movements a response orders *)

(** The amount of [token] that message [m] transfers out of the contract. *)
Definition cw20_out (token : Addr) (m : CosmosMsg) : N :=
  match m with
  | WasmExecute c (BinCw20 (Cw20.Transfer _ a)) _ => if bool_decide (c = token) then a else 0
  | _ => 0
  end.
Definition cw20_sent (token : Addr) (r : Response) : N :=
  sum_N ((λ s, cw20_out token (sub_msg s)) <$> messages r).

(** A ledger gives a contract's balance of each token: what a transfer to it
    adds, and what remains after the transfers it orders. *)
Module Tokens.
(** The amount of [token] that leaves the contract, sent or transferred. *)
Definition cw20_leaves (token : Addr) (m : CosmosMsg) : N :=
  match m with
  | WasmExecute c (BinCw20 (Cw20.Transfer _ a)) _ | WasmExecute c (BinCw20 (Cw20.Send _ a _)) _ =>
      if bool_decide (c = token) then a else 0
  | _ => 0
  end.
Definition cw20_spent (token : Addr) (r : Response) : N :=
  sum_N ((λ s, cw20_leaves token (sub_msg s)) <$> messages r).

Notation ledger := (Addr → N).
Definition credit (token : Addr) (amount : N) (l : ledger) : ledger :=
  λ t, if decide (t = token) then l t + amount else l t.
Definition pay_out (resp : Response) (l : ledger) : ledger :=
  λ t, l t - cw20_sent t resp.

Lemma credit_eq t n l : credit t n l t = l t + n.
Proof. unfold credit. by rewrite decide_True. Qed.
Lemma credit_le t t' n l : l t' ≤ credit t n l t'.
Proof. unfold credit. case_decide; lia. Qed.
End Tokens.
