(* ===== verification/Wire.v ===== *)
(** * Byte formats (packages/prism_protocol/src/internal)

    The protobuf parser of sub-message replies ([parse_reply.rs]) and the
    decoding of storage keys ([de.rs]).  A [Vec<u8>] is a list of numbers below
    256; a parser that consumes its argument ([&mut Vec<u8>]) returns the rest
    of the data with its result. *)
From Stdlib Require Import Ascii String.
From S2P Require Import Prelude Cosmwasm Protocol.

Abbreviation bytes := (list N) (only parsing).

(** ** Strings of the standard library *)

(** [str::as_bytes], and the string of a list of bytes. *)
Definition string_bytes (s : string) : bytes := N_of_ascii <$> list_ascii_of_string s.
Definition bytes_string (l : bytes) : string := string_of_list_ascii (ascii_of_N <$> l).

Definition between (lo hi b : N) : bool := (lo <=? b) && (b <=? hi).
Definition continuation (b : N) : bool := between 0x80 0xBF b.
(** The first two bytes of the sequences of three and four bytes. *)
Definition lead3 (b0 b1 : N) : bool :=
  ((b0 =? 0xE0) && between 0xA0 0xBF b1) || (between 0xE1 0xEC b0 && continuation b1)
  || ((b0 =? 0xED) && between 0x80 0x9F b1) || (between 0xEE 0xEF b0 && continuation b1).
Definition lead4 (b0 b1 : N) : bool :=
  ((b0 =? 0xF0) && between 0x90 0xBF b1) || (between 0xF1 0xF3 b0 && continuation b1)
  || ((b0 =? 0xF4) && between 0x80 0x8F b1).

(** The byte sequences [String::from_utf8] accepts. *)
Fixpoint utf8_valid (l : bytes) : bool :=
  match l with
  | [] => true
  | b0 :: l1 =>
      if b0 <? 0x80 then utf8_valid l1 else
      match l1 with
      | [] => false
      | b1 :: l2 =>
          if between 0xC2 0xDF b0 && continuation b1 then utf8_valid l2 else
          match l2 with
          | [] => false
          | b2 :: l3 =>
              if lead3 b0 b1 && continuation b2 then utf8_valid l3 else
              match l3 with
              | [] => false
              | b3 :: l4 =>
                  if lead4 b0 b1 && continuation b2 && continuation b3 then utf8_valid l4 else false
              end
          end
      end
  end.

Definition from_utf8 (l : bytes) : option string :=
  if utf8_valid l then Some (bytes_string l) else None.

(** A [u64] converted to the address size of the target, wasm32. *)
Definition as_usize (n : N) : N := n mod 2 ^ 32.

(** ** Replies of sub-messages (parse_reply.rs) *)
Module ParseReply.

Inductive ParseReplyError : Type :=
  | SubMsgFailure (msg : string)
  | ParseFailure (msg : string)
  | BrokenUtf8.

Record MsgInstantiateContractResponse : Type := mkInstantiateResponse {
  contract_address : string; inst_data : option bytes }.
Record MsgExecuteContractResponse : Type := mkExecuteResponse { exec_data : option bytes }.

Notation Result := (outcome ParseReplyError).

Definition WIRE_TYPE_LENGTH_DELIMITED : N := 2.
Definition VARINT_MAX_BYTES : nat := 9.

(** The loop of [parse_protobuf_varint] at index [i], with [k] iterations left;
    returns the value and the index of the last byte. *)
Fixpoint varint_loop (data : bytes) (k i : nat) (len : N) : Result (N * nat) :=
  match k with
  | O => Err (ParseFailure "varint data too long")
  | S k =>
      match data !! i with
      | None => Err (ParseFailure "varint data too short")
      | Some b =>
          let! len := u64_add len (N.shiftl (N.land b 0x7F) (N.of_nat i * 7) mod u64_limit) in
          if N.land b 0x80 =? 0 then Ok (len, i) else varint_loop data k (S i) len
      end
  end.

Definition parse_protobuf_varint (data : bytes) : Result (N * bytes) :=
  let? '(len, i) := varint_loop data VARINT_MAX_BYTES 0 0 in
  Ok (as_usize len, drop (S i) data).

Definition parse_protobuf_length_prefixed (data : bytes) (field_number : N) : Result (bytes * bytes) :=
  match data with
  | [] => Ok ([], [])
  | tag :: rest =>
      let wire_type := N.land tag 3 in
      let field := N.shiftr tag 3 in
      if negb (field =? field_number) then Err (ParseFailure "invalid field") else
      if negb (wire_type =? WIRE_TYPE_LENGTH_DELIMITED) then Err (ParseFailure "invalid wire type") else
      let? '(len, rest) := parse_protobuf_varint rest in
      if N.of_nat (length rest) <? len then Err (ParseFailure "message too short") else
      Ok (take (N.to_nat len) rest, drop (N.to_nat len) rest)
  end.

Definition parse_protobuf_string (data : bytes) (field_number : N) : Result (string * bytes) :=
  let? '(str_field, rest) := parse_protobuf_length_prefixed data field_number in
  let? s := ok_or (from_utf8 str_field) BrokenUtf8 in
  Ok (s, rest).

Definition parse_protobuf_bytes (data : bytes) (field_number : N) : Result (option bytes * bytes) :=
  let? '(bytes_field, rest) := parse_protobuf_length_prefixed data field_number in
  match bytes_field with
  | [] => Ok (None, rest)
  | _ => Ok (Some bytes_field, rest)
  end.

Definition parse_instantiate_response_data (data : bytes) : Result MsgInstantiateContractResponse :=
  let? '(contract_addr, data) := parse_protobuf_string data 1 in
  let? '(data, _) := parse_protobuf_bytes data 2 in
  Ok (mkInstantiateResponse contract_addr data).

Definition parse_execute_response_data (data : bytes) : Result MsgExecuteContractResponse :=
  let? '(inner_data, _) := parse_protobuf_bytes data 1 in
  Ok (mkExecuteResponse inner_data).

(** The data of a reply, from its [ContractResult]. *)
Definition reply_data (msg : Reply bytes) : Result bytes :=
  match reply_result msg with
  | inl e => Err (SubMsgFailure e)
  | inr None => Err (ParseFailure "Missing reply data")
  | inr (Some data) => Ok data
  end.

Definition parse_reply_instantiate_data (msg : Reply bytes) : Result MsgInstantiateContractResponse :=
  let? data := reply_data msg in parse_instantiate_response_data data.

Definition parse_reply_execute_data (msg : Reply bytes) : Result MsgExecuteContractResponse :=
  let? data := reply_data msg in parse_execute_response_data data.
End ParseReply.

(** ** Storage keys (de.rs) *)
Module De.
(** [u64::from_be_bytes] of exactly eight bytes. *)
Definition from_be_bytes (l : bytes) : N := foldl (λ acc b, acc * 256 + b) 0 l.

Class KeyDeserialize (K : Type) := from_vec : bytes → outcome StdError K.

#[global] Instance u64_key : KeyDeserialize N := λ value,
  if (length value =? 8)%nat then Ok (from_be_bytes value)
  else Err (GenericErr "could not convert slice to array").
#[global] Instance string_key : KeyDeserialize string := λ value,
  ok_or (from_utf8 value) InvalidUtf8.

Definition deserialize_key (K : Type) `{KeyDeserialize K} (key : bytes) : outcome StdError K :=
  from_vec key.
End De.
