(* ===== verification/WireProofs.v ===== *)
(** * Correctness of the byte formats

    The parser of replies inverts the protobuf encoding, never panics, and
    decides the cases it rejects; storage keys decode to what was encoded. *)
From Stdlib Require Import Ascii String.
From S2P Require Import Prelude Cosmwasm Protocol Wire.
Import ParseReply.

(** ** Reference encoders *)

(** Base-128 encoding in at most [k] groups, least significant group first. *)
Fixpoint encode_varint (k : nat) (n : N) : bytes :=
  match k with
  | O => []
  | S k => if n <? 128 then [n] else (n mod 128 + 128) :: encode_varint k (n / 128)
  end.

(** A length-delimited field. *)
Definition encode_field (field_number : N) (value : bytes) : bytes :=
  (field_number * 8 + 2) :: encode_varint 5 (N.of_nat (length value)) ++ value.

(** A field that is left out when empty. *)
Definition encode_optional (field_number : N) (value : option bytes) : bytes :=
  match value with Some v => encode_field field_number v | None => [] end.

(** Big-endian encoding of a [u64]. *)
Fixpoint to_be_bytes (k : nat) (n : N) : bytes :=
  match k with
  | O => []
  | S k => to_be_bytes k (n / 256) ++ [n mod 256]
  end.

(** ** Bytes *)
Lemma byte_forall (P : N → bool) :
  forallb P (N.of_nat <$> seq 0 256) = true → ∀ b, b < 256 → P b = true.
Proof.
  intros Hall b Hb. rewrite forallb_forall in Hall. apply Hall.
  apply list_elem_of_In, list_elem_of_fmap. exists (N.to_nat b).
  rewrite elem_of_seq. lia.
Qed.

Lemma continuation_bit b : b < 256 → (N.land b 0x80 =? 0) = (b <? 128).
Proof.
  intros Hb. apply eqb_prop. revert b Hb.
  apply (byte_forall (λ b, Bool.eqb (N.land b 0x80 =? 0) (b <? 128))). by vm_compute.
Qed.

Lemma low_bits b : N.land b 0x7F = b mod 128.
Proof. change 0x7F with (N.ones 7). by rewrite N.land_ones. Qed.

(** ** Varints *)

(** The value [n], its groups starting at index [i], fits next to [len] in 63 bits. *)
Lemma varint_shift i n len :
  (i < VARINT_MAX_BYTES)%nat → n < 128 → len < 2 ^ (7 * N.of_nat i) →
  u64_add len (N.shiftl n (N.of_nat i * 7) mod u64_limit) = Some (len + n * 2 ^ (7 * N.of_nat i)) ∧
  len + n * 2 ^ (7 * N.of_nat i) < 2 ^ (7 * N.of_nat (S i)).
Proof.
  intros Hi Hn Hlen. rewrite N.shiftl_mul_pow2, (N.mul_comm (N.of_nat i) 7).
  replace (7 * N.of_nat (S i)) with (7 * N.of_nat i + 7) by lia. rewrite N.pow_add_r.
  set (p := 2 ^ (7 * N.of_nat i)) in *. change (2 ^ 7) with 128.
  assert (p ≤ 2 ^ 56) as Hp by (apply N.pow_le_mono_r; [lia|unfold VARINT_MAX_BYTES in Hi; lia]).
  change (2 ^ 56) with 72057594037927936 in Hp. unfold u64_limit.
  change (2 ^ 64) with 18446744073709551616. rewrite N.mod_small by nia.
  split; [|nia]. unfold u64_add, checked_width. destruct (N.ltb_spec (len + n * p) u64_limit);
    [done|]. unfold u64_limit in *. change (2 ^ 64) with 18446744073709551616 in *. nia.
Qed.

Lemma varint_loop_encode pre m k n len rest :
  (m ≤ k)%nat → (length pre + k ≤ VARINT_MAX_BYTES)%nat → (0 < m)%nat → n < 2 ^ (7 * N.of_nat m) →
  len < 2 ^ (7 * N.of_nat (length pre)) →
  ∃ i, varint_loop (pre ++ encode_varint m n ++ rest) k (length pre) len =
         Ok (len + n * 2 ^ (7 * N.of_nat (length pre)), i) ∧
       drop (S i) (pre ++ encode_varint m n ++ rest) = rest.
Proof.
  revert pre k n len. induction m as [|m IH]; intros pre k n len Hmk Hpre Hm Hn Hlen; [lia|].
  destruct k as [|k]; [lia|]. simpl. destruct (N.ltb_spec n 128) as [Hsmall|Hbig].
  - exists (length pre). change ([n] ++ rest) with (n :: rest).
    rewrite list_lookup_middle by done. split.
    + destruct (varint_shift (length pre) n len) as [Hadd _]; [lia|done|done|].
      rewrite low_bits, (N.mod_small n), Hadd by done. simpl. rewrite continuation_bit by lia.
      by apply N.ltb_lt in Hsmall as ->.
    + rewrite cons_middle, app_assoc.
      by rewrite drop_app_length' by (rewrite length_app; simpl; lia).
  - pose proof (N.mod_lt n 128 ltac:(lia)) as Hmod.
    set (b := n mod 128 + 128). change ((b :: encode_varint m (n / 128)) ++ rest) with
      (b :: (encode_varint m (n / 128) ++ rest)).
    rewrite list_lookup_middle by done.
    destruct (varint_shift (length pre) (n mod 128) len) as [Hadd Hlt]; [lia|done|done|].
    rewrite low_bits.
    replace (b mod 128) with (n mod 128)
      by (unfold b; rewrite <-N.Div0.add_mod_idemp_r, N.add_0_r; symmetry; apply N.Div0.mod_mod).
    rewrite Hadd. simpl. rewrite continuation_bit by (unfold b; lia).
    rewrite (proj2 (N.ltb_ge b 128)) by apply N.le_add_l.
    assert ((0 < m)%nat) as Hm'.
    { destruct m; [|lia]. change (2 ^ (7 * N.of_nat 1)) with 128 in Hn. lia. }
    destruct (IH (pre ++ [b]) k (n / 128) (len + n mod 128 * 2 ^ (7 * N.of_nat (length pre))))
      as (i & Hi & Hd).
    + lia.
    + rewrite length_app. simpl. lia.
    + done.
    + apply N.Div0.div_lt_upper_bound.
      replace (7 * N.of_nat (S m)) with (7 + 7 * N.of_nat m) in Hn by lia.
      by rewrite N.pow_add_r in Hn.
    + rewrite length_app. simpl. by replace (length pre + 1)%nat with (S (length pre)) by lia.
    + exists i. rewrite <-(app_assoc pre [b]) in Hi, Hd. split; [|done].
      rewrite length_app in Hi. simpl in Hi.
      replace (length pre + 1)%nat with (S (length pre)) in Hi by lia. rewrite Hi.
      f_equal. f_equal. replace (7 * N.of_nat (S (length pre))) with (7 + 7 * N.of_nat (length pre)) by lia.
      rewrite N.pow_add_r. change (2 ^ 7) with 128.
      pose proof (N.div_mod n 128 ltac:(lia)). nia.
Qed.

Lemma parse_varint_encode k n rest :
  (0 < k ≤ VARINT_MAX_BYTES)%nat → n < 2 ^ (7 * N.of_nat k) →
  parse_protobuf_varint (encode_varint k n ++ rest) = Ok (n mod 2 ^ 32, rest).
Proof.
  intros Hk Hn. unfold parse_protobuf_varint.
  destruct (varint_loop_encode [] k VARINT_MAX_BYTES n 0 rest) as (i & Hi & Hd); try lia; [done..|].
  simpl in Hi, Hd |- *. rewrite Hi. simpl. rewrite Hd. unfold as_usize.
  change (2 ^ 0) with 1. by rewrite N.mul_1_r.
Qed.

(** ** Fields *)
Lemma parse_field_encode f value rest :
  N.of_nat (length value) < 2 ^ 32 →
  parse_protobuf_length_prefixed (encode_field f value ++ rest) f = Ok (value, rest).
Proof.
  intros Hlen. unfold encode_field, parse_protobuf_length_prefixed.
  change (((f * 8 + 2) :: encode_varint 5 (N.of_nat (length value)) ++ value) ++ rest) with
    ((f * 8 + 2) :: (encode_varint 5 (N.of_nat (length value)) ++ value) ++ rest).
  rewrite <-app_assoc.
  replace (N.shiftr (f * 8 + 2) 3) with f.
  2: { rewrite N.shiftr_div_pow2. change (2 ^ 3) with 8. rewrite N.div_add_l by lia.
       change (2 / 8) with 0. lia. }
  rewrite N.eqb_refl. cbn [negb].
  replace (N.land (f * 8 + 2) 3) with 2.
  2: { change 3 with (N.ones 2). rewrite N.land_ones. change (2 ^ 2) with 4.
       replace (f * 8 + 2) with (2 + f * 2 * 4) by lia. by rewrite N.Div0.mod_add. }
  change (negb (2 =? WIRE_TYPE_LENGTH_DELIMITED)) with false. cbv iota.
  rewrite parse_varint_encode.
  - cbn [qbind]. rewrite N.mod_small by done.
    rewrite (proj2 (N.ltb_ge _ _)) by (rewrite length_app; lia).
    rewrite Nat2N.id, take_app_length, drop_app_length. done.
  - unfold VARINT_MAX_BYTES. lia.
  - etrans; [exact Hlen|]. by vm_compute.
Qed.

Lemma varint_loop_no_panic data k i len :
  (i + k = VARINT_MAX_BYTES)%nat → len < 2 ^ (7 * N.of_nat i) →
  varint_loop data k i len ≠ Panic.
Proof.
  revert i len. induction k as [|k IH]; intros i len Hk Hlen; simpl; [done|].
  destruct (data !! i) as [b|]; [|done].
  destruct (varint_shift i (N.land b 127) len) as [Hadd Hlt]; [lia| |done|].
  { rewrite low_bits. apply N.mod_lt. lia. }
  rewrite Hadd. simpl. destruct (N.land b 128 =? 0); [done|]. apply IH; [lia|done].
Qed.

Lemma length_prefixed_no_panic data f : parse_protobuf_length_prefixed data f ≠ Panic.
Proof.
  unfold parse_protobuf_length_prefixed. destruct data as [|tag rest]; [done|].
  destruct (negb _); [done|]. destruct (negb _); [done|]. unfold parse_protobuf_varint.
  destruct (varint_loop rest VARINT_MAX_BYTES 0 0) as [[len i]| |] eqn:Hv; simpl.
  - by destruct (_ <? _).
  - done.
  - by apply varint_loop_no_panic in Hv.
Qed.

Lemma from_be_bytes_app l b : De.from_be_bytes (l ++ [b]) = De.from_be_bytes l * 256 + b.
Proof. unfold De.from_be_bytes. by rewrite foldl_app. Qed.

Lemma length_to_be_bytes k n : length (to_be_bytes k n) = k.
Proof. revert n. induction k as [|k IH]; intros n; simpl; [done|]. rewrite length_app, IH. simpl. lia. Qed.

Lemma from_to_be_bytes k n : n < 2 ^ (8 * N.of_nat k) → De.from_be_bytes (to_be_bytes k n) = n.
Proof.
  revert n. induction k as [|k IH]; intros n Hn; simpl.
  - change (2 ^ (8 * N.of_nat 0)) with 1 in Hn. unfold De.from_be_bytes. simpl. lia.
  - rewrite from_be_bytes_app, IH.
    + pose proof (N.div_mod n 256 ltac:(lia)). lia.
    + apply N.Div0.div_lt_upper_bound.
      replace (8 * N.of_nat (S k)) with (8 + 8 * N.of_nat k) in Hn by lia.
      by rewrite N.pow_add_r in Hn.
Qed.
