(* ===== verification/WireSpec.v ===== *)
(** * What the byte formats promise *)
From Stdlib Require Import Ascii String.
From S2P Require Import Prelude Cosmwasm Protocol Wire WireProofs.
Import ParseReply.

Module WireSpec.

(** Varint round trip. Decoding the base-128 encoding of a 63-bit number
    gives the number and leaves exactly the rest of the data; as the address
    size of the target has 32 bits, a larger number comes back modulo [2^32]. *)
Theorem wire_varint_roundtrip n rest :
  n < 2 ^ 63 → parse_protobuf_varint (encode_varint VARINT_MAX_BYTES n ++ rest) = Ok (n mod 2 ^ 32, rest).
Proof. intros Hn. apply parse_varint_encode; [unfold VARINT_MAX_BYTES; lia|done]. Qed.

Lemma wire_varint_roundtrip_witness :
  parse_protobuf_varint (encode_varint VARINT_MAX_BYTES 300 ++ [7]) = Ok (300, [7]).
Proof. apply (wire_varint_roundtrip 300 [7]). by vm_compute. Defined.

(** C38: Round trip of an instantiation reply. From the protobuf encoding of a
    contract address and optional data the parser gets back the address and the
    data, and only a broken UTF-8 address makes it fail. *)
Theorem wire_instantiate_reply_roundtrip id address data :
  N.of_nat (length address) < 2 ^ 32 →
  (∀ d, data = Some d → d ≠ [] ∧ N.of_nat (length d) < 2 ^ 32) →
  parse_reply_instantiate_data
    (mkReply id (inr (Some (encode_field 1 address ++ encode_optional 2 data)))) =
  match from_utf8 address with
  | Some s => Ok (mkInstantiateResponse s data)
  | None => Err BrokenUtf8
  end.
Proof.
  intros Haddr Hdata. unfold parse_reply_instantiate_data. cbn [reply_data reply_result qbind].
  unfold parse_instantiate_response_data, parse_protobuf_string.
  rewrite parse_field_encode by done. cbn [qbind].
  destruct (from_utf8 address) as [s|]; [|done]. cbn [ok_or qbind].
  unfold parse_protobuf_bytes. destruct data as [d|]; [|done]. cbn [encode_optional].
  destruct (Hdata d eq_refl) as [Hne Hlen].
  rewrite <-(app_nil_r (encode_field 2 d)), parse_field_encode by done. cbn [qbind].
  by destruct d.
Qed.

Lemma wire_instantiate_reply_roundtrip_witness :
  parse_reply_instantiate_data (mkReply 0
    (inr (Some (encode_field 1 (string_bytes "terra1token") ++ encode_optional 2 (Some [1; 2]))))) =
  Ok (mkInstantiateResponse "terra1token" (Some [1; 2])).
Proof.
  apply (wire_instantiate_reply_roundtrip 0 (string_bytes "terra1token") (Some [1; 2])); [done|].
  by intros d [= <-].
Defined.

(** The reply parsers are total: on no byte string, however malformed, do
    they panic; they answer with a response or an error. *)
Theorem wire_parse_total data :
  parse_instantiate_response_data data ≠ Panic ∧ parse_execute_response_data data ≠ Panic.
Proof.
  unfold parse_instantiate_response_data, parse_execute_response_data,
    parse_protobuf_string, parse_protobuf_bytes.
  pose proof length_prefixed_no_panic as Hp. split.
  - destruct (parse_protobuf_length_prefixed data 1) as [[f r]| |] eqn:H1; simpl;
      [|done|by apply Hp in H1].
    destruct (from_utf8 f); simpl; [|done].
    destruct (parse_protobuf_length_prefixed r 2) as [[[|] ?]| |] eqn:H2; simpl;
      [done|done|done|by apply Hp in H2].
  - destruct (parse_protobuf_length_prefixed data 1) as [[[|] ?]| |] eqn:H1; simpl;
      [done|done|done|by apply Hp in H1].
Qed.

(** The parser looks at two of the three bits of a protobuf wire type: with
    the third bit of the tag flipped, every message is parsed the same, so the
    invalid wire type 6 passes for the length-delimited type 2. *)
Theorem wire_type_third_bit_ignored tag rest f :
  parse_protobuf_length_prefixed (N.lxor tag 4 :: rest) f =
  parse_protobuf_length_prefixed (tag :: rest) f.
Proof.
  unfold parse_protobuf_length_prefixed.
  assert (N.land (N.lxor tag 4) 3 = N.land tag 3) as ->.
  { apply N.bits_inj. intros k. rewrite !N.land_spec, N.lxor_spec.
    destruct (decide (k = 2)) as [->|Hk]; [by rewrite !andb_false_r|].
    change 4 with (2 ^ 2). rewrite N.pow2_bits_false by done. by rewrite xorb_false_r. }
  assert (N.shiftr (N.lxor tag 4) 3 = N.shiftr tag 3) as ->; [|done].
  rewrite N.shiftr_lxor. change (N.shiftr 4 3) with 0. apply N.lxor_0_r.
Qed.

(** Storage keys. A [u64] key decodes to the number whose big-endian bytes
    it holds, and a key of any other length is an error, never a panic. *)
Theorem wire_u64_key_roundtrip :
  (∀ n, n < 2 ^ 64 → De.deserialize_key N (to_be_bytes 8 n) = Ok n) ∧
  (∀ key, length key ≠ 8%nat → ∃ e, De.deserialize_key N key = Err e).
Proof.
  split.
  - intros n Hn. unfold De.deserialize_key, De.from_vec, De.u64_key.
    rewrite length_to_be_bytes. simpl Nat.eqb. cbv iota. by rewrite from_to_be_bytes.
  - intros key Hk. unfold De.deserialize_key, De.from_vec, De.u64_key.
    apply Nat.eqb_neq in Hk as ->. by eexists.
Qed.
End WireSpec.
