(* ===== verification/Arith.v ===== *)
(** * Arithmetic helpers

    packages/signed_integers and the vault's [math.rs]. *)
From S2P Require Import Prelude Cosmwasm.

(** ** packages/signed_integers/src/signed_integer.rs *)

(** The magnitude and whether the value is negative. *)
Record SignedInt : Type := mkSignedInt { si_abs : Uint128; si_neg : bool }.

Section arith.
Context `{Cosmwasm}.

Definition from_subtraction (minuend subtrahend : Uint128) : option SignedInt :=
  match uint_checked_sub minuend subtrahend with
  | None =>
      d ← uint_checked_sub subtrahend minuend;
      Some (mkSignedInt d true)
  | Some d => Some (mkSignedInt d false)
  end.

(** ** contracts/prism-vault/src/math.rs *)
Definition DECIMAL_FRACTIONAL : Uint128 := 1000000000.

Definition decimal_division (a : Uint128) (b : Decimal) : option Uint128 :=
  denominator ← uint_mul_dec DECIMAL_FRACTIONAL b;
  decimal ← dec_from_ratio a denominator;
  uint_mul_dec DECIMAL_FRACTIONAL decimal.
End arith.

(** ** Correctness *)
Section proofs.
Context {P : Cosmwasm} {L : CosmwasmLaws P}.

Definition signed_value (s : SignedInt) : Z :=
  if si_neg s then (- Z.of_N (si_abs s))%Z else Z.of_N (si_abs s).

Lemma from_subtraction_spec a b :
  from_subtraction a b =
  Some (if b <=? a then mkSignedInt (a - b) false else mkSignedInt (b - a) true).
Proof.
  unfold from_subtraction. rewrite !uint_checked_sub_law.
  destruct (N.leb_spec b a); [done|]. by rewrite (proj2 (N.leb_le a b)) by lia.
Qed.

(** The result of [decimal_division] when it returns. *)
Lemma decimal_division_Some a b c :
  decimal_division a b = Some c →
  let d := b / 10 ^ 9 in d ≠ 0 ∧ c = a * DECIMAL_UNIT / d / 10 ^ 9.
Proof.
  unfold decimal_division. intros H. simplify_option_eq. platform_facts.
  assert (DECIMAL_FRACTIONAL * b / DECIMAL_UNIT = b / 10 ^ 9) as Hd.
  { change DECIMAL_UNIT with (DECIMAL_FRACTIONAL * 10 ^ 9).
    by rewrite N.Div0.div_mul_cancel_l. }
  rewrite Hd in *. split; [done|].
  change DECIMAL_UNIT with (DECIMAL_FRACTIONAL * 10 ^ 9) at 2.
  by rewrite N.Div0.div_mul_cancel_l.
Qed.
End proofs.
