(* ===== verification/LpStaking.v ===== *)
(** * The LP staking contract (contracts/prism-lp-staking)

    State ([src/state.rs]), handlers ([src/handle.rs]), entry points
    ([src/contract.rs]) and queries ([src/query.rs]).  The storage is a record
    with one field per storage item; a handler takes the storage and returns
    the new storage with the response, or the error. *)
From S2P Require Import Prelude Cosmwasm Protocol.
Import LpStakingMsg.

Module LpStaking.

(** ** Errors (src/error.rs) *)
Inductive ContractError : Type :=
  | Std (e : StdError)
  | Unauthorized
  | InvalidStakingToken
  | NothingStaked
  | InvalidUnbondAmount
  | NothingAvailableToUnbond
  | NothingAvailableToWithdraw
  | InvalidCw20Msg
  | InvalidDistributionSchedule
  | DuplicateStakingToken
  | AlreadyExists
  | UnbondOrderOverwrite.
#[global] Instance from_std : FromErr StdError ContractError := Std.

(** ** State (src/state.rs) *)
Record Config : Type := mkConfig {
  owner : Addr;
  prism_token : Addr;
  distribution_schedule : list (N * N * Uint128);
  total_weight : N }.

Record PoolInfo : Type := mkPoolInfo {
  last_distributed : N;
  weight : N;
  total_bond_amount : Uint128;
  total_pending_withdraw : Uint128;
  pool_reward_index : Decimal;
  pool_pending_reward : Uint128;
  unbond_period : N }.

Record RewardInfo : Type := mkRewardInfo {
  reward_index : Decimal;
  bond_amount : Uint128;
  withdrawable_amount : Uint128;
  pending_reward : Uint128 }.

Definition RewardInfo_default : RewardInfo := mkRewardInfo 0 0 0 0.

Record Storage : Type := mkStorage {
  CONFIG : option Config;
  (** staking token -> PoolInfo *)
  POOLS : gmap Addr PoolInfo;
  (** (staker addr, staking token) -> RewardInfo *)
  REWARD_INFO : gmap (Addr * Addr) RewardInfo;
  (** (staker addr, staking token, order_creation_time) -> amount *)
  UNBOND_ORDERS : gmap (Addr * Addr * N) Uint128;
  (** (staking token, staker addr) -> bool *)
  STAKER_BY_TOKEN_INDEXER : gmap (Addr * Addr) bool }.

Definition set_config (c : Config) (st : Storage) : Storage :=
  mkStorage (Some c) (POOLS st) (REWARD_INFO st) (UNBOND_ORDERS st) (STAKER_BY_TOKEN_INDEXER st).
Definition set_pools (p : gmap Addr PoolInfo) (st : Storage) : Storage :=
  mkStorage (CONFIG st) p (REWARD_INFO st) (UNBOND_ORDERS st) (STAKER_BY_TOKEN_INDEXER st).
Definition set_reward_info (r : gmap (Addr * Addr) RewardInfo) (st : Storage) : Storage :=
  mkStorage (CONFIG st) (POOLS st) r (UNBOND_ORDERS st) (STAKER_BY_TOKEN_INDEXER st).
Definition set_unbond_orders (o : gmap (Addr * Addr * N) Uint128) (st : Storage) : Storage :=
  mkStorage (CONFIG st) (POOLS st) (REWARD_INFO st) o (STAKER_BY_TOKEN_INDEXER st).
Definition set_indexer (i : gmap (Addr * Addr) bool) (st : Storage) : Storage :=
  mkStorage (CONFIG st) (POOLS st) (REWARD_INFO st) (UNBOND_ORDERS st) i.
Definition save_pool (token : Addr) (p : PoolInfo) (st : Storage) : Storage :=
  set_pools (<[token := p]> (POOLS st)) st.

(** In-place updates of one field. *)
Definition with_weight (w : N) (p : PoolInfo) : PoolInfo :=
  mkPoolInfo (last_distributed p) w (total_bond_amount p) (total_pending_withdraw p)
    (pool_reward_index p) (pool_pending_reward p) (unbond_period p).
Definition with_unbond_period (u : N) (p : PoolInfo) : PoolInfo :=
  mkPoolInfo (last_distributed p) (weight p) (total_bond_amount p) (total_pending_withdraw p)
    (pool_reward_index p) (pool_pending_reward p) u.
Definition with_total_bond (b : Uint128) (p : PoolInfo) : PoolInfo :=
  mkPoolInfo (last_distributed p) (weight p) b (total_pending_withdraw p)
    (pool_reward_index p) (pool_pending_reward p) (unbond_period p).
Definition with_total_pending (w : Uint128) (p : PoolInfo) : PoolInfo :=
  mkPoolInfo (last_distributed p) (weight p) (total_bond_amount p) w
    (pool_reward_index p) (pool_pending_reward p) (unbond_period p).
Definition with_rewards (last : N) (idx : Decimal) (pending : Uint128) (p : PoolInfo) : PoolInfo :=
  mkPoolInfo last (weight p) (total_bond_amount p) (total_pending_withdraw p)
    idx pending (unbond_period p).
Definition with_bond (b : Uint128) (r : RewardInfo) : RewardInfo :=
  mkRewardInfo (reward_index r) b (withdrawable_amount r) (pending_reward r).
Definition with_withdrawable (w : Uint128) (r : RewardInfo) : RewardInfo :=
  mkRewardInfo (reward_index r) (bond_amount r) w (pending_reward r).
Definition with_pending (p : Uint128) (r : RewardInfo) : RewardInfo :=
  mkRewardInfo (reward_index r) (bond_amount r) (withdrawable_amount r) p.

Definition is_zero (n : N) : bool := n =? 0.

Section contract.
Context `{Cosmwasm}.

Notation Result := (outcome ContractError).
Notation StdResult := (outcome StdError).

Definition load_config (st : Storage) : StdResult Config := load "Config" (CONFIG st).
Definition now (env : Env) : N := ts_seconds (block_time env).

(** ** Rewards (src/handle.rs) *)

(** What one schedule entry distributes to the pool since its last update. *)
Definition schedule_amount (config : Config) (pool : PoolInfo) (current_time : N)
    (s : N * N * Uint128) : option Uint128 :=
  let '(start, finish, amount) := s in
  if (current_time <? start) || (finish <? last_distributed pool) then Some 0 else
  seconds_passed ← u64_sub (N.min finish current_time) (N.max start (last_distributed pool));
  num_seconds ← u64_sub finish start;
  ratio ← dec_from_ratio (weight pool) (total_weight config);
  pool_distribution_amount ← uint_mul_dec amount ratio;
  distribution_amount_per_second ← dec_from_ratio pool_distribution_amount num_seconds;
  uint_mul_dec seconds_passed distribution_amount_per_second.

Definition distributed (config : Config) (pool : PoolInfo) (current_time : N) : option Uint128 :=
  optfold (λ acc s, d ← schedule_amount config pool current_time s; uint_add acc d)
    0 (distribution_schedule config).

Definition compute_pool_reward (config : Config) (pool : PoolInfo) (current_time : N)
    : option PoolInfo :=
  distributed_amount ← distributed config pool current_time;
  if is_zero (total_bond_amount pool) then
    pending ← uint_add (pool_pending_reward pool) distributed_amount;
    Some (with_rewards current_time (pool_reward_index pool) pending pool)
  else
    reward ← uint_add (pool_pending_reward pool) distributed_amount;
    ratio ← dec_from_ratio reward (total_bond_amount pool);
    idx ← dec_add (pool_reward_index pool) ratio;
    Some (with_rewards current_time idx 0 pool).

Definition compute_staker_reward (pool : PoolInfo) (staker_info : RewardInfo) : option RewardInfo :=
  owed ← uint_mul_dec (bond_amount staker_info) (pool_reward_index pool);
  paid ← uint_mul_dec (bond_amount staker_info) (reward_index staker_info);
  accrued ← uint_sub owed paid;
  pending ← uint_add (pending_reward staker_info) accrued;
  Some (mkRewardInfo (pool_reward_index pool) (bond_amount staker_info)
          (withdrawable_amount staker_info) pending).

Definition increase_bond_amount (pool : PoolInfo) (staker_info : RewardInfo) (amount : Uint128)
    : option (PoolInfo * RewardInfo) :=
  total ← uint_add (total_bond_amount pool) amount;
  mine ← uint_add (bond_amount staker_info) amount;
  Some (with_total_bond total pool, with_bond mine staker_info).

Definition decrease_bond_amount (pool : PoolInfo) (staker_info : RewardInfo) (amount : Uint128)
    : option (PoolInfo * RewardInfo) :=
  total ← uint_sub (total_bond_amount pool) amount;
  mine ← uint_sub (bond_amount staker_info) amount;
  Some (with_total_bond total pool, with_bond mine staker_info).

(** ** Withdraw orders (src/state.rs) *)
Definition MAX_ORDER_WITHDRAW_PER_TX : N := 50.

Definition withdrawable_step (current_time period : N)
    (acc : Uint128 * list N * N) (item : N * Uint128) : option (Uint128 * list N * N) :=
  let '(amount, times, count) := acc in
  let '(order_time, v) := item in
  count ← u64_add count 1;
  if count <=? MAX_ORDER_WITHDRAW_PER_TX then
    expiry ← u64_add order_time period;
    if expiry <? current_time then
      amount ← uint_add amount v;
      Some (amount, times ++ [order_time], count)
    else Some (amount, times, count)
  else Some (amount, times, count).

Definition get_withdrawable_amount (st : Storage) (staker staking_token : Addr)
    (current_time period : N) : StdResult (Uint128 * list N * N) :=
  let! res := optfold (withdrawable_step current_time period) (0, [], 0)
    (take (N.to_nat (MAX_ORDER_WITHDRAW_PER_TX + 1))
       (range_u64 (prefix (UNBOND_ORDERS st) (staker, staking_token)))) in
  Ok res.

Definition remove_orders (staker staking_token : Addr) (expired : list N)
    (orders : gmap (Addr * Addr * N) Uint128) : gmap (Addr * Addr * N) Uint128 :=
  foldl (λ m t, delete (staker, staking_token, t) m) orders expired.

Definition remove_withdrawn (st : Storage) (staker staking_token : Addr) (expired : list N) : Storage :=
  set_unbond_orders (remove_orders staker staking_token expired (UNBOND_ORDERS st)) st.

(** Returns [true] if there are pending withdraw orders. *)
Definition pull_expired_withdraw_orders (st : Storage) (staker staking_token : Addr)
    (staker_info : RewardInfo) (current_time period : N)
    : StdResult (Storage * RewardInfo * bool) :=
  let? '(amount, expired, order_count) :=
    get_withdrawable_amount st staker staking_token current_time period in
  let! withdrawable := uint_add (withdrawable_amount staker_info) amount in
  let expired_count := N.of_nat (length expired) in
  Ok (remove_withdrawn st staker staking_token expired,
      with_withdrawable withdrawable staker_info,
      expired_count <? order_count).

Definition update_or_remove_staker_rewards (st : Storage) (info : MessageInfo)
    (staking_token : Addr) (r : RewardInfo) (orders_pending : bool) : Storage :=
  if is_zero (pending_reward r) && is_zero (bond_amount r)
     && is_zero (withdrawable_amount r) && negb orders_pending
  then set_indexer (delete (staking_token, info_sender info) (STAKER_BY_TOKEN_INDEXER st))
         (set_reward_info (delete (info_sender info, staking_token) (REWARD_INFO st)) st)
  else set_reward_info (<[(info_sender info, staking_token) := r]> (REWARD_INFO st)) st.

(** ** Owner operations *)
Definition update_owner (st : Storage) (info : MessageInfo) (new_owner : Addr)
    : Result (Storage * Response) :=
  let? config := load_config st in
  if bool_decide (owner config ≠ info_sender info) then Err Unauthorized else
  let config := mkConfig new_owner (prism_token config)
    (distribution_schedule config) (total_weight config) in
  Ok (set_config config st, respond [] [("action", AStr "update_owner")]).

(** The condition under which [add_distribution_schedule] rejects an entry. *)
Definition schedule_invalid (current_time : N) (s : N * N * Uint128) : bool :=
  let '(start, finish, amount) := s in
  (start <? current_time) || (finish <=? start) || is_zero amount.

Definition add_distribution_schedule (st : Storage) (env : Env) (info : MessageInfo)
    (schedule : list (N * N * Uint128)) : Result (Storage * Response) :=
  let? config := load_config st in
  if bool_decide (owner config ≠ info_sender info) then Err Unauthorized else
  if existsb (schedule_invalid (now env)) schedule then Err InvalidDistributionSchedule else
  let config := mkConfig (owner config) (prism_token config)
    (distribution_schedule config ++ schedule) (total_weight config) in
  Ok (set_config config st, respond [] [("action", AStr "add_distribution_schedule")]).

(** Body of the loop of [register_staking_token] over the existing pools. *)
Definition register_step (config : Config) (staking_token : Addr) (current_time : N)
    (st : Storage) (item : Addr * PoolInfo) : Result Storage :=
  let '(pool_staking_token, pool) := item in
  if bool_decide (pool_staking_token = staking_token) then Err AlreadyExists else
  let! pool := compute_pool_reward config pool current_time in
  Ok (save_pool pool_staking_token pool st).

Definition new_pool (current_time weight period : N) : PoolInfo :=
  mkPoolInfo current_time weight 0 0 0 0 period.

Definition register_staking_token (st : Storage) (env : Env) (info : MessageInfo)
    (staking_token : Addr) (period weight : N) : Result (Storage * Response) :=
  let? config := load_config st in
  if bool_decide (owner config ≠ info_sender info) then Err Unauthorized else
  let? st := ofold (register_step config staking_token (now env)) st (range_addr (POOLS st)) in
  let st := save_pool staking_token (new_pool (now env) weight period) st in
  let! total := u64_add (total_weight config) weight in
  let config := mkConfig (owner config) (prism_token config)
    (distribution_schedule config) total in
  Ok (set_config config st, respond [] [("action", AStr "register_staking_token")]).

(** Body of the loop of [update_staking_token]; the accumulator holds the
    storage, the configuration and the [pool_found] flag. *)
Definition update_weight_step (staking_token : Addr) (new_weight current_time : N)
    (acc : Storage * Config * bool) (item : Addr * PoolInfo)
    : Result (Storage * Config * bool) :=
  let '(st, config, pool_found) := acc in
  let '(pool_staking_token, pool) := item in
  let! pool := compute_pool_reward config pool current_time in
  if bool_decide (pool_staking_token = staking_token) then
    let! total := u64_sub (total_weight config) (weight pool) in
    let! total := u64_add total new_weight in
    let config := mkConfig (owner config) (prism_token config)
      (distribution_schedule config) total in
    Ok (save_pool pool_staking_token (with_weight new_weight pool) st, config, true)
  else Ok (save_pool pool_staking_token pool st, config, pool_found).

Definition update_staking_token (st : Storage) (env : Env) (info : MessageInfo)
    (staking_token : Addr) (new_period new_weight : option N) : Result (Storage * Response) :=
  let? config := load_config st in
  if bool_decide (owner config ≠ info_sender info) then Err Unauthorized else
  let? st :=
    match new_weight with
    | Some new_weight =>
        let? '(st, config, pool_found) :=
          ofold (update_weight_step staking_token new_weight (now env)) (st, config, false)
            (range_addr (POOLS st)) in
        if negb pool_found then Err InvalidStakingToken else Ok (set_config config st)
    | None => Ok st
    end in
  let? st :=
    match new_period with
    | Some period =>
        let? pool := ok_or (POOLS st !! staking_token) InvalidStakingToken in
        Ok (save_pool staking_token (with_unbond_period period pool) st)
    | None => Ok st
    end in
  Ok (st, respond [] [("action", AStr "update_staking_token")]).

(** ** Staker operations *)
Definition bond (st : Storage) (env : Env) (staking_token sender_addr : Addr)
    (amount : Uint128) (pool_info : option PoolInfo) : Result (Storage * Response) :=
  let? config := load_config st in
  (* the argument of [unwrap_or] is evaluated in any case *)
  let? stored := ok_or (POOLS st !! staking_token) InvalidStakingToken in
  let pool_info := default stored pool_info in
  let staker_reward_info := default RewardInfo_default (REWARD_INFO st !! (sender_addr, staking_token)) in
  let? '(st, staker_reward_info, _) :=
    pull_expired_withdraw_orders st sender_addr staking_token staker_reward_info
      (now env) (unbond_period pool_info) in
  let! pool_info := compute_pool_reward config pool_info (now env) in
  let! staker_reward_info := compute_staker_reward pool_info staker_reward_info in
  let! '(pool_info, staker_reward_info) :=
    increase_bond_amount pool_info staker_reward_info amount in
  let st := set_reward_info
    (<[(sender_addr, staking_token) := staker_reward_info]> (REWARD_INFO st)) st in
  let st := set_indexer
    (<[(staking_token, sender_addr) := true]> (STAKER_BY_TOKEN_INDEXER st)) st in
  let st := save_pool staking_token pool_info st in
  Ok (st, respond []
    [("action", AStr "bond"); ("staking_token", AStr staking_token);
     ("staker", AStr sender_addr); ("amount", ANum amount)]).

Definition transfer_msg (token recipient : Addr) (amount : Uint128) : CosmosMsg :=
  WasmExecute token (BinCw20 (Cw20.Transfer recipient amount)) [].

Definition unbond (st : Storage) (env : Env) (info : MessageInfo) (staking_token : Addr)
    (amount : option Uint128) : Result (Storage * Response) :=
  let staker := info_sender info in
  let? config := load_config st in
  let? pool := ok_or (POOLS st !! staking_token) InvalidStakingToken in
  let? staker_reward_info := ok_or (REWARD_INFO st !! (staker, staking_token)) NothingStaked in
  let? '(st, staker_reward_info, orders_pending) :=
    pull_expired_withdraw_orders st staker staking_token staker_reward_info
      (now env) (unbond_period pool) in
  if is_zero (bond_amount staker_reward_info) then Err NothingAvailableToUnbond else
  let? amount_to_unbond :=
    match amount with
    | Some amount =>
        if bond_amount staker_reward_info <? amount then Err InvalidUnbondAmount else Ok amount
    | None => Ok (bond_amount staker_reward_info)
    end in
  let! pool := compute_pool_reward config pool (now env) in
  let! staker_reward_info := compute_staker_reward pool staker_reward_info in
  let! '(pool, staker_reward_info) :=
    decrease_bond_amount pool staker_reward_info amount_to_unbond in
  let attrs := [("action", AStr "unbond"); ("staking_token", AStr staking_token);
    ("staker", AStr staker); ("amount", ANum amount_to_unbond)] in
  let? '(st, pool, orders_pending, msgs, attrs) :=
    if unbond_period pool =? 0 then
      Ok (st, pool, orders_pending, [transfer_msg staking_token staker amount_to_unbond],
          attrs ++ [("unbond_order_created", AStr "false")])
    else
      match UNBOND_ORDERS st !! (staker, staking_token, now env) with
      | Some _ => Err UnbondOrderOverwrite
      | None =>
          let st := set_unbond_orders
            (<[(staker, staking_token, now env) := amount_to_unbond]> (UNBOND_ORDERS st)) st in
          let! pending := uint_add (total_pending_withdraw pool) amount_to_unbond in
          let! expiry := ts_plus_seconds (block_time env) (unbond_period pool) in
          Ok (st, with_total_pending pending pool, true, [],
              attrs ++ [("unbond_order_created", AStr "true");
                        ("expected_expire_time", ANum (ts_seconds expiry))])
      end in
  let st := save_pool staking_token pool st in
  let st := update_or_remove_staker_rewards st info staking_token staker_reward_info orders_pending in
  Ok (st, respond msgs attrs).

Definition claim_unbonded (st : Storage) (env : Env) (info : MessageInfo) (staking_token : Addr)
    : Result (Storage * Response) :=
  let staker := info_sender info in
  let? pool := ok_or (POOLS st !! staking_token) InvalidStakingToken in
  let? staker_reward_info := ok_or (REWARD_INFO st !! (staker, staking_token)) NothingStaked in
  let? '(st, staker_reward_info, orders_pending) :=
    pull_expired_withdraw_orders st staker staking_token staker_reward_info
      (now env) (unbond_period pool) in
  if is_zero (withdrawable_amount staker_reward_info) then Err NothingAvailableToWithdraw else
  let amount_to_send := withdrawable_amount staker_reward_info in
  let staker_reward_info := with_withdrawable 0 staker_reward_info in
  let! pending := uint_sub (total_pending_withdraw pool) amount_to_send in
  let st := save_pool staking_token (with_total_pending pending pool) st in
  let st := update_or_remove_staker_rewards st info staking_token staker_reward_info orders_pending in
  Ok (st, respond [transfer_msg staking_token staker amount_to_send]
    [("action", AStr "claim_unbonded"); ("staking_token", AStr staking_token);
     ("staker", AStr staker); ("amount", ANum amount_to_send)]).

(** Body of the loop of [claim_rewards]; the accumulator holds the storage and
    the amount claimed so far. *)
Definition claim_step (config : Config) (env : Env) (info : MessageInfo)
    (acc : Storage * Uint128) (item : Addr * RewardInfo) : Result (Storage * Uint128) :=
  let '(st, claim_amount) := acc in
  let '(staking_token, staker_reward_info) := item in
  let? pool := load "PoolInfo" (POOLS st !! staking_token) in
  let? '(st, staker_reward_info, orders_pending) :=
    pull_expired_withdraw_orders st (info_sender info) staking_token staker_reward_info
      (now env) (unbond_period pool) in
  let! pool := compute_pool_reward config pool (now env) in
  let! staker_reward_info := compute_staker_reward pool staker_reward_info in
  let! claim_amount := uint_add claim_amount (pending_reward staker_reward_info) in
  let staker_reward_info := with_pending 0 staker_reward_info in
  let st := update_or_remove_staker_rewards st info staking_token staker_reward_info orders_pending in
  Ok (save_pool staking_token pool st, claim_amount).

Definition claim_rewards (st : Storage) (env : Env) (info : MessageInfo)
    (staking_token : option Addr) : Result (Storage * Response) :=
  let? config := load_config st in
  let? reward_infos :=
    match staking_token with
    | Some token =>
        let? reward_info := ok_or (REWARD_INFO st !! (info_sender info, token)) InvalidStakingToken in
        Ok [(token, reward_info)]
    | None => Ok (range_addr (prefix (REWARD_INFO st) (info_sender info)))
    end in
  let? '(st, claim_amount) := ofold (claim_step config env info) (st, 0) reward_infos in
  let msgs :=
    if is_zero claim_amount then []
    else [transfer_msg (prism_token config) (info_sender info) claim_amount] in
  Ok (st, respond msgs
    [("action", AStr "claim_rewards"); ("staker", AStr (info_sender info));
     ("claim_amount", ANum claim_amount)]).

Definition auto_stake_hook (st : Storage) (q : Querier) (env : Env)
    (staking_token sender_addr : Addr) : Result (Storage * Response) :=
  let? staking_token_balance := query_token_balance q staking_token (contract_address env) in
  let? pool_info := ok_or (POOLS st !! staking_token) InvalidStakingToken in
  let! amount := uint_sub staking_token_balance (total_bond_amount pool_info) in
  let! amount := uint_sub amount (total_pending_withdraw pool_info) in
  bond st env staking_token sender_addr amount (Some pool_info).

(** ** Entry points (src/contract.rs) *)

(** Order on [(String, u64, u64)], lexicographic. *)
Definition token_le (x y : string * N * N) : Prop :=
  let '(s1, w1, p1) := x in
  let '(s2, w2, p2) := y in
  (s1 ≠ s2 ∧ String.le s1 s2) ∨ (s1 = s2 ∧ (w1 < w2 ∨ (w1 = w2 ∧ p1 ≤ p2))).
#[global] Instance token_le_dec : RelDecision token_le.
Proof. intros [[s1 w1] p1] [[s2 w2] p2]. unfold token_le. apply _. Defined.

(** [Vec::dedup_by]: drops an element equal to the last one kept. *)
Fixpoint dedup_from (prev : string * N * N) (l : list (string * N * N)) : list (string * N * N) :=
  match l with
  | [] => []
  | a :: l => if bool_decide (a.1.1 = prev.1.1) then dedup_from prev l else a :: dedup_from a l
  end.
Definition dedup_tokens (l : list (string * N * N)) : list (string * N * N) :=
  match l with [] => [] | a :: l => a :: dedup_from a l end.

Definition instantiate_pool (env : Env) (pools : gmap Addr PoolInfo) (item : string * N * N)
    : Result (gmap Addr PoolInfo) :=
  let '(staking_token, weight, period) := item in
  let? addr := addr_validate staking_token in
  Ok (<[addr := new_pool (now env) weight period]> pools).

Definition instantiate (env : Env) (msg : InstantiateMsg) : Result (Storage * Response) :=
  if existsb (λ '(start, finish, _), finish <=? start) (LpStakingMsg.distribution_schedule msg)
  then Err InvalidDistributionSchedule else
  let staking_tokens := dedup_tokens (merge_sort token_le (LpStakingMsg.staking_tokens msg)) in
  if negb (length staking_tokens =? length (LpStakingMsg.staking_tokens msg))%nat
  then Err DuplicateStakingToken else
  let? owner := addr_validate (LpStakingMsg.owner msg) in
  let? prism_token := addr_validate (LpStakingMsg.prism_token msg) in
  let! total := optfold (λ acc item, u64_add acc item.1.2) 0 staking_tokens in
  let config := mkConfig owner prism_token (LpStakingMsg.distribution_schedule msg) total in
  let? pools := ofold (instantiate_pool env) ∅ staking_tokens in
  Ok (mkStorage (Some config) pools ∅ ∅ ∅, respond [] []).

(** [from_binary] is the parser of the hook message. *)
Definition receive_cw20 (from_binary : Binary → StdResult Cw20HookMsg)
    (st : Storage) (env : Env) (info : MessageInfo) (msg : Cw20ReceiveMsg Binary)
    : Result (Storage * Response) :=
  let? sender := addr_validate (cw20_sender msg) in
  match from_binary (cw20_msg msg) with
  | Ok Bond => bond st env (info_sender info) sender (cw20_amount msg) None
  | Err _ => Err InvalidCw20Msg
  | Panic => Panic
  end.

Definition execute (from_binary : Binary → StdResult Cw20HookMsg)
    (st : Storage) (q : Querier) (env : Env) (info : MessageInfo) (msg : ExecuteMsg Binary)
    : Result (Storage * Response) :=
  match msg with
  | Receive msg => receive_cw20 from_binary st env info msg
  | UpdateOwner owner =>
      let? new_owner := addr_validate owner in
      update_owner st info new_owner
  | AddDistributionSchedule schedule => add_distribution_schedule st env info schedule
  | RegisterStakingToken staking_token period weight =>
      let? token := addr_validate staking_token in
      register_staking_token st env info token period weight
  | UpdateStakingToken staking_token period weight =>
      let? token := addr_validate staking_token in
      update_staking_token st env info token period weight
  | Unbond staking_token amount =>
      let? token := addr_validate staking_token in
      unbond st env info token amount
  | ClaimUnbonded staking_token =>
      let? token := addr_validate staking_token in
      claim_unbonded st env info token
  | ClaimRewards None => claim_rewards st env info None
  | ClaimRewards (Some staking_token) =>
      let! token := unwrap (addr_validate staking_token) in
      claim_rewards st env info (Some token)
  | AutoStakeHook staking_token =>
      let? token := addr_validate staking_token in
      auto_stake_hook st q env token (info_sender info)
  end.

(** ** Queries (src/query.rs, src/state.rs) *)
Definition config_as_res (c : Config) : ConfigResponse :=
  mkConfigResponse (owner c) (prism_token c) (distribution_schedule c) (total_weight c).

Definition query_config (st : Storage) : Result ConfigResponse :=
  let? config := load_config st in Ok (config_as_res config).

Definition pool_as_res (p : PoolInfo) (staking_token : Addr) : PoolInfoResponse :=
  mkPoolInfoResponse (weight p) (last_distributed p) staking_token (total_bond_amount p)
    (total_pending_withdraw p) (pool_reward_index p) (pool_pending_reward p) (unbond_period p).

Definition query_pool_info (st : Storage) (staking_token : Addr) : Result PoolInfoResponse :=
  let? pool := load "PoolInfo" (POOLS st !! staking_token) in
  Ok (pool_as_res pool staking_token).

Definition reward_as_res (r : RewardInfo) (staking_token : Addr) : RewardInfoResponseItem :=
  mkRewardInfoItem staking_token (bond_amount r) (pending_reward r) (withdrawable_amount r).

(** The up-to-date reward info of one staker, as the queries compute it.  The
    three callers run these steps in different orders; each step can only
    panic, so the order does not show in the result. *)
Definition updated_reward_info (st : Storage) (current_time : N) (staker staking_token : Addr)
    (pool : PoolInfo) (r : RewardInfo) : StdResult RewardInfoResponseItem :=
  let? '(amount, _, _) :=
    get_withdrawable_amount st staker staking_token current_time (unbond_period pool) in
  let! withdrawable := uint_add (withdrawable_amount r) amount in
  let! r := compute_staker_reward pool (with_withdrawable withdrawable r) in
  Ok (reward_as_res r staking_token).

Definition read_updated_staker_rewards (st : Storage) (current_time : N) (staker : Addr)
    : StdResult (list RewardInfoResponseItem) :=
  let? config := load_config st in
  omapM (λ '(staking_token, r),
      let? pool := load "PoolInfo" (POOLS st !! staking_token) in
      let! pool := compute_pool_reward config pool current_time in
      updated_reward_info st current_time staker staking_token pool r)
    (range_addr (prefix (REWARD_INFO st) staker)).

Definition query_staker_info (st : Storage) (env : Env) (staker : Addr)
    (staking_token : option Addr) : Result StakerInfoResponse :=
  let? rewards :=
    match staking_token with
    | Some staking_token =>
        let? config := load_config st in
        let? pool := load "PoolInfo" (POOLS st !! staking_token) in
        let? r := load "RewardInfo" (REWARD_INFO st !! (staker, staking_token)) in
        let! pool := compute_pool_reward config pool (now env) in
        let? item := updated_reward_info st (now env) staker staking_token pool r in
        Ok [item]
    | None => read_updated_staker_rewards st (now env) staker
    end in
  Ok (mkStakerInfo staker rewards).

Definition MAX_LIMIT : N := 30.
Definition DEFAULT_LIMIT : N := 10.

Definition read_token_stakers_with_updated_rewards (st : Storage) (current_time : N)
    (staking_token : Addr) (start_after : option Addr) (limit : option N)
    : StdResult (list StakerInfoResponse) :=
  let limit := N.to_nat (N.min (default DEFAULT_LIMIT limit) MAX_LIMIT) in
  let? config := load_config st in
  let? pool := load "PoolInfo" (POOLS st !! staking_token) in
  let! pool := compute_pool_reward config pool current_time in
  omapM (λ '(staker, _),
      let? r := load "RewardInfo" (REWARD_INFO st !! (staker, staking_token)) in
      let? item := updated_reward_info st current_time staker staking_token pool r in
      Ok (mkStakerInfo staker [item]))
    (take limit (after String.ltb start_after
       (range_addr (prefix (STAKER_BY_TOKEN_INDEXER st) staking_token)))).

Definition query_token_stakers_info (st : Storage) (env : Env) (staking_token : Addr)
    (start_after : option Addr) (limit : option N) : Result (list StakerInfoResponse) :=
  let? res := read_token_stakers_with_updated_rewards st (now env) staking_token start_after limit in
  Ok res.

Definition MAX_ORDER_LIMIT : N := 50.
Definition DEFAULT_ORDER_LIMIT : N := 30.

Definition query_unbond_orders (st : Storage) (env : Env) (staking_token staker : Addr)
    (start_after limit : option N) : StdResult UnbondOrdersResponse :=
  let? pool := load "PoolInfo" (POOLS st !! staking_token) in
  let limit := N.to_nat (N.min (default DEFAULT_ORDER_LIMIT limit) MAX_ORDER_LIMIT) in
  let! '(withdrawable, orders) :=
    optfold (λ '(withdrawable, orders) '(order_time, amount),
        end_time ← u64_add order_time (unbond_period pool);
        if end_time <? now env then
          withdrawable ← uint_add withdrawable amount;
          Some (withdrawable, orders ++ [(end_time, amount)])
        else Some (withdrawable, orders ++ [(end_time, amount)])) (0, [])
      (take limit (after N.ltb start_after
         (range_u64 (prefix (UNBOND_ORDERS st) (staker, staking_token))))) in
  Ok (mkUnbondOrdersResponse withdrawable orders).

(** The answer a query serialises. *)
Inductive QueryAnswer : Type :=
  | AConfig (r : ConfigResponse)
  | APoolInfo (r : PoolInfoResponse)
  | AStakerInfo (r : StakerInfoResponse)
  | AStakersInfo (r : list StakerInfoResponse)
  | AUnbondOrders (r : UnbondOrdersResponse).

(** [opt.map(|item| deps.api.addr_validate(&item).unwrap())] *)
Definition validate_unwrap (o : option string) : option (option Addr) :=
  match o with
  | Some item => a ← unwrap (addr_validate item); Some (Some a)
  | None => Some None
  end.

Definition query (st : Storage) (env : Env) (msg : QueryMsg) : Result QueryAnswer :=
  match msg with
  | QConfig => let? r := query_config st in Ok (AConfig r)
  | QPoolInfo staking_token =>
      let? token := addr_validate staking_token in
      let? r := query_pool_info st token in Ok (APoolInfo r)
  | QStakerInfo staker staking_token =>
      let? staker_addr := addr_validate staker in
      let! token := validate_unwrap staking_token in
      let? r := query_staker_info st env staker_addr token in Ok (AStakerInfo r)
  | QTokenStakersInfo staking_token start_after limit =>
      let? token := addr_validate staking_token in
      let! start := validate_unwrap start_after in
      let? r := query_token_stakers_info st env token start limit in Ok (AStakersInfo r)
  | QUnbondOrders staking_token staker start_after limit =>
      let? token := addr_validate staking_token in
      let? staker_addr := addr_validate staker in
      let? r := query_unbond_orders st env token staker_addr start_after limit in
      Ok (AUnbondOrders r)
  end.

End contract.
End LpStaking.
