(* ===== verification/LpStakingProofs.v ===== *)
(** * Correctness of the LP staking contract *)
From S2P Require Import Prelude Cosmwasm Protocol LpStaking.
Import LpStakingMsg LpStaking.

Section proofs.
Context {P : Cosmwasm} {L : CosmwasmLaws P}.

(** ** Withdraw orders *)

(** The orders one call releases: the expired ones among the first
    [MAX_ORDER_WITHDRAW_PER_TX] in creation order. *)
Definition expired_orders (current_time period : N) (l : list (N * Uint128)) : list (N * Uint128) :=
  filter (λ kv, kv.1 + period < current_time) (take (N.to_nat MAX_ORDER_WITHDRAW_PER_TX) l).

Lemma withdrawable_fold_spec current_time period l amt ts c res :
  optfold (withdrawable_step current_time period) (amt, ts, c) l = Some res →
  let picked := filter (λ kv, kv.1 + period < current_time)
                  (take (N.to_nat (MAX_ORDER_WITHDRAW_PER_TX - c)) l) in
  res = (amt + sum_N picked.*2, ts ++ picked.*1, c + N.of_nat (length l)).
Proof.
  revert amt ts c. induction l as [|[t v] l IH]; intros amt ts c; simpl.
  - intros [= <-]. rewrite take_nil. simpl. rewrite app_nil_r. split_pairs; lia.
  - destruct (u64_add c 1) as [c'|] eqn:Hc; simpl; [|discriminate].
    platform_facts. destruct (N.leb_spec (c + 1) MAX_ORDER_WITHDRAW_PER_TX) as [Hle|Hgt].
    + replace (N.to_nat (MAX_ORDER_WITHDRAW_PER_TX - c))
        with (S (N.to_nat (MAX_ORDER_WITHDRAW_PER_TX - (c + 1)))) by lia.
      destruct (u64_add t period) as [e|] eqn:He; simpl; [|discriminate].
      platform_facts. destruct (N.ltb_spec (t + period) current_time) as [Hlt|Hge].
      * destruct (uint_add amt v) as [amt'|] eqn:Ha; simpl; [|discriminate].
        platform_facts. intros Hf%IH. subst res. rewrite filter_cons_True by done. csimpl.
        rewrite <-app_assoc. csimpl. split_pairs; lia.
      * simpl. intros Hf%IH. subst res. rewrite filter_cons_False by (simpl; lia).
        split_pairs; lia.
    + simpl. intros Hf%IH. subst res.
      replace (N.to_nat (MAX_ORDER_WITHDRAW_PER_TX - (c + 1))) with 0%nat by lia.
      replace (N.to_nat (MAX_ORDER_WITHDRAW_PER_TX - c)) with 0%nat by lia.
      simpl. split_pairs; lia.
Qed.

Definition orders_of (st : Storage) (staker staking_token : Addr) : gmap N Uint128 :=
  prefix (UNBOND_ORDERS st) (staker, staking_token).

Lemma get_withdrawable_amount_spec st staker token t period amount times count :
  get_withdrawable_amount st staker token t period = Ok (amount, times, count) →
  let l := range_u64 (orders_of st staker token) in
  let picked := expired_orders t period l in
  amount = sum_N picked.*2 ∧ times = picked.*1 ∧
  count = N.of_nat (length (take (N.to_nat (MAX_ORDER_WITHDRAW_PER_TX + 1)) l)).
Proof.
  unfold get_withdrawable_amount. intros H. inv_ok H. subst.
  apply withdrawable_fold_spec in Ha. injection Ha as -> -> ->.
  unfold expired_orders, orders_of. rewrite take_take.
  replace (N.to_nat (MAX_ORDER_WITHDRAW_PER_TX - 0) `min` N.to_nat (MAX_ORDER_WITHDRAW_PER_TX + 1))%nat
    with (N.to_nat MAX_ORDER_WITHDRAW_PER_TX) by reflexivity.
  split_and!; [lia|done|lia].
Qed.

Lemma lookup_remove_orders staker token ts orders s t n :
  remove_orders staker token ts orders !! (s, t, n) =
  if decide (s = staker ∧ t = token ∧ n ∈ ts) then None else orders !! (s, t, n).
Proof.
  unfold remove_orders. revert orders. induction ts as [|x ts IH]; intros orders; simpl.
  - rewrite decide_False; [done|set_solver].
  - rewrite IH. destruct (decide ((s, t, n) = (staker, token, x))) as [Heq|Hne].
    + rewrite Heq, lookup_delete_eq. injection Heq as -> -> ->.
      rewrite (decide_True (P:=_ ∧ _ ∧ x ∈ x :: ts)) by set_solver. by case_decide.
    + rewrite lookup_delete_ne by congruence.
      destruct (decide (s = staker ∧ t = token ∧ n ∈ ts)) as [(?&?&?)|Hn].
      * rewrite decide_True; [done|set_solver].
      * rewrite decide_False; [done|]. intros (-> & -> & [->|?]%elem_of_cons); naive_solver.
Qed.

(** What an order, a staker's bond and a staker's unlocked balance contribute
    to the totals of [token]. *)
Definition order_of (token : Addr) (k : Addr * Addr * N) (v : Uint128) : N :=
  if decide (k.1.2 = token) then v else 0.
Definition bond_of (token : Addr) (k : Addr * Addr) (r : RewardInfo) : N :=
  if decide (k.2 = token) then bond_amount r else 0.
Definition unlocked_of (token : Addr) (k : Addr * Addr) (r : RewardInfo) : N :=
  if decide (k.2 = token) then withdrawable_amount r else 0.

Lemma remove_orders_sum token staker token' picked orders :
  NoDup picked.*1 →
  (∀ t v, (t, v) ∈ picked → orders !! (staker, token', t) = Some v) →
  map_sum (order_of token) orders =
  map_sum (order_of token) (remove_orders staker token' picked.*1 orders) +
  (if decide (token' = token) then sum_N picked.*2 else 0).
Proof.
  revert orders. induction picked as [|[t v] picked IH]; intros orders Hnd Hin; csimpl.
  - case_decide; lia.
  - apply NoDup_cons in Hnd as [Hni Hnd].
    rewrite (map_sum_delete (order_of token) orders (staker, token', t) v)
      by (apply Hin; set_solver).
    assert (∀ t' v', (t', v') ∈ picked →
      delete (staker, token', t) orders !! (staker, token', t') = Some v') as Hin'.
    { intros t' v' Hp. rewrite lookup_delete_ne; [apply Hin; set_solver|].
      intros [= ->]. apply Hni. apply list_elem_of_fmap. by exists (t', v'). }
    specialize (IH _ Hnd Hin'). unfold remove_orders in *; csimpl. rewrite IH.
    unfold order_of at 1; simpl. case_decide; lia.
Qed.

Lemma expired_orders_lookup st staker token t period n v :
  (n, v) ∈ expired_orders t period (range_u64 (orders_of st staker token)) →
  UNBOND_ORDERS st !! (staker, token, n) = Some v ∧ n + period < t.
Proof.
  unfold expired_orders. intros [Hexp Hin]%list_elem_of_filter. split; [|done].
  rewrite <-lookup_prefix. apply elem_of_range_u64.
  eapply elem_of_submseteq; [exact Hin|]. apply sublist_submseteq, sublist_take.
Qed.

Lemma expired_orders_NoDup st staker token t period :
  NoDup (expired_orders t period (range_u64 (orders_of st staker token))).*1.
Proof.
  eapply sublist_NoDup; [apply (NoDup_range_u64 (orders_of st staker token))|apply fmap_sublist]. etrans; [apply sublist_filter|apply sublist_take].
Qed.

(** What one call of [pull_expired_withdraw_orders] does: it moves the expired
    orders into the withdrawable balance, changes nothing else, and reports
    whether the staker still has orders of this token. *)
Lemma pull_expired_spec st staker token r t period st' r' pending :
  pull_expired_withdraw_orders st staker token r t period = Ok (st', r', pending) →
  let picked := expired_orders t period (range_u64 (orders_of st staker token)) in
  st' = remove_withdrawn st staker token picked.*1 ∧
  r' = with_withdrawable (withdrawable_amount r + sum_N picked.*2) r ∧
  pending = (N.of_nat (length picked) <?
    N.of_nat (length (take (N.to_nat (MAX_ORDER_WITHDRAW_PER_TX + 1))
                        (range_u64 (orders_of st staker token))))).
Proof.
  unfold pull_expired_withdraw_orders. intros H. inv_ok H. subst. simplify_eq.
  apply get_withdrawable_amount_spec in Ha as (-> & -> & ->). platform_facts.
  by rewrite length_fmap.
Qed.

Lemma orders_after_removal st staker token t period n :
  let picked := expired_orders t period (range_u64 (orders_of st staker token)) in
  orders_of (remove_withdrawn st staker token picked.*1) staker token !! n =
  if decide (n ∈ picked.*1) then None else orders_of st staker token !! n.
Proof.
  intros picked. unfold orders_of. rewrite !lookup_prefix. simpl.
  rewrite lookup_remove_orders. by repeat case_decide; naive_solver.
Qed.

Lemma pending_flag_correct st staker token t period :
  let l := range_u64 (orders_of st staker token) in
  let picked := expired_orders t period l in
  (N.of_nat (length picked) <?
     N.of_nat (length (take (N.to_nat (MAX_ORDER_WITHDRAW_PER_TX + 1)) l))) = true ↔
  orders_of (remove_withdrawn st staker token picked.*1) staker token ≠ ∅.
Proof.
  intros l picked. rewrite N.ltb_lt.
  assert (picked `sublist_of` take (N.to_nat MAX_ORDER_WITHDRAW_PER_TX) l) as Hsub
    by apply sublist_filter.
  assert (length picked ≤ N.to_nat MAX_ORDER_WITHDRAW_PER_TX)%nat as Hlen.
  { etrans; [by apply sublist_length|]. rewrite length_take. lia. }
  assert (∀ n v, (n, v) ∈ l ↔ orders_of st staker token !! n = Some v) as Hl
    by (intros; apply elem_of_range_u64).
  pose proof (NoDup_range_u64 (orders_of st staker token)) as Hnd. fold l in Hnd.
  pose proof (orders_after_removal st staker token t period) as Hafter.
  cbv zeta in Hafter. fold l picked in Hafter.
  split.
  - intros Hlt Hempty.
    assert (take (N.to_nat (MAX_ORDER_WITHDRAW_PER_TX + 1)) l ⊆+ picked) as Hsm%submseteq_length.
    { apply NoDup_submseteq.
      - eapply (NoDup_fmap_1 fst). eapply sublist_NoDup; [exact Hnd|].
        apply fmap_sublist, sublist_take.
      - intros [n v] Hin.
        assert ((n, v) ∈ l) as Hinl
          by (eapply elem_of_submseteq; [exact Hin|apply sublist_submseteq, sublist_take]).
        apply Hl in Hinl as Hn.
        pose proof (Hafter n) as Hrem. rewrite Hempty, lookup_empty in Hrem.
        case_decide as Hp; [|congruence].
        apply list_elem_of_fmap in Hp as ([n' v'] & -> & Hp).
        assert (orders_of st staker token !! n' = Some v') as Hn'.
        { apply Hl. eapply elem_of_submseteq; [exact Hp|].
          apply sublist_submseteq. etrans; [exact Hsub|apply sublist_take]. }
        simpl in Hn. simplify_eq. done. }
    lia.
  - intros Hne. destruct (N.lt_ge_cases (N.of_nat (length picked))
      (N.of_nat (length (take (N.to_nat (MAX_ORDER_WITHDRAW_PER_TX + 1)) l)))) as [|Hge]; [done|].
    exfalso. apply Hne. apply map_eq; intros n.
    rewrite Hafter, lookup_empty. case_decide as Hp; [done|].
    destruct (orders_of st staker token !! n) as [v|] eqn:Hn; [|done]. exfalso. apply Hp.
    rewrite length_take in Hge.
    assert (take (N.to_nat MAX_ORDER_WITHDRAW_PER_TX) l = l) as Htake.
    { apply take_ge. lia. }
    rewrite Htake in Hsub.
    assert (picked = l) as Heq.
    { apply sublist_full; [done|lia]. }
    rewrite Heq. apply list_elem_of_fmap. exists (n, v). by rewrite Hl.
Qed.

(** ** What the reward computations leave alone *)
Lemma compute_pool_reward_frame config pool t pool' :
  compute_pool_reward config pool t = Some pool' →
  total_bond_amount pool' = total_bond_amount pool ∧
  total_pending_withdraw pool' = total_pending_withdraw pool ∧
  weight pool' = weight pool ∧ unbond_period pool' = unbond_period pool ∧
  last_distributed pool' = t.
Proof.
  unfold compute_pool_reward. intros H. simplify_option_eq; by case_match; simplify_option_eq.
Qed.

Lemma compute_staker_reward_frame pool r r' :
  compute_staker_reward pool r = Some r' →
  bond_amount r' = bond_amount r ∧ withdrawable_amount r' = withdrawable_amount r ∧
  reward_index r' = pool_reward_index pool.
Proof. unfold compute_staker_reward. intros H. by simplify_option_eq. Qed.

(** ** The accounting invariant *)
Definition staked (token : Addr) (st : Storage) : N := map_sum (bond_of token) (REWARD_INFO st).
Definition unlocked (token : Addr) (st : Storage) : N :=
  map_sum (unlocked_of token) (REWARD_INFO st).
Definition queued (token : Addr) (st : Storage) : N := map_sum (order_of token) (UNBOND_ORDERS st).
Definition pool_weights (pools : gmap Addr PoolInfo) : N := map_sum (λ _ p, weight p) pools.

(** The totals kept per pool are the sums over the stakers; every staker and
    order belongs to a registered pool; an order is never without the staker's
    record; the reverse index lists exactly the stakers; the total weight is
    the sum of the weights of the pools. *)
Record Inv (st : Storage) : Prop := {
  inv_staked token p : POOLS st !! token = Some p → total_bond_amount p = staked token st;
  inv_pending token p :
    POOLS st !! token = Some p → total_pending_withdraw p = queued token st + unlocked token st;
  inv_known s token r : REWARD_INFO st !! (s, token) = Some r → is_Some (POOLS st !! token);
  inv_orders s token n v :
    UNBOND_ORDERS st !! (s, token, n) = Some v → is_Some (REWARD_INFO st !! (s, token));
  inv_index s token :
    is_Some (STAKER_BY_TOKEN_INDEXER st !! (token, s)) ↔ is_Some (REWARD_INFO st !! (s, token));
  inv_weight c : CONFIG st = Some c → total_weight c = pool_weights (POOLS st) }.

Lemma pool_weights_save pools token p p' :
  pools !! token = Some p → weight p' = weight p →
  pool_weights (<[token := p']> pools) = pool_weights pools.
Proof.
  intros Hp Hw. pose proof (map_sum_insert (λ _ p, weight p) pools token p') as H.
  rewrite (contrib_Some _ _ _ _ Hp) in H. unfold pool_weights. lia.
Qed.

(** How the record of one staker of one pool is written back: kept, or removed
    together with its index entry when nothing is left. *)
Definition written_back (st st' : Storage) (s token : Addr) (r' : RewardInfo) : Prop :=
  (REWARD_INFO st' = <[(s, token) := r']> (REWARD_INFO st) ∧
   ∀ k, is_Some (STAKER_BY_TOKEN_INDEXER st' !! k) ↔
        k = (token, s) ∨ is_Some (STAKER_BY_TOKEN_INDEXER st !! k)) ∨
  (REWARD_INFO st' = delete (s, token) (REWARD_INFO st) ∧
   STAKER_BY_TOKEN_INDEXER st' = delete (token, s) (STAKER_BY_TOKEN_INDEXER st) ∧
   bond_amount r' = 0 ∧ withdrawable_amount r' = 0 ∧ orders_of st' s token = ∅).

Definition record_of (st : Storage) (s token : Addr) : RewardInfo :=
  default RewardInfo_default (REWARD_INFO st !! (s, token)).

Lemma written_back_sum st st' s token r' (f : RewardInfo → N) tok :
  written_back st st' s token r' →
  f RewardInfo_default = 0 → (bond_amount r' = 0 → withdrawable_amount r' = 0 → f r' = 0) →
  let g (k : Addr * Addr) r := if decide (k.2 = tok) then f r else 0 in
  map_sum g (REWARD_INFO st') + (if decide (token = tok) then f (record_of st s token) else 0) =
  map_sum g (REWARD_INFO st) + (if decide (token = tok) then f r' else 0).
Proof.
  intros Hw Hf0 Hfz g.
  assert (contrib g (REWARD_INFO st) (s, token) =
          if decide (token = tok) then f (record_of st s token) else 0) as Hc.
  { unfold contrib, record_of, g. destruct (REWARD_INFO st !! (s, token)); simpl; [done|].
    case_decide; by rewrite ?Hf0. }
  rewrite <-Hc. destruct Hw as [[-> _]|(-> & _ & Hb & Hwd & _)].
  - apply map_sum_insert.
  - rewrite map_sum_delete_contrib, (Hfz Hb Hwd). case_decide; lia.
Qed.

Lemma inv_staker_update st st' s token p p' r' :
  Inv st → POOLS st !! token = Some p →
  CONFIG st' = CONFIG st → POOLS st' = <[token := p']> (POOLS st) → weight p' = weight p →
  written_back st st' s token r' →
  (∀ tok, tok ≠ token → queued tok st' = queued tok st) →
  (∀ s' t' n v, UNBOND_ORDERS st' !! (s', t', n) = Some v →
     (s', t') = (s, token) ∨ is_Some (UNBOND_ORDERS st !! (s', t', n))) →
  total_bond_amount p' + bond_amount (record_of st s token) =
    total_bond_amount p + bond_amount r' →
  total_pending_withdraw p' + (queued token st + withdrawable_amount (record_of st s token)) =
    total_pending_withdraw p + (queued token st' + withdrawable_amount r') →
  Inv st'.
Proof.
  intros HI Hp Hc HP Hwt Hwb Hq Ho Hbond Hpend.
  assert (∀ tok, is_Some (POOLS st !! tok) → is_Some (POOLS st' !! tok)) as Hdom.
  { intros tok Htok. rewrite HP. apply lookup_insert_is_Some. destruct (decide (token = tok)); auto. }
  assert (∀ tok, staked tok st' + (if decide (token = tok) then bond_amount (record_of st s token) else 0)
     = staked tok st + (if decide (token = tok) then bond_amount r' else 0)) as Hst
    by (intros tok; by apply (written_back_sum st st' s token r' bond_amount tok)).
  assert (∀ tok, unlocked tok st' +
       (if decide (token = tok) then withdrawable_amount (record_of st s token) else 0)
     = unlocked tok st + (if decide (token = tok) then withdrawable_amount r' else 0)) as Hul
    by (intros tok; by apply (written_back_sum st st' s token r' withdrawable_amount tok)).
  split.
  - intros tok q. specialize (Hst tok). rewrite HP. intros [[<- <-]|[Hne Hq']]%lookup_insert_Some.
    + rewrite !decide_True in Hst by done. pose proof (inv_staked _ HI _ _ Hp). lia.
    + rewrite !decide_False in Hst by done. pose proof (inv_staked _ HI _ _ Hq'). lia.
  - intros tok q. specialize (Hul tok). rewrite HP. intros [[<- <-]|[Hne Hq']]%lookup_insert_Some.
    + rewrite !decide_True in Hul by done. pose proof (inv_pending _ HI _ _ Hp). lia.
    + rewrite !decide_False in Hul by done. pose proof (inv_pending _ HI _ _ Hq').
      rewrite Hq by done. lia.
  - intros s' tok r0 Hr0. apply Hdom.
    destruct Hwb as [[HR _]|[HR _]]; rewrite HR in Hr0.
    + apply lookup_insert_Some in Hr0 as [[[= <- <-] _]|[_ Hr0]]; [by eexists|].
      by eapply inv_known.
    + apply lookup_delete_Some in Hr0 as [_ Hr0]. by eapply inv_known.
  - intros s' tok n v Hv. specialize (Ho _ _ _ _ Hv).
    destruct Hwb as [[HR _]|(HR & _ & _ & _ & Hempty)]; rewrite HR.
    + apply lookup_insert_is_Some. destruct Ho as [[= -> ->]|[v' Hv']]; [by left|].
      destruct (decide ((s, token) = (s', tok))); [by left|right; split; [done|]].
      by eapply inv_orders.
    + destruct (decide ((s, token) = (s', tok))) as [[= <- <-]|Hne].
      { pose proof (proj1 (prefix_empty_iff _ _) Hempty n). congruence. }
      rewrite lookup_delete_ne by done. destruct Ho as [[= -> ->]|[v' Hv']]; [done|].
      by eapply inv_orders.
  - intros s' tok. pose proof (inv_index _ HI s' tok) as Hi.
    destruct Hwb as [[HR Hidx]|(HR & Hidx & _)].
    + rewrite Hidx, HR, lookup_insert_is_Some, Hi.
      destruct (decide ((s, token) = (s', tok))) as [[= <- <-]|Hne]; [naive_solver|].
      split; [intros [[= -> ->]|?]; [done|auto]|naive_solver].
    + rewrite Hidx, HR. destruct (decide ((s, token) = (s', tok))) as [[= <- <-]|Hne].
      * rewrite !lookup_delete_eq. by split; intros [? ?].
      * rewrite !lookup_delete_ne by congruence. done.
  - intros c. rewrite Hc, HP, (pool_weights_save _ _ _ _ Hp Hwt). apply (inv_weight _ HI).
Qed.

(** The effect of pulling the expired orders, as the handlers use it. *)
Lemma pull_expired_effect st staker token r t period st1 r1 pending :
  pull_expired_withdraw_orders st staker token r t period = Ok (st1, r1, pending) →
  CONFIG st1 = CONFIG st ∧ POOLS st1 = POOLS st ∧ REWARD_INFO st1 = REWARD_INFO st ∧
  STAKER_BY_TOKEN_INDEXER st1 = STAKER_BY_TOKEN_INDEXER st ∧
  (∀ s tk n v, UNBOND_ORDERS st1 !! (s, tk, n) = Some v → UNBOND_ORDERS st !! (s, tk, n) = Some v) ∧
  (pending = true ↔ orders_of st1 staker token ≠ ∅) ∧
  bond_amount r1 = bond_amount r ∧ reward_index r1 = reward_index r ∧
  pending_reward r1 = pending_reward r ∧
  (∀ tok, queued tok st + (if decide (token = tok) then withdrawable_amount r else 0) =
          queued tok st1 + (if decide (token = tok) then withdrawable_amount r1 else 0)).
Proof.
  intros H. apply pull_expired_spec in H as (-> & -> & ->).
  split_and!; try done.
  - intros s tk n v. simpl. rewrite lookup_remove_orders. by case_decide.
  - apply pending_flag_correct.
  - intros tok. unfold queued. simpl.
    rewrite (remove_orders_sum tok staker token
      (expired_orders t period (range_u64 (orders_of st staker token))) (UNBOND_ORDERS st)).
    + case_decide; lia.
    + apply expired_orders_NoDup.
    + intros n v Hin. by apply expired_orders_lookup in Hin as [? _].
Qed.

Lemma update_or_remove_spec st info token r pending :
  is_Some (STAKER_BY_TOKEN_INDEXER st !! (token, info_sender info)) →
  (pending = true ↔ orders_of st (info_sender info) token ≠ ∅) →
  let st' := update_or_remove_staker_rewards st info token r pending in
  CONFIG st' = CONFIG st ∧ POOLS st' = POOLS st ∧ UNBOND_ORDERS st' = UNBOND_ORDERS st ∧
  written_back st st' (info_sender info) token r.
Proof.
  intros Hidx Hpend. unfold update_or_remove_staker_rewards, is_zero, written_back.
  destruct (_ && _ && _ && _)%bool eqn:E; simpl.
  - ok_facts. split_and!; try done. right. split_and!; try done.
    apply dec_stable. intros Hne. apply Hpend in Hne. simplify_eq.
  - split_and!; try done. left. split; [done|]. intros k. naive_solver.
Qed.

(** ** The effect of the staker operations

    [staker_effect st st' s token received paid]: the operation updated the
    pool of [token] and the record of staker [s] in it, [received] tokens came
    in and [paid] tokens were ordered out. *)
Definition staker_effect (st st' : Storage) (s token : Addr) (received paid : N) : Prop :=
  ∃ p p' r',
    POOLS st !! token = Some p ∧ CONFIG st' = CONFIG st ∧
    POOLS st' = <[token := p']> (POOLS st) ∧ weight p' = weight p ∧
    written_back st st' s token r' ∧
    (∀ tok, tok ≠ token → queued tok st' = queued tok st) ∧
    (∀ s' t' n v, UNBOND_ORDERS st' !! (s', t', n) = Some v →
       (s', t') = (s, token) ∨ is_Some (UNBOND_ORDERS st !! (s', t', n))) ∧
    total_bond_amount p' + bond_amount (record_of st s token) =
      total_bond_amount p + bond_amount r' ∧
    total_pending_withdraw p' + (queued token st + withdrawable_amount (record_of st s token)) =
      total_pending_withdraw p + (queued token st' + withdrawable_amount r') ∧
    total_bond_amount p' + total_pending_withdraw p' + paid =
      total_bond_amount p + total_pending_withdraw p + received.

Lemma staker_effect_inv st st' s token received paid :
  staker_effect st st' s token received paid → Inv st → Inv st'.
Proof.
  intros (p & p' & r' & ? & ? & ? & ? & ? & ? & ? & ? & ? & _) HI.
  by eapply (inv_staker_update st st' s token p p' r').
Qed.

(** What the contract owes in [token]: the bonded amounts and the amounts
    waiting to be withdrawn. *)
Definition liability (token : Addr) (st : Storage) : N :=
  from_option (λ p, total_bond_amount p + total_pending_withdraw p) 0 (POOLS st !! token).

Lemma staker_effect_liability st st' s token received paid tok :
  staker_effect st st' s token received paid →
  liability tok st' + (if decide (tok = token) then paid else 0) =
  liability tok st + (if decide (tok = token) then received else 0).
Proof.
  intros (p & p' & r' & Hp & _ & HP & _ & _ & _ & _ & _ & _ & Hl). unfold liability.
  rewrite HP. destruct (decide (tok = token)) as [->|Hne].
  - rewrite lookup_insert_eq, Hp. simpl. lia.
  - by rewrite lookup_insert_ne.
Qed.

Lemma increase_bond_spec pool r amount pool' r' :
  increase_bond_amount pool r amount = Some (pool', r') →
  pool' = with_total_bond (total_bond_amount pool + amount) pool ∧
  r' = with_bond (bond_amount r + amount) r.
Proof. unfold increase_bond_amount. intros H. simplify_option_eq. platform_facts. done. Qed.

Lemma decrease_bond_spec pool r amount pool' r' :
  decrease_bond_amount pool r amount = Some (pool', r') →
  pool' = with_total_bond (total_bond_amount pool - amount) pool ∧
  r' = with_bond (bond_amount r - amount) r ∧
  amount ≤ total_bond_amount pool ∧ amount ≤ bond_amount r.
Proof. unfold decrease_bond_amount. intros H. simplify_option_eq. platform_facts. done. Qed.

End proofs.

(** The facts the reward computations and bond updates leave behind. *)
Ltac frame_facts :=
  repeat match goal with
  | H : compute_pool_reward _ _ _ = Some _ |- _ =>
      apply compute_pool_reward_frame in H as (? & ? & ? & ? & ?)
  | H : compute_staker_reward _ _ = Some _ |- _ =>
      apply compute_staker_reward_frame in H as (? & ? & ?)
  | H : increase_bond_amount _ _ _ = Some _ |- _ =>
      apply increase_bond_spec in H as (-> & ->)
  | H : decrease_bond_amount _ _ _ = Some _ |- _ =>
      apply decrease_bond_spec in H as (-> & -> & ? & ?)
  end.

Section proofs.
Context {P : Cosmwasm} {L : CosmwasmLaws P}.

Lemma bond_effect st env token s amount po st' resp :
  (∀ p, po = Some p → POOLS st !! token = Some p) →
  bond st env token s amount po = Ok (st', resp) →
  staker_effect st st' s token amount 0 ∧ messages resp = [].
Proof.
  unfold bond. intros Hpo H. inv_body H.
  assert (default a0 po = a0) as Hd by (destruct po as [p|]; simpl; [specialize (Hpo p eq_refl); congruence|done]).
  rewrite Hd in *.
  apply pull_expired_effect in Ha1 as (HC & HP & HR & HX & HO & _ & Hb & _ & _ & Hq).
  frame_facts. split; [|done].
  eexists _, _, _. split_and!; [done|simpl; done|simpl; by rewrite HP|..]; simpl.
  - done.
  - left. simpl. rewrite HR, HX. split; [done|]. intros k. apply is_Some_insert.
  - intros tok Hne. specialize (Hq tok). rewrite !decide_False in Hq by done.
    unfold queued in *. simpl in *. lia.
  - intros s' t' n v Hv%HO. right. by exists v.
  - unfold record_of. simpl. lia.
  - specialize (Hq token). rewrite !decide_True in Hq by done.
    unfold queued, record_of in *. simpl in *. lia.
  - lia.
Qed.

Lemma cw20_sent_transfer token recipient amount attrs :
  cw20_sent token (respond [transfer_msg token recipient amount] attrs) = amount.
Proof. unfold cw20_sent. simpl. rewrite bool_decide_true by done. lia. Qed.

Lemma inv_index_of st s token r :
  Inv st → REWARD_INFO st !! (s, token) = Some r →
  is_Some (STAKER_BY_TOKEN_INDEXER st !! (token, s)).
Proof. intros HI Hr. apply (inv_index _ HI). by exists r. Qed.

(** The common end of [unbond], [claim_unbonded] and [claim_rewards]: write the
    pool and the staker's record back. *)
Lemma finish_effect st s1 info token p p' r r' pending received paid :
  Inv st → POOLS st !! token = Some p → REWARD_INFO st !! (info_sender info, token) = Some r →
  CONFIG s1 = CONFIG st → POOLS s1 = POOLS st → REWARD_INFO s1 = REWARD_INFO st →
  STAKER_BY_TOKEN_INDEXER s1 = STAKER_BY_TOKEN_INDEXER st →
  (∀ s' t' n v, UNBOND_ORDERS s1 !! (s', t', n) = Some v →
     (s', t') = (info_sender info, token) ∨ is_Some (UNBOND_ORDERS st !! (s', t', n))) →
  (pending = true ↔ orders_of s1 (info_sender info) token ≠ ∅) →
  (∀ tok, tok ≠ token → queued tok s1 = queued tok st) →
  weight p' = weight p →
  total_bond_amount p' + bond_amount r = total_bond_amount p + bond_amount r' →
  total_pending_withdraw p' + (queued token st + withdrawable_amount r) =
    total_pending_withdraw p + (queued token s1 + withdrawable_amount r') →
  total_bond_amount p' + total_pending_withdraw p' + paid =
    total_bond_amount p + total_pending_withdraw p + received →
  staker_effect st (update_or_remove_staker_rewards (save_pool token p' s1) info token r' pending)
    (info_sender info) token received paid.
Proof.
  intros HI Hp Hr HC HP HR HX HO Hpend Hq Hw Hb Hpw Hl.
  destruct (update_or_remove_spec (save_pool token p' s1) info token r' pending)
    as (HC' & HP' & HO' & Hwb); simpl.
  { rewrite HX. by eapply inv_index_of. }
  { done. }
  simpl in *. eexists p, p', r'. split_and!.
  - done.
  - by rewrite HC', HC.
  - by rewrite HP', HP.
  - done.
  - unfold written_back in *. simpl in *. by rewrite HR, HX in Hwb.
  - intros tok Hne. unfold queued in *. rewrite HO'. by apply Hq.
  - intros s' t' n v. rewrite HO'. apply HO.
  - unfold record_of. by rewrite Hr.
  - unfold record_of, queued in *. rewrite Hr, HO'. simpl. lia.
  - done.
Qed.

Lemma unbond_effect st env info token amount st' resp :
  Inv st → unbond st env info token amount = Ok (st', resp) →
  staker_effect st st' (info_sender info) token 0 (cw20_sent token resp).
Proof.
  unfold unbond. intros HI H. inv_body H.
  apply pull_expired_effect in Ha2 as (HC & HP & HR & HX & HO & Hpend & Hb & _ & _ & Hq).
  frame_facts. inv_body Ha7.
  - (* immediate transfer *)
    rewrite cw20_sent_transfer.
    eapply (finish_effect st s0 info token a0); try done; simpl; try lia.
    + intros s' t' n v Hv%HO. right. by exists v.
    + intros tok Hne. specialize (Hq tok). rewrite !decide_False in Hq by done. lia.
    + specialize (Hq token). rewrite !decide_True in Hq by done. lia.
  - (* a new order *)
    set (key := (info_sender info, token, now env)) in *.
    assert (∀ tok, map_sum (order_of tok) (<[key := a3]> (UNBOND_ORDERS s)) =
              queued tok s + (if decide (token = tok) then a3 else 0)) as Hnew.
    { intros tok. rewrite map_sum_insert_new by done. unfold queued, order_of; simpl. lia. }
    eapply (finish_effect st (set_unbond_orders (<[key := a3]> (UNBOND_ORDERS s)) s) info token a0);
      try done; simpl; try lia.
    + intros s' t' n v [[Heq _]|[_ Hv%HO]]%lookup_insert_Some; [|right; by exists v].
      unfold key in Heq. left. congruence.
    + split; [|done]. intros _ Hempty.
      pose proof (proj1 (prefix_empty_iff _ _) Hempty (now env)) as Hnone. simpl in Hnone.
      by rewrite lookup_insert_eq in Hnone.
    + intros tok Hne. specialize (Hq tok). specialize (Hnew tok).
      rewrite !decide_False in Hq by done; rewrite decide_False in Hnew by done. unfold queued in *. simpl. lia.
    + specialize (Hq token). specialize (Hnew token).
      rewrite !decide_True in Hq by done; rewrite decide_True in Hnew by done. unfold queued in *. simpl. lia.
    + unfold cw20_sent. simpl. lia.
Qed.

Lemma claim_unbonded_effect st env info token st' resp :
  Inv st → claim_unbonded st env info token = Ok (st', resp) →
  staker_effect st st' (info_sender info) token 0 (cw20_sent token resp).
Proof.
  unfold claim_unbonded. intros HI H. inv_body H.
  apply pull_expired_effect in Ha1 as (HC & HP & HR & HX & HO & Hpend & Hb & _ & _ & Hq).
  rewrite cw20_sent_transfer.
  eapply (finish_effect st s info token a); try done; simpl; try lia.
  - intros s' t' n v Hv%HO. right. by exists v.
  - intros tok Hne. specialize (Hq tok). rewrite !decide_False in Hq by done. lia.
  - specialize (Hq token). rewrite !decide_True in Hq by done. lia.
Qed.

Lemma save_pool_update_or_remove st info token tk p r pending :
  save_pool tk p (update_or_remove_staker_rewards st info token r pending) =
  update_or_remove_staker_rewards (save_pool tk p st) info token r pending.
Proof. unfold update_or_remove_staker_rewards. by destruct (_ && _ && _ && _)%bool. Qed.

Lemma claim_step_effect config env info st claimed token r st' claimed' :
  Inv st → REWARD_INFO st !! (info_sender info, token) = Some r →
  claim_step config env info (st, claimed) (token, r) = Ok (st', claimed') →
  staker_effect st st' (info_sender info) token 0 0 ∧
  (∀ k, k ≠ (info_sender info, token) → REWARD_INFO st' !! k = REWARD_INFO st !! k).
Proof.
  unfold claim_step. intros HI Hr H. inv_body H.
  apply pull_expired_effect in Ha0 as (HC & HP & HR & HX & HO & Hpend & Hb & _ & _ & Hq).
  frame_facts.
  assert (staker_effect st (save_pool token a1 (update_or_remove_staker_rewards s info token
    (with_pending 0 a2) b)) (info_sender info) token 0 0) as He.
  { rewrite save_pool_update_or_remove.
    eapply (finish_effect st s info token a); try done; simpl; try lia.
    - intros s' t' n v Hv%HO. right. by exists v.
    - intros tok Hne. specialize (Hq tok). rewrite !decide_False in Hq by done. lia.
    - specialize (Hq token). rewrite !decide_True in Hq by done. lia. }
  split; [done|]. intros k Hk.
  destruct He as (_ & _ & r' & _ & _ & _ & _ & [[HR' _]|[HR' _]] & _); simpl in HR'; rewrite HR'.
  - by rewrite lookup_insert_ne.
  - by rewrite lookup_delete_ne.
Qed.

(** A sequence of claims of one staker: the snapshot the loop iterates over
    stays current because each step touches one record and no record twice. *)
Lemma claim_fold_effect config env info l st claimed st' claimed' :
  NoDup l.*1 → (∀ token r, (token, r) ∈ l → REWARD_INFO st !! (info_sender info, token) = Some r) →
  Inv st → ofold (claim_step config env info) (st, claimed) l = Ok (st', claimed') →
  Inv st' ∧ CONFIG st' = CONFIG st ∧ ∀ tok, liability tok st' = liability tok st.
Proof.
  revert st claimed. induction l as [|[token r] l IH]; intros st claimed Hnd Hin HI; simpl.
  - by intros [= <- <-].
  - intros ([st1 claimed1] & Hstep & Hl)%qbind_Ok.
    apply NoDup_cons in Hnd as [Hni Hnd].
    apply claim_step_effect in Hstep as [He Hframe]; [|done|apply Hin; set_solver].
    pose proof (staker_effect_inv _ _ _ _ _ _ He HI) as HI1.
    apply IH in Hl as (HI' & HC & Hliab); [|done| |done].
    + split_and!; [done|by destruct He as (?&?&?&?&?&?); congruence|].
      intros tok. rewrite Hliab. pose proof (staker_effect_liability _ _ _ _ _ _ tok He) as Hl1.
      destruct (decide (tok = token)); lia.
    + intros tok r' Hr'. rewrite Hframe; [apply Hin; set_solver|].
      intros [= ->]. apply Hni. apply list_elem_of_fmap. by exists (token, r').
Qed.

Lemma claim_rewards_effect st env info token st' resp :
  Inv st → claim_rewards st env info token = Ok (st', resp) →
  Inv st' ∧ CONFIG st' = CONFIG st ∧ ∀ tok, liability tok st' = liability tok st.
Proof.
  unfold claim_rewards. intros HI H. inv_body H.
  eapply claim_fold_effect; [| |done|done].
  - destruct token; inv_body Ha0; [apply NoDup_singleton|apply NoDup_range_addr].
  - intros tok r. destruct token; inv_body Ha0.
    + by intros [= -> ->]%list_elem_of_singleton.
    + rewrite elem_of_range_addr, lookup_prefix. done.
Qed.

(** ** The owner operations *)

(** Pools whose staked and pending amounts are the same. *)
Definition same_amounts (p p' : PoolInfo) : Prop :=
  total_bond_amount p' = total_bond_amount p ∧
  total_pending_withdraw p' = total_pending_withdraw p.
#[global] Instance same_amounts_preorder : PreOrder same_amounts.
Proof. split; unfold same_amounts; [intros p|intros p1 p2 p3]; naive_solver congruence. Qed.

(** The state changed in its configuration and in the reward data of its pools
    at most. *)
Record pools_refreshed (st st' : Storage) : Prop := {
  pr_rewards : REWARD_INFO st' = REWARD_INFO st;
  pr_orders : UNBOND_ORDERS st' = UNBOND_ORDERS st;
  pr_index : STAKER_BY_TOKEN_INDEXER st' = STAKER_BY_TOKEN_INDEXER st;
  pr_pools tok : option_Forall2 same_amounts (POOLS st !! tok) (POOLS st' !! tok) }.

#[global] Instance pools_refreshed_preorder : PreOrder pools_refreshed.
Proof.
  split.
  - intros st. by split.
  - intros s1 s2 s3 [? ? ? H12] [? ? ? H23]. split; try congruence.
    intros tok. specialize (H12 tok). specialize (H23 tok).
    destruct H12 as [p1 p2 Hp|]; inversion H23; constructor. by etrans.
Qed.

Lemma save_pool_refreshed st tok p p' :
  POOLS st !! tok = Some p → same_amounts p p' → pools_refreshed st (save_pool tok p' st).
Proof.
  intros Hp Hs. split; try done. intros tok'. simpl.
  destruct (decide (tok = tok')) as [<-|Hne].
  - rewrite Hp, lookup_insert_eq. by constructor.
  - by rewrite lookup_insert_ne by done.
Qed.

Lemma set_config_refreshed st c : pools_refreshed st (set_config c st).
Proof. by split. Qed.

Lemma pools_refreshed_inv st st' :
  pools_refreshed st st' →
  (∀ c, CONFIG st' = Some c → total_weight c = pool_weights (POOLS st')) →
  Inv st → Inv st'.
Proof.
  intros [HR HO HX HP] Hw HI.
  assert (∀ tok p', POOLS st' !! tok = Some p' → ∃ p, POOLS st !! tok = Some p ∧ same_amounts p p')
    as Hback.
  { intros tok p' Hp'. specialize (HP tok). rewrite Hp' in HP. inversion HP; subst. eauto. }
  assert (∀ tok, is_Some (POOLS st !! tok) → is_Some (POOLS st' !! tok)) as Hdom.
  { intros tok [p Hp]. specialize (HP tok). rewrite Hp in HP. inversion HP; subst. eauto. }
  split.
  - intros tok p' Hp'. destruct (Hback _ _ Hp') as (p & Hp & [-> _]).
    unfold staked. rewrite HR. by apply (inv_staked _ HI).
  - intros tok p' Hp'. destruct (Hback _ _ Hp') as (p & Hp & [_ ->]).
    unfold queued, unlocked. rewrite HR, HO. by apply (inv_pending _ HI).
  - intros s tok r. rewrite HR. intros Hr. apply Hdom. by eapply inv_known.
  - intros s tok n v. rewrite HR, HO. by apply (inv_orders _ HI).
  - intros s tok. rewrite HR, HX. by apply (inv_index _ HI).
  - done.
Qed.

Lemma pools_refreshed_liability st st' tok :
  pools_refreshed st st' → liability tok st' = liability tok st.
Proof.
  intros [_ _ _ HP]. unfold liability. destruct (HP tok) as [p p' [H1 H2]|]; simpl; [|done].
  by rewrite H1, H2.
Qed.

Lemma compute_pool_reward_amounts config p t p' :
  compute_pool_reward config p t = Some p' → same_amounts p p' ∧ weight p' = weight p.
Proof. by intros (? & ? & ? & ? & ?)%compute_pool_reward_frame. Qed.

(** The loop of [register_staking_token]: every pool is brought up to date, and
    the token is new. *)
Lemma register_fold config token t l st st' :
  NoDup l.*1 → (∀ tok p, (tok, p) ∈ l → POOLS st !! tok = Some p) →
  ofold (register_step config token t) st l = Ok st' →
  pools_refreshed st st' ∧ CONFIG st' = CONFIG st ∧
  pool_weights (POOLS st') = pool_weights (POOLS st) ∧ token ∉ l.*1.
Proof.
  revert st. induction l as [|[tok p] l IH]; intros st Hnd Hin; csimpl.
  - intros [= <-]. split_and!; [done..|set_solver].
  - intros (st1 & Hstep & Hl)%qbind_Ok. apply NoDup_cons in Hnd as [Hni Hnd].
    unfold register_step in Hstep. inv_body Hstep.
    apply compute_pool_reward_amounts in Ha as [Ham Hw].
    assert (POOLS st !! tok = Some p) as Hp by (apply Hin; set_solver).
    apply IH in Hl as (Hr & HC & Hws & Ht); [|done|].
    + split_and!.
      * etrans; [by eapply save_pool_refreshed|done].
      * done.
      * rewrite Hws. simpl. by eapply pool_weights_save.
      * set_solver.
    + intros tok' p' Hp'. simpl. rewrite lookup_insert_ne; [apply Hin; set_solver|].
      intros <-. apply Hni. apply list_elem_of_fmap. by exists (tok, p').
Qed.

(** A token without a pool has no stakers and no orders. *)
Lemma unknown_token_empty st token :
  Inv st → POOLS st !! token = None →
  staked token st = 0 ∧ unlocked token st = 0 ∧ queued token st = 0.
Proof.
  intros HI Hnone.
  assert (∀ s r, REWARD_INFO st !! (s, token) = Some r → False) as Hno.
  { intros s r Hr. destruct (inv_known _ HI _ _ _ Hr) as [? ?]. congruence. }
  split_and!; apply map_sum_zero.
  - intros [s tok] r Hr. unfold bond_of; simpl. case_decide; [subst; by edestruct Hno|done].
  - intros [s tok] r Hr. unfold unlocked_of; simpl. case_decide; [subst; by edestruct Hno|done].
  - intros [[s tok] n] r Hr. unfold order_of; simpl. case_decide; [subst|done].
    destruct (inv_orders _ HI _ _ _ _ Hr) as [? ?]. by edestruct Hno.
Qed.

Lemma new_pool_inv st token t w period :
  Inv st → POOLS st !! token = None →
  ∀ config, total_weight config = pool_weights (POOLS st) + w →
  Inv (set_config config (save_pool token (new_pool t w period) st)).
Proof.
  intros HI Hnone config Hcfg.
  destruct (unknown_token_empty _ _ HI Hnone) as (Hs & Hu & Hq).
  split; simpl.
  - intros tok p [[<- <-]|[_ Hp]]%lookup_insert_Some; [done|by apply (inv_staked _ HI)].
  - intros tok p [[<- <-]|[_ Hp]]%lookup_insert_Some; [|by apply (inv_pending _ HI)].
    unfold queued, unlocked in *. simpl. lia.
  - intros s tok r Hr. apply lookup_insert_is_Some'. right. by eapply (inv_known _ HI).
  - apply (inv_orders _ HI).
  - apply (inv_index _ HI).
  - intros c [= <-]. rewrite Hcfg. unfold pool_weights. rewrite map_sum_insert_new by done.
    simpl. lia.
Qed.

Lemma register_staking_token_effect st env info token period w st' resp :
  Inv st → register_staking_token st env info token period w = Ok (st', resp) →
  Inv st' ∧ POOLS st !! token = None ∧ messages resp = [] ∧
  ∀ tok, liability tok st' = liability tok st.
Proof.
  unfold register_staking_token. intros HI H. inv_body H. rename a0 into st1.
  apply register_fold in Ha0 as (Hr & HC & Hw & Ht);
    [|apply NoDup_range_addr|intros tok p; apply elem_of_range_addr].
  assert (POOLS st !! token = None) as Hnone.
  { destruct (POOLS st !! token) as [p|] eqn:Hp; [|done]. exfalso. apply Ht.
    apply list_elem_of_fmap. exists (token, p). by rewrite elem_of_range_addr. }
  assert (POOLS st1 !! token = None) as Hnone1.
  { pose proof (pr_pools _ _ Hr token) as Hf. rewrite Hnone in Hf. by inversion Hf. }
  assert (Inv st1) as HI1.
  { eapply pools_refreshed_inv; [done| |done]. intros c. rewrite HC, Hw. apply (inv_weight _ HI). }
  split_and!; [|done|done|].
  - apply new_pool_inv; [done|done|]. simpl. apply load_Ok in Ha. rewrite (inv_weight _ HI _ Ha). lia.
  - intros tok. rewrite <-(pools_refreshed_liability _ _ _ Hr).
    unfold liability. simpl. destruct (decide (token = tok)) as [<-|Hne].
    + by rewrite lookup_insert_eq, Hnone1.
    + by rewrite lookup_insert_ne.
Qed.

(** The loop of [update_staking_token]: the running total weight stays the sum
    of the weights. *)
Lemma update_weight_fold token w t l st config found st' config' found' :
  NoDup l.*1 → (∀ tok p, (tok, p) ∈ l → POOLS st !! tok = Some p) →
  total_weight config = pool_weights (POOLS st) →
  ofold (update_weight_step token w t) (st, config, found) l = Ok (st', config', found') →
  pools_refreshed st st' ∧ CONFIG st' = CONFIG st ∧
  total_weight config' = pool_weights (POOLS st').
Proof.
  revert st config found. induction l as [|[tok p] l IH]; intros st config found Hnd Hin Hw; csimpl.
  - intros [= <- <- <-]. by split_and!.
  - intros ([[st1 config1] found1] & Hstep & Hl)%qbind_Ok. apply NoDup_cons in Hnd as [Hni Hnd].
    assert (POOLS st !! tok = Some p) as Hp by (apply Hin; set_solver).
    assert (∃ q, st1 = save_pool tok q st ∧ same_amounts p q ∧
              total_weight config1 = pool_weights (POOLS (save_pool tok q st)))
      as (q & -> & Ham & Hw1).
    { unfold update_weight_step in Hstep. inv_body Hstep;
        apply compute_pool_reward_amounts in Ha as [Ham Hwp]; eexists; (split_and!; [done|done|]).
      - pose proof (map_sum_insert (λ _ p, weight p) (POOLS st) token (with_weight w a)) as Hi.
        rewrite (contrib_Some _ _ _ _ Hp) in Hi. unfold pool_weights in *. simpl in *. lia.
      - rewrite Hw. symmetry. by eapply pool_weights_save. }
    apply IH in Hl as (Hr & HC & Hw'); [|done| |done].
    + split_and!; [|done|done]. etrans; [by eapply save_pool_refreshed|done].
    + intros tok' p' Hp'. simpl. rewrite lookup_insert_ne; [apply Hin; set_solver|].
      intros <-. apply Hni. apply list_elem_of_fmap. by exists (tok, p').
Qed.

Lemma set_unbond_period_inv st token p period :
  Inv st → POOLS st !! token = Some p →
  pools_refreshed st (save_pool token (with_unbond_period period p) st) ∧
  Inv (save_pool token (with_unbond_period period p) st).
Proof.
  intros HI Hp.
  assert (pools_refreshed st (save_pool token (with_unbond_period period p) st)) as Hr
    by (by eapply save_pool_refreshed).
  split; [done|]. eapply pools_refreshed_inv; [done| |done].
  intros c Hc. rewrite (inv_weight _ HI _ Hc). symmetry. by eapply pool_weights_save.
Qed.

Lemma update_staking_token_effect st env info token period w st' resp :
  Inv st → update_staking_token st env info token period w = Ok (st', resp) →
  Inv st' ∧ messages resp = [] ∧ pools_refreshed st st'.
Proof.
  unfold update_staking_token. intros HI H. inv_body H. apply load_Ok in Ha.
  assert (Inv a0 ∧ pools_refreshed st a0) as [HI0 Hr0].
  { destruct w as [w|]; inv_body Ha0; [|done].
    apply update_weight_fold in Ha2 as (Hr & HC & Hw);
      [|apply NoDup_range_addr|intros tok p; apply elem_of_range_addr|by apply (inv_weight _ HI)].
    assert (pools_refreshed st (set_config c s)) as Hr' by (etrans; [done|apply set_config_refreshed]).
    split; [|done]. eapply pools_refreshed_inv; [done| |done]. by intros c' [= <-]. }
  destruct period as [period|]; inv_body Ha1; [|done].
  eapply set_unbond_period_inv in Ha2 as [Hr HI']; [|done].
  split_and!; [done|done|by etrans].
Qed.

Lemma config_effect st st' c c' :
  Inv st → CONFIG st = Some c → total_weight c' = total_weight c →
  st' = set_config c' st → Inv st' ∧ ∀ tok, liability tok st' = liability tok st.
Proof.
  intros HI Hc Hw ->. split; [|done].
  eapply pools_refreshed_inv; [apply set_config_refreshed| |done].
  intros c'' [= <-]. rewrite Hw. by apply (inv_weight _ HI).
Qed.

Lemma update_owner_effect st info new_owner st' resp :
  Inv st → update_owner st info new_owner = Ok (st', resp) →
  Inv st' ∧ messages resp = [] ∧ ∀ tok, liability tok st' = liability tok st.
Proof.
  unfold update_owner. intros HI H. inv_body H. apply load_Ok in Ha.
  edestruct config_effect as [? ?]; [done|exact Ha| |done|split_and!; [done|done|done]]. done.
Qed.

Lemma add_distribution_schedule_effect st env info schedule st' resp :
  Inv st → add_distribution_schedule st env info schedule = Ok (st', resp) →
  Inv st' ∧ messages resp = [] ∧ ∀ tok, liability tok st' = liability tok st.
Proof.
  unfold add_distribution_schedule. intros HI H. inv_body H. apply load_Ok in Ha.
  edestruct config_effect as [? ?]; [done|exact Ha| |done|split_and!; [done|done|done]]. done.
Qed.

(** ** Instantiation: sorting and deduplicating the staking tokens *)
#[global] Instance token_le_total : Total token_le.
Proof.
  intros [[s1 w1] p1] [[s2 w2] p2]. unfold token_le.
  destruct (decide (s1 = s2)) as [->|Hne].
  - destruct (N.lt_trichotomy w1 w2) as [?|[->|?]]; [naive_solver lia| |naive_solver lia].
    destruct (N.le_ge_cases p1 p2); naive_solver.
  - destruct (total String.le s1 s2); naive_solver.
Qed.

Lemma token_le_name x y : token_le x y → String.le x.1.1 y.1.1.
Proof.
  destruct x as [[s1 w1] p1], y as [[s2 w2] p2]. unfold token_le; simpl.
  by intros [[_ ?]|[-> _]].
Qed.

#[global] Instance token_le_trans : Transitive token_le.
Proof.
  intros [[s1 w1] p1] [[s2 w2] p2] [[s3 w3] p3]. unfold token_le.
  intros [[Hn1 H1]|[-> H1]] [[Hn2 H2]|[-> H2]]; [|by left|by left|right; split; [done|lia]].
  assert (String.le s1 s3) as H13 by (by etrans).
  destruct (decide (s1 = s3)) as [->|]; [|by left].
  exfalso. apply Hn1. by apply (anti_symm String.le).
Qed.

Lemma dedup_from_length prev l : (length (dedup_from prev l) ≤ length l)%nat.
Proof.
  revert prev. induction l as [|a l IH]; intros prev; simpl; [done|].
  case_bool_decide; simpl; [specialize (IH prev)|specialize (IH a)]; lia.
Qed.

Lemma dedup_from_NoDup prev l :
  StronglySorted token_le (prev :: l) →
  length (dedup_from prev l) = length l ↔ NoDup (prev :: l).*1.*1.
Proof.
  revert prev. induction l as [|a l IH]; intros prev Hs; csimpl.
  - split; [intros _; apply NoDup_singleton|done].
  - apply StronglySorted_inv in Hs as [Hs Hle]. case_bool_decide as Heq.
    + pose proof (dedup_from_length prev l). split; [lia|].
      rewrite Heq. intros [Hni _]%NoDup_cons. by destruct Hni; left.
    + simpl. pose proof (IH a Hs) as HIH. csimpl in HIH. rewrite (NoDup_cons prev.1.1), <-HIH.
      split; [|intros [_ ?]; lia]. intros Hl. split; [|lia].
      intros [Hp|Hin]%elem_of_cons; [congruence|]. apply Heq.
      apply list_elem_of_fmap in Hin as (y & Hy & Hin).
      apply list_elem_of_fmap in Hin as (x & -> & Hin).
      apply StronglySorted_inv in Hs as [Hs Hal]. rewrite Forall_forall in Hal.
      inversion Hle as [|? ? Hpa _]; subst.
      apply (anti_symm String.le); [|by apply token_le_name].
      rewrite Hy. by apply token_le_name, Hal.
Qed.

Lemma dedup_tokens_id l :
  length (dedup_tokens (merge_sort token_le l)) = length l ↔ NoDup l.*1.*1.
Proof.
  pose proof (merge_sort_Permutation token_le l) as Hp.
  pose proof (StronglySorted_merge_sort token_le l) as Hs.
  assert (NoDup l.*1.*1 ↔ NoDup (merge_sort token_le l).*1.*1) as -> by (by rewrite Hp).
  rewrite <-(Permutation_length Hp). clear Hp.
  destruct (merge_sort token_le l) as [|a s]; simpl; [split; [constructor|done]|].
  rewrite <-(dedup_from_NoDup a s) by done. lia.
Qed.

Lemma dedup_from_sublist prev l : dedup_from prev l `sublist_of` l.
Proof.
  revert prev. induction l as [|a l IH]; intros prev; simpl; [done|].
  case_bool_decide; [by apply sublist_cons|by apply sublist_skip].
Qed.

Lemma dedup_tokens_perm l :
  length (dedup_tokens (merge_sort token_le l)) = length l →
  dedup_tokens (merge_sort token_le l) ≡ₚ l.
Proof.
  pose proof (merge_sort_Permutation token_le l) as Hp. rewrite <-(Permutation_length Hp).
  intros Hl. etrans; [|exact Hp]. revert Hl. clear Hp.
  destruct (merge_sort token_le l) as [|a s]; simpl; [done|]. intros Hl.
  by rewrite (sublist_full _ _ (dedup_from_sublist a s)) by lia.
Qed.

Lemma instantiate_pools_spec env l pools pools' :
  NoDup l.*1.*1 → (∀ tok, tok ∈ l.*1.*1 → pools !! tok = None) →
  ofold (instantiate_pool env) pools l = Ok pools' →
  pool_weights pools' = pool_weights pools + sum_N l.*1.*2 ∧
  ∀ tok p, pools' !! tok = Some p →
    pools !! tok = Some p ∨ ∃ w u, (tok, w, u) ∈ l ∧ p = new_pool (now env) w u.
Proof.
  revert pools. induction l as [|[[tok w] u] l IH]; intros pools Hnd Hnew; csimpl.
  - intros [= <-]. split; [lia|]. by left.
  - intros (pools1 & Hstep & Hl)%qbind_Ok. apply NoDup_cons in Hnd as [Hni Hnd].
    unfold instantiate_pool in Hstep. inv_body Hstep. apply addr_validate_law in Ha as ->.
    apply IH in Hl as [Hw Hp]; [|done|].
    + split.
      * rewrite Hw. unfold pool_weights. rewrite map_sum_insert_new by (apply Hnew; set_solver).
        simpl. lia.
      * intros tok' p Hin%Hp. destruct Hin as [[[<- <-]|[_ ?]]%lookup_insert_Some|(w' & u' & ? & ->)].
        -- right. exists w, u. split; [set_solver|done].
        -- by left.
        -- right. exists w', u'. split; [set_solver|done].
    + intros tok' Hin. rewrite lookup_insert_ne by set_solver. apply Hnew. set_solver.
Qed.

Lemma sum_weights_fold (l : list (string * N * N)) acc total :
  optfold (λ acc item, u64_add acc item.1.2) acc l = Some total →
  total = acc + sum_N l.*1.*2.
Proof.
  revert acc. induction l as [|[[tok w] u] l IH]; intros acc; csimpl.
  - intros [= <-]. lia.
  - destruct (u64_add acc w) eqn:Hw; simpl; [|discriminate]. intros ->%IH. platform_facts. lia.
Qed.

Lemma instantiate_inv env msg st resp : instantiate env msg = Ok (st, resp) → Inv st.
Proof.
  unfold instantiate. intros H. inv_body H. apply Nat.eqb_eq in E0.
  pose proof (proj1 (dedup_tokens_id _) E0) as Hnd.
  apply dedup_tokens_perm in E0 as Hp. rewrite <-Hp in Hnd.
  apply instantiate_pools_spec in Ha2 as [Hw Hpools]; [|done|set_solver].
  apply sum_weights_fold in Ha1.
  assert (∀ tok p, a2 !! tok = Some p → total_bond_amount p = 0 ∧ total_pending_withdraw p = 0) as Hz.
  { intros tok p [?|(w & u & _ & ->)]%Hpools; done. }
  split; simpl.
  - intros tok p [-> _]%Hz. done.
  - intros tok p [_ ->]%Hz. done.
  - done.
  - done.
  - intros. rewrite !lookup_empty. by split; intros [? ?].
  - intros c [= <-]. simpl. unfold pool_weights in *. rewrite map_sum_empty in Hw. lia.
Qed.

(** ** Every message *)

(** The amount of [token] a message brings under management: what a [Receive]
    hook reports, or the unaccounted balance [AutoStakeHook] finds. *)
Definition deposited (q : Querier) (env : Env) (st : Storage) (info : MessageInfo)
    (msg : ExecuteMsg Binary) (token : Addr) : N :=
  match msg with
  | Receive m => if decide (token = info_sender info) then cw20_amount m else 0
  | AutoStakeHook t =>
      if decide (token = t) then
        match query_token_balance q t (contract_address env) with
        | Ok b => b - liability t st
        | _ => 0
        end
      else 0
  | _ => 0
  end.

(** The amount of staked [token] a message pays out; the payment of
    [ClaimRewards] is a reward, not stake. *)
Definition withdrawn (msg : ExecuteMsg Binary) (token : Addr) (resp : Response) : N :=
  match msg with ClaimRewards _ => 0 | _ => cw20_sent token resp end.

Lemma cw20_sent_nil token resp : messages resp = [] → cw20_sent token resp = 0.
Proof. unfold cw20_sent. by intros ->. Qed.

Lemma cw20_sent_other tok token recipient amount attrs :
  tok ≠ token → cw20_sent tok (respond [transfer_msg token recipient amount] attrs) = 0.
Proof. intros Hne. unfold cw20_sent. simpl. by rewrite bool_decide_false by done. Qed.

Lemma staker_effect_only st st' s token paid resp tok :
  staker_effect st st' s token 0 paid → paid = cw20_sent token resp →
  (∀ tok', tok' ≠ token → cw20_sent tok' resp = 0) →
  liability tok st' + cw20_sent tok resp = liability tok st.
Proof.
  intros He -> Hother. pose proof (staker_effect_liability _ _ _ _ _ _ tok He) as Hl.
  destruct (decide (tok = token)) as [->|Hne]; [lia|]. rewrite Hother by done. lia.
Qed.

Lemma unbond_sends st env info token amount st' resp tok :
  unbond st env info token amount = Ok (st', resp) → tok ≠ token → cw20_sent tok resp = 0.
Proof.
  unfold unbond. intros H Hne. inv_body H. inv_body Ha7; [|done].
  by apply cw20_sent_other.
Qed.

Lemma claim_unbonded_sends st env info token st' resp tok :
  claim_unbonded st env info token = Ok (st', resp) → tok ≠ token → cw20_sent tok resp = 0.
Proof. unfold claim_unbonded. intros H Hne. inv_body H. by apply cw20_sent_other. Qed.

Lemma bond_accounting st env token s amount po st' resp tok :
  (∀ p, po = Some p → POOLS st !! token = Some p) → Inv st →
  bond st env token s amount po = Ok (st', resp) →
  Inv st' ∧ liability tok st' + cw20_sent tok resp =
    liability tok st + (if decide (tok = token) then amount else 0).
Proof.
  intros Hpo HI H. apply bond_effect in H as [He Hm]; [|done].
  split; [by eapply staker_effect_inv|]. rewrite cw20_sent_nil by done.
  pose proof (staker_effect_liability _ _ _ _ _ _ tok He). case_decide; lia.
Qed.

Lemma execute_accounting fb st q env info msg st' resp tok :
  Inv st → execute fb st q env info msg = Ok (st', resp) →
  Inv st' ∧
  liability tok st' + withdrawn msg tok resp = liability tok st + deposited q env st info msg tok.
Proof.
  intros HI H. destruct msg as [m|o|sch|t w u|t w u|t a|t|o|t]; unfold withdrawn, deposited; simpl in H.
  - unfold receive_cw20 in H. inv_body H. by apply (bond_accounting _ _ _ _ _ _ _ _ tok) in H.
  - inv_body H. apply update_owner_effect in H as (? & ? & Hl); [|done].
    rewrite Hl, cw20_sent_nil by done. auto.
  - apply add_distribution_schedule_effect in H as (? & ? & Hl); [|done].
    rewrite Hl, cw20_sent_nil by done. auto.
  - inv_body H. apply register_staking_token_effect in H as (? & _ & ? & Hl); [|done].
    rewrite Hl, cw20_sent_nil by done. auto.
  - inv_body H. apply update_staking_token_effect in H as (? & ? & Hr); [|done].
    rewrite (pools_refreshed_liability _ _ _ Hr), cw20_sent_nil by done. auto.
  - inv_body H. pose proof (λ tok, unbond_sends _ _ _ _ _ _ _ tok H) as Hs.
    apply unbond_effect in H as He; [|done].
    split; [by eapply staker_effect_inv|]. rewrite N.add_0_r. by eapply staker_effect_only.
  - inv_body H. pose proof (λ tok, claim_unbonded_sends _ _ _ _ _ _ tok H) as Hs.
    apply claim_unbonded_effect in H as He; [|done].
    split; [by eapply staker_effect_inv|]. rewrite N.add_0_r. by eapply staker_effect_only.
  - assert (∃ o', claim_rewards st env info o' = Ok (st', resp)) as [o' H'].
    { destruct o; inv_body H; eauto. }
    apply claim_rewards_effect in H' as (? & _ & Hl); [|done]. rewrite Hl. auto.
  - inv_body H. apply addr_validate_law in Ha as ->. unfold auto_stake_hook in H. inv_body H.
    apply (bond_accounting _ _ _ _ _ _ _ _ tok) in H as [? Hb];
      [|by intros ? [= <-]|done].
    split; [done|]. rewrite Hb, Ha. unfold liability at 3. rewrite Ha0. simpl.
    case_decide; lia.
Qed.

(** The reward token never changes. *)
Definition reward_token (st : Storage) : option Addr := prism_token <$> CONFIG st.

Lemma update_weight_fold_token token w t l st config found st' config' found' :
  ofold (update_weight_step token w t) (st, config, found) l = Ok (st', config', found') →
  prism_token config' = prism_token config.
Proof.
  intros H.
  apply (ofold_ind (λ acc, prism_token acc.1.2 = prism_token config)) in H; [done|done|].
  intros [[s c] f] [tok p] [[s' c'] f'] _ Hc Hstep. unfold update_weight_step in Hstep.
  simpl in *. by inv_body Hstep.
Qed.

Lemma bond_token st env token s amount po st' resp :
  (∀ p, po = Some p → POOLS st !! token = Some p) →
  bond st env token s amount po = Ok (st', resp) → reward_token st' = reward_token st.
Proof.
  unfold reward_token. intros Hpo H. apply bond_effect in H as [(?&?&?&?&HC&?) _]; [|done].
  by rewrite HC.
Qed.

Lemma execute_reward_token fb st q env info msg st' resp :
  Inv st → execute fb st q env info msg = Ok (st', resp) → reward_token st' = reward_token st.
Proof.
  intros HI H. destruct msg as [m|o|sch|t w u|t w u|t a|t|o|t]; simpl in H.
  - unfold receive_cw20 in H. inv_body H. by apply bond_token in H.
  - unfold update_owner in H. inv_body H. apply load_Ok in Ha0. unfold reward_token. by rewrite Ha0.
  - unfold add_distribution_schedule in H. inv_body H. apply load_Ok in Ha.
    unfold reward_token. by rewrite Ha.
  - unfold register_staking_token in H. inv_body H. apply load_Ok in Ha0.
    unfold reward_token. by rewrite Ha0.
  - unfold update_staking_token in H. inv_body H. apply load_Ok in Ha0.
    assert (reward_token a1 = reward_token st) as <-.
    { destruct u; inv_body Ha1; [|done]. apply update_weight_fold_token in Ha3.
      unfold reward_token. by rewrite Ha0; simpl; rewrite Ha3. }
    destruct w; inv_body Ha2; done.
  - inv_body H. apply unbond_effect in H as (?&?&?&?&HC&?); [|done]. unfold reward_token. by rewrite HC.
  - inv_body H. apply claim_unbonded_effect in H as (?&?&?&?&HC&?); [|done].
    unfold reward_token. by rewrite HC.
  - assert (∃ o', claim_rewards st env info o' = Ok (st', resp)) as [o' H'].
    { destruct o; inv_body H; eauto. }
    apply claim_rewards_effect in H' as (_ & HC & _); [|done]. unfold reward_token. by rewrite HC.
  - inv_body H. unfold auto_stake_hook in H. inv_body H.
    apply bond_token in H; [done|]. by intros ? [= <-].
Qed.

Lemma instantiate_empty env msg st resp tok p :
  instantiate env msg = Ok (st, resp) → POOLS st !! tok = Some p →
  total_bond_amount p = 0 ∧ total_pending_withdraw p = 0.
Proof.
  unfold instantiate. intros H Hp. inv_body H. apply Nat.eqb_eq in E0.
  pose proof (proj1 (dedup_tokens_id _) E0) as Hnd.
  apply dedup_tokens_perm in E0 as Hperm. rewrite <-Hperm in Hnd.
  apply instantiate_pools_spec in Ha2 as [_ Hpools]; [|done|set_solver].
  by apply Hpools in Hp as [?|(w & u & _ & ->)].
Qed.

(** ** Reward distribution *)

#[local] Arguments schedule_amount : simpl never.

(** The seconds of a schedule entry that lie before [t]. *)
Definition elapsed (start finish t : N) : N := N.min finish t - start.

(** The fixed rate at which a schedule entry pays a pool, in atomics of a token
    per second. *)
Definition schedule_rate (config : Config) (pool : PoolInfo) (s : N * N * Uint128) : N :=
  let '(start, finish, amount) := s in
  (amount * (weight pool * DECIMAL_UNIT / total_weight config) / DECIMAL_UNIT)
    * DECIMAL_UNIT / (finish - start).

Lemma schedule_amount_bound config pool t start finish amount d :
  schedule_amount config pool t (start, finish, amount) = Some d →
  last_distributed pool ≤ t →
  d * DECIMAL_UNIT + schedule_rate config pool (start, finish, amount)
      * elapsed start finish (last_distributed pool)
    ≤ schedule_rate config pool (start, finish, amount) * elapsed start finish t.
Proof.
  unfold schedule_amount, elapsed. intros H Ht.
  destruct ((t <? start) || (finish <? last_distributed pool))%bool eqn:E.
  - injection H as <-. rewrite N.mul_0_l, N.add_0_l. apply N.mul_le_mono_l. lia.
  - apply orb_false_iff in E as [?%N.ltb_ge ?%N.ltb_ge].
    simplify_option_eq. platform_facts. unfold schedule_rate.
    match goal with |- ?s * ?r / _ * _ + _ ≤ _ => set (secs := s) in *; set (rate := r) in * end.
    assert (N.min finish t - start = secs + (N.min finish (last_distributed pool) - start))
      as -> by (unfold secs; lia).
    pose proof (N.Div0.mul_div_le (secs * rate) DECIMAL_UNIT). nia.
Qed.

Definition at_time (t : N) (pool : PoolInfo) : PoolInfo :=
  with_rewards t (pool_reward_index pool) (pool_pending_reward pool) pool.

#[local] Arguments schedule_rate : simpl never.
#[local] Arguments elapsed : simpl never.

(** What is distributed to a pool when it is updated at each of the times [ts]. *)
Fixpoint distributed_over (config : Config) (pool : PoolInfo) (ts : list N) : option N :=
  match ts with
  | [] => Some 0
  | t :: ts =>
      d ← distributed config pool t;
      rest ← distributed_over config (at_time t pool) ts;
      Some (d + rest)
  end.

Definition rates_until (config : Config) (pool : PoolInfo) (t : N) (l : list (N * N * Uint128)) : N :=
  sum_N ((λ s, schedule_rate config pool s * elapsed s.1.1 s.1.2 t) <$> l).

Lemma distributed_fold_bound config pool t l acc d :
  optfold (λ acc s, d ← schedule_amount config pool t s; uint_add acc d) acc l = Some d →
  last_distributed pool ≤ t →
  d * DECIMAL_UNIT + rates_until config pool (last_distributed pool) l
    ≤ acc * DECIMAL_UNIT + rates_until config pool t l.
Proof.
  intros H Ht. revert acc H. unfold rates_until.
  induction l as [|[[start finish] amount] l IH]; intros acc; csimpl.
  - intros [= <-]. lia.
  - destruct (schedule_amount _ _ _ _) as [x|] eqn:Hx; [|discriminate]. csimpl.
    destruct (uint_add acc x) as [acc'|] eqn:Ha; [|discriminate]. csimpl.
    platform_facts. intros Hd%IH.
    pose proof (schedule_amount_bound _ _ _ _ _ _ _ Hx Ht). lia.
Qed.

Lemma distributed_over_bound config pool ts d :
  Sorted N.le (last_distributed pool :: ts) →
  distributed_over config pool ts = Some d →
  d * DECIMAL_UNIT + rates_until config pool (last_distributed pool) (distribution_schedule config)
    ≤ rates_until config pool (List.last ts (last_distributed pool)) (distribution_schedule config).
Proof.
  revert pool d. induction ts as [|t ts IH]; intros pool d Hs; simpl.
  - intros [= <-]. lia.
  - destruct (distributed config pool t) as [x|] eqn:Hx; [|discriminate]. simpl.
    destruct (distributed_over config (at_time t pool) ts) as [y|] eqn:Hy; [|discriminate]. simpl.
    intros [= <-]. apply Sorted_inv in Hs as [Hs Ht]. inversion Ht as [|? ? Hle]; subst.
    apply IH in Hy; [|done]. apply distributed_fold_bound in Hx; [|done].
    change (rates_until config (at_time t pool)) with (rates_until config pool) in Hy.
    change (last_distributed (at_time t pool)) with t in Hy.
    assert (List.last (t :: ts) (last_distributed pool) = List.last ts t) as Hlast.
    { clear. revert t. induction ts as [|u ts IH]; intros t; [done|].
      simpl in *. destruct ts; [done|]. apply IH. }
    simpl in Hlast. rewrite Hlast. lia.
Qed.

Lemma rates_until_budget config pool t l :
  rates_until config pool t l * total_weight config ≤
  weight pool * sum_N l.*2 * DECIMAL_UNIT.
Proof.
  unfold rates_until. induction l as [|[[start finish] amount] l IH]; csimpl; [lia|].
  assert (schedule_rate config pool (start, finish, amount) * elapsed start finish t
            * total_weight config ≤ weight pool * amount * DECIMAL_UNIT) as Hs; [|lia].
  unfold schedule_rate, elapsed.
  set (ratio := weight pool * DECIMAL_UNIT / total_weight config).
  set (pda := amount * ratio / DECIMAL_UNIT).
  pose proof (N.Div0.mul_div_le (weight pool * DECIMAL_UNIT) (total_weight config)) as H1.
  fold ratio in H1.
  pose proof (N.Div0.mul_div_le (amount * ratio) DECIMAL_UNIT) as H2. fold pda in H2.
  pose proof (N.Div0.mul_div_le (pda * DECIMAL_UNIT) (finish - start)) as H3.
  set (rate := pda * DECIMAL_UNIT / (finish - start)) in *.
  assert (rate * (N.min finish t - start) ≤ pda * DECIMAL_UNIT) as H4.
  { etrans; [|exact H3]. rewrite (N.mul_comm rate). apply N.mul_le_mono_r. lia. }
  transitivity (amount * ratio * total_weight config).
  - apply N.mul_le_mono_r. lia.
  - rewrite <-N.mul_assoc, (N.mul_comm ratio), (N.mul_comm (weight pool) amount), <-N.mul_assoc.
    by apply N.mul_le_mono_l.
Qed.

(** ** Reward index *)
Lemma compute_pool_reward_spec config pool t pool' :
  compute_pool_reward config pool t = Some pool' →
  ∃ d, distributed config pool t = Some d ∧
  pool' = if is_zero (total_bond_amount pool)
          then with_rewards t (pool_reward_index pool) (pool_pending_reward pool + d) pool
          else with_rewards t (pool_reward_index pool +
                 (pool_pending_reward pool + d) * DECIMAL_UNIT / total_bond_amount pool) 0 pool.
Proof.
  unfold compute_pool_reward. intros H.
  destruct (distributed config pool t) as [d|] eqn:Hd; [|discriminate]. simpl in H.
  exists d. split; [done|]. destruct (is_zero _); simplify_option_eq; by platform_facts.
Qed.

Lemma compute_staker_reward_spec pool r r' :
  compute_staker_reward pool r = Some r' ↔
  let owed := bond_amount r * pool_reward_index pool / DECIMAL_UNIT in
  let paid := bond_amount r * reward_index r / DECIMAL_UNIT in
  owed < u128_limit ∧ paid ≤ owed ∧ pending_reward r + (owed - paid) < u128_limit ∧
  r' = mkRewardInfo (pool_reward_index pool) (bond_amount r) (withdrawable_amount r)
         (pending_reward r + (owed - paid)).
Proof.
  cbv zeta. unfold compute_staker_reward. split.
  - intros H. simplify_option_eq. by platform_facts.
  - intros (H1 & H2 & H3 & ->).
    rewrite (proj2 (uint_mul_dec_Some _ _ _) (conj eq_refl H1)); simpl.
    rewrite (proj2 (uint_mul_dec_Some (bond_amount r) (reward_index r) _)
      (conj eq_refl (N.le_lt_trans _ _ _ H2 H1))); simpl.
    rewrite (proj2 (uint_sub_Some _ _ _) (conj H2 eq_refl)); simpl.
    by rewrite (proj2 (uint_add_Some _ _ _) (conj eq_refl H3)).
Qed.
End proofs.
