(* ===== verification/LpStakingSpec.v ===== *)
(** * What the LP staking contract promises

    The runs of the contract, its properties, and concrete runs on the
    reference platform that witness them. *)
From S2P Require Import Prelude Cosmwasm Protocol LpStaking LpStakingProofs.
Import LpStakingMsg LpStaking Tokens.

Module LpStakingSpec.

Section runs.
Context {P : Cosmwasm}.
Variable from_binary : Binary → outcome StdError Cw20HookMsg.

(** What the token contract credits before a message is executed. *)
Definition incoming (info : MessageInfo) (msg : ExecuteMsg Binary) (l : ledger) : ledger :=
  match msg with
  | Receive m => credit (info_sender info) (cw20_amount m) l
  | _ => l
  end.

(** The contract is told at most the balances it has. *)
Definition honest (q : Querier) (env : Env) (l : ledger) : Prop :=
  ∀ t b, query_token_balance q t (contract_address env) = Ok b → b ≤ l t.

(** The states of the contract, with its token balances: after instantiation,
    after an unsolicited transfer, and after a successful message whose
    transfers are carried out. *)
Inductive reachable : Storage → ledger → Prop :=
  | reach_init env msg st resp l :
      instantiate env msg = Ok (st, resp) → reachable st l
  | reach_gift st l token amount :
      reachable st l → reachable st (credit token amount l)
  | reach_step st l q env info msg st' resp :
      reachable st l → honest q env l →
      execute from_binary st q env info msg = Ok (st', resp) →
      reachable st' (pay_out resp (incoming info msg l)).
End runs.

Section properties.
Context {P : Cosmwasm} {L : CosmwasmLaws P}.
Variable fb : Binary → outcome StdError Cw20HookMsg.

Lemma reachable_inv st l : reachable fb st l → Inv st.
Proof.
  induction 1 as [env msg st resp l Hi|st l t a _ IH|st l q env info msg st' resp _ IH _ H];
    [by eapply instantiate_inv|done|].
  by eapply (execute_accounting _ _ _ _ _ _ _ _ ""%string) in H as [? _].
Qed.

Lemma deposited_le q env st info msg l tok :
  honest q env l → liability tok st ≤ l tok →
  liability tok st + deposited q env st info msg tok ≤ incoming info msg l tok.
Proof.
  intros Hq Hl. destruct msg; simpl; try lia.
  - unfold credit. case_decide; lia.
  - case_decide; [subst|lia]. destruct (query_token_balance _ _ _) as [b| |] eqn:Hb; [|lia|lia].
    apply Hq in Hb. lia.
Qed.

Lemma claim_rewards_sends st env info token st' resp tok :
  claim_rewards st env info token = Ok (st', resp) →
  reward_token st ≠ Some tok → cw20_sent tok resp = 0.
Proof.
  unfold claim_rewards. intros H Ht. inv_body H. apply load_Ok in Ha.
  destruct (is_zero _); [done|]. apply cw20_sent_other. intros ->.
  apply Ht. unfold reward_token. by rewrite Ha.
Qed.

Lemma withdrawn_sent fbin st q env info msg st' resp tok :
  execute fbin st q env info msg = Ok (st', resp) → reward_token st ≠ Some tok →
  withdrawn msg tok resp = cw20_sent tok resp.
Proof.
  intros H Ht. destruct msg as [| | | | | | |o|]; try done. simpl in H.
  assert (∃ o', claim_rewards st env info o' = Ok (st', resp)) as [o' H'].
  { destruct o; inv_body H; eauto. }
  symmetry. by eapply claim_rewards_sends.
Qed.

(** C13: Bookkeeping invariant of LP staking. In every state the contract can
    reach, the bonded and pending totals of each pool are exactly the sums over
    the stakers' records and queued unbond orders, records and orders belong to
    registered pools, the index of stakers by token lists exactly the stakers,
    and the total weight is the sum of the pool weights. *)
Theorem lp_bookkeeping st l : reachable fb st l → Inv st.
Proof. apply reachable_inv. Qed.

(** C1: Solvency of LP staking. In every reachable state, for every token other
    than the reward token, what is bonded plus what waits to be withdrawn is
    covered by the contract's balance of that token: no sequence of bonds,
    unbonds, claims, hooks and owner operations pays out stake twice. *)
Theorem lp_solvent st l tok :
  reachable fb st l → reward_token st ≠ Some tok → liability tok st ≤ l tok.
Proof.
  intros Hr. induction Hr as [env msg st resp l Hi|st l t a Hr IH|st l q env info msg st' resp Hr IH Hq H].
  - intros _. destruct (POOLS st !! tok) as [p|] eqn:Hp; unfold liability; rewrite Hp; simpl; [|lia].
    destruct (instantiate_empty _ _ _ _ _ _ Hi Hp) as [-> ->]. lia.
  - intros Ht. specialize (IH Ht). unfold credit. case_decide; lia.
  - pose proof (reachable_inv _ _ Hr) as HI. intros Ht.
    rewrite (execute_reward_token _ _ _ _ _ _ _ _ HI H) in Ht. specialize (IH Ht).
    pose proof (withdrawn_sent _ _ _ _ _ _ _ _ _ H Ht) as Hw.
    apply (execute_accounting _ _ _ _ _ _ _ _ tok) in H as [_ H]; [|done].
    pose proof (deposited_le q env st info msg l tok Hq IH). unfold pay_out. lia.
Qed.

(** Rewards are split soundly. Updating a pool distributes the schedule's
    amount [d]: without stakers it is kept as pending reward and the index does
    not move; with stakers the index grows, the pending reward is used up, and
    what the growth promises to the stakers together is at most the reward
    available, short of it by less than one atomic per bonded token. *)
Theorem lp_pool_reward_split config pool t pool' :
  compute_pool_reward config pool t = Some pool' →
  ∃ d, distributed config pool t = Some d ∧ last_distributed pool' = t ∧
  let available := (pool_pending_reward pool + d) * DECIMAL_UNIT in
  let promised := (pool_reward_index pool' - pool_reward_index pool) * total_bond_amount pool in
  pool_reward_index pool ≤ pool_reward_index pool' ∧
  (total_bond_amount pool = 0 →
     pool_reward_index pool' = pool_reward_index pool ∧
     pool_pending_reward pool' = pool_pending_reward pool + d) ∧
  (total_bond_amount pool ≠ 0 → pool_pending_reward pool' = 0 ∧
     promised ≤ available < promised + total_bond_amount pool).
Proof.
  intros (d & Hd & ->)%compute_pool_reward_spec. exists d. unfold is_zero.
  destruct (N.eqb_spec (total_bond_amount pool) 0) as [Hz|Hz]; cbn [with_rewards
    pool_reward_index pool_pending_reward last_distributed]; split_and!; try done; try lia.
  { apply N.le_add_r. }
  intros _. split; [done|].
  set (a := (pool_pending_reward pool + d) * DECIMAL_UNIT).
  rewrite N.add_comm, N.add_sub.
  pose proof (N.Div0.mul_div_le a (total_bond_amount pool)).
  pose proof (N.mul_succ_div_gt a (total_bond_amount pool) Hz). lia.
Qed.

(** The schedule is never overspent. However often a pool is updated, at
    any non-decreasing sequence of times, what it is given in total stays
    within its weight's share of the amounts of the distribution schedule. *)
Theorem lp_schedule_budget config pool ts d :
  Sorted N.le (last_distributed pool :: ts) →
  distributed_over config pool ts = Some d →
  d * total_weight config ≤ weight pool * sum_N (distribution_schedule config).*2.
Proof.
  intros Hs Hd. pose proof (distributed_over_bound _ _ _ _ Hs Hd) as Hb.
  pose proof (rates_until_budget config pool (List.last ts (last_distributed pool))
    (distribution_schedule config)) as Hr.
  assert (0 < DECIMAL_UNIT) as Hu by done.
  apply (N.mul_le_mono_pos_r _ _ DECIMAL_UNIT Hu). nia.
Qed.

(** C39: Reward accrual does not depend on how often a staker is updated. Passing
    through an intermediate reward index gives exactly the record the direct
    update gives. *)
Theorem lp_reward_path_independent pool1 pool2 r r2 :
  reward_index r ≤ pool_reward_index pool1 → pool_reward_index pool1 ≤ pool_reward_index pool2 →
  compute_staker_reward pool2 r = Some r2 →
  (r1 ← compute_staker_reward pool1 r; compute_staker_reward pool2 r1) = Some r2.
Proof.
  intros H01 H12 (Ho & Hp & Hs & ->)%compute_staker_reward_spec.
  set (b := bond_amount r) in *.
  assert (b * reward_index r / DECIMAL_UNIT ≤ b * pool_reward_index pool1 / DECIMAL_UNIT) as Hle1.
  { apply N.Div0.div_le_mono. by apply N.mul_le_mono_l. }
  assert (b * pool_reward_index pool1 / DECIMAL_UNIT ≤ b * pool_reward_index pool2 / DECIMAL_UNIT) as Hle2.
  { apply N.Div0.div_le_mono. by apply N.mul_le_mono_l. }
  assert (compute_staker_reward pool1 r = Some (mkRewardInfo (pool_reward_index pool1) b
    (withdrawable_amount r) (pending_reward r + (b * pool_reward_index pool1 / DECIMAL_UNIT
       - b * reward_index r / DECIMAL_UNIT)))) as ->.
  { apply compute_staker_reward_spec. fold b. split_and!; [lia|done|lia|done]. }
  simpl.
  apply compute_staker_reward_spec. simpl. fold b.
  split_and!; [done|done|lia|f_equal; lia].
Qed.

(** What [ClaimUnbonded] pays. The staker gets in one transfer the unlocked
    balance plus the orders that have expired, among the first fifty in order
    of creation; exactly these orders are removed, every other order stays, and
    the staker's bonded amount is untouched. *)
Theorem lp_claim_unbonded_pays st env info token st' resp :
  Inv st → claim_unbonded st env info token = Ok (st', resp) →
  ∃ pool r, POOLS st !! token = Some pool ∧ REWARD_INFO st !! (info_sender info, token) = Some r ∧
  let s := info_sender info in
  let picked := expired_orders (now env) (unbond_period pool) (range_u64 (orders_of st s token)) in
  let amount := withdrawable_amount r + sum_N picked.*2 in
  0 < amount ∧
  messages resp = [sub_new (transfer_msg token s amount)] ∧
  (∀ t v, (t, v) ∈ picked → t + unbond_period pool < now env) ∧
  (∀ s' tok t, UNBOND_ORDERS st' !! (s', tok, t) =
     if decide (s' = s ∧ tok = token ∧ t ∈ picked.*1) then None
     else UNBOND_ORDERS st !! (s', tok, t)) ∧
  bond_amount (record_of st' s token) = bond_amount r.
Proof.
  intros HI H. pose proof H as Hc. unfold claim_unbonded in H. inv_body H.
  apply pull_expired_spec in Ha1 as (-> & -> & ->).
  exists a, a0. split_and!; [done|done|..].
  - simpl in *. unfold is_zero in *. ok_facts. simpl in *. lia.
  - done.
  - intros t v Hin. by apply list_elem_of_filter in Hin as [Hin _].
  - intros s' tok t.
    transitivity (UNBOND_ORDERS (remove_withdrawn st (info_sender info) token
      (expired_orders (now env) (unbond_period a)
         (range_u64 (orders_of st (info_sender info) token))).*1) !! (s', tok, t)).
    + unfold update_or_remove_staker_rewards. by destruct (_ && _ && _ && _)%bool.
    + apply lookup_remove_orders.
  - unfold update_or_remove_staker_rewards, record_of.
    destruct (_ && _ && _ && _)%bool eqn:Ez; simpl.
    + rewrite lookup_delete_eq. simpl. unfold is_zero in Ez. ok_facts. done.
    + by rewrite lookup_insert_eq.
Qed.

(** Instantiation accepts a list of staking tokens, given valid schedules,
    only if no token is named twice: sorting and deduplicating detects every
    duplicate, wherever it stands in the list. *)
Theorem lp_duplicate_staking_token env msg :
  existsb (λ '(start, finish, _), finish <=? start) (LpStakingMsg.distribution_schedule msg) = false →
  instantiate env msg = Err DuplicateStakingToken ↔ ¬ NoDup (LpStakingMsg.staking_tokens msg).*1.*1.
Proof.
  intros Hsched. rewrite <-dedup_tokens_id. unfold instantiate. rewrite Hsched.
  destruct (Nat.eqb_spec (length (dedup_tokens (merge_sort token_le (LpStakingMsg.staking_tokens msg))))
    (length (LpStakingMsg.staking_tokens msg))) as [Heq|Hne]; simpl; [|by split].
  split; [|by intros []]. intros H. exfalso.
  destruct (addr_validate (LpStakingMsg.owner msg)); simpl in H; try discriminate.
  destruct (addr_validate (LpStakingMsg.prism_token msg)); simpl in H; try discriminate.
  destruct (optfold _ _ _); simpl in H; [|discriminate].
  destruct (ofold _ _ _) as [|e|] eqn:Hf; simpl in H; try discriminate.
  injection H as Hd. revert Hf Hd. clear. unfold from_err, from_err_refl.
  generalize (∅ : gmap Addr PoolInfo).
  induction (dedup_tokens _) as [|[[t w] u] l IH]; intros m; simpl; [discriminate|].
  destruct (addr_validate t); simpl; [apply IH|by intros [= <-]|discriminate].
Qed.

(** [AutoStakeHook] leaves no unaccounted balance: after it, what the pool
    has bonded and pending is exactly the contract's balance of the staking
    token, so a second hook with the same balance bonds nothing. *)
Theorem lp_auto_stake_absorbs st q env token sender st' resp :
  Inv st → auto_stake_hook st q env token sender = Ok (st', resp) →
  query_token_balance q token (contract_address env) = Ok (liability token st') ∧
  Inv st' ∧ messages resp = [].
Proof.
  unfold auto_stake_hook. intros HI H. inv_body H.
  apply bond_effect in H as [He Hm]; [|by intros ? [= <-]].
  split_and!; [|by eapply staker_effect_inv|done].
  pose proof (staker_effect_liability _ _ _ _ _ _ token He) as Hl.
  rewrite !decide_True in Hl by done. unfold liability in Hl at 2. rewrite Ha0 in Hl. simpl in Hl.
  rewrite Ha. f_equal. lia.
Qed.

(** [Unbond] never merges two orders: a staker who already has an order of
    the same second that is still locked gets [UnbondOrderOverwrite], and a
    successful [Unbond] under an unbonding period leaves all unexpired orders
    and adds one of exactly the amount unbonded. *)
Theorem lp_unbond_keeps_orders st env info token amount st' resp pool :
  unbond st env info token amount = Ok (st', resp) →
  POOLS st !! token = Some pool → unbond_period pool ≠ 0 →
  let s := info_sender info in
  let picked := expired_orders (now env) (unbond_period pool) (range_u64 (orders_of st s token)) in
  messages resp = [] ∧ ∃ n, UNBOND_ORDERS st' =
    <[(s, token, now env) := n]> (remove_orders s token picked.*1 (UNBOND_ORDERS st)) ∧
  remove_orders s token picked.*1 (UNBOND_ORDERS st) !! (s, token, now env) = None ∧
  bond_amount (record_of st' s token) + n = bond_amount (record_of st s token).
Proof.
  intros H Hpool Hperiod. unfold unbond in H. inv_body H.
  apply pull_expired_spec in Ha2 as (-> & -> & ->).
  frame_facts. inv_body Ha7; [congruence|]. simpl in *.
  split; [done|]. eexists. split_and!; [|done|].
  - unfold update_or_remove_staker_rewards. by destruct (_ && _ && _ && _)%bool.
  - unfold update_or_remove_staker_rewards, record_of. rewrite Ha1. simpl.
    rewrite andb_false_r. simpl. rewrite lookup_insert_eq. simpl. lia.
Qed.
End properties.

(** ** A run on the reference platform

    One pool of token [lp]: alice bonds 100 at second 10, unbonds 40 at second
    60 under an unbonding period of 20 seconds, and claims at second 100. *)
Section example.
Import Reference.

Definition at_second (t : N) : Env := mkEnv 1 (t * 10 ^ 9) "staking".
Definition by_user (u : Addr) : MessageInfo := mkInfo u [].
Definition parse_bond (b : Binary) : outcome StdError Cw20HookMsg :=
  match b with RawBinary _ => Ok Bond | _ => Err ParseErr end.
Definition no_answers : Querier :=
  mkQuerier (λ _, Err ParseErr) (λ _ _, Err ParseErr) (λ _, Err ParseErr) (Err ParseErr)
    (λ _ _, Err ParseErr) (λ _ _, Err ParseErr) (λ _, Err ParseErr).
Definition answer_balance (n : N) : Querier :=
  mkQuerier (λ _, Err ParseErr) (λ _ _, Err ParseErr) (λ _, Err ParseErr) (Err ParseErr)
    (λ _ _, Err ParseErr) (λ _ _, Ok n) (λ _, Err ParseErr).

Definition empty_storage : Storage := mkStorage None ∅ ∅ ∅ ∅.
Definition new_state {E} (r : outcome E (Storage * Response)) : Storage :=
  match r with Ok (st, _) => st | _ => empty_storage end.
Definition response_of {E} (r : outcome E (Storage * Response)) : Response :=
  match r with Ok (_, resp) => resp | _ => respond [] [] end.
Lemma run_Ok {E} (r : outcome E (Storage * Response)) :
  is_ok r = true → r = Ok (new_state r, response_of r).
Proof. by destruct r as [[st resp]| |]. Qed.

Definition init_msg : LpStakingMsg.InstantiateMsg :=
  LpStakingMsg.mkInstantiateMsg "owner" "prism" [(10, 110, 1000)] [("lp"%string, 1, 20)].
Definition bond_msg : ExecuteMsg Binary := Receive (mkCw20Receive "alice" 100 (RawBinary "{bond:{}}")).
Definition run_init := instantiate (at_second 5) init_msg.
Definition run_bond :=
  execute parse_bond (new_state run_init) no_answers (at_second 10) (by_user "lp") bond_msg.
Definition run_unbond :=
  execute parse_bond (new_state run_bond) no_answers (at_second 60) (by_user "alice")
    (Unbond "lp" (Some 40)).
Definition run_claim :=
  execute parse_bond (new_state run_unbond) no_answers (at_second 100) (by_user "alice")
    (ClaimUnbonded "lp").

Lemma no_answers_honest env l : honest no_answers env l.
Proof. intros t b [= <-]. lia. Qed.

Definition ledger_after_bond : Addr → N :=
  pay_out (response_of run_bond) (incoming (by_user "lp") bond_msg (λ _, 0)).
Definition ledger_after_unbond : Addr → N :=
  pay_out (response_of run_unbond) ledger_after_bond.

Lemma run_init_Ok : run_init = Ok (new_state run_init, response_of run_init).
Proof. apply run_Ok. by vm_compute. Qed.
Lemma run_bond_Ok : run_bond = Ok (new_state run_bond, response_of run_bond).
Proof. apply run_Ok. by vm_compute. Qed.
Lemma run_unbond_Ok : run_unbond = Ok (new_state run_unbond, response_of run_unbond).
Proof. apply run_Ok. by vm_compute. Qed.
Lemma run_claim_Ok : run_claim = Ok (new_state run_claim, response_of run_claim).
Proof. apply run_Ok. by vm_compute. Qed.

Lemma bond_reachable : reachable parse_bond (new_state run_bond) ledger_after_bond.
Proof.
  exact (reach_step parse_bond _ _ no_answers (at_second 10) (by_user "lp") bond_msg _ _
    (reach_init parse_bond (at_second 5) init_msg _ _ (λ _, 0) run_init_Ok)
    (no_answers_honest _ _) run_bond_Ok).
Qed.
Lemma unbond_reachable : reachable parse_bond (new_state run_unbond) ledger_after_unbond.
Proof.
  exact (reach_step parse_bond _ _ no_answers (at_second 60) (by_user "alice")
    (Unbond "lp" (Some 40)) _ _ bond_reachable (no_answers_honest _ _) run_unbond_Ok).
Qed.

Lemma lp_bookkeeping_witness :
  Inv (new_state run_unbond) ∧
  UNBOND_ORDERS (new_state run_unbond) !! ("alice", "lp", 60)%string = Some 40.
Proof.
  split; [|by vm_compute]. apply (lp_bookkeeping parse_bond _ ledger_after_unbond), unbond_reachable.
Defined.

Lemma lp_solvent_witness :
  liability "lp" (new_state run_unbond) = 100 ∧
  liability "lp" (new_state run_unbond) ≤ ledger_after_unbond "lp".
Proof.
  split; [by vm_compute|].
  apply (lp_solvent parse_bond _ _ "lp" unbond_reachable). by vm_compute.
Defined.

Definition sample_config : Config := mkConfig "owner" "prism" [(10, 110, 1000)] 4.
Definition sample_pool : PoolInfo := mkPoolInfo 20 1 300 0 0 7 20.

Lemma lp_pool_reward_split_witness :
  ∃ pool', compute_pool_reward sample_config sample_pool 60 = Some pool' ∧
  pool_reward_index sample_pool < pool_reward_index pool' ∧ pool_pending_reward pool' = 0.
Proof.
  eexists. split; [by vm_compute|].
  edestruct (lp_pool_reward_split sample_config sample_pool 60) as (d & _ & _ & _ & _ & H);
    [by vm_compute|]. destruct H as [Hp _]; [done|]. split; [by vm_compute|exact Hp].
Defined.

Lemma lp_schedule_budget_witness :
  distributed_over sample_config sample_pool [25; 60; 200] = Some 224 ∧ 224 * 4 ≤ 1 * 1000.
Proof.
  split; [by vm_compute|].
  apply (lp_schedule_budget sample_config sample_pool [25; 60; 200] 224); [|by vm_compute].
  repeat constructor; done.
Defined.

Definition sample_reward : RewardInfo := mkRewardInfo (10 ^ 17) 33 0 5.
Definition pool_at (index : Decimal) : PoolInfo := mkPoolInfo 20 1 300 0 index 0 20.

Lemma lp_reward_path_independent_witness :
  (r1 ← compute_staker_reward (pool_at (2 * 10 ^ 17)) sample_reward;
   compute_staker_reward (pool_at (7 * 10 ^ 17)) r1) =
  Some (mkRewardInfo (7 * 10 ^ 17) 33 0 25).
Proof. apply lp_reward_path_independent; by vm_compute. Defined.

Lemma lp_claim_unbonded_pays_witness :
  messages (response_of run_claim) = [sub_new (transfer_msg "lp" "alice" 40)] ∧
  bond_amount (record_of (new_state run_claim) "alice" "lp") = 60.
Proof.
  edestruct (lp_claim_unbonded_pays (P:=platform) (new_state run_unbond) (at_second 100) (by_user "alice") "lp"
    (new_state run_claim) (response_of run_claim)) as (pool & r & Hp & Hr & _ & _ & _ & _ & Hb).
  - apply (reachable_inv parse_bond _ ledger_after_unbond), unbond_reachable.
  - exact run_claim_Ok.
  - split; [by vm_compute|]. etrans; [exact Hb|]. clear Hb Hp. vm_compute in Hr. by injection Hr as <-.
Defined.

Lemma lp_duplicate_staking_token_witness :
  let msg := LpStakingMsg.mkInstantiateMsg "owner" "prism" []
    [("a", 1, 0); ("b", 1, 0); ("a", 5, 7)]%string in
  instantiate (at_second 5) msg = Err DuplicateStakingToken.
Proof.
  intros msg. apply (lp_duplicate_staking_token (at_second 5) msg); [done|].
  by vm_compute; inversion 1 as [|? ? Hni]; destruct Hni; right; left.
Defined.

Definition run_hook :=
  auto_stake_hook (new_state run_bond) (answer_balance 130) (at_second 20) "lp" "bob".
Lemma run_hook_Ok : run_hook = Ok (new_state run_hook, response_of run_hook).
Proof. apply run_Ok. by vm_compute. Qed.

Lemma lp_auto_stake_absorbs_witness :
  is_ok run_hook = true ∧ liability "lp" (new_state run_hook) = 130.
Proof.
  split; [by vm_compute|].
  destruct (lp_auto_stake_absorbs (P:=platform) (new_state run_bond) (answer_balance 130) (at_second 20) "lp" "bob"
    (new_state run_hook) (response_of run_hook)
    (reachable_inv parse_bond _ ledger_after_bond bond_reachable) run_hook_Ok) as [Hq _].
  symmetry. exact (Ok_inj _ _ Hq).
Defined.

Lemma lp_unbond_keeps_orders_witness :
  bond_amount (record_of (new_state run_unbond) "alice" "lp") = 60 ∧
  messages (response_of run_unbond) = [].
Proof.
  destruct (lp_unbond_keeps_orders (P:=platform) (new_state run_bond) (at_second 60) (by_user "alice") "lp" (Some 40)
    (new_state run_unbond) (response_of run_unbond) (default sample_pool (POOLS (new_state run_bond) !! "lp"%string)))
    as [Hm _]; [exact run_unbond_Ok|by vm_compute|by vm_compute|].
  split; [by vm_compute|exact Hm].
Defined.

(** Two pools of weight 1 share a schedule of 1000 per 100 seconds; the owner
    raises the weight of pool [a] to 3 at second 110. The loop updates [a]
    first and divides the past rewards of [b], which had half of the weight,
    by the new total weight: [b] gets 250 instead of 500. *)
Lemma update_weight_changes_past_rewards :
  let msg := LpStakingMsg.mkInstantiateMsg "owner" "prism" [(10, 110, 1000)]
    [("a", 1, 0); ("b", 1, 0)]%string in
  let st := new_state (instantiate (at_second 5) msg) in
  let st' := new_state (execute parse_bond st no_answers (at_second 110) (by_user "owner")
               (UpdateStakingToken "a" None (Some 3))) in
  pool_pending_reward <$> (POOLS st' !! "a"%string) = Some 500 ∧
  pool_pending_reward <$> (POOLS st' !! "b"%string) = Some 250.
Proof. split; by vm_compute. Qed.
End example.
End LpStakingSpec.
