(* ===== verification/Vault.v ===== *)
(** * The vault (contracts/prism-vault)

    State ([src/state.rs]), bonding ([src/bond.rs]), unbonding and withdrawal
    ([src/unbond.rs]), splitting and merging ([src/refract.rs]), configuration
    ([src/config.rs]), entry points, slashing and queries ([src/contract.rs]).
    Every handler returns [StdResult], so the errors are [StdError]. *)
From S2P Require Import Prelude Cosmwasm Protocol Wire Arith.
Import VaultMsg.

Module Vault.

(** ** State (src/state.rs) *)
Record Parameters : Type := mkParameters {
  p_epoch_period : N;
  p_underlying_coin_denom : string;
  p_unbonding_period : N;
  p_peg_recovery_fee : Decimal;
  p_er_threshold : Decimal }.

Record CurrentBatch : Type := mkCurrentBatch { batch_id : N; requested_with_fee : Uint128 }.

Record State : Type := mkState {
  exchange_rate : Decimal;
  total_bond_amount : Uint128;
  last_index_modification : N;
  prev_vault_balance : Uint128;
  actual_unbonded_amount : Uint128;
  last_unbonded_time : N;
  last_processed_batch : N }.

Record Config : Type := mkConfig {
  owner : Addr;
  yluna_staking : Addr;
  cluna_contract : Addr;
  yluna_contract : Addr;
  pluna_contract : Addr;
  airdrop_registry_contract : Addr;
  initialized : bool;
  token_admin : Addr;
  token_code_id : N;
  manager : Addr }.

Record UnbondHistory : Type := mkUnbondHistory {
  h_batch_id : N;
  h_time : N;
  h_amount : Uint128;
  h_applied_exchange_rate : Decimal;
  h_withdraw_rate : Decimal;
  h_released : bool }.

Record Storage : Type := mkStorage {
  CONFIG : option Config;
  PARAMETERS : option Parameters;
  CURRENT_BATCH : option CurrentBatch;
  STATE : option State;
  (** (user, batch id) -> amount *)
  UNBOND_WAITLIST : gmap (Addr * N) Uint128;
  UNBOND_HISTORY : gmap N UnbondHistory;
  VALIDATORS : gmap Addr bool }.

Definition set_config (c : Config) (st : Storage) : Storage :=
  mkStorage (Some c) (PARAMETERS st) (CURRENT_BATCH st) (STATE st) (UNBOND_WAITLIST st)
    (UNBOND_HISTORY st) (VALIDATORS st).
Definition set_parameters (p : Parameters) (st : Storage) : Storage :=
  mkStorage (CONFIG st) (Some p) (CURRENT_BATCH st) (STATE st) (UNBOND_WAITLIST st)
    (UNBOND_HISTORY st) (VALIDATORS st).
Definition set_batch (b : CurrentBatch) (st : Storage) : Storage :=
  mkStorage (CONFIG st) (PARAMETERS st) (Some b) (STATE st) (UNBOND_WAITLIST st)
    (UNBOND_HISTORY st) (VALIDATORS st).
Definition set_state (s : State) (st : Storage) : Storage :=
  mkStorage (CONFIG st) (PARAMETERS st) (CURRENT_BATCH st) (Some s) (UNBOND_WAITLIST st)
    (UNBOND_HISTORY st) (VALIDATORS st).
Definition set_waitlist (w : gmap (Addr * N) Uint128) (st : Storage) : Storage :=
  mkStorage (CONFIG st) (PARAMETERS st) (CURRENT_BATCH st) (STATE st) w
    (UNBOND_HISTORY st) (VALIDATORS st).
Definition set_history (h : gmap N UnbondHistory) (st : Storage) : Storage :=
  mkStorage (CONFIG st) (PARAMETERS st) (CURRENT_BATCH st) (STATE st) (UNBOND_WAITLIST st)
    h (VALIDATORS st).
Definition set_validators (v : gmap Addr bool) (st : Storage) : Storage :=
  mkStorage (CONFIG st) (PARAMETERS st) (CURRENT_BATCH st) (STATE st) (UNBOND_WAITLIST st)
    (UNBOND_HISTORY st) v.

(** In-place updates of [State]. *)
Definition with_rate (r : Decimal) (s : State) : State :=
  mkState r (total_bond_amount s) (last_index_modification s) (prev_vault_balance s)
    (actual_unbonded_amount s) (last_unbonded_time s) (last_processed_batch s).
Definition with_bonded (b : Uint128) (s : State) : State :=
  mkState (exchange_rate s) b (last_index_modification s) (prev_vault_balance s)
    (actual_unbonded_amount s) (last_unbonded_time s) (last_processed_batch s).
Definition with_index_time (t : N) (s : State) : State :=
  mkState (exchange_rate s) (total_bond_amount s) t (prev_vault_balance s)
    (actual_unbonded_amount s) (last_unbonded_time s) (last_processed_batch s).
Definition with_balance (b : Uint128) (s : State) : State :=
  mkState (exchange_rate s) (total_bond_amount s) (last_index_modification s) b
    (actual_unbonded_amount s) (last_unbonded_time s) (last_processed_batch s).
Definition with_unbonded (a : Uint128) (s : State) : State :=
  mkState (exchange_rate s) (total_bond_amount s) (last_index_modification s)
    (prev_vault_balance s) a (last_unbonded_time s) (last_processed_batch s).
Definition with_unbonded_time (t : N) (s : State) : State :=
  mkState (exchange_rate s) (total_bond_amount s) (last_index_modification s)
    (prev_vault_balance s) (actual_unbonded_amount s) t (last_processed_batch s).
Definition with_processed (b : N) (s : State) : State :=
  mkState (exchange_rate s) (total_bond_amount s) (last_index_modification s)
    (prev_vault_balance s) (actual_unbonded_amount s) (last_unbonded_time s) b.

Definition assert_initialized (c : Config) : outcome StdError Config :=
  if initialized c then Ok c
  else Err (GenericErr "Contract initialization is not completed").

Definition DEFAULT_UNBOND_WAITLIST_READ_LIMIT : N := 30.
Definition MAX_LIMIT : N := 100.
Definition DEFAULT_LIMIT : N := 10.
Definition waitlist_limit (limit : option N) : nat :=
  N.to_nat (N.min (default DEFAULT_UNBOND_WAITLIST_READ_LIMIT limit) MAX_LIMIT).

Section contract.
Context `{Cosmwasm}.

Notation StdResult := (outcome StdError).
Notation generic_err m := (Err (GenericErr m)).

Definition load_config (st : Storage) : StdResult Config := load "Config" (CONFIG st).
Definition load_parameters (st : Storage) : StdResult Parameters := load "Parameters" (PARAMETERS st).
Definition load_batch (st : Storage) : StdResult CurrentBatch := load "CurrentBatch" (CURRENT_BATCH st).
Definition load_state (st : Storage) : StdResult State := load "State" (STATE st).
(** [CONFIG.load(storage)?.assert_initialized()] *)
Definition load_initialized (st : Storage) : StdResult Config :=
  let? config := load_config st in assert_initialized config.
Definition now (env : Env) : N := ts_seconds (block_time env).

Definition update_exchange_rate (s : State) (total_issued requested_with_fee : Uint128)
    : option State :=
  actual_supply ← uint_add total_issued requested_with_fee;
  if (total_bond_amount s =? 0) || (actual_supply =? 0) then Some (with_rate dec_one s)
  else
    rate ← dec_from_ratio (total_bond_amount s) actual_supply;
    Some (with_rate rate s).

Definition store_unbond_wait_list (st : Storage) (batch_id : N) (sender_addr : Addr)
    (amount : Uint128) : StdResult Storage :=
  let! total := uint_add (default 0 (UNBOND_WAITLIST st !! (sender_addr, batch_id))) amount in
  Ok (set_waitlist (<[(sender_addr, batch_id) := total]> (UNBOND_WAITLIST st)) st).

Definition remove_unbond_wait_list (st : Storage) (batches : list N) (sender_addr : Addr) : Storage :=
  set_waitlist (foldl (λ m b, delete (sender_addr, b) m) (UNBOND_WAITLIST st) batches) st.

Definition read_unbond_wait_list (st : Storage) (batch_id : N) (sender_addr : Addr)
    : StdResult Uint128 :=
  load "Uint128" (UNBOND_WAITLIST st !! (sender_addr, batch_id)).

Definition read_unbond_history (st : Storage) (epoc_id : N) : StdResult UnbondHistory :=
  ok_or (UNBOND_HISTORY st !! epoc_id)
    (GenericErr "Burn requests not found for the specified time period").

Definition store_unbond_history (st : Storage) (batch_id : N) (h : UnbondHistory) : Storage :=
  set_history (<[batch_id := h]> (UNBOND_HISTORY st)) st.

(** The first requests of a user in order of batch id. *)
Definition requests_of (st : Storage) (sender_addr : Addr) (limit : option N) : list (N * Uint128) :=
  take (waitlist_limit limit) (range_u64 (prefix (UNBOND_WAITLIST st) sender_addr)).

Definition get_unbond_requests (st : Storage) (sender_addr : Addr) (start limit : option N)
    : StdResult (list (N * Uint128)) :=
  Ok (take (waitlist_limit limit)
        (after N.ltb (Some (default 0 start)) (range_u64 (prefix (UNBOND_WAITLIST st) sender_addr)))).

Definition batch_released (st : Storage) (batch_id : N) : bool :=
  match UNBOND_HISTORY st !! batch_id with Some h => h_released h | None => false end.

Definition get_unbond_batches (st : Storage) (sender_addr : Addr) (limit : option N)
    : StdResult (list N) :=
  Ok (List.filter (batch_released st) (requests_of st sender_addr limit).*1).

(** The fold of [get_finished_amount] and [query_get_finished_amount]: the
    requests of the batches that satisfy [finished], at their withdraw rate. *)
Definition finished_step (st : Storage) (finished : UnbondHistory → bool)
    (acc : Uint128) (item : N * Uint128) : option Uint128 :=
  let '(batch_id, v) := item in
  match UNBOND_HISTORY st !! batch_id with
  | Some h =>
      if finished h then
        amount ← uint_mul_dec v (h_withdraw_rate h);
        uint_add acc amount
      else Some acc
  | None => Some acc
  end.

Definition get_finished_amount (st : Storage) (sender_addr : Addr) (limit : option N)
    : StdResult Uint128 :=
  let! amount := optfold (finished_step st h_released) 0 (requests_of st sender_addr limit) in
  Ok amount.

Definition query_get_finished_amount (st : Storage) (sender_addr : Addr) (block_time : N)
    (limit : option N) : StdResult Uint128 :=
  let! amount := optfold (finished_step st (λ h, h_time h <? block_time)) 0
    (requests_of st sender_addr limit) in
  Ok amount.

Definition store_white_validators (st : Storage) (validator_addr : Addr) : Storage :=
  set_validators (<[validator_addr := true]> (VALIDATORS st)) st.
Definition remove_white_validators (st : Storage) (validator_addr : Addr) : Storage :=
  set_validators (delete validator_addr (VALIDATORS st)) st.
Definition read_validators (st : Storage) : list Addr := (range_addr (VALIDATORS st)).*1.
Definition read_valid_validators (st : Storage) : list Addr := read_validators st.
Definition is_valid_validator (st : Storage) (validator_addr : Addr) : bool :=
  bool_decide (is_Some (VALIDATORS st !! validator_addr)).

Definition all_unbond_history (st : Storage) (start limit : option N) : list UnbondHistory :=
  (take (N.to_nat (N.min (default DEFAULT_LIMIT limit) MAX_LIMIT))
     (after N.ltb (Some (default 0 start)) (range_u64 (UNBOND_HISTORY st)))).*2.

(** ** Slashing and token supply (src/contract.rs) *)
Definition query_total_issued (st : Storage) (q : Querier) : StdResult Uint128 :=
  let? cfg := load_config st in
  query_cw20_supply q (cluna_contract cfg).

(** What is actually delegated in the given denomination. *)
Definition total_delegated (denom : string) (delegations : list Delegation) : option Uint128 :=
  optfold (λ acc d,
      if bool_decide (coin_denom (del_amount d) = denom)
      then uint_add acc (coin_amount (del_amount d)) else Some acc) 0 delegations.

Definition slashing (st : Storage) (q : Querier) (env : Env) (state : State) (params : Parameters)
    : StdResult (Storage * State) :=
  let? delegations := query_all_delegations q (contract_address env) in
  match delegations with
  | [] => Ok (st, state)
  | _ =>
      let! actual_total_bonded := total_delegated (p_underlying_coin_denom params) delegations in
      if actual_total_bonded <? total_bond_amount state then
        let? total_issued := query_total_issued st q in
        let? batch := load_batch st in
        let! state := update_exchange_rate (with_bonded actual_total_bonded state)
          total_issued (requested_with_fee batch) in
        Ok (set_state state st, state)
      else Ok (st, state)
  end.

Definition execute_slashing (st : Storage) (q : Querier) (env : Env)
    : StdResult (Storage * Response) :=
  let? params := load_parameters st in
  let? state := load_state st in
  let? '(st, state) := slashing st q env state params in
  Ok (st, respond [] [("action", AStr "check_slashing"); ("new_exchange_rate", ADec (exchange_rate state))]).

(** ** Bonding (src/bond.rs) *)
Definition wasm_cw20 (token : Addr) (m : Cw20.ExecuteMsg Binary) : CosmosMsg :=
  WasmExecute token (BinCw20 m) [].

(** The loop of [pick_bond_validator]: returns early with a validator that has
    no delegation yet, and otherwise collects the delegated amounts. *)
Fixpoint collect_delegations (q : Querier) (contract_addr : Addr) (validators : list Addr)
    (delegations : list (N * Addr)) : StdResult (Addr + list (N * Addr)) :=
  match validators with
  | [] => Ok (inr delegations)
  | val :: validators =>
      let? v := query_validator q val in
      match v with
      | None => collect_delegations q contract_addr validators delegations
      | Some _ =>
          let? delegation := query_delegation q contract_addr val in
          match delegation with
          | None => Ok (inl val)
          | Some d =>
              collect_delegations q contract_addr validators
                (delegations ++ [(coin_amount (fd_amount d), val)])
          end
      end
  end.

(** Order on [(u128, Addr)], lexicographic. *)
Definition delegation_le (x y : N * Addr) : Prop :=
  x.1 < y.1 ∨ (x.1 = y.1 ∧ String.le x.2 y.2).
#[global] Instance delegation_le_dec : RelDecision delegation_le.
Proof. intros x y. unfold delegation_le. apply _. Defined.

Definition pick_bond_validator (q : Querier) (contract_addr : Addr) (validators : list Addr)
    : StdResult Addr :=
  match validators with
  | [] => generic_err "There are not validators to pick from"
  | _ =>
      let? picked := collect_delegations q contract_addr validators [] in
      match picked with
      | inl val => Ok val
      | inr [] => generic_err "All validators are jailed"
      | inr delegations =>
          let! first := head (merge_sort delegation_le delegations) in
          Ok first.2
      end
  end.

(** What a bonding payment mints, before the peg recovery fee and after it. *)
Definition bond_mint_amounts (params : Parameters) (state : State)
    (total_supply requested payment_amt : Uint128) : StdResult (Uint128 * Uint128) :=
  let! mint_amount := decimal_division payment_amt (exchange_rate state) in
  if exchange_rate state <? p_er_threshold params then
    let! max_peg_fee := uint_mul_dec mint_amount (p_peg_recovery_fee params) in
    let! supply := uint_add total_supply mint_amount in
    let! supply := uint_add supply requested in
    let! backing := uint_add (total_bond_amount state) payment_amt in
    let? required_peg_fee := checked_sub supply backing in
    let peg_fee := N.min max_peg_fee required_peg_fee in
    let? mint_amount_with_fee := checked_sub mint_amount peg_fee in
    Ok (mint_amount, mint_amount_with_fee)
  else Ok (mint_amount, mint_amount).

Definition select_validator (st : Storage) (q : Querier) (env : Env) (validator : option string)
    : StdResult Addr :=
  match validator with
  | Some v =>
      if negb (is_valid_validator st v)
      then generic_err "The chosen validator is currently not supported" else Ok v
  | None => pick_bond_validator q (contract_address env) (read_valid_validators st)
  end.

(** [_execute_bond]: the new storage, the amount minted, the messages and the payment. *)
Definition do_execute_bond (st : Storage) (q : Querier) (env : Env) (info : MessageInfo)
    (validator : option string) : StdResult (Storage * Uint128 * list SubMsg * Uint128) :=
  let? selected_validator := select_validator st q env validator in
  let? params := load_parameters st in
  let? current_batch := load_batch st in
  let requested := requested_with_fee current_batch in
  let? payment_amt := must_pay info (p_underlying_coin_denom params) in
  let? state := load_state st in
  let? '(st, state) := slashing st q env state params in
  let sender := info_sender info in
  let! total_supply := unwrap_or (query_total_issued st q) 0 in
  let? '(_, mint_amount_with_fee) :=
    bond_mint_amounts params state total_supply requested payment_amt in
  let! total_supply := uint_add total_supply mint_amount_with_fee in
  let! bonded := uint_add (total_bond_amount state) payment_amt in
  let! state := update_exchange_rate (with_bonded bonded state) total_supply requested in
  let st := set_state state st in
  let? config := load_initialized st in
  Ok (st, mint_amount_with_fee,
      [sub_new (StakingDelegate selected_validator
                  (mkCoin (p_underlying_coin_denom params) payment_amt));
       sub_new (wasm_cw20 (cluna_contract config) (Cw20.Mint sender mint_amount_with_fee))],
      payment_amt).

Definition execute_bond (st : Storage) (q : Querier) (env : Env) (info : MessageInfo)
    (validator : option string) : StdResult (Storage * Response) :=
  let? '(st, mint_amount_with_fee, msgs, payment_amt) := do_execute_bond st q env info validator in
  Ok (st, mkResponse msgs
    [("action", AStr "bond"); ("from", AStr (info_sender info));
     ("bonded", ANum payment_amt); ("minted", ANum mint_amount_with_fee)]).

Definition execute_bond_split (st : Storage) (q : Querier) (env : Env) (info : MessageInfo)
    (validator : option string) : StdResult (Storage * Response) :=
  let? config := load_initialized st in
  let? '(st, mint_amount_with_fee, msgs, payment_amt) := do_execute_bond st q env info validator in
  let msgs := removelast msgs in
  Ok (st, mkResponse
    (msgs ++ (sub_new <$>
      [wasm_cw20 (cluna_contract config) (Cw20.Mint (contract_address env) mint_amount_with_fee);
       wasm_cw20 (yluna_contract config) (Cw20.Mint (info_sender info) mint_amount_with_fee);
       wasm_cw20 (pluna_contract config) (Cw20.Mint (info_sender info) mint_amount_with_fee)]))
    [("action", AStr "bond_split"); ("from", AStr (info_sender info));
     ("bonded", ANum payment_amt); ("minted", ANum mint_amount_with_fee)]).

(** ** Splitting and merging (src/refract.rs) *)
Definition split (st : Storage) (env : Env) (info : MessageInfo) (amount : Uint128)
    : StdResult (Storage * Response) :=
  let? config := load_initialized st in
  Ok (st, respond
    [wasm_cw20 (cluna_contract config)
       (Cw20.TransferFrom (info_sender info) (contract_address env) amount);
     wasm_cw20 (yluna_contract config) (Cw20.Mint (info_sender info) amount);
     wasm_cw20 (pluna_contract config) (Cw20.Mint (info_sender info) amount)] []).

Definition merge (st : Storage) (info : MessageInfo) (amount : Uint128)
    : StdResult (Storage * Response) :=
  let? config := load_initialized st in
  Ok (st, respond
    [wasm_cw20 (yluna_contract config) (Cw20.BurnFrom (info_sender info) amount);
     wasm_cw20 (pluna_contract config) (Cw20.BurnFrom (info_sender info) amount);
     wasm_cw20 (cluna_contract config) (Cw20.Transfer (info_sender info) amount)] []).

(** ** Unbonding (src/unbond.rs) *)

(** The loop of [pick_unbond_validator].  Each iteration removes a delegation,
    so [S (length delegations)] iterations are enough: with none left, drawing
    an index from an empty range panics. *)
Fixpoint pick_unbond_loop (fuel : nat) (denom : string) (block_height : N)
    (delegations : list Delegation) (iteration_index : N) (claimed : Uint128)
    (msgs : list SubMsg) : StdResult (list SubMsg) :=
  if claimed =? 0 then Ok msgs else
  match fuel with
  | O => Panic
  | S fuel =>
      let! seed := u64_add block_height iteration_index in
      let len := N.of_nat (length delegations) in
      if len =? 0 then Panic else
      let random_index := N.to_nat (gen_range seed len) in
      let! delegation := delegations !! random_index in
      let delegations := delete random_index delegations in
      let val := coin_amount (del_amount delegation) in
      let? '(undelegated_amount, claimed) :=
        if claimed <? val then Ok (claimed, 0)
        else let? rest := checked_sub claimed val in Ok (val, rest) in
      let msgs :=
        if 0 <? undelegated_amount then
          msgs ++ [sub_new (StakingUndelegate (del_validator delegation)
                              (mkCoin denom undelegated_amount))]
        else msgs in
      let! iteration_index := u64_add iteration_index 1 in
      pick_unbond_loop fuel denom block_height delegations iteration_index claimed msgs
  end.

Definition pick_unbond_validator (q : Querier) (denom : string) (claim : Uint128)
    (delegator : Addr) (block_height : N) : StdResult (list SubMsg) :=
  let! all_delegations := unwrap (query_all_delegations q delegator) in
  pick_unbond_loop (S (length all_delegations)) denom block_height all_delegations 0 claim [].

(** The amount credited for [amount] of c-asset, after the peg recovery fee. *)
Definition unbond_amount_with_fee (params : Parameters) (state : State)
    (total_supply requested amount : Uint128) : StdResult Uint128 :=
  if exchange_rate state <? p_er_threshold params then
    let! max_peg_fee := uint_mul_dec amount (p_peg_recovery_fee params) in
    let! supply := uint_add total_supply requested in
    let? required_peg_fee := checked_sub supply (total_bond_amount state) in
    let peg_fee := N.min max_peg_fee required_peg_fee in
    checked_sub amount peg_fee
  else Ok amount.

Definition execute_unbond (st : Storage) (q : Querier) (env : Env) (amount : Uint128)
    (sender : string) : StdResult (Storage * Response) :=
  let? current_batch := load_batch st in
  let? params := load_parameters st in
  let? state := load_state st in
  let? '(st, state) := slashing st q env state params in
  let! total_supply := unwrap_or (query_total_issued st q) 0 in
  let? amount_with_fee :=
    unbond_amount_with_fee params state total_supply (requested_with_fee current_batch) amount in
  let! requested := uint_add (requested_with_fee current_batch) amount_with_fee in
  let? sender_addr := addr_validate sender in
  let? st := store_unbond_wait_list st (batch_id current_batch) sender_addr amount_with_fee in
  let! total_supply := uint_checked_sub total_supply amount in
  let! state := update_exchange_rate state total_supply requested in
  let! since := ts_minus_seconds (block_time env) (last_unbonded_time state) in
  let passed_time_seconds := ts_seconds since in
  let? '(st, state, current_batch, msgs) :=
    if p_epoch_period params <? passed_time_seconds then
      let! undelegation_amount := uint_mul_dec requested (exchange_rate state) in
      if undelegation_amount =? 1
      then generic_err "Burn amount must be greater than 1 micro unit" else
      let delegator := contract_address env in
      let? undelegated_msgs :=
        pick_unbond_validator q (p_underlying_coin_denom params) undelegation_amount delegator
          (block_height env) in
      let! bonded := uint_checked_sub (total_bond_amount state) undelegation_amount in
      let state := with_bonded bonded state in
      let history := mkUnbondHistory (batch_id current_batch) (now env) requested
        (exchange_rate state) (exchange_rate state) false in
      let st := store_unbond_history st (batch_id current_batch) history in
      let! next_id := u64_add (batch_id current_batch) 1 in
      Ok (st, with_unbonded_time (now env) state, mkCurrentBatch next_id 0, undelegated_msgs)
    else Ok (st, state, mkCurrentBatch (batch_id current_batch) requested, []) in
  let st := set_state state (set_batch current_batch st) in
  let? config := load_initialized st in
  Ok (st, mkResponse
    (msgs ++ [sub_new (wasm_cw20 (cluna_contract config) (Cw20.Burn amount))])
    [("action", AStr "burn"); ("from", AStr sender); ("burnt_amount", ANum amount);
     ("unbonded_amount", ANum amount_with_fee)]).

(** The condition under which both loops of [process_withdraw_rate] handle
    batch [i]: it has a history that is old enough and not yet released. *)
Definition batch_due (st : Storage) (historical_time i : N) : option UnbondHistory :=
  match read_unbond_history st i with
  | Ok h => if historical_time <? h_time h then None else if h_released h then None else Some h
  | _ => None
  end.

(** The first loop: the unbonded amounts of the due batches from [i] on, and
    their number.  Each iteration visits another stored batch, so the number of
    stored batches bounds the iterations. *)
Fixpoint sum_due_batches (fuel : nat) (st : Storage) (historical_time i : N)
    (total batch_count : N) : option (Uint128 * N) :=
  match batch_due st historical_time i with
  | None => Some (total, batch_count)
  | Some h =>
      match fuel with
      | O => None
      | S fuel =>
          unbonded_amount ← uint_mul_dec (h_amount h) (h_withdraw_rate h);
          total ← uint_add total unbonded_amount;
          batch_count ← u64_add batch_count 1;
          i ← u64_add i 1;
          sum_due_batches fuel st historical_time i total batch_count
      end
  end.

(** The withdraw rate of one batch, with its share of the slashed amount. *)
Definition new_withdraw_rate (h : UnbondHistory) (total_unbonded_amount : Uint128)
    (slashed_amount : SignedInt) : StdResult Decimal :=
  let! unbonded_amount := uint_mul_dec (h_amount h) (h_withdraw_rate h) in
  let! weight := dec_from_ratio unbonded_amount total_unbonded_amount in
  let! slashed_of_batch := uint_mul_dec (si_abs slashed_amount) weight in
  let? actual :=
    if si_neg slashed_amount then
      let? slashed_of_batch := checked_sub slashed_of_batch 1 in
      let! actual := uint_add unbonded_amount slashed_of_batch in
      Ok actual
    else
      let! slashed_of_batch :=
        if negb (si_abs slashed_amount =? 0) then uint_add slashed_of_batch 1
        else Some slashed_of_batch in
      let! difference := from_subtraction unbonded_amount slashed_of_batch in
      Ok (si_abs difference) in
  let! rate := dec_from_ratio actual (h_amount h) in
  Ok rate.

(** The second loop: releases the due batches. *)
Fixpoint release_batches (fuel : nat) (st : Storage) (state : State) (historical_time i : N)
    (total_unbonded_amount : Uint128) (slashed_amount : SignedInt) : StdResult (Storage * State) :=
  match batch_due st historical_time i with
  | None => Ok (st, state)
  | Some h =>
      match fuel with
      | O => Panic
      | S fuel =>
          let? rate := new_withdraw_rate h total_unbonded_amount slashed_amount in
          let h := mkUnbondHistory (h_batch_id h) (h_time h) (h_amount h)
            (h_applied_exchange_rate h) rate true in
          let st := store_unbond_history st i h in
          let state := with_processed i state in
          let! i := u64_add i 1 in
          release_batches fuel st state historical_time i total_unbonded_amount slashed_amount
      end
  end.

Definition process_withdraw_rate (st : Storage) (historical_time : N) (vault_balance : Uint128)
    : StdResult Storage :=
  let? state := load_state st in
  let! balance_change := from_subtraction vault_balance (prev_vault_balance state) in
  let! actual := uint_add (actual_unbonded_amount state) (si_abs balance_change) in
  let state := with_unbonded actual state in
  let! first := u64_add (last_processed_batch state) 1 in
  let fuel := size (UNBOND_HISTORY st) in
  let! '(total_unbonded_amount, batch_count) :=
    sum_due_batches fuel st historical_time first 0 0 in
  let? '(st, state) :=
    if 1 <=? batch_count then
      let! slashed_amount := from_subtraction total_unbonded_amount (actual_unbonded_amount state) in
      release_batches fuel st state historical_time first total_unbonded_amount slashed_amount
    else Ok (st, state) in
  Ok (set_state (with_unbonded 0 state) st).

Definition execute_withdraw_unbonded (st : Storage) (q : Querier) (env : Env) (info : MessageInfo)
    : StdResult (Storage * Response) :=
  let sender_human := info_sender info in
  let? params := load_parameters st in
  let coin_denom := p_underlying_coin_denom params in
  let! historical_time := u64_sub (now env) (p_unbonding_period params) in
  let? vault_balance := query_balance q (contract_address env) coin_denom in
  let? st := process_withdraw_rate st historical_time vault_balance in
  let! withdraw_amount := unwrap (get_finished_amount st sender_human None) in
  if withdraw_amount =? 0
  then generic_err "No withdrawable {} assets are available yet" else
  let? deprecated_batches := get_unbond_batches st sender_human None in
  let st := remove_unbond_wait_list st deprecated_batches sender_human in
  let? prev_balance := checked_sub vault_balance withdraw_amount in
  let? last_state := load_state st in
  let st := set_state (with_balance prev_balance last_state) st in
  Ok (st, mkResponse
    [sub_new (BankSend sender_human [mkCoin coin_denom withdraw_amount])]
    [("action", AStr "execute_withdraw_unbonded"); ("from", AStr (contract_address env));
     ("amount", ANum withdraw_amount)]).

(** ** Configuration (src/config.rs) *)
Definition validate_rate (rate : Decimal) : StdResult Decimal :=
  if dec_one <? rate then generic_err "Rate can not be bigger than one (given value: {})" else Ok rate.

Definition token_instantiate (id : N) (config : Config) (msg : TokenMsg.InstantiateMsg) : SubMsg :=
  mkSubMsg id (WasmInstantiate (token_code_id config) (BinToken msg) [] (Some (token_admin config)) "")
    None ReplySuccess.

Definition asset_token (name symbol : string) (initial_balances : list (string * Uint128))
    (minter : Addr) : TokenMsg.InstantiateMsg :=
  TokenMsg.mkInstantiateMsg name symbol 6 initial_balances (Some (TokenMsg.mkMinter minter None)).

Definition with_cluna (a : Addr) (c : Config) : Config :=
  mkConfig (owner c) (yluna_staking c) a (yluna_contract c) (pluna_contract c)
    (airdrop_registry_contract c) (initialized c) (token_admin c) (token_code_id c) (manager c).
Definition with_pluna (a : Addr) (c : Config) : Config :=
  mkConfig (owner c) (yluna_staking c) (cluna_contract c) (yluna_contract c) a
    (airdrop_registry_contract c) (initialized c) (token_admin c) (token_code_id c) (manager c).
Definition with_yluna (a : Addr) (c : Config) : Config :=
  mkConfig (owner c) (yluna_staking c) (cluna_contract c) a (pluna_contract c)
    (airdrop_registry_contract c) (initialized c) (token_admin c) (token_code_id c) (manager c).

Definition set_token_address (st : Storage) (env : Env) (msg : Reply bytes)
    : StdResult (Storage * Response) :=
  let? config := load_config st in
  let? res := map_err (λ _, GenericErr "error parsing token instantiation reply")
    (ParseReply.parse_reply_instantiate_data msg) in
  let? token_addr := addr_validate (ParseReply.contract_address res) in
  let? '(attrs, config, (next_reply_id, next_token_name, next_token_symbol)) :=
    match reply_id msg with
    | 0 => Ok ([("cluna_address", AStr token_addr)], with_cluna token_addr config,
               (1, "Prism pLuna Token", "pLuna"))
    | 1 => Ok ([("pluna_address", AStr token_addr)], with_pluna token_addr config,
               (2, "Prism yLuna Token", "yLuna"))
    | 2 => Ok ([("yluna_address", AStr token_addr)], with_yluna token_addr config, (3, "", ""))
    | _ => generic_err "invalid reply id"
    end in
  let st := set_config config st in
  let msgs :=
    if next_reply_id <=? 2 then
      [token_instantiate next_reply_id config
         (asset_token next_token_name next_token_symbol [] (contract_address env))]
    else [] in
  Ok (st, mkResponse msgs attrs).

Definition execute_update_params (st : Storage) (info : MessageInfo)
    (epoch_period unbonding_period : option N) (peg_recovery_fee er_threshold : option Decimal)
    : StdResult (Storage * Response) :=
  let? config := load_config st in
  if bool_decide (info_sender info ≠ owner config) then generic_err "unauthorized" else
  let? params := load_parameters st in
  let? fee := validate_rate (default (p_peg_recovery_fee params) peg_recovery_fee) in
  let? threshold := validate_rate (default (p_er_threshold params) er_threshold) in
  let new_params := mkParameters
    (default (p_epoch_period params) epoch_period) (p_underlying_coin_denom params)
    (default (p_unbonding_period params) unbonding_period) fee threshold in
  Ok (set_parameters new_params st, respond [] [("action", AStr "update_params")]).

Definition execute_update_config (st : Storage) (info : MessageInfo)
    (new_owner new_yluna_staking new_airdrop_registry new_manager : option string)
    : StdResult (Storage * Response) :=
  let? config := load_config st in
  if bool_decide (info_sender info ≠ owner config) then generic_err "unauthorized" else
  let? o :=
    match new_owner with Some o => addr_validate o | None => Ok (owner config) end in
  let? '(y, msgs) :=
    match new_yluna_staking with
    | Some y => let? a := addr_validate y in Ok (a, [sub_new (DistributionSetWithdrawAddress y)])
    | None => Ok (yluna_staking config, [])
    end in
  let? r :=
    match new_airdrop_registry with
    | Some r => addr_validate r | None => Ok (airdrop_registry_contract config) end in
  let? m :=
    match new_manager with Some m => addr_validate m | None => Ok (manager config) end in
  let init := initialized config || (bool_decide (y ≠ ""%string) && bool_decide (r ≠ ""%string)) in
  let config := mkConfig o y (cluna_contract config) (yluna_contract config) (pluna_contract config)
    r init (token_admin config) (token_code_id config) m in
  Ok (set_config config st, mkResponse msgs [("action", AStr "update_config")]).

Definition MAX_VALIDATORS : N := 20.

Definition execute_register_validator (st : Storage) (q : Querier) (env : Env) (info : MessageInfo)
    (validator : string) : StdResult (Storage * Response) :=
  let? config := load_config st in
  if bool_decide (info_sender info ≠ owner config)
     && bool_decide (info_sender info ≠ contract_address env)
  then generic_err "unauthorized" else
  if MAX_VALIDATORS <=? N.of_nat (length (read_validators st))
  then generic_err "Can't register more than {} validators" else
  let? all := query_all_validators q in
  if negb (existsb (λ v, bool_decide (v = validator)) all)
  then generic_err "The specified address is not a validator" else
  Ok (store_white_validators st validator,
      respond [] [("action", AStr "register_validator"); ("validator", AStr validator)]).

Definition update_global_index (env : Env) : CosmosMsg :=
  WasmExecute (contract_address env) (BinVault (UpdateGlobalIndex None)) [].

Definition execute_deregister_validator (st : Storage) (q : Querier) (env : Env)
    (info : MessageInfo) (validator redel_validator : string) : StdResult (Storage * Response) :=
  let? config := load_initialized st in
  if bool_decide (owner config ≠ info_sender info) then generic_err "unauthorized" else
  if (length (read_validators st) =? 1)%nat
  then generic_err "Cannot remove the last whitelisted validator" else
  let st := remove_white_validators st validator in
  (* the query is made here; its error is ignored, a panic is not *)
  let query := query_delegation q (contract_address env) validator in
  if negb (is_valid_validator st redel_validator)
  then generic_err "The chosen validator to redelegate is currently not supported" else
  let! delegated_amount := unwrap_or query None in
  let msgs :=
    match delegated_amount with
    | Some delegation =>
        [StakingRedelegate validator redel_validator (fd_amount delegation);
         update_global_index env]
    | None => []
    end in
  Ok (st, respond msgs
    [("action", AStr "de_register_validator"); ("validator", AStr validator);
     ("redel_validator", AStr redel_validator)]).

Definition execute_redelegate (st : Storage) (q : Querier) (env : Env) (info : MessageInfo)
    (source_val target_val : string) (amount : Uint128) : StdResult (Storage * Response) :=
  let? config := load_initialized st in
  let? params := load_parameters st in
  if bool_decide (info_sender info ≠ owner config) && bool_decide (info_sender info ≠ manager config)
  then generic_err "unauthorized" else
  if negb (is_valid_validator st source_val) || negb (is_valid_validator st target_val)
  then generic_err "Invalid validators" else
  let? del_query_res := query_delegation q (contract_address env) source_val in
  match del_query_res with
  | Some delegation =>
      if coin_amount (fd_amount delegation) <? amount
      then generic_err "The delegation of the source validator is less than the requested amount" else
      if negb (coin_amount (fd_can_redelegate delegation) =? coin_amount (fd_amount delegation))
      then generic_err "There is a redelegation in progress" else
      Ok (st, respond
        [StakingRedelegate source_val target_val (mkCoin (p_underlying_coin_denom params) amount);
         update_global_index env]
        [("action", AStr "redelegate"); ("source_validator", AStr source_val);
         ("target_validator", AStr target_val); ("redelegated_amount", ANum amount)])
  | None => generic_err "The source validator delegation is not available"
  end.

(** ** Rewards and airdrops (src/contract.rs) *)
Definition withdraw_all_rewards (q : Querier) (delegator : Addr) : StdResult (list SubMsg) :=
  match query_all_delegations q delegator with
  | Ok delegations =>
      Ok ((λ d, sub_new (DistributionWithdrawDelegatorReward (del_validator d))) <$> delegations)
  | Err _ => Ok []
  | Panic => Panic
  end.

Definition execute_update_global (st : Storage) (q : Querier) (env : Env)
    (airdrop_hooks : option (list Binary)) : StdResult (Storage * Response) :=
  let? config := load_initialized st in
  let hook_msgs :=
    match airdrop_hooks with
    | Some hooks => (λ m, sub_new (WasmExecute (airdrop_registry_contract config) m [])) <$> hooks
    | None => []
    end in
  let? withdraw_msgs := withdraw_all_rewards q (contract_address env) in
  let process := sub_new (WasmExecute (yluna_staking config)
    (BinYassetStaking YassetStakingMsg.ProcessDelegatorRewards) []) in
  let? last_state := load_state st in
  Ok (set_state (with_index_time (now env) last_state) st,
      mkResponse (hook_msgs ++ withdraw_msgs ++ [process])
        [("action", AStr "update_global_index")]).

Definition claim_airdrop (st : Storage) (env : Env) (info : MessageInfo)
    (airdrop_token_contract airdrop_contract : string) (claim_msg : Binary)
    : StdResult (Storage * Response) :=
  let? conf := load_initialized st in
  if bool_decide (info_sender info ≠ airdrop_registry_contract conf)
  then generic_err "unauthorized" else
  Ok (st, respond
    [WasmExecute airdrop_contract claim_msg [];
     WasmExecute (contract_address env) (BinVault (DepositAirdropReward airdrop_token_contract)) []]
    []).

Definition deposit_airdrop_rewards (st : Storage) (q : Querier) (env : Env) (info : MessageInfo)
    (airdrop_token_contract : string) : StdResult (Storage * Response) :=
  let? conf := load_initialized st in
  let? airdrop_token_addr := addr_validate airdrop_token_contract in
  if bool_decide (info_sender info ≠ contract_address env) then generic_err "unauthorized" else
  if bool_decide (airdrop_token_addr = cluna_contract conf)
  then generic_err "the airdrop_token_contract can not be cLuna" else
  let? amount := query_token_balance q airdrop_token_addr (contract_address env) in
  Ok (st, respond
    [wasm_cw20 airdrop_token_addr (Cw20.IncreaseAllowance (yluna_staking conf) amount);
     WasmExecute (yluna_staking conf) (BinYassetStaking (YassetStakingMsg.DepositRewards
       [mkAsset (Cw20Asset airdrop_token_addr) amount])) []] []).

(** ** Entry points (src/contract.rs) *)
Definition instantiate (env : Env) (info : MessageInfo) (msg : InstantiateMsg)
    : StdResult (Storage * Response) :=
  let sender := info_sender info in
  let? payment_amt := must_pay info (VaultMsg.underlying_coin_denom msg) in
  let? admin := addr_validate (VaultMsg.token_admin msg) in
  let? mgr := addr_validate (VaultMsg.manager msg) in
  let config := mkConfig sender "" "" "" "" "" false admin (VaultMsg.token_code_id msg) mgr in
  let state := mkState dec_one payment_amt (now env) 0 0 (now env) 0 in
  let? fee := validate_rate (VaultMsg.peg_recovery_fee msg) in
  let? threshold := validate_rate (VaultMsg.er_threshold msg) in
  let params := mkParameters (VaultMsg.epoch_period msg) (VaultMsg.underlying_coin_denom msg)
    (VaultMsg.unbonding_period msg) fee threshold in
  let batch := mkCurrentBatch 1 0 in
  let st := mkStorage (Some config) (Some params) (Some batch) (Some state) ∅ ∅ ∅ in
  Ok (st, mkResponse
    [sub_new (WasmExecute (contract_address env)
       (BinVault (RegisterValidator (VaultMsg.validator msg))) []);
     sub_new (StakingDelegate (VaultMsg.validator msg)
       (mkCoin (VaultMsg.underlying_coin_denom msg) payment_amt));
     token_instantiate 0 config
       (asset_token "Prism cLuna Token" "cLuna" [(contract_address env, payment_amt)]
          (contract_address env))]
    [("register-validator", AStr (VaultMsg.validator msg)); ("bond", ANum payment_amt)]).

Definition receive_cw20 (from_binary : Binary → StdResult Cw20HookMsg)
    (st : Storage) (q : Querier) (env : Env) (info : MessageInfo) (cw20_msg : Cw20ReceiveMsg Binary)
    : StdResult (Storage * Response) :=
  let? hook := from_binary (Protocol.cw20_msg cw20_msg) in
  match hook with
  | Unbond =>
      let? conf := load_initialized st in
      if bool_decide (info_sender info ≠ cluna_contract conf) then generic_err "unauthorized" else
      execute_unbond st q env (cw20_amount cw20_msg) (cw20_sender cw20_msg)
  end.

Definition execute (from_binary : Binary → StdResult Cw20HookMsg)
    (st : Storage) (q : Querier) (env : Env) (info : MessageInfo) (msg : ExecuteMsg Binary)
    : StdResult (Storage * Response) :=
  match msg with
  | Receive m => receive_cw20 from_binary st q env info m
  | Bond validator => execute_bond st q env info validator
  | BondSplit validator => execute_bond_split st q env info validator
  | Split amount => split st env info amount
  | Merge amount => merge st info amount
  | UpdateGlobalIndex airdrop_hooks => execute_update_global st q env airdrop_hooks
  | WithdrawUnbonded => execute_withdraw_unbonded st q env info
  | RegisterValidator validator => execute_register_validator st q env info validator
  | DeregisterValidator validator redel_validator =>
      execute_deregister_validator st q env info validator redel_validator
  | CheckSlashing => execute_slashing st q env
  | UpdateParams epoch_period unbonding_period peg_recovery_fee er_threshold =>
      execute_update_params st info epoch_period unbonding_period peg_recovery_fee er_threshold
  | UpdateConfig owner yluna_staking airdrop_registry_contract manager =>
      execute_update_config st info owner yluna_staking airdrop_registry_contract manager
  | ClaimAirdrop token contract claim_msg => claim_airdrop st env info token contract claim_msg
  | DepositAirdropReward token => deposit_airdrop_rewards st q env info token
  | Redelegate source_val target_val amount =>
      execute_redelegate st q env info source_val target_val amount
  end.

Definition reply (st : Storage) (env : Env) (msg : Reply bytes) : StdResult (Storage * Response) :=
  set_token_address st env msg.

(** ** Queries (src/contract.rs) *)
Definition config_as_res (c : Config) : ConfigResponse :=
  mkConfigResponse (owner c) (yluna_staking c) (cluna_contract c) (pluna_contract c)
    (yluna_contract c) (airdrop_registry_contract c) (initialized c) (manager c).
Definition state_as_res (s : State) : StateResponse :=
  mkStateResponse (exchange_rate s) (total_bond_amount s) (last_index_modification s)
    (prev_vault_balance s) (actual_unbonded_amount s) (last_unbonded_time s) (last_processed_batch s).
Definition history_as_res (h : UnbondHistory) : UnbondHistoryResponse :=
  mkUnbondHistoryResponse (h_batch_id h) (h_time h) (h_amount h) (h_applied_exchange_rate h)
    (h_withdraw_rate h) (h_released h).

Definition query_config (st : Storage) : StdResult ConfigResponse :=
  let? config := load_config st in Ok (config_as_res config).
Definition query_state (st : Storage) : StdResult StateResponse :=
  let? state := load_state st in Ok (state_as_res state).
Definition query_white_validators (st : Storage) : StdResult (list string) :=
  Ok (read_valid_validators st).
Definition query_current_batch (st : Storage) : StdResult CurrentBatchResponse :=
  let? b := load_batch st in Ok (mkCurrentBatchResponse (batch_id b) (requested_with_fee b)).
Definition query_withdrawable_unbonded (st : Storage) (address : string) (env : Env)
    : StdResult Uint128 :=
  let? params := load_parameters st in
  let! historical_time := u64_sub (now env) (p_unbonding_period params) in
  let? addr := addr_validate address in
  query_get_finished_amount st addr historical_time None.
Definition query_params (st : Storage) : StdResult Parameters := load_parameters st.
Definition query_unbond_requests (st : Storage) (address : string) (start limit : option N)
    : StdResult UnbondRequestsResponse :=
  let? addr := addr_validate address in
  let? requests := get_unbond_requests st addr start limit in
  Ok (mkUnbondRequestsResponse address requests).
Definition query_unbond_requests_limitation (st : Storage) (start limit : option N)
    : StdResult (list UnbondHistoryResponse) :=
  Ok (history_as_res <$> all_unbond_history st start limit).

(** The answer a query serialises. *)
Inductive QueryAnswer : Type :=
  | AConfig (r : ConfigResponse)
  | AState (r : StateResponse)
  | AValidators (r : list string)
  | ACurrentBatch (r : CurrentBatchResponse)
  | AWithdrawable (r : Uint128)
  | AParameters (r : Parameters)
  | AUnbondRequests (r : UnbondRequestsResponse)
  | AAllHistory (r : list UnbondHistoryResponse).

Definition query (st : Storage) (env : Env) (msg : QueryMsg) : StdResult QueryAnswer :=
  match msg with
  | QConfig => let? r := query_config st in Ok (AConfig r)
  | QState => let? r := query_state st in Ok (AState r)
  | QCurrentBatch => let? r := query_current_batch st in Ok (ACurrentBatch r)
  | QWhitelistedValidators => let? r := query_white_validators st in Ok (AValidators r)
  | QWithdrawableUnbonded address =>
      let? r := query_withdrawable_unbonded st address env in Ok (AWithdrawable r)
  | QParameters => let? r := query_params st in Ok (AParameters r)
  | QUnbondRequests address start_from limit =>
      let? r := query_unbond_requests st address start_from limit in Ok (AUnbondRequests r)
  | QAllHistory start_from limit =>
      let? r := query_unbond_requests_limitation st start_from limit in Ok (AAllHistory r)
  end.
End contract.
End Vault.
