(* ===== verification/VaultProofs.v ===== *)
(** * Correctness of the vault *)
From S2P Require Import Prelude Cosmwasm Protocol Wire Arith Vault.
Import VaultMsg Vault.

Section proofs.
Context {P : Cosmwasm} {L : CosmwasmLaws P}.

(** ** Slashing *)

(** What is delegated in denomination [denom]. *)
Definition delegated (denom : string) (l : list Delegation) : N :=
  sum_N ((λ d, if bool_decide (coin_denom (del_amount d) = denom)
               then coin_amount (del_amount d) else 0) <$> l).

Lemma total_delegated_Some denom l n : total_delegated denom l = Some n → n = delegated denom l.
Proof.
  unfold total_delegated. set (f := λ acc d, _).
  enough (∀ acc, optfold f acc l = Some n → n = acc + delegated denom l) as Hall
    by (intros Hl%Hall; lia).
  unfold delegated, f. clear f. induction l as [|d l IH]; intros acc; csimpl; [intros [= <-]; lia|].
  case_bool_decide; simpl.
  - destruct (uint_add acc _) eqn:Ha; simpl; [|discriminate]. platform_facts. intros ->%IH. lia.
  - intros ->%IH. lia.
Qed.

Lemma update_exchange_rate_spec s issued requested s' :
  update_exchange_rate s issued requested = Some s' →
  s' = with_rate (if (total_bond_amount s =? 0) || (issued + requested =? 0) then DECIMAL_UNIT
                  else total_bond_amount s * DECIMAL_UNIT / (issued + requested)) s.
Proof.
  unfold update_exchange_rate. intros H.
  destruct (uint_add issued requested) as [n|] eqn:Hn; simpl in H; [|discriminate]. platform_facts.
  destruct (_ || _)%bool; simplify_option_eq; platform_facts; [by rewrite dec_one_law|done].
Qed.

(** The effect of [slashing]: the bonded total is lowered to what is delegated,
    never raised, and the rate is recomputed exactly when it was lowered. *)
Lemma slashing_spec st q env s params st' s' :
  slashing st q env s params = Ok (st', s') →
  (st' = st ∧ s' = s) ∨
  ∃ l batch issued,
    query_all_delegations q (contract_address env) = Ok l ∧ l ≠ [] ∧
    CURRENT_BATCH st = Some batch ∧ query_total_issued st q = Ok issued ∧
    delegated (p_underlying_coin_denom params) l < total_bond_amount s ∧
    update_exchange_rate (with_bonded (delegated (p_underlying_coin_denom params) l) s)
      issued (requested_with_fee batch) = Some s' ∧
    st' = set_state s' st.
Proof.
  unfold slashing. intros H. inv_ok H; subst; simplify_eq; ok_facts; [by left| |by left].
  right. apply total_delegated_Some in Ha0 as ->. apply load_Ok in Ha2.
  eexists _, a2, a1. by split_and!.
Qed.

Lemma slashing_bond st q env s params st' s' :
  slashing st q env s params = Ok (st', s') →
  total_bond_amount s' ≤ total_bond_amount s ∧
  (∃ r, s' = with_rate r (with_bonded (total_bond_amount s') s)) ∧
  CONFIG st' = CONFIG st ∧ PARAMETERS st' = PARAMETERS st ∧ CURRENT_BATCH st' = CURRENT_BATCH st ∧
  UNBOND_WAITLIST st' = UNBOND_WAITLIST st ∧ UNBOND_HISTORY st' = UNBOND_HISTORY st ∧
  VALIDATORS st' = VALIDATORS st ∧ (STATE st' = STATE st ∨ STATE st' = Some s').
Proof.
  intros [[-> ->]|(l & b & i & _ & _ & _ & _ & Hlt & ->%update_exchange_rate_spec & ->)]%slashing_spec.
  - split_and!; try done; [|by left]. exists (exchange_rate s). by destruct s.
  - split_and!; try done; simpl; [lia| |by right]. by eexists.
Qed.

(** ** Choosing the validators to undelegate from *)
Definition undelegations (denom : string) (l : list (string * N)) : list SubMsg :=
  (λ va, sub_new (StakingUndelegate va.1 (mkCoin denom va.2))) <$> l.

(** [taken l ds]: the pairs of [l] are parts of different delegations of [ds]. *)
Inductive taken : list (string * N) → list Delegation → Prop :=
  | taken_nil ds : taken [] ds
  | taken_skip l d ds ds' : ds ≡ₚ d :: ds' → taken l ds' → taken l ds
  | taken_cons a l d ds ds' :
      ds ≡ₚ d :: ds' → 0 < a ≤ coin_amount (del_amount d) →
      taken l ds' → taken ((del_validator d, a) :: l) ds.

Definition stake (ds : list Delegation) : N := sum_N ((λ d, coin_amount (del_amount d)) <$> ds).

#[global] Instance stake_perm : Proper ((≡ₚ) ==> (=)) stake.
Proof. intros l k Hlk. unfold stake. by rewrite Hlk. Qed.

Lemma pick_unbond_loop_S fuel denom height ds i claimed msgs :
  pick_unbond_loop (S fuel) denom height ds i claimed msgs =
  if claimed =? 0 then Ok msgs else
  let! seed := u64_add height i in
  let len := N.of_nat (length ds) in
  if len =? 0 then Panic else
  let! d := ds !! N.to_nat (gen_range seed len) in
  let ds := delete (N.to_nat (gen_range seed len)) ds in
  let a := N.min claimed (coin_amount (del_amount d)) in
  let! i := u64_add i 1 in
  pick_unbond_loop fuel denom height ds i (claimed - a)
    (if 0 <? a then msgs ++ undelegations denom [(del_validator d, a)] else msgs).
Proof.
  simpl. destruct (claimed =? 0); [done|]. destruct (u64_add height i) as [seed|]; simpl; [|done].
  destruct (_ =? 0); [done|]. destruct (ds !! _) as [d|]; simpl; [|done].
  destruct (N.ltb_spec claimed (coin_amount (del_amount d))) as [Hlt|Hge]; simpl.
  - rewrite N.min_l by lia. by rewrite N.sub_diag.
  - rewrite N.min_r by lia. unfold checked_sub. rewrite uint_checked_sub_law.
    by rewrite (proj2 (N.leb_le _ _) Hge).
Qed.

(** With enough stake the loop covers the claim exactly, out of different
    delegations; without, it panics.  The fuel is never exhausted. *)
Lemma pick_unbond_loop_spec fuel denom height ds i claimed msgs :
  (length ds < fuel)%nat → height + i + N.of_nat (length ds) + 1 < u64_limit →
  if claimed <=? stake ds
  then ∃ l, pick_unbond_loop fuel denom height ds i claimed msgs = Ok (msgs ++ undelegations denom l) ∧
       sum_N l.*2 = claimed ∧ taken l ds
  else pick_unbond_loop fuel denom height ds i claimed msgs = Panic.
Proof.
  revert ds i claimed msgs. induction fuel as [|fuel IH]; intros ds i claimed msgs Hf Hh; [lia|].
  rewrite pick_unbond_loop_S. destruct (N.eqb_spec claimed 0) as [->|Hc].
  { rewrite (proj2 (N.leb_le 0 (stake ds))) by lia. exists []. simpl.
    rewrite app_nil_r. split_and!; [done|done|constructor]. }
  rewrite (proj2 (u64_add_Some height i _)) by (split; [done|lia]). cbn [obind]. cbv zeta.
  destruct (N.eqb_spec (N.of_nat (length ds)) 0) as [Hz|Hnz].
  { assert (ds = []) as -> by (apply nil_length_inv; lia). unfold stake. simpl.
    by rewrite (proj2 (N.leb_gt claimed 0)) by lia. }
  set (k := N.to_nat (gen_range (height + i) (N.of_nat (length ds)))).
  assert (is_Some (ds !! k)) as [d Hd].
  { apply lookup_lt_is_Some. pose proof (gen_range_law (height + i) (N.of_nat (length ds))). lia. }
  rewrite Hd. cbn [obind].
  rewrite (proj2 (u64_add_Some i 1 _)) by (split; [done|lia]). cbn [obind].
  set (a := N.min claimed (coin_amount (del_amount d))).
  pose proof (delete_Permutation ds k d Hd) as Hperm.
  assert (length (delete k ds) < length ds)%nat as Hlen by (rewrite Hperm at 2; simpl; lia).
  assert (stake ds = coin_amount (del_amount d) + stake (delete k ds)) as Hstake
    by (rewrite Hperm at 1; done).
  specialize (IH (delete k ds) (i + 1) (claimed - a)
    (if 0 <? a then msgs ++ undelegations denom [(del_validator d, a)] else msgs)).
  replace (claimed - a <=? stake (delete k ds)) with (claimed <=? stake ds) in IH.
  2: { apply eq_bool_prop_intro. rewrite !Is_true_true, !N.leb_le. lia. }
  assert (height + (i + 1) + N.of_nat (length (delete k ds)) + 1 < u64_limit) as Hh' by lia.
  specialize (IH ltac:(lia) Hh'). destruct (claimed <=? stake ds); [|done].
  destruct IH as (l & Hl & Hsum & Htaken). rewrite Hl.
  destruct (N.ltb_spec 0 a) as [Ha|Ha].
  - exists ((del_validator d, a) :: l). split_and!.
    + rewrite <-app_assoc. done.
    + csimpl. lia.
    + econstructor; [exact Hperm|lia|done].
  - exists l. split_and!; [done|lia|]. by eapply taken_skip.
Qed.

(** ** The peg recovery fee *)
Lemma bond_mint_amounts_spec params s supply requested payment m m' :
  bond_mint_amounts params s supply requested payment = Ok (m, m') →
  decimal_division payment (exchange_rate s) = Some m ∧ m' ≤ m ∧
  (p_er_threshold params ≤ exchange_rate s → m' = m) ∧
  (exchange_rate s < p_er_threshold params →
     m - m' ≤ m * p_peg_recovery_fee params / DECIMAL_UNIT ∧
     total_bond_amount s + payment ≤ supply + m' + requested).
Proof.
  unfold bond_mint_amounts. intros H. inv_body H; split_and!; try done; try lia_div.
Qed.

Lemma unbond_amount_with_fee_spec params s supply requested amount a :
  unbond_amount_with_fee params s supply requested amount = Ok a →
  a ≤ amount ∧
  (p_er_threshold params ≤ exchange_rate s → a = amount) ∧
  (exchange_rate s < p_er_threshold params →
     amount - a ≤ amount * p_peg_recovery_fee params / DECIMAL_UNIT ∧
     (amount ≤ supply → total_bond_amount s ≤ (supply - amount) + (requested + a))).
Proof.
  unfold unbond_amount_with_fee. intros H. inv_body H; split_and!; try done; try lia_div.
Qed.

(** ** Termination of the release loops

    The batches from [i] on bound the iterations still to come. *)
Definition batches_from (i : N) (hist : gmap N UnbondHistory) : nat :=
  size (filter (λ kv, i ≤ kv.1) hist).

Lemma batches_from_next i hist h :
  hist !! i = Some h → (batches_from (i + 1) hist < batches_from i hist)%nat.
Proof.
  intros Hi. apply map_subset_size, map_subset_alt. split.
  - apply map_filter_subseteq_ext. intros k v _ Hk. simpl in *. lia.
  - exists i. split.
    + apply map_lookup_filter_None. right. intros v _ Hle. simpl in Hle. lia.
    + exists h. apply map_lookup_filter_Some. split; [done|]. simpl. lia.
Qed.

Lemma batches_from_store st i h :
  is_Some (UNBOND_HISTORY st !! i) →
  batches_from (i + 1) (UNBOND_HISTORY (store_unbond_history st i h)) =
  batches_from (i + 1) (UNBOND_HISTORY st).
Proof.
  intros _. unfold batches_from. simpl. rewrite map_filter_insert_False; [|simpl; lia].
  f_equal. apply map_filter_delete_not. intros v _. simpl. lia.
Qed.

Lemma batches_from_le i hist : (batches_from i hist ≤ size hist)%nat.
Proof. apply map_subseteq_size, map_filter_subseteq. Qed.

Lemma batch_due_Some st t i h :
  batch_due st t i = Some h →
  UNBOND_HISTORY st !! i = Some h ∧ h_time h ≤ t ∧ h_released h = false.
Proof.
  unfold batch_due, read_unbond_history. destruct (UNBOND_HISTORY st !! i) as [h'|]; simpl; [|done].
  destruct (N.ltb_spec t (h_time h')); [done|]. destruct (h_released h') eqn:E; [done|].
  intros [= <-]. split_and!; [done|lia|done].
Qed.

Lemma sum_due_batches_fuel fuel k st t i total count :
  (batches_from i (UNBOND_HISTORY st) ≤ fuel)%nat →
  sum_due_batches (fuel + k) st t i total count = sum_due_batches fuel st t i total count.
Proof.
  revert i total count. induction fuel as [|fuel IH]; intros i total count Hf; simpl.
  - destruct k; simpl; [done|]. destruct (batch_due st t i) as [h|] eqn:Hd; [|done].
    apply batch_due_Some in Hd as (Hd & _). apply batches_from_next in Hd. lia.
  - destruct (batch_due st t i) as [h|] eqn:Hd; [|done].
    apply batch_due_Some in Hd as (Hd & _). apply batches_from_next in Hd.
    destruct (uint_mul_dec _ _); simpl; [|done]. destruct (uint_add _ _); simpl; [|done].
    destruct (u64_add count 1); simpl; [|done]. destruct (u64_add i 1) eqn:Hi; simpl; [|done].
    platform_facts. apply IH. lia.
Qed.

Lemma release_batches_fuel fuel k st s t i total slashed :
  (batches_from i (UNBOND_HISTORY st) ≤ fuel)%nat →
  release_batches (fuel + k) st s t i total slashed = release_batches fuel st s t i total slashed.
Proof.
  revert st s i. induction fuel as [|fuel IH]; intros st s i Hf; simpl.
  - destruct k; simpl; [done|]. destruct (batch_due st t i) as [h|] eqn:Hd; [|done].
    apply batch_due_Some in Hd as (Hd & _). apply batches_from_next in Hd. lia.
  - destruct (batch_due st t i) as [h|] eqn:Hd; [|done].
    apply batch_due_Some in Hd as (Hd & _).
    destruct (new_withdraw_rate _ _ _); simpl; [|done|done].
    destruct (u64_add i 1) eqn:Hi; simpl; [|done]. platform_facts. apply IH.
    rewrite batches_from_store by (by eexists). apply batches_from_next in Hd. lia.
Qed.

(** ** What a release promises *)

(** The unbonded amount of a batch at its rate. *)
Definition unbonded (h : UnbondHistory) : N := h_amount h * h_withdraw_rate h / DECIMAL_UNIT.

(** The due batches from [i] on, in order. *)
Fixpoint due_batches (fuel : nat) (st : Storage) (t i : N) : list UnbondHistory :=
  match fuel, batch_due st t i with
  | S fuel, Some h => h :: due_batches fuel st t (i + 1)
  | _, _ => []
  end.

Lemma sum_due_batches_spec fuel st t i total count total' count' :
  sum_due_batches fuel st t i total count = Some (total', count') →
  total' = total + sum_N (unbonded <$> due_batches fuel st t i) ∧
  count' = count + N.of_nat (length (due_batches fuel st t i)).
Proof.
  revert i total count. induction fuel as [|fuel IH]; intros i total count; simpl.
  - destruct (batch_due st t i); [done|]. intros [= <- <-]. csimpl. lia.
  - destruct (batch_due st t i) as [h|]; [|intros [= <- <-]; csimpl; lia].
    intros H. csimpl.
    destruct (uint_mul_dec _ _) eqn:H1; simpl in H; [|done].
    destruct (uint_add _ _) eqn:H2; simpl in H; [|done].
    destruct (u64_add count 1) eqn:H3; simpl in H; [|done].
    destruct (u64_add i 1) eqn:H4; simpl in H; [|done]. platform_facts.
    apply IH in H as [-> ->]. unfold unbonded at 2. lia_div.
Qed.

(** One batch gets its unbonded amount less its share of a loss [s], or plus its
    share of a surplus, up to one unit: [total * actual + unbonded * s <= total * (unbonded + 1)]. *)
Lemma new_withdraw_rate_loss h total s rate :
  new_withdraw_rate h total (mkSignedInt s false) = Ok rate →
  unbonded h ≤ total → s ≤ total → s ≤ DECIMAL_UNIT →
  ∃ actual, rate = actual * DECIMAL_UNIT / h_amount h ∧ h_amount h ≠ 0 ∧
  total * actual + unbonded h * s ≤ total * (unbonded h + 1) ∧
  total * unbonded h ≤ total * (actual + 1) + unbonded h * s.
Proof.
  unfold new_withdraw_rate. intros H Hu Hs HsU. cbn [si_neg si_abs] in H.
  inv_ok H. subst. inv_ok Ha2. subst. rewrite from_subtraction_spec in *. platform_facts.
  fold (unbonded h) in *.
  set (w := unbonded h * DECIMAL_UNIT / total) in *.
  set (share := s * w / DECIMAL_UNIT) in *.
  assert (0 < DECIMAL_UNIT) as HU by done.
  assert (unbonded h * DECIMAL_UNIT < total * w + total) as Hw.
  { pose proof (N.mul_succ_div_gt (unbonded h * DECIMAL_UNIT) total). unfold w. lia_div. }
  assert (total * w ≤ unbonded h * DECIMAL_UNIT) as Hw' by apply N.Div0.mul_div_le.
  assert (s * w < DECIMAL_UNIT * share + DECIMAL_UNIT) as Hshare.
  { pose proof (N.mul_succ_div_gt (s * w) DECIMAL_UNIT). unfold share. lia_div. }
  assert (DECIMAL_UNIT * share ≤ s * w) as Hshare' by apply N.Div0.mul_div_le.
  (* the share is within two units of the exact one, and not above it *)
  assert (unbonded h * s < total * (share + 2)) as Hlow.
  { apply (N.mul_lt_mono_pos_l DECIMAL_UNIT _ _ HU). nia. }
  assert (total * share ≤ unbonded h * s) as Hhigh.
  { apply (N.mul_le_mono_pos_l _ _ DECIMAL_UNIT HU). nia. }
  eexists. split; [done|]. split; [done|].
  assert (s = 0 → share = 0) as Hz by (intros ->; apply N.Div0.div_0_l).
  clearbody share w. injection Ha5 as <-.
  assert (a3 = if s =? 0 then 0 else share + 1) as ->.
  { destruct (N.eqb_spec s 0) as [E|E]; simpl in Ha4; [injection Ha4 as <-; by apply Hz|].
    by platform_facts. }
  destruct (N.eqb_spec s 0) as [->|Hs0].
  - rewrite (proj2 (N.leb_le 0 _)) by lia. simpl. nia.
  - destruct (N.leb_spec (share + 1) (unbonded h)); simpl; nia.
Qed.

(** The same for a surplus: nothing beyond the proportional share is promised,
    and no more than three units less. *)
Lemma new_withdraw_rate_surplus h total s rate :
  new_withdraw_rate h total (mkSignedInt s true) = Ok rate →
  ∃ actual, rate = actual * DECIMAL_UNIT / h_amount h ∧ h_amount h ≠ 0 ∧ total ≠ 0 ∧
  total * actual ≤ unbonded h * (total + s) ∧
  (s ≤ DECIMAL_UNIT → unbonded h * (total + s) ≤ total * (actual + 3)).
Proof.
  unfold new_withdraw_rate. intros H. cbn [si_neg si_abs] in H.
  inv_ok H. subst. inv_ok Ha2. subst. platform_facts. fold (unbonded h) in *.
  set (w := unbonded h * DECIMAL_UNIT / total) in *.
  set (share := s * w / DECIMAL_UNIT) in *.
  assert (total * w ≤ unbonded h * DECIMAL_UNIT) as Hw' by apply N.Div0.mul_div_le.
  assert (DECIMAL_UNIT * share ≤ s * w) as Hshare' by apply N.Div0.mul_div_le.
  assert (total * share ≤ unbonded h * s) as Hhigh.
  { apply (N.mul_le_mono_pos_l _ _ DECIMAL_UNIT); [done|nia]. }
  eexists. split_and!; [done|done|done|clearbody share w; nia|]. intros HsU.
  assert (unbonded h * DECIMAL_UNIT < total * w + total) as Hw.
  { pose proof (N.mul_succ_div_gt (unbonded h * DECIMAL_UNIT) total). unfold w. lia_div. }
  assert (s * w < DECIMAL_UNIT * share + DECIMAL_UNIT) as Hshare.
  { pose proof (N.mul_succ_div_gt (s * w) DECIMAL_UNIT). unfold share. lia_div. }
  assert (unbonded h * s < total * (share + 2)) as Hlow.
  { apply (N.mul_lt_mono_pos_l DECIMAL_UNIT); [done|nia]. }
  clearbody share w. nia.
Qed.

(** What the batch's requests can be paid at the new rate, [actual] being the
    amount that really came in for all the due batches together. *)
Lemma new_withdraw_rate_bound h total actual slashed rate :
  from_subtraction total actual = Some slashed →
  new_withdraw_rate h total slashed = Ok rate →
  unbonded h ≤ total → total ≤ actual + DECIMAL_UNIT →
  total ≠ 0 ∧ total * (h_amount h * rate / DECIMAL_UNIT) ≤ unbonded h * actual + total.
Proof.
  rewrite from_subtraction_spec. intros [= <-] H Hu Hloss.
  assert (∀ a, h_amount h ≠ 0 →
    h_amount h * (a * DECIMAL_UNIT / h_amount h) / DECIMAL_UNIT ≤ a) as Hround.
  { intros a Ha. transitivity (a * DECIMAL_UNIT / DECIMAL_UNIT).
    - apply N.Div0.div_le_mono, N.Div0.mul_div_le.
    - by rewrite N.div_mul by done. }
  assert (total ≠ 0) as Ht.
  { unfold new_withdraw_rate in H. inv_ok H. platform_facts. done. }
  split; [done|]. destruct (N.leb_spec actual total) as [Hle|Hgt].
  - apply new_withdraw_rate_loss in H as (a & -> & Ha & Hb & _); [|done|lia|lia].
    specialize (Hround a Ha). atomize_div. nia.
  - apply new_withdraw_rate_surplus in H as (a & -> & Ha & _ & Hb & _).
    specialize (Hround a Ha). replace (total + (actual - total)) with actual in Hb by lia.
    atomize_div. nia.
Qed.

(** The histories after releasing [hs] from batch [i] on at the rates [rs]. *)
Definition released (h : UnbondHistory) (rate : Decimal) : UnbondHistory :=
  mkUnbondHistory (h_batch_id h) (h_time h) (h_amount h) (h_applied_exchange_rate h) rate true.
Fixpoint release_history (i : N) (hs : list UnbondHistory) (rs : list Decimal)
    (hist : gmap N UnbondHistory) : gmap N UnbondHistory :=
  match hs, rs with
  | h :: hs, r :: rs => release_history (i + 1) hs rs (<[i := released h r]> hist)
  | _, _ => hist
  end.

Lemma batch_due_store st t i j h :
  i ≠ j → batch_due (store_unbond_history st i h) t j = batch_due st t j.
Proof. intros Hne. unfold batch_due, read_unbond_history. simpl. by rewrite lookup_insert_ne. Qed.

Lemma due_batches_store fuel st t i j h :
  i < j → due_batches fuel (store_unbond_history st i h) t j = due_batches fuel st t j.
Proof.
  revert j. induction fuel as [|fuel IH]; intros j Hj; simpl; [done|].
  rewrite batch_due_store by lia. destruct (batch_due st t j); [|done]. f_equal. apply IH. lia.
Qed.

Lemma release_batches_spec fuel st s t i total slashed st' s' :
  release_batches fuel st s t i total slashed = Ok (st', s') →
  let hs := due_batches fuel st t i in
  ∃ rs, Forall2 (λ h r, new_withdraw_rate h total slashed = Ok r) hs rs ∧
  st' = set_history (release_history i hs rs (UNBOND_HISTORY st)) st ∧
  s' = (if decide (hs = []) then s else with_processed (i + N.of_nat (length hs) - 1) s) ∧
  batch_due st t (i + N.of_nat (length hs)) = None.
Proof.
  revert st s i. induction fuel as [|fuel IH]; intros st s i; simpl.
  - destruct (batch_due st t i) eqn:Hd; [done|]. intros [= <- <-]. exists [].
    simpl. rewrite N.add_0_r. split_and!; [constructor|by destruct st|done|done].
  - destruct (batch_due st t i) as [h|] eqn:Hd.
    2: { intros [= <- <-]. exists []. simpl. rewrite N.add_0_r.
         split_and!; [constructor|by destruct st|done|done]. }
    intros H. inv_ok H. platform_facts.
    apply IH in H as (rs & Hrs & -> & -> & Hnext).
    rewrite due_batches_store in * by lia. exists (a :: rs). split_and!.
    + by constructor.
    + done.
    + destruct (due_batches fuel st t (i + 1)) as [|h' hs]; repeat case_decide; try done; simpl.
      * unfold with_processed. f_equal. lia.
      * unfold with_processed. f_equal. lia.
    + rewrite batch_due_store in Hnext by lia. simpl.
      rewrite <-Hnext. f_equal. simpl. lia.
Qed.

Lemma lookup_release_history i hs rs hist b :
  length hs = length rs →
  release_history i hs rs hist !! b =
  if decide (i ≤ b < i + N.of_nat (length hs))
  then h ← hs !! N.to_nat (b - i); r ← rs !! N.to_nat (b - i); Some (released h r)
  else hist !! b.
Proof.
  revert i rs hist. induction hs as [|h hs IH]; intros i [|r rs] hist Hlen; simpl; try done.
  - rewrite decide_False by lia. done.
  - injection Hlen as Hlen. rewrite IH by done. destruct (decide (b = i)) as [->|Hne].
    + rewrite decide_False by lia. rewrite decide_True by lia.
      rewrite lookup_insert_eq, N.sub_diag. done.
    + destruct (decide (i + 1 ≤ b < i + 1 + N.of_nat (length hs))) as [Hin|Hout].
      * rewrite decide_True by lia.
        by replace (N.to_nat (b - i)) with (S (N.to_nat (b - (i + 1)))) by lia.
      * rewrite decide_False by lia. by rewrite lookup_insert_ne by done.
Qed.

Lemma unbonded_sum_bound hs rs total actual slashed :
  from_subtraction total actual = Some slashed →
  Forall2 (λ h r, new_withdraw_rate h total slashed = Ok r) hs rs →
  (∀ h, h ∈ hs → unbonded h ≤ total) → total ≤ actual + DECIMAL_UNIT →
  total * sum_N (zip_with (λ h r, unbonded (released h r)) hs rs) ≤
  sum_N (unbonded <$> hs) * actual + N.of_nat (length hs) * total.
Proof.
  intros Hsl H Hu Hloss. induction H as [|h r hs rs Hr _ IH]; [csimpl; lia|].
  assert (unbonded h ≤ total) as Huh by (apply Hu; set_solver).
  specialize (IH ltac:(set_solver)).
  destruct (new_withdraw_rate_bound _ _ _ _ _ Hsl Hr Huh Hloss) as [_ Hb].
  change (h_amount h * r / DECIMAL_UNIT) with (unbonded (released h r)) in Hb.
  csimpl. rewrite !N.mul_add_distr_l, N.mul_add_distr_r.
  replace (N.of_nat (S (length hs)) * total) with (total + N.of_nat (length hs) * total) by nia. lia.
Qed.

Lemma elem_of_sum_N n l : n ∈ l → n ≤ sum_N l.
Proof. induction 1 as [|x y l _ IH]; simpl; lia. Qed.

(** No batch gets less than its share by more than four units, when neither the
    difference nor the batch is beyond [10^18]. *)
Lemma new_withdraw_rate_share h total actual slashed rate :
  from_subtraction total actual = Some slashed →
  new_withdraw_rate h total slashed = Ok rate →
  unbonded h ≤ total → total ≤ actual + DECIMAL_UNIT → actual ≤ total + DECIMAL_UNIT →
  h_amount h ≤ DECIMAL_UNIT →
  unbonded h * actual ≤ total * (unbonded (released h rate) + 4).
Proof.
  rewrite from_subtraction_spec. intros [= <-] H Hu Hloss Hgain Hamount.
  assert (∀ a, h_amount h ≠ 0 → rate = a * DECIMAL_UNIT / h_amount h → a ≤ unbonded (released h rate) + 1) as Hround.
  { intros a Ha ->. unfold unbonded. simpl.
    pose proof (N.mul_succ_div_gt (a * DECIMAL_UNIT) (h_amount h) Ha) as Hd.
    set (r := a * DECIMAL_UNIT / h_amount h) in *.
    pose proof (N.mul_succ_div_gt (h_amount h * r) DECIMAL_UNIT ltac:(done)) as Hd2.
    set (v := h_amount h * r / DECIMAL_UNIT) in *. clearbody r v.
    enough (a < v + 2) by lia. apply (N.mul_lt_mono_pos_l DECIMAL_UNIT); [done|]. nia. }
  destruct (N.leb_spec actual total) as [Hle|Hgt].
  - apply new_withdraw_rate_loss in H as (a & Hr & Ha & _ & Hb); [|done|lia|lia].
    specialize (Hround a Ha Hr). nia.
  - apply new_withdraw_rate_surplus in H as (a & Hr & Ha & _ & _ & Hb).
    specialize (Hround a Ha Hr). specialize (Hb ltac:(lia)).
    replace (total + (actual - total)) with actual in Hb by lia. nia.
Qed.

(** What [process_withdraw_rate] does with the due batches. *)
Lemma process_withdraw_rate_spec st t balance st' s :
  process_withdraw_rate st t balance = Ok st' → STATE st = Some s →
  let first := last_processed_batch s + 1 in
  let hs := due_batches (size (UNBOND_HISTORY st)) st t first in
  let total := sum_N (unbonded <$> hs) in
  let actual := actual_unbonded_amount s +
    (if prev_vault_balance s <=? balance then balance - prev_vault_balance s
     else prev_vault_balance s - balance) in
  ∃ rs slashed,
    from_subtraction total actual = Some slashed ∧
    Forall2 (λ h r, new_withdraw_rate h total slashed = Ok r) hs rs ∧
    batch_due st t (first + N.of_nat (length hs)) = None ∧
    UNBOND_HISTORY st' = release_history first hs rs (UNBOND_HISTORY st) ∧
    STATE st' = Some (with_unbonded 0 (with_processed
      (last_processed_batch s + N.of_nat (length hs)) s)) ∧
    UNBOND_WAITLIST st' = UNBOND_WAITLIST st ∧ CURRENT_BATCH st' = CURRENT_BATCH st ∧
    CONFIG st' = CONFIG st ∧ PARAMETERS st' = PARAMETERS st ∧ VALIDATORS st' = VALIDATORS st.
Proof.
  unfold process_withdraw_rate. intros H Hs. cbv zeta. inv_ok H. subst.
  apply load_Ok in Ha. rewrite Hs in Ha. injection Ha as <-.
  rewrite from_subtraction_spec in Ha0. injection Ha0 as <-. platform_facts.
  replace (si_abs (if prev_vault_balance s <=? balance then _ else _)) with
    (if prev_vault_balance s <=? balance then balance - prev_vault_balance s
     else prev_vault_balance s - balance) in * by (by destruct (_ <=? _)).
  set (actual := actual_unbonded_amount s + _) in *.
  change (last_processed_batch (with_unbonded actual s)) with (last_processed_batch s) in *.
  apply sum_due_batches_spec in Ha3 as [-> ->].
  set (first := last_processed_batch s + 1) in *.
  set (hs := due_batches _ _ _ _) in *. cbn [N.add] in *.
  pose proof (from_subtraction_spec (sum_N (unbonded <$> hs)) actual) as Hsl.
  rewrite !N.add_0_l in Ha4. cbn [actual_unbonded_amount with_unbonded] in Ha4.
  destruct (N.leb_spec 1 (N.of_nat (length hs))) as [Hn|Hn].
  - inv_ok Ha4. rewrite Hsl in Ha.
    injection Ha as <-. apply release_batches_spec in Ha4 as (rs & Hrs & -> & -> & Hnext).
    fold hs in Hrs, Hnext |- *.
    assert (hs ≠ []) as Hne by (intros E; rewrite E in Hn; simpl in Hn; lia).
    rewrite decide_False by done. eexists rs, _. split_and!; try done. simpl. f_equal.
    unfold with_unbonded, with_processed. simpl. f_equal. unfold first. lia.
  - injection Ha4 as <- <-. destruct hs as [|h hs'] eqn:Hhs; [|simpl in Hn; lia].
    eexists [], _. split_and!; [exact Hsl|by constructor|..]; try done.
    + subst hs. simpl. rewrite N.add_0_r.
      destruct (size (UNBOND_HISTORY st)) eqn:Hz; simpl in Hhs.
      * unfold batch_due, read_unbond_history.
        apply map_size_empty_inv in Hz. by rewrite Hz, lookup_empty.
      * by destruct (batch_due st t first).
    + simpl. f_equal. unfold with_unbonded, with_processed. simpl. by rewrite N.add_0_r.
Qed.

(** ** The books of the unbonding batches *)

(** What the users have requested in batch [b]. *)
Definition request_in (b : N) (k : Addr * N) (v : Uint128) : N := if decide (k.2 = b) then v else 0.
Definition requested_in (b : N) (st : Storage) : N := map_sum (request_in b) (UNBOND_WAITLIST st).

(** Batches are numbered from one without gaps; the current batch is the first
    without a history; the requests of the current batch and of every batch not
    yet released add up to the recorded amounts, those of a released batch to no
    more; the released batches are those up to [last_processed_batch]. *)
Record Books (st : Storage) (cb : CurrentBatch) (s : State) : Prop := {
  books_current : requested_in (batch_id cb) st = requested_with_fee cb;
  books_open b h :
    UNBOND_HISTORY st !! b = Some h → h_released h = false → requested_in b st = h_amount h;
  books_closed b h : UNBOND_HISTORY st !! b = Some h → requested_in b st ≤ h_amount h;
  books_ids b : is_Some (UNBOND_HISTORY st !! b) ↔ 1 ≤ b < batch_id cb;
  books_named b h : UNBOND_HISTORY st !! b = Some h → h_batch_id h = b;
  books_released b h :
    UNBOND_HISTORY st !! b = Some h → (h_released h = true ↔ b ≤ last_processed_batch s);
  books_processed : last_processed_batch s < batch_id cb;
  books_known u b v : UNBOND_WAITLIST st !! (u, b) = Some v → 1 ≤ b ≤ batch_id cb }.

(** The stored current batch and state keep the books. *)
Definition Inv (st : Storage) : Prop :=
  ∃ cb s, CURRENT_BATCH st = Some cb ∧ STATE st = Some s ∧ Books st cb s.

Lemma books_frame st st' cb s s' :
  UNBOND_WAITLIST st' = UNBOND_WAITLIST st → UNBOND_HISTORY st' = UNBOND_HISTORY st →
  last_processed_batch s' = last_processed_batch s →
  Books st cb s → Books st' cb s'.
Proof.
  intros Hw Hh Hl [H1 H2 H3 H4 H5 H6 H7 H8].
  split; unfold requested_in in *; rewrite ?Hw, ?Hh, ?Hl; auto.
Qed.

(** Steps that leave the batches alone. *)
Lemma inv_frame st st' :
  UNBOND_WAITLIST st' = UNBOND_WAITLIST st → UNBOND_HISTORY st' = UNBOND_HISTORY st →
  CURRENT_BATCH st' = CURRENT_BATCH st →
  (∀ s, STATE st = Some s → ∃ s', STATE st' = Some s' ∧
     last_processed_batch s' = last_processed_batch s) →
  Inv st → Inv st'.
Proof.
  intros Hw Hh Hc Hs (cb & s & Hcb & HS & HB). destruct (Hs s HS) as (s' & HS' & Hl).
  exists cb, s'. split_and!; [congruence|done|]. by eapply books_frame.
Qed.

Lemma requested_in_insert st k v b :
  requested_in b (set_waitlist (<[k := v]> (UNBOND_WAITLIST st)) st) +
    (if decide (k.2 = b) then default 0 (UNBOND_WAITLIST st !! k) else 0) =
  requested_in b st + (if decide (k.2 = b) then v else 0).
Proof.
  unfold requested_in. simpl.
  pose proof (map_sum_insert (request_in b) (UNBOND_WAITLIST st) k v) as H.
  assert (contrib (request_in b) (UNBOND_WAITLIST st) k =
    if decide (k.2 = b) then default 0 (UNBOND_WAITLIST st !! k) else 0) as Hc.
  { unfold contrib, request_in. destruct (UNBOND_WAITLIST st !! k); simpl; [done|by case_decide]. }
  rewrite Hc in H. unfold request_in at 3 in H. exact H.
Qed.

(** A request is entered in the current batch. *)
Lemma books_request st st' cb s sender amount total :
  Books st cb s →
  store_unbond_wait_list st (batch_id cb) sender amount = Ok st' →
  uint_add (requested_with_fee cb) amount = Some total →
  Books st' (mkCurrentBatch (batch_id cb) total) s ∧
  CONFIG st' = CONFIG st ∧ PARAMETERS st' = PARAMETERS st ∧ UNBOND_HISTORY st' = UNBOND_HISTORY st ∧
  VALIDATORS st' = VALIDATORS st ∧ STATE st' = STATE st ∧
  (∀ k, k ≠ (sender, batch_id cb) → UNBOND_WAITLIST st' !! k = UNBOND_WAITLIST st !! k) ∧
  UNBOND_WAITLIST st' !! (sender, batch_id cb) =
    Some (default 0 (UNBOND_WAITLIST st !! (sender, batch_id cb)) + amount).
Proof.
  unfold store_unbond_wait_list. intros HB H Htotal. inv_ok H. subst st'. platform_facts.
  set (k := (sender, batch_id cb)) in *.
  set (v := default 0 (UNBOND_WAITLIST st !! k) + amount) in *.
  assert (∀ b, b ≠ batch_id cb →
    requested_in b (set_waitlist (<[k:=v]> (UNBOND_WAITLIST st)) st) = requested_in b st) as Hother.
  { intros b Hb. pose proof (requested_in_insert st k v b) as Hi.
    rewrite !decide_False in Hi by (simpl; congruence). lia. }
  assert (∀ b h, UNBOND_HISTORY st !! b = Some h → b ≠ batch_id cb) as Hold.
  { intros b h Hb ->. assert (1 ≤ batch_id cb < batch_id cb); [|lia]. apply (books_ids _ _ _ HB). eauto. }
  split_and!; try done; simpl.
  - destruct HB as [H1 H2 H3 H4 H5 H6 H7 H8]. split; simpl; try done.
    + pose proof (requested_in_insert st k v (batch_id cb)) as Hi.
      rewrite !decide_True in Hi by done. unfold v in *. lia.
    + intros b h Hb Hr. rewrite Hother by (by eapply Hold). by apply H2.
    + intros b h Hb. rewrite Hother by (by eapply Hold). by apply H3.
    + intros u b w [[[= <- <-] _]|[_ Hw]]%lookup_insert_Some; [|by eapply H8]. lia.
  - intros k' Hk'. by rewrite lookup_insert_ne.
  - by rewrite lookup_insert_eq.
Qed.

(** The current batch is closed: its history is recorded and a new batch opened. *)
Lemma books_close st cb s h next :
  Books st cb s → u64_add (batch_id cb) 1 = Some next →
  h_batch_id h = batch_id cb → h_amount h = requested_with_fee cb → h_released h = false →
  Books (store_unbond_history st (batch_id cb) h) (mkCurrentBatch next 0) s.
Proof.
  intros HB Hnext Hid Ham Hrel. platform_facts.
  assert (∀ b, batch_id cb < b → requested_in b st = 0) as Hzero.
  { intros b Hb. apply map_sum_zero. intros [u b'] v Hv. unfold request_in; simpl.
    case_decide; [|done]. subst b'. pose proof (books_known _ _ _ HB _ _ _ Hv). lia. }
  destruct HB as [H1 H2 H3 H4 H5 H6 H7 H8]. split; simpl.
  - change (requested_in (batch_id cb + 1) st = 0). apply Hzero. lia.
  - intros b h' [[<- <-]|[_ Hb]]%lookup_insert_Some Hr; [|by apply H2].
    change (requested_in (batch_id cb) st = h_amount h). congruence.
  - intros b h' [[<- <-]|[_ Hb]]%lookup_insert_Some; [|by apply H3].
    change (requested_in (batch_id cb) st ≤ h_amount h). rewrite H1, Ham. done.
  - intros b. rewrite is_Some_insert, H4. assert (1 ≤ batch_id cb) by lia. lia.
  - intros b h' [[<- <-]|[_ Hb]]%lookup_insert_Some; [done|by apply H5].
  - intros b h' [[<- <-]|[_ Hb]]%lookup_insert_Some; [|by apply H6]. rewrite Hrel. split; [done|lia].
  - lia.
  - intros u b v Hv. pose proof (H8 _ _ _ Hv). lia.
Qed.

(** One batch is released. *)
Lemma books_release st cb s h rate :
  Books st cb s → UNBOND_HISTORY st !! (last_processed_batch s + 1) = Some h →
  Books (store_unbond_history st (last_processed_batch s + 1) (released h rate)) cb
    (with_processed (last_processed_batch s + 1) s).
Proof.
  intros [H1 H2 H3 H4 H5 H6 H7 H8] Hh.
  assert (last_processed_batch s + 1 < batch_id cb) as Hlt by (apply H4; eauto).
  split; simpl; try done.
  - intros b h' [[<- <-]|[_ Hb]]%lookup_insert_Some Hr; [done|by apply H2].
  - intros b h' [[<- <-]|[_ Hb]]%lookup_insert_Some; [by apply (H3 _ h)|by apply H3].
  - intros b. rewrite is_Some_insert, H4. lia.
  - intros b h' [[<- <-]|[_ Hb]]%lookup_insert_Some; [by apply (H5 _ h)|by apply H5].
  - intros b h' [[<- <-]|[Hne Hb]]%lookup_insert_Some; simpl; [split; [lia|done]|].
    rewrite (H6 _ _ Hb). lia.
Qed.

Lemma release_batches_books fuel st s cb t total slashed st' s' :
  Books st cb s → release_batches fuel st s t (last_processed_batch s + 1) total slashed = Ok (st', s') →
  Books st' cb s'.
Proof.
  revert st s. induction fuel as [|fuel IH]; intros st s HB; simpl.
  - destruct (batch_due _ _ _); [done|]. by intros [= <- <-].
  - destruct (batch_due _ _ _) as [h|] eqn:Hd; [|by intros [= <- <-]].
    intros H. inv_ok H. platform_facts. apply batch_due_Some in Hd as (Hh & _ & _).
    eapply IH; [|exact H]. by apply books_release.
Qed.

Lemma process_withdraw_rate_inv st t balance st' :
  Inv st → process_withdraw_rate st t balance = Ok st' → Inv st'.
Proof.
  intros (cb & s & Hcb & HS & HB) H. unfold process_withdraw_rate in H. inv_ok H. subst.
  apply load_Ok in Ha. rewrite HS in Ha. injection Ha as <-. platform_facts.
  match goal with Hr : _ = Ok (?x, ?y) |- _ => rename Hr into Hrel, x into st1, y into s1 end.
  assert (Books st1 cb s1 ∧ CURRENT_BATCH st1 = Some cb) as (HB1 & Hcb1).
  { destruct (1 <=? _).
    - inv_ok Hrel. pose proof Hrel as Hspec.
      apply release_batches_spec in Hspec as (rs & _ & -> & _).
      split; [|done]. eapply release_batches_books in Hrel; [exact Hrel|].
      eapply books_frame; [..|exact HB]; done.
    - injection Hrel as <- <-. split; [|done]. eapply books_frame; [..|exact HB]; done. }
  exists cb, (with_unbonded 0 s1). split_and!; [done|done|]. eapply books_frame; [..|exact HB1]; done.
Qed.

(** ** Removing the requests that were paid *)
Lemma lookup_remove_requests st l sender k :
  UNBOND_WAITLIST (remove_unbond_wait_list st l sender) !! k =
  if decide (k.1 = sender ∧ k.2 ∈ l) then None else UNBOND_WAITLIST st !! k.
Proof.
  unfold remove_unbond_wait_list. simpl. generalize (UNBOND_WAITLIST st). destruct k as [u b]. simpl.
  induction l as [|x l IH]; intros m; simpl.
  - rewrite decide_False; [done|set_solver].
  - rewrite IH. destruct (decide ((u, b) = (sender, x))) as [[= -> ->]|Hne].
    + rewrite lookup_delete_eq. rewrite (decide_True (P:=_ ∧ x ∈ x :: l)) by set_solver. by case_decide.
    + rewrite lookup_delete_ne by congruence. repeat case_decide; set_solver.
Qed.

Lemma requested_in_delete st k b :
  requested_in b (set_waitlist (delete k (UNBOND_WAITLIST st)) st) +
    (if decide (k.2 = b) then default 0 (UNBOND_WAITLIST st !! k) else 0) = requested_in b st.
Proof.
  unfold requested_in. simpl. rewrite <-(map_sum_delete_contrib (request_in b) (UNBOND_WAITLIST st) k).
  f_equal. unfold contrib, request_in. destruct (UNBOND_WAITLIST st !! k); simpl; [done|by case_decide].
Qed.

Lemma books_remove st cb s sender l :
  Books st cb s → (∀ b, b ∈ l → batch_released st b = true) →
  Books (remove_unbond_wait_list st l sender) cb s.
Proof.
  intros HB Hl.
  assert (∀ m, Books (set_waitlist m st) cb s →
    Books (set_waitlist (foldl (λ m b, delete (sender, b) m) m l) st) cb s) as Hfold.
  2: { apply Hfold. destruct st. exact HB. }
  induction l as [|b l IH]; intros m Hm; simpl; [done|].
  apply IH; [intros b' Hb'; apply Hl; set_solver|].
  assert (batch_released st b = true) as Hrel by (apply Hl; set_solver).
  pose proof (requested_in_delete (set_waitlist m st) (sender, b)) as Hreq. simpl in Hreq.
  unfold batch_released in Hrel. destruct (UNBOND_HISTORY st !! b) as [hb|] eqn:Hb; [|done].
  destruct Hm as [H1 H2 H3 H4 H5 H6 H7 H8]. simpl in *.
  assert (b ≠ batch_id cb) as Hcur.
  { intros ->. assert (1 ≤ batch_id cb < batch_id cb); [apply H4; eauto|lia]. }
  split; simpl; try done.
  - specialize (Hreq (batch_id cb)). rewrite decide_False, N.add_0_r in Hreq by done.
    etrans; [exact Hreq|done].
  - intros b' h Hb' Hr. specialize (Hreq b').
    assert (b ≠ b') as Hne by (intros ->; rewrite Hb in Hb'; congruence).
    rewrite decide_False, N.add_0_r in Hreq by done. etrans; [exact Hreq|by apply H2].
  - intros b' h Hb'. specialize (Hreq b'). specialize (H3 _ _ Hb').
    change (requested_in b' (set_waitlist (delete (sender, b) m) (set_waitlist m st)) ≤ h_amount h).
    lia.
  - intros u b' v [_ Hv]%lookup_delete_Some. by eapply H8.
Qed.

Lemma batches_released_spec st sender limit l :
  get_unbond_batches st sender limit = Ok l → ∀ b, b ∈ l → batch_released st b = true.
Proof.
  intros [= <-] b Hb. apply list_elem_of_In, filter_In in Hb as [_ Hb]. done.
Qed.

(** ** Every message keeps the books *)
Lemma load_initialized_Ok st c : load_initialized st = Ok c ↔ CONFIG st = Some c ∧ initialized c = true.
Proof.
  unfold load_initialized, assert_initialized. rewrite qbind_Ok. split.
  - intros (a & Ha%load_Ok & H). destruct (initialized a) eqn:E; [|done]. by injection H as <-.
  - intros [Hc Hi]. exists c. split; [by apply load_Ok|by rewrite Hi].
Qed.

Lemma slashing_inv st q env s params st' s' :
  STATE st = Some s → slashing st q env s params = Ok (st', s') →
  last_processed_batch s' = last_processed_batch s ∧ CURRENT_BATCH st' = CURRENT_BATCH st ∧
  (∀ cb s0, last_processed_batch s0 = last_processed_batch s → Books st cb s → Books st' cb s0) ∧
  (∃ s1, STATE st' = Some s1 ∧ last_processed_batch s1 = last_processed_batch s).
Proof.
  intros HS (_ & (r & Hs') & _ & _ & Hcb & Hw & Hh & _ & HSt)%slashing_bond.
  assert (last_processed_batch s' = last_processed_batch s) as Hl by (by rewrite Hs').
  split_and!; [done|done|by intros; eapply books_frame|].
  destruct HSt as [->| ->]; eauto.
Qed.

Lemma update_rate_processed s i r s' :
  update_exchange_rate s i r = Some s' → last_processed_batch s' = last_processed_batch s.
Proof. by intros ->%update_exchange_rate_spec. Qed.

Lemma do_execute_bond_inv st q env info v st' m msgs p :
  Inv st → do_execute_bond st q env info v = Ok (st', m, msgs, p) → Inv st'.
Proof.
  intros (cb & s & Hcb & HS & HB) H. unfold do_execute_bond in H. inv_ok H. subst.
  repeat match goal with Hl : load_state _ = Ok _ |- _ => apply load_Ok in Hl end. simplify_eq.
  match goal with Hs : slashing _ _ _ _ _ = Ok _ |- _ =>
    destruct (slashing_inv _ _ _ _ _ _ _ HS Hs) as (Hl & Hcb' & Hbooks & _) end.
  match goal with Hu : update_exchange_rate _ _ _ = Some _ |- _ =>
    apply update_rate_processed in Hu end.
  eexists cb, _. split_and!; [by rewrite <-Hcb; exact Hcb'|done|].
  eapply books_frame; [..|by apply Hbooks]; done.
Qed.

Lemma execute_unbond_inv st q env amount sender st' resp :
  Inv st → execute_unbond st q env amount sender = Ok (st', resp) → Inv st'.
Proof.
  intros (cb & s & Hcb & HS & HB) H. unfold execute_unbond in H. inv_ok H. subst.
  repeat match goal with Hl : load_state _ = Ok _ |- _ => apply load_Ok in Hl
    | Hl : load_batch _ = Ok _ |- _ => apply load_Ok in Hl end. simplify_eq.
  match goal with Hs : slashing _ _ _ _ _ = Ok _ |- _ =>
    destruct (slashing_inv _ _ _ _ _ _ _ HS Hs) as (Hl & Hcb' & Hbooks & _) end.
  specialize (Hbooks cb s eq_refl HB).
  match goal with Hu : update_exchange_rate _ _ _ = Some _ |- _ =>
    apply update_rate_processed in Hu as Hrate end.
  match goal with Hst : store_unbond_wait_list _ _ _ _ = Ok ?x, Ha : uint_add (requested_with_fee _) _ = _ |- _ =>
    destruct (books_request _ _ _ _ _ _ _ Hbooks Hst Ha) as [HBr _] end.
  match goal with Hb : (if _ then _ else _) = Ok _ |- _ => rename Hb into Hbranch end.
  inv_ok Hbranch; subst; simplify_eq.
  - eexists _, _. split_and!; [done|done|].
    match goal with |- Books (set_state _ (set_batch _ ?st1)) _ _ =>
      apply (books_frame st1 _ _ s); [done|done|simpl; congruence|] end.
    eapply (books_close _ _ _ _ _ HBr); [eassumption|done|done|done].
  - eexists _, _. split_and!; [done|done|].
    match goal with |- Books (set_state _ (set_batch _ ?st1)) _ _ =>
      apply (books_frame st1 _ _ s); [done|done|congruence|exact HBr] end.
Qed.

Lemma execute_withdraw_unbonded_inv st q env info st' resp :
  Inv st → execute_withdraw_unbonded st q env info = Ok (st', resp) → Inv st'.
Proof.
  intros HI H. unfold execute_withdraw_unbonded in H. inv_ok H. subst.
  match goal with Hp : process_withdraw_rate _ _ _ = Ok _ |- _ =>
    apply process_withdraw_rate_inv in Hp; [|done] end.
  match goal with Hi : Inv _ |- _ => clear HI; destruct Hi as (cb & s & Hcb & HS & HB) end.
  match goal with Hl : load_state _ = Ok _ |- _ => apply load_Ok in Hl; simpl in Hl end. simplify_eq.
  match goal with Hb : get_unbond_batches _ _ _ = Ok _ |- _ =>
    pose proof (batches_released_spec _ _ _ _ Hb) as Hrel end.
  eexists cb, _. split_and!; [done|done|].
  eapply books_frame; [..|by apply (books_remove _ _ _ (info_sender info) _ HB Hrel)]; done.
Qed.

Lemma execute_inv fb st q env info msg st' resp :
  Inv st → execute fb st q env info msg = Ok (st', resp) → Inv st'.
Proof.
  intros HI H. destruct msg; simpl in H.
  - unfold execute_update_config in H. inv_ok H. subst. apply (inv_frame st); eauto.
  - unfold execute_register_validator in H. inv_ok H. subst. apply (inv_frame st); eauto.
  - unfold execute_deregister_validator in H. inv_ok H. subst. apply (inv_frame st); eauto.
  - unfold execute_update_params in H. inv_ok H. subst. apply (inv_frame st); eauto.
  - unfold execute_redelegate in H. inv_ok H. by subst.
  - unfold execute_bond in H. inv_ok H. subst. by eapply do_execute_bond_inv.
  - unfold execute_bond_split in H. inv_ok H. subst. by eapply do_execute_bond_inv.
  - unfold execute_update_global in H. inv_ok H. subst.
    eapply inv_frame; [..|exact HI]; try done. intros s Hs. simpl.
    match goal with Hl : load_state _ = Ok _ |- _ => apply load_Ok in Hl end. simplify_eq. eauto.
  - by eapply execute_withdraw_unbonded_inv.
  - unfold execute_slashing in H. inv_ok H. subst.
    destruct HI as (cb & s & Hcb & HS & HB).
    match goal with Hl : load_state _ = Ok _ |- _ => apply load_Ok in Hl end. simplify_eq.
    match goal with Hs : slashing _ _ _ _ _ = Ok _ |- _ =>
      destruct (slashing_inv _ _ _ _ _ _ _ HS Hs) as (Hl & Hcb' & Hbooks & s1 & HS1 & Hl1) end.
    exists cb, s1. split_and!; [congruence|done|by apply Hbooks].
  - unfold receive_cw20 in H. inv_ok H. subst. by eapply execute_unbond_inv.
  - unfold split in H. inv_ok H. by subst.
  - unfold merge in H. inv_ok H. by subst.
  - unfold deposit_airdrop_rewards in H. inv_ok H. by subst.
  - unfold claim_airdrop in H. inv_ok H. by subst.
Qed.

Lemma instantiate_books env info msg st resp : instantiate env info msg = Ok (st, resp) → Inv st.
Proof.
  unfold instantiate. intros H. inv_ok H. subst. eexists _, _. split_and!; [done|done|].
  split; simpl; try done.
  intros b. rewrite lookup_empty. split; [by intros [? ?]|lia].
Qed.

(** ** What is paid to a user *)
Definition payable (st : Storage) (finished : UnbondHistory → bool) (item : N * Uint128) : N :=
  match UNBOND_HISTORY st !! item.1 with
  | Some h => if finished h then item.2 * h_withdraw_rate h / DECIMAL_UNIT else 0
  | None => 0
  end.

Lemma finished_fold st finished l acc r :
  optfold (finished_step st finished) acc l = Some r → r = acc + sum_N (payable st finished <$> l).
Proof.
  revert acc. induction l as [|[b v] l IH]; intros acc; csimpl; [intros [= <-]; lia|].
  unfold payable at 1. simpl. destruct (UNBOND_HISTORY st !! b) as [h|]; simpl.
  - destruct (finished h); simpl.
    + destruct (uint_mul_dec v _) eqn:Hm; simpl; [|done].
      destruct (uint_add acc _) eqn:Ha; simpl; [|done]. platform_facts. intros ->%IH. lia_div.
    + intros ->%IH. lia.
  - intros ->%IH. lia.
Qed.

(** ** The messages of an undelegation *)
Lemma pick_unbond_loop_Ok fuel denom height ds i claimed msgs msgs' :
  pick_unbond_loop fuel denom height ds i claimed msgs = Ok msgs' →
  ∃ l, msgs' = msgs ++ undelegations denom l ∧ sum_N l.*2 = claimed ∧ taken l ds.
Proof.
  revert ds i claimed msgs. induction fuel as [|fuel IH]; intros ds i claimed msgs.
  - simpl. destruct (N.eqb_spec claimed 0) as [->|]; [|done]. intros [= <-]. exists [].
    simpl. rewrite app_nil_r. split_and!; [done|done|constructor].
  - rewrite pick_unbond_loop_S. destruct (N.eqb_spec claimed 0) as [->|].
    { intros [= <-]. exists []. simpl. rewrite app_nil_r. split_and!; [done|done|constructor]. }
    cbv zeta. intros H. inv_ok H. match goal with Hl : ds !! _ = Some ?x |- _ => rename x into d, Hl into Hd end.
    pose proof (delete_Permutation _ _ d Hd) as Hperm.
    apply IH in H as (l & -> & Hsum & Htaken).
    set (part := N.min claimed (coin_amount (del_amount d))) in *.
    destruct (N.ltb_spec 0 part) as [Hpos|Hz].
    + exists ((del_validator d, part) :: l). split_and!.
      * by rewrite <-app_assoc.
      * csimpl. lia.
      * econstructor; [exact Hperm|lia|done].
    + exists l. split_and!; [done|lia|by eapply taken_skip].
Qed.

Lemma pick_unbond_validator_Ok q denom claim delegator height msgs :
  pick_unbond_validator q denom claim delegator height = Ok msgs →
  ∃ ds l, query_all_delegations q delegator = Ok ds ∧ msgs = undelegations denom l ∧
    sum_N l.*2 = claim ∧ taken l ds.
Proof.
  unfold pick_unbond_validator. intros H. inv_ok H. ok_facts.
  apply pick_unbond_loop_Ok in H as (l & -> & ? & ?). eexists _, l. by split_and!.
Qed.

Lemma vault_bond_msgs st q env info v st' minted msgs payment :
  do_execute_bond st q env info v = Ok (st', minted, msgs, payment) →
  ∃ delegate token,
    msgs = [delegate; sub_new (wasm_cw20 token (Cw20.Mint (info_sender info) minted))].
Proof. unfold do_execute_bond. intros H. inv_ok H. subst. by eexists _, _. Qed.

(** ** The whitelist of validators *)
Lemma do_execute_bond_validators st q env info v st' minted msgs payment :
  do_execute_bond st q env info v = Ok (st', minted, msgs, payment) → VALIDATORS st' = VALIDATORS st.
Proof.
  unfold do_execute_bond. intros H. inv_ok H. subst.
  match goal with Hs : slashing _ _ _ _ _ = Ok _ |- _ =>
    by apply slashing_bond in Hs as (_ & _ & _ & _ & _ & _ & _ & Hv & _) end.
Qed.

Lemma execute_unbond_validators st q env amount sender st' resp :
  execute_unbond st q env amount sender = Ok (st', resp) → VALIDATORS st' = VALIDATORS st.
Proof.
  unfold execute_unbond. intros H. inv_ok H. subst.
  match goal with Hs : slashing _ _ _ _ _ = Ok _ |- _ =>
    apply slashing_bond in Hs as (_ & _ & _ & _ & _ & _ & _ & Hv & _) end.
  match goal with Hst : store_unbond_wait_list _ _ _ _ = Ok _ |- _ =>
    unfold store_unbond_wait_list in Hst; inv_ok Hst; subst end.
  match goal with Hb : (if _ then _ else _) = Ok _ |- _ => inv_ok Hb; subst; simplify_eq end;
    simpl; exact Hv.
Qed.

Lemma process_withdraw_rate_validators st t b st' :
  process_withdraw_rate st t b = Ok st' → VALIDATORS st' = VALIDATORS st.
Proof.
  intros H. assert (∃ s, STATE st = Some s) as [s HS].
  { unfold process_withdraw_rate in H. inv_ok H. apply load_Ok in Ha. eauto. }
  by destruct (process_withdraw_rate_spec _ _ _ _ _ H HS) as (?&?&?&?&?&?&?&?&?&?&?&?).
Qed.

(** A message shrinks the whitelist or adds one validator to fewer than twenty. *)
Lemma execute_validators fb st q env info msg st' resp :
  execute fb st q env info msg = Ok (st', resp) →
  VALIDATORS st' ⊆ VALIDATORS st ∨
  ∃ v, VALIDATORS st' = <[v := true]> (VALIDATORS st) ∧
       N.of_nat (size (VALIDATORS st)) < MAX_VALIDATORS.
Proof.
  assert (∀ st1 : Storage, VALIDATORS st1 = VALIDATORS st → VALIDATORS st1 ⊆ VALIDATORS st) as Heq
    by (by intros st1 ->).
  intros H. destruct msg as [|v| | | | | | | | | | | | |]; simpl in H.
  2: { unfold execute_register_validator in H. inv_ok H. subst. right. exists v. split; [done|].
       ok_facts. unfold read_validators in *. by rewrite length_fmap, length_range_addr in *. }
  all: left.
  - unfold execute_update_config in H. inv_ok H. by subst.
  - unfold execute_deregister_validator in H. inv_ok H. subst. apply delete_subseteq.
  - unfold execute_update_params in H. inv_ok H. by subst.
  - unfold execute_redelegate in H. inv_ok H. by subst.
  - unfold execute_bond in H. inv_ok H. subst. apply Heq. by eapply do_execute_bond_validators.
  - unfold execute_bond_split in H. inv_ok H. subst. apply Heq. by eapply do_execute_bond_validators.
  - unfold execute_update_global in H. inv_ok H. by subst.
  - unfold execute_withdraw_unbonded in H. inv_ok H. subst. apply Heq.
    match goal with Hp : process_withdraw_rate _ _ _ = Ok _ |- _ =>
      exact (process_withdraw_rate_validators _ _ _ _ Hp) end.
  - unfold execute_slashing in H. inv_ok H. subst. apply Heq.
    match goal with Hs : slashing _ _ _ _ _ = Ok _ |- _ =>
      by apply slashing_bond in Hs as (_ & _ & _ & _ & _ & _ & _ & Hv & _) end.
  - unfold receive_cw20 in H. inv_ok H. apply Heq. by eapply execute_unbond_validators.
  - unfold split in H. inv_ok H. by subst.
  - unfold merge in H. inv_ok H. by subst.
  - unfold deposit_airdrop_rewards in H. inv_ok H. by subst.
  - unfold claim_airdrop in H. inv_ok H. by subst.
Qed.

Lemma unbond_fee_bound params s supply requested amount a :
  unbond_amount_with_fee params s supply requested amount = Ok a →
  a ≤ amount ∧ amount - a ≤ amount * p_peg_recovery_fee params / DECIMAL_UNIT.
Proof.
  intros (Hle & Hno & Hfee)%unbond_amount_with_fee_spec. split; [done|].
  destruct (N.lt_ge_cases (exchange_rate s) (p_er_threshold params)) as [Hlt|Hge].
  - by apply Hfee.
  - rewrite Hno by done. lia_div.
Qed.
End proofs.
