(* ===== verification/VaultSpec.v ===== *)
(** * What the vault promises *)
From S2P Require Import Prelude Cosmwasm Protocol Wire WireProofs Arith Vault VaultProofs.
Import VaultMsg Vault.

Module VaultSpec.

Section runs.
Context {P : Cosmwasm}.
Variable from_binary : Binary → outcome StdError Cw20HookMsg.

(** The states of the vault: after instantiation, and after a successful
    message or reply; the answers of the chain are arbitrary. *)
Inductive reachable : Storage → Prop :=
  | reach_init env info msg st resp :
      instantiate env info msg = Ok (st, resp) → reachable st
  | reach_step st q env info msg st' resp :
      reachable st → execute from_binary st q env info msg = Ok (st', resp) → reachable st'
  | reach_reply st env msg st' resp :
      reachable st → reply st env msg = Ok (st', resp) → reachable st'.
End runs.

Section properties.
Context {P : Cosmwasm} {L : CosmwasmLaws P}.
Variable fb : Binary → outcome StdError Cw20HookMsg.

Lemma reply_frame st env msg st' resp :
  reply st env msg = Ok (st', resp) → ∃ c, st' = set_config c st.
Proof.
  unfold reply, set_token_address. intros H. inv_ok H. subst. eauto.
Qed.

Lemma vault_reachable_inv st : reachable fb st → Inv st.
Proof.
  induction 1 as [env info msg st resp H|st q env info msg st' resp _ IH H|st env msg st' resp _ IH H].
  - by eapply instantiate_books.
  - by eapply execute_inv.
  - apply reply_frame in H as [c ->]. apply (inv_frame st); eauto.
Qed.

(** C12: The vault's books of unbonding. In every reachable state the batches are
    numbered without gaps, the users' requests for the current batch and for
    every batch not yet released add up to exactly the recorded amount, those
    of a released batch to no more than it, and the released batches are
    exactly those up to the last processed one. *)
Theorem vault_books st : reachable fb st → Inv st.
Proof. apply vault_reachable_inv. Qed.

(** Slashing is recorded and nothing else. With delegations in place the
    bonded total becomes the smaller of what is stored and what is actually
    delegated in the vault's denomination; the exchange rate is recomputed,
    as bonded over issued and requested, exactly when it was lowered. *)
Theorem vault_slashing st q env s params st' s' ds :
  slashing st q env s params = Ok (st', s') →
  query_all_delegations q (contract_address env) = Ok ds → ds ≠ [] →
  let actual := delegated (p_underlying_coin_denom params) ds in
  total_bond_amount s' = N.min (total_bond_amount s) actual ∧
  (total_bond_amount s ≤ actual → s' = s ∧ st' = st) ∧
  (actual < total_bond_amount s → STATE st' = Some s' ∧
    ∃ batch issued, CURRENT_BATCH st = Some batch ∧ query_total_issued st q = Ok issued ∧
    let supply := issued + requested_with_fee batch in
    exchange_rate s' =
      if (actual =? 0) || (supply =? 0) then DECIMAL_UNIT else actual * DECIMAL_UNIT / supply).
Proof.
  intros H Hds Hne actual. pose proof H as Hs. unfold slashing in H. rewrite Hds in H. simpl in H.
  destruct ds as [|d ds]; [done|]. inv_ok H; subst; apply total_delegated_Some in Ha as ->;
    fold actual in E; ok_facts.
  - match goal with Hu : update_exchange_rate _ _ _ = Some _ |- _ =>
      apply update_exchange_rate_spec in Hu end. subst. simpl.
    fold actual. apply load_Ok in Ha1.
    split_and!; [lia|lia|]. intros _. split; [done|]. by eexists _, _.
  - split_and!; [lia|done|lia].
Qed.

(** C37: Undelegation covers the claim exactly. If the delegations suffice, the
    loop over randomly drawn validators ends with messages whose amounts add up
    to the claim, each taken from a different delegation and within it; if they
    do not suffice, the call panics and the transaction fails. *)
Theorem vault_undelegation_exact q denom claim delegator height ds :
  query_all_delegations q delegator = Ok ds →
  height + N.of_nat (length ds) + 1 < u64_limit →
  if claim <=? stake ds
  then ∃ l, pick_unbond_validator q denom claim delegator height = Ok (undelegations denom l) ∧
       sum_N l.*2 = claim ∧ taken l ds
  else pick_unbond_validator q denom claim delegator height = Panic.
Proof.
  intros Hds Hh. unfold pick_unbond_validator. rewrite Hds. cbn [unwrap obind].
  apply (pick_unbond_loop_spec _ _ _ _ _ _ []); lia.
Qed.

(** C28: A withdrawal pays what is owed, once. After the due batches have been
    released, the user gets one bank transfer of the sum of the requests in
    released batches, among the first thirty, each at its batch's rate and
    rounded down; exactly these requests are deleted, all others stay, and the
    recorded vault balance is what remains. *)
Theorem vault_withdraw_pays st q env info st' resp :
  execute_withdraw_unbonded st q env info = Ok (st', resp) →
  ∃ params balance st1,
    PARAMETERS st = Some params ∧
    query_balance q (contract_address env) (p_underlying_coin_denom params) = Ok balance ∧
    process_withdraw_rate st (now env - p_unbonding_period params) balance = Ok st1 ∧
  let user := info_sender info in
  let paid := List.filter (λ kv, batch_released st1 kv.1) (requests_of st1 user None) in
  let amount := sum_N (payable st1 h_released <$> requests_of st1 user None) in
  0 < amount ≤ balance ∧
  messages resp = [sub_new (BankSend user [mkCoin (p_underlying_coin_denom params) amount])] ∧
  (∀ u b, UNBOND_WAITLIST st' !! (u, b) =
     if decide (u = user ∧ b ∈ paid.*1) then None else UNBOND_WAITLIST st1 !! (u, b)) ∧
  prev_vault_balance <$> STATE st' = Some (balance - amount).
Proof.
  unfold execute_withdraw_unbonded. intros H. inv_ok H. subst. apply load_Ok in Ha.
  ok_facts. unfold get_finished_amount in *. inv_ok Ha3. subst. apply finished_fold in Ha7.
  rewrite N.add_0_l in Ha7. subst. platform_facts.
  eexists _, _, _. split_and!; [done|done|done|lia|done|done|..].
  - intros u b. simpl.
    match goal with Hp : process_withdraw_rate _ _ _ = Ok ?x |- _ => rename x into st1 end.
    etrans; [exact (lookup_remove_requests st1 _ _ (u, b))|]. simpl.
    match goal with Hb : get_unbond_batches _ _ _ = Ok _ |- _ => apply Ok_inj in Hb as <- end.
    by rewrite filter_keys.
  - done.
Qed.

(** The release loops terminate. Each iteration moves to another stored
    batch, so the number of stored batches bounds the iterations of both loops:
    any larger bound gives the same result, whatever the batches hold. *)
Theorem vault_release_terminates st s t first total slashed k :
  let n := size (UNBOND_HISTORY st) in
  sum_due_batches (n + k) st t first 0 0 = sum_due_batches n st t first 0 0 ∧
  release_batches (n + k) st s t first total slashed = release_batches n st s t first total slashed.
Proof.
  split; [apply sum_due_batches_fuel|apply release_batches_fuel]; apply batches_from_le.
Qed.



(** A batch that unbonds to nothing cannot be released. *)
Lemma dust_blocks_release st t balance s h :
  STATE st = Some s →
  batch_due st t (last_processed_batch s + 1) = Some h → unbonded h = 0 →
  let total := sum_N (unbonded <$> due_batches (size (UNBOND_HISTORY st)) st t (last_processed_batch s + 1)) in
  let actual := actual_unbonded_amount s +
    (if prev_vault_balance s <=? balance then balance - prev_vault_balance s
     else prev_vault_balance s - balance) in
  total = 0 ∨ total < actual →
  is_ok (process_withdraw_rate st t balance) = false.
Proof.
  intros HS Hdue Hdust total actual Hcase.
  destruct (process_withdraw_rate st t balance) as [st'| |] eqn:H; [exfalso|done|done].
  destruct (process_withdraw_rate_spec _ _ _ _ _ H HS) as (rs & slashed & Hsl & Hrs & _).
  fold total actual in Hsl, Hrs.
  destruct (size (UNBOND_HISTORY st)) as [|n] eqn:Hn; simpl in Hrs.
  { apply map_size_empty_inv in Hn. apply batch_due_Some in Hdue as [Hd _].
    by rewrite Hn, lookup_empty in Hd. }
  rewrite Hdue in Hrs. inversion Hrs as [|? r ? ? Hr _]; subst.
  unfold new_withdraw_rate in Hr. inv_ok Hr. platform_facts. fold (unbonded h) in *.
  rewrite Hdust in *. rewrite from_subtraction_spec in Hsl. injection Hsl as <-.
  destruct Hcase as [Hz|Hlt]; [done|].
  rewrite (proj2 (N.leb_gt _ _) Hlt) in *. simpl in *.
  match goal with Hc : qbind _ _ = Ok _ |- _ => inv_ok Hc end. platform_facts.
  match goal with Hc : 1 ≤ _ / DECIMAL_UNIT |- _ => revert Hc end.
  rewrite N.mul_0_l, N.Div0.div_0_l, N.mul_0_r, N.Div0.div_0_l. lia.
Qed.


(** C40: A dust batch blocks withdrawals. If the first due batch unbonds to
    nothing, because its few micro units round down at its rate, then releasing
    fails, both when the due batches together come to nothing (division by zero)
    and when more came in than they account for (the share of the batch, zero,
    less one); and with it every withdrawal, whoever asks and whatever is
    released already. *)
Theorem vault_dust_batch_blocks st params q env info balance s h :
  PARAMETERS st = Some params → STATE st = Some s →
  query_balance q (contract_address env) (p_underlying_coin_denom params) = Ok balance →
  let t := now env - p_unbonding_period params in
  batch_due st t (last_processed_batch s + 1) = Some h → unbonded h = 0 →
  let total := sum_N (unbonded <$> due_batches (size (UNBOND_HISTORY st)) st t (last_processed_batch s + 1)) in
  let actual := actual_unbonded_amount s +
    (if prev_vault_balance s <=? balance then balance - prev_vault_balance s
     else prev_vault_balance s - balance) in
  total = 0 ∨ total < actual →
  is_ok (process_withdraw_rate st t balance) = false ∧
  is_ok (execute fb st q env info WithdrawUnbonded) = false.
Proof.
  intros Hp HS Hq t Hdue Hdust total actual Hcase.
  assert (is_ok (process_withdraw_rate st t balance) = false) as Hrel by by eapply dust_blocks_release.
  split; [exact Hrel|]. simpl. unfold execute_withdraw_unbonded, load_parameters, load. rewrite Hp. simpl.
  unfold u64_sub. destruct (p_unbonding_period params <=? now env); [|reflexivity]. simpl. fold t. rewrite Hq. simpl.
  by destruct (process_withdraw_rate st t balance).
Qed.

(** What bonding mints. After accounting for slashing, the whole payment is
    delegated to a supported validator and added to the bonded total, and
    c-asset is minted to the sender for the payment divided by the exchange
    rate. At or above the threshold there is no fee; below it the fee is at most
    the peg recovery fee, and it never lifts the bonded total above the supply
    with the pending requests. *)
Theorem vault_bond_mints st q env info v st' minted msgs payment :
  do_execute_bond st q env info v = Ok (st', minted, msgs, payment) →
  ∃ params batch s st1 s1 supply config validator mint_amount,
    PARAMETERS st = Some params ∧ CURRENT_BATCH st = Some batch ∧ STATE st = Some s ∧
    slashing st q env s params = Ok (st1, s1) ∧
    unwrap_or (query_total_issued st1 q) 0 = Some supply ∧ CONFIG st1 = Some config ∧
    select_validator st q env v = Ok validator ∧
    info_funds info = [mkCoin (p_underlying_coin_denom params) payment] ∧
    decimal_division payment (exchange_rate s1) = Some mint_amount ∧
    msgs = [sub_new (StakingDelegate validator (mkCoin (p_underlying_coin_denom params) payment));
            sub_new (wasm_cw20 (cluna_contract config) (Cw20.Mint (info_sender info) minted))] ∧
    total_bond_amount <$> STATE st' = Some (total_bond_amount s1 + payment) ∧
    minted ≤ mint_amount ∧
    (p_er_threshold params ≤ exchange_rate s1 → minted = mint_amount) ∧
    (exchange_rate s1 < p_er_threshold params →
       mint_amount - minted ≤ mint_amount * p_peg_recovery_fee params / DECIMAL_UNIT ∧
       total_bond_amount s1 + payment ≤ supply + minted + requested_with_fee batch).
Proof.
  unfold do_execute_bond. intros H. inv_ok H. subst.
  match goal with Hb : bond_mint_amounts _ _ _ _ _ = Ok _ |- _ =>
    apply bond_mint_amounts_spec in Hb as (Hd & Hle & Hno & Hfee) end.
  match goal with Hp : must_pay _ _ = Ok _ |- _ => apply must_pay_law in Hp as [Hpay _] end.
  match goal with Hu : update_exchange_rate _ _ _ = Some _ |- _ =>
    apply update_exchange_rate_spec in Hu end.
  match goal with Hl : load_initialized _ = Ok _ |- _ => apply load_initialized_Ok in Hl as [Hl _] end.
  platform_facts. subst.
  repeat match goal with
  | Hl : load_parameters _ = Ok _ |- _ => apply load_Ok in Hl
  | Hl : load_batch _ = Ok _ |- _ => apply load_Ok in Hl
  | Hl : load_state _ = Ok _ |- _ => apply load_Ok in Hl
  end.
  eexists _, _, _, _, _, _, _, _, _. by split_and!.
Qed.

(** Bonding straight into p- and y-asset is bonding followed by a split. It
    leaves the vault in the same state as [Bond] and delegates the same payment;
    instead of minting c-asset to the sender it mints the same amount of c-asset
    to the vault, where it is locked, and of y-asset and p-asset to the sender. *)
Theorem vault_bond_split_refines_bond st q env info v st' resp config :
  load_initialized st = Ok config →
  execute_bond st q env info v = Ok (st', resp) →
  ∃ delegate token minted,
    messages resp = [delegate; sub_new (wasm_cw20 token (Cw20.Mint (info_sender info) minted))] ∧
    ∃ resp', execute_bond_split st q env info v = Ok (st', resp') ∧
    messages resp' =
      [delegate;
       sub_new (wasm_cw20 (cluna_contract config) (Cw20.Mint (contract_address env) minted));
       sub_new (wasm_cw20 (yluna_contract config) (Cw20.Mint (info_sender info) minted));
       sub_new (wasm_cw20 (pluna_contract config) (Cw20.Mint (info_sender info) minted))].
Proof.
  intros Hc H. unfold execute_bond_split. rewrite Hc. cbn [qbind].
  unfold execute_bond in H.
  destruct (do_execute_bond st q env info v) as [[[[st1 minted] msgs] payment]| |] eqn:Hb; simpl in H;
    try discriminate. injection H as <- <-.
  destruct (vault_bond_msgs _ _ _ _ _ _ _ _ _ Hb) as (d & token & ->).
  eexists _, _, _. split; [done|]. cbn [qbind]. eexists. split; done.
Qed.

(** What unbonding does. All of the sent c-asset is burned. The amount less
    a fee is entered for the sender in the current batch; the fee is zero at or
    above the threshold and at most the peg recovery fee below it. Within the
    epoch that is all; once the epoch has passed, the batch is closed with the
    requests it holds and exactly its value at the exchange rate is undelegated
    and taken off the bonded total, and a new batch is opened. *)
Theorem vault_unbond st q env amount sender st' resp :
  Inv st → execute_unbond st q env amount sender = Ok (st', resp) →
  ∃ batch params config credited batch' undelegated,
    CURRENT_BATCH st = Some batch ∧ PARAMETERS st = Some params ∧ CONFIG st' = Some config ∧
    CURRENT_BATCH st' = Some batch' ∧ credited ≤ amount ∧
    amount - credited ≤ amount * p_peg_recovery_fee params / DECIMAL_UNIT ∧
    UNBOND_WAITLIST st' !! (sender, batch_id batch) =
      Some (default 0 (UNBOND_WAITLIST st !! (sender, batch_id batch)) + credited) ∧
    messages resp = undelegations (p_underlying_coin_denom params) undelegated ++
      [sub_new (wasm_cw20 (cluna_contract config) (Cw20.Burn amount))] ∧
    let requested := requested_with_fee batch + credited in
    (batch' = mkCurrentBatch (batch_id batch) requested ∧ undelegated = [] ∨
     batch' = mkCurrentBatch (batch_id batch + 1) 0 ∧
     ∃ h, UNBOND_HISTORY st' !! batch_id batch = Some h ∧ h_released h = false ∧
       h_amount h = requested ∧ h_time h = now env ∧
       sum_N undelegated.*2 = unbonded h ∧ sum_N undelegated.*2 ≠ 1).
Proof.
  intros (cb & s & Hcb & HS & HB) H. unfold execute_unbond in H. inv_ok H. subst.
  repeat match goal with Hl : load_state _ = Ok _ |- _ => apply load_Ok in Hl
    | Hl : load_batch _ = Ok _ |- _ => apply load_Ok in Hl
    | Hl : load_parameters _ = Ok _ |- _ => apply load_Ok in Hl end. simplify_eq.
  match goal with Hs : slashing _ _ _ _ _ = Ok _ |- _ =>
    destruct (slashing_inv _ _ _ _ _ _ _ HS Hs) as (_ & _ & Hbooks & _);
    apply slashing_bond in Hs as (_ & _ & _ & _ & _ & Hwait & _) end.
  specialize (Hbooks cb s eq_refl HB).
  match goal with Hst : store_unbond_wait_list _ _ _ _ = Ok ?x, Ha : uint_add (requested_with_fee _) _ = _ |- _ =>
    destruct (books_request _ _ _ _ _ _ _ Hbooks Hst Ha) as (_ & _ & _ & _ & _ & _ & _ & Hnew) end.
  match goal with Hf : unbond_amount_with_fee _ _ _ _ _ = Ok _ |- _ =>
    apply unbond_fee_bound in Hf as [Hle Hfee] end.
  match goal with Hl : load_initialized _ = Ok _ |- _ => apply load_initialized_Ok in Hl as [Hl _] end.
  match goal with Hv : addr_validate _ = Ok _ |- _ => apply addr_validate_law in Hv; subst end.
  rewrite Hwait in Hnew. platform_facts.
  match goal with Hb : (if _ then _ else _) = Ok _ |- _ => rename Hb into Hbranch end.
  inv_ok Hbranch; subst; simplify_eq.
  - match goal with Hp : pick_unbond_validator _ _ _ _ _ = Ok _ |- _ =>
      apply pick_unbond_validator_Ok in Hp as (ds & ul & _ & -> & Hsum & _) end.
    platform_facts.
    eexists _, _, _, _, _, ul. split_and!; try done.
    right. split; [done|]. eexists. split; [by simpl; rewrite lookup_insert_eq|].
    split_and!; try done. by rewrite Hsum.
  - eexists _, _, _, _, _, []. split_and!; try done; by left.
Qed.

(** Dividing by an exchange rate. [decimal_division a b] uses the first nine
    decimal digits of [b]: it panics if they are all zero (not only when [b]
    is zero), and otherwise gives [a] over the truncated rate, rounded down,
    which is never below the exact quotient rounded down. *)
Theorem vault_decimal_division a b :
  let d := b / 10 ^ 9 in
  (d = 0 → decimal_division a b = None) ∧
  ∀ c, decimal_division a b = Some c →
    d ≠ 0 ∧ c * d ≤ a * 10 ^ 9 < (c + 1) * d ∧ a * DECIMAL_UNIT / b ≤ c.
Proof.
  intros d. split.
  - intros Hd. unfold decimal_division. destruct (uint_mul_dec _ _) as [x|] eqn:Hx; [|done].
    platform_facts. simpl. rewrite dec_from_ratio_law.
    assert (DECIMAL_FRACTIONAL * b / DECIMAL_UNIT = d) as ->.
    { change DECIMAL_UNIT with (DECIMAL_FRACTIONAL * 10 ^ 9).
      by rewrite N.Div0.div_mul_cancel_l. }
    by rewrite Hd.
  - intros c [Hd ->]%decimal_division_Some. fold d in Hd |- *. split; [done|].
    assert (a * DECIMAL_UNIT / d / 10 ^ 9 = a * 10 ^ 9 / d) as ->.
    { rewrite N.Div0.div_div, (N.mul_comm d), <-N.Div0.div_div.
      change DECIMAL_UNIT with (10 ^ 9 * 10 ^ 9). by rewrite N.mul_assoc, N.div_mul. }
    pose proof (N.Div0.mul_div_le (a * 10 ^ 9) d). pose proof (N.mul_succ_div_gt (a * 10 ^ 9) d Hd).
    split; [lia_div|].
    assert (b ≠ 0) as Hb by (intros ->; by apply Hd).
    assert (10 ^ 9 * d ≤ b) as Hdb by apply N.Div0.mul_div_le.
    change DECIMAL_UNIT with (10 ^ 9 * 10 ^ 9).
    etrans; [apply (N.div_le_compat_l _ (10 ^ 9 * d) b); lia|].
    rewrite N.mul_assoc, (N.mul_comm (10 ^ 9) d). by rewrite N.Div0.div_mul_cancel_r.
Qed.

(** Signed subtraction is total and exact: for any two amounts it returns,
    without panicking, the magnitude and sign of their difference. *)
Theorem vault_from_subtraction a b :
  ∃ s, from_subtraction a b = Some s ∧ signed_value s = (Z.of_N a - Z.of_N b)%Z ∧
  (si_neg s = true ↔ a < b).
Proof.
  rewrite from_subtraction_spec. eexists. split; [done|].
  destruct (N.leb_spec b a); unfold signed_value; simpl; split; try lia; split; done || lia.
Qed.

(** The validator whitelist stays small. In every reachable state at most
    [MAX_VALIDATORS] validators are whitelisted, so that the loops over them
    are bounded. *)
Theorem vault_validators_bounded st :
  reachable fb st → N.of_nat (size (VALIDATORS st)) ≤ MAX_VALIDATORS.
Proof.
  induction 1 as [env info msg st resp H|st q env info msg st' resp _ IH H|st env msg st' resp _ IH H].
  - unfold instantiate in H. inv_ok H. subst. done.
  - apply execute_validators in H as [Hsub|[v [-> Hlt]]].
    + apply map_subseteq_size in Hsub. lia.
    + rewrite map_size_insert. destruct (VALIDATORS st !! v); unfold id; lia.
  - apply reply_frame in H as [c ->]. done.
Qed.
End properties.

(** ** A run on the reference platform

    The vault is created with 1 000 000 micro units, learns its three token
    addresses, is configured, and then alice unbonds 500 after the epoch has
    passed and withdraws after the unbonding period. *)
Section example.
Import Reference.

Definition at_second (t : N) : Env := mkEnv 10 (t * 10 ^ 9) "vault".
Definition parse_unbond (b : Binary) : outcome StdError Cw20HookMsg :=
  match b with RawBinary _ => Ok Unbond | _ => Err ParseErr end.

(** A chain with one validator, that answers with the given amounts. *)
Definition chain (staked supply balance : N) : Querier :=
  mkQuerier
    (λ _, Ok [mkDelegation "val1" (mkCoin "uluna" staked)])
    (λ _ v, Ok (if bool_decide (v = "val1"%string)
                then Some (mkFullDelegation (mkCoin "uluna" staked) (mkCoin "uluna" staked)) else None))
    (λ v, Ok (Some v)) (Ok ["val1"%string])
    (λ _ _, Ok balance) (λ _ _, Ok 0) (λ _, Ok supply).

Definition empty_storage : Storage := mkStorage None None None None ∅ ∅ ∅.
Definition new_state (r : outcome StdError (Storage * Response)) : Storage :=
  match r with Ok (st, _) => st | _ => empty_storage end.
Definition response_of (r : outcome StdError (Storage * Response)) : Response :=
  match r with Ok (_, resp) => resp | _ => respond [] [] end.
Lemma vault_run_Ok (r : outcome StdError (Storage * Response)) :
  is_ok r = true → r = Ok (new_state r, response_of r).
Proof. by destruct r as [[st resp]| |]. Qed.

Definition init_msg : VaultMsg.InstantiateMsg :=
  VaultMsg.mkInstantiateMsg 100 "uluna" 1000 (5 * 10 ^ 15) (10 ^ 18) "val1" "admin" 7 "manager".
Definition token_reply (id : N) (address : string) : Reply bytes :=
  mkReply id (inr (Some (encode_field 1 (string_bytes address)))).

Definition run_init := instantiate (at_second 50) (mkInfo "owner" [mkCoin "uluna" 1000000]) init_msg.
Definition run_register :=
  execute parse_unbond (new_state run_init) (chain 0 0 0) (at_second 50) (mkInfo "vault" [])
    (RegisterValidator "val1").
Definition run_reply0 := reply (new_state run_register) (at_second 50) (token_reply 0 "cluna").
Definition run_reply1 := reply (new_state run_reply0) (at_second 50) (token_reply 1 "pluna").
Definition run_reply2 := reply (new_state run_reply1) (at_second 50) (token_reply 2 "yluna").
Definition run_config :=
  execute parse_unbond (new_state run_reply2) (chain 0 0 0) (at_second 60) (mkInfo "owner" [])
    (UpdateConfig None (Some "ystaking"%string) (Some "airdrops"%string) None).
Definition unbond_msg : ExecuteMsg Binary := Receive (mkCw20Receive "alice" 500 (RawBinary "{unbond:{}}")).
Definition run_unbond :=
  execute parse_unbond (new_state run_config) (chain 1000000 1000000 0) (at_second 200)
    (mkInfo "cluna" []) unbond_msg.
Definition run_withdraw :=
  execute parse_unbond (new_state run_unbond) (chain 999500 999500 500) (at_second 1300)
    (mkInfo "alice" []) WithdrawUnbonded.

Definition config_state : Storage := new_state run_config.
Definition unbond_state : Storage := new_state run_unbond.

Ltac by_run := apply vault_run_Ok; vm_compute; reflexivity.
Lemma vrun_init_Ok : run_init = Ok (new_state run_init, response_of run_init).
Proof. by_run. Qed.
Lemma vrun_register_Ok : run_register = Ok (new_state run_register, response_of run_register).
Proof. by_run. Qed.
Lemma vrun_reply0_Ok : run_reply0 = Ok (new_state run_reply0, response_of run_reply0).
Proof. by_run. Qed.
Lemma vrun_reply1_Ok : run_reply1 = Ok (new_state run_reply1, response_of run_reply1).
Proof. by_run. Qed.
Lemma vrun_reply2_Ok : run_reply2 = Ok (new_state run_reply2, response_of run_reply2).
Proof. by_run. Qed.
Lemma vrun_config_Ok : run_config = Ok (new_state run_config, response_of run_config).
Proof. by_run. Qed.
Lemma vrun_unbond_Ok : run_unbond = Ok (new_state run_unbond, response_of run_unbond).
Proof. by_run. Qed.
Lemma vrun_withdraw_Ok : run_withdraw = Ok (new_state run_withdraw, response_of run_withdraw).
Proof. by_run. Qed.

Lemma vregister_reachable : reachable parse_unbond (new_state run_register).
Proof.
  exact (reach_step parse_unbond (new_state run_init) (chain 0 0 0) (at_second 50) (mkInfo "vault" [])
    (RegisterValidator "val1") _ _
    (reach_init parse_unbond (at_second 50) (mkInfo "owner" [mkCoin "uluna" 1000000]) init_msg _ _
       vrun_init_Ok) vrun_register_Ok).
Qed.
Lemma vreply0_reachable : reachable parse_unbond (new_state run_reply0).
Proof. exact (reach_reply parse_unbond _ (at_second 50) (token_reply 0 "cluna") _ _ vregister_reachable vrun_reply0_Ok). Qed.
Lemma vreply1_reachable : reachable parse_unbond (new_state run_reply1).
Proof. exact (reach_reply parse_unbond _ (at_second 50) (token_reply 1 "pluna") _ _ vreply0_reachable vrun_reply1_Ok). Qed.
Lemma vreply2_reachable : reachable parse_unbond (new_state run_reply2).
Proof. exact (reach_reply parse_unbond _ (at_second 50) (token_reply 2 "yluna") _ _ vreply1_reachable vrun_reply2_Ok). Qed.
Lemma vconfig_reachable : reachable parse_unbond config_state.
Proof.
  exact (reach_step parse_unbond (new_state run_reply2) (chain 0 0 0) (at_second 60) (mkInfo "owner" [])
    (UpdateConfig None (Some "ystaking"%string) (Some "airdrops"%string) None) _ _
    vreply2_reachable vrun_config_Ok).
Qed.
Lemma vunbond_reachable : reachable parse_unbond unbond_state.
Proof.
  exact (reach_step parse_unbond (new_state run_config) (chain 1000000 1000000 0) (at_second 200)
    (mkInfo "cluna" []) unbond_msg _ _ vconfig_reachable vrun_unbond_Ok).
Qed.
Lemma vconfig_inv : Inv config_state.
Proof. exact (vault_reachable_inv parse_unbond _ vconfig_reachable). Qed.

Lemma vault_books_witness :
  Inv unbond_state ∧ UNBOND_WAITLIST unbond_state !! ("alice"%string, 1) = Some 500.
Proof.
  split; [|vm_compute; reflexivity]. exact (vault_books parse_unbond _ vunbond_reachable).
Defined.

Definition sample_params : Parameters := mkParameters 100 "uluna" 1000 (5 * 10 ^ 15) (10 ^ 18).
Definition sample_state : State := mkState (10 ^ 18) 1000000 50 0 0 50 0.
Definition run_slash := slashing config_state (chain 900000 1000000 0) (at_second 70) sample_state sample_params.
Definition slashed_state : State := match run_slash with Ok (_, s) => s | _ => sample_state end.
Definition slashed_storage : Storage := match run_slash with Ok (st, _) => st | _ => config_state end.
Lemma vrun_slash_Ok : run_slash = Ok (slashed_storage, slashed_state).
Proof. vm_compute. reflexivity. Qed.

Lemma vault_slashing_witness :
  exchange_rate slashed_state = 9 * 10 ^ 17 ∧ total_bond_amount slashed_state = 900000.
Proof.
  split; [vm_compute; reflexivity|].
  destruct (vault_slashing (P:=platform) config_state (chain 900000 1000000 0) (at_second 70)
    sample_state sample_params slashed_storage slashed_state
    [mkDelegation "val1" (mkCoin "uluna" 900000)] vrun_slash_Ok eq_refl) as [Hb _]; [done|].
  rewrite Hb. vm_compute. reflexivity.
Defined.

Definition three_validators : Querier :=
  mkQuerier (λ _, Ok [mkDelegation "v1" (mkCoin "uluna" 30); mkDelegation "v2" (mkCoin "uluna" 50);
                      mkDelegation "v3" (mkCoin "uluna" 40)])
    (λ _ _, Ok None) (λ _, Ok None) (Ok []) (λ _ _, Ok 0) (λ _ _, Ok 0) (λ _, Ok 0).

Lemma vault_undelegation_exact_witness :
  ∃ l, pick_unbond_validator three_validators "uluna" 100 "vault" 7 = Ok (undelegations "uluna" l) ∧
       sum_N l.*2 = 100.
Proof.
  destruct (vault_undelegation_exact (P:=platform) three_validators "uluna" 100 "vault" 7
    [mkDelegation "v1" (mkCoin "uluna" 30); mkDelegation "v2" (mkCoin "uluna" 50);
     mkDelegation "v3" (mkCoin "uluna" 40)] eq_refl) as (l & Hl & Hs & _); [vm_compute; reflexivity|].
  exists l. split; [exact Hl|exact Hs].
Defined.

Lemma vault_withdraw_pays_witness :
  messages (response_of run_withdraw) = [sub_new (BankSend "alice" [mkCoin "uluna" 500])] ∧
  ∃ balance, 500 ≤ balance.
Proof.
  assert (messages (response_of run_withdraw) = [sub_new (BankSend "alice" [mkCoin "uluna" 500])])
    as Hpaid by (vm_compute; reflexivity).
  split; [exact Hpaid|].
  destruct (vault_withdraw_pays (P:=platform) unbond_state (chain 999500 999500 500) (at_second 1300)
    (mkInfo "alice" []) (new_state run_withdraw) (response_of run_withdraw) vrun_withdraw_Ok)
    as (params & balance & st1 & _ & _ & _ & Hb & Hm & _).
  exists balance. pose proof (eq_trans (eq_sym Hpaid) Hm) as Heq.
  injection Heq as _ Hamount. rewrite Hamount. exact (proj2 Hb).
Defined.

Definition due_state : State := mkState (10 ^ 18) 999500 50 0 0 200 0.




(** A tenth of the stake is slashed; Alice unbonds one micro unit and closes the
    batch, which undelegates nothing and is not refused; when it is due, its
    release divides by zero. *)
Definition run_slashed :=
  execute parse_unbond config_state (chain 900000 1000000 0) (at_second 70) (mkInfo "bob" []) CheckSlashing.
Definition dust_msg : ExecuteMsg Binary := Receive (mkCw20Receive "alice" 1 (RawBinary "{unbond:{}}")).
Definition run_dust :=
  execute parse_unbond (new_state run_slashed) (chain 900000 1000000 0) (at_second 200) (mkInfo "cluna" []) dust_msg.
Lemma vrun_slashed_Ok : run_slashed = Ok (new_state run_slashed, response_of run_slashed).
Proof. by_run. Qed.
Lemma vrun_dust_Ok : run_dust = Ok (new_state run_dust, response_of run_dust).
Proof. by_run. Qed.
Definition dust_state : Storage := new_state run_dust.
Lemma vdust_reachable : reachable parse_unbond dust_state.
Proof.
  exact (reach_step parse_unbond (new_state run_slashed) (chain 900000 1000000 0) (at_second 200)
    (mkInfo "cluna" []) dust_msg _ _
    (reach_step parse_unbond config_state (chain 900000 1000000 0) (at_second 70) (mkInfo "bob" []) CheckSlashing
       _ _ vconfig_reachable vrun_slashed_Ok) vrun_dust_Ok).
Qed.

Lemma vault_dust_batch_blocks_witness :
  reachable parse_unbond dust_state ∧
  is_ok (execute parse_unbond dust_state (chain 900000 1000000 10) (at_second 1300) (mkInfo "bob" []) WithdrawUnbonded) =
    false.
Proof.
  split; [exact vdust_reachable|].
  apply (vault_dust_batch_blocks (P:=platform) parse_unbond dust_state sample_params (chain 900000 1000000 10)
    (at_second 1300) (mkInfo "bob" []) 10 (mkState (9 * 10 ^ 17) 900000 50 0 0 200 0)
    (mkUnbondHistory 1 200 1 (9 * 10 ^ 17) (9 * 10 ^ 17) false)); [vm_compute; reflexivity..|].
  left. vm_compute. reflexivity.
Defined.

Definition run_bond :=
  do_execute_bond config_state (chain 900000 1000000 0) (at_second 70)
    (mkInfo "bob" [mkCoin "uluna" 9000]) None.
Definition bond_storage : Storage := match run_bond with Ok (st, _, _, _) => st | _ => empty_storage end.
Definition bond_msgs : list SubMsg := match run_bond with Ok (_, _, l, _) => l | _ => [] end.
Lemma vrun_bond_Ok : run_bond = Ok (bond_storage, 9950, bond_msgs, 9000).
Proof. vm_compute. reflexivity. Qed.

Lemma vault_bond_mints_witness :
  total_bond_amount <$> STATE bond_storage = Some 909000 ∧ ∃ full, 9950 ≤ full.
Proof.
  destruct (vault_bond_mints (P:=platform) config_state (chain 900000 1000000 0) (at_second 70)
    (mkInfo "bob" [mkCoin "uluna" 9000]) None bond_storage 9950 bond_msgs 9000 vrun_bond_Ok)
    as (_ & _ & _ & _ & _ & _ & _ & _ & full & _ & _ & _ & _ & _ & _ & _ & _ & _ & _ & _ & Hle & _).
  split; [vm_compute; reflexivity|]. exists full. exact Hle.
Defined.

Definition run_execute_bond :=
  execute_bond config_state (chain 900000 1000000 0) (at_second 70)
    (mkInfo "bob" [mkCoin "uluna" 9000]) None.
Lemma vrun_execute_bond_Ok :
  run_execute_bond = Ok (new_state run_execute_bond, response_of run_execute_bond).
Proof. by_run. Qed.
Definition config_of (st : Storage) : Config :=
  default (mkConfig "" "" "" "" "" "" false "" 0 "") (CONFIG st).

Lemma vault_bond_split_refines_bond_witness :
  ∃ resp', execute_bond_split config_state (chain 900000 1000000 0) (at_second 70)
    (mkInfo "bob" [mkCoin "uluna" 9000]) None = Ok (new_state run_execute_bond, resp').
Proof.
  destruct (vault_bond_split_refines_bond (P:=platform) config_state (chain 900000 1000000 0) (at_second 70)
    (mkInfo "bob" [mkCoin "uluna" 9000]) None (new_state run_execute_bond)
    (response_of run_execute_bond) (config_of config_state))
    as (_ & _ & _ & _ & resp' & H & _); [vm_compute; reflexivity|exact vrun_execute_bond_Ok|].
  exists resp'. exact H.
Defined.

Definition run_execute_unbond :=
  execute_unbond config_state (chain 1000000 1000000 0) (at_second 200) 500 "alice".
Lemma vrun_execute_unbond_Ok :
  run_execute_unbond = Ok (new_state run_execute_unbond, response_of run_execute_unbond).
Proof. by_run. Qed.

Lemma vault_unbond_witness : ∃ credited batch',
  CURRENT_BATCH (new_state run_execute_unbond) = Some batch' ∧ credited ≤ 500 ∧
  batch' = mkCurrentBatch 2 0.
Proof.
  destruct (vault_unbond (P:=platform) config_state (chain 1000000 1000000 0) (at_second 200) 500 "alice"
    (new_state run_execute_unbond) (response_of run_execute_unbond) vconfig_inv vrun_execute_unbond_Ok)
    as (_ & _ & _ & credited & batch' & _ & _ & _ & _ & Hb & Hc & _).
  exists credited, batch'. split; [exact Hb|]. split; [exact Hc|].
  assert (Some batch' = Some (mkCurrentBatch 2 0)) as [= ->]; [|reflexivity].
  rewrite <-Hb. vm_compute. reflexivity.
Defined.

Lemma vault_decimal_division_witness : decimal_division 100 (2 * 10 ^ 17) = Some 500 ∧ 500 ≤ 500.
Proof.
  assert (decimal_division 100 (2 * 10 ^ 17) = Some 500) as H by (vm_compute; reflexivity).
  split; [exact H|].
  destruct (vault_decimal_division (P:=platform) 100 (2 * 10 ^ 17)) as [_ Hs].
  destruct (Hs 500 H) as (_ & _ & Hle). exact Hle.
Defined.

Lemma vault_from_subtraction_witness :
  ∃ s, from_subtraction 1000000 1100000 = Some s ∧ signed_value s = (-100000)%Z.
Proof.
  destruct (vault_from_subtraction (P:=platform) 1000000 1100000) as (s & Hs & Hv & _).
  exists s. split; [exact Hs|exact Hv].
Defined.

Lemma vault_validators_bounded_witness : N.of_nat (size (VALIDATORS config_state)) ≤ MAX_VALIDATORS.
Proof. exact (vault_validators_bounded parse_unbond _ vconfig_reachable). Defined.

Lemma vault_release_terminates_witness :
  sum_due_batches (1 + 5) unbond_state 300 1 0 0 = sum_due_batches 1 unbond_state 300 1 0 0.
Proof.
  exact (proj1 (vault_release_terminates (P:=platform) unbond_state due_state 300 1 0
    (mkSignedInt 0 false) 5)).
Defined.
End example.
End VaultSpec.
