(* ===== verification/VaultBacking.v ===== *)
(** * What stands behind the vault's tokens

    The vault (contracts/prism-vault) mints cLuna against staked Luna and pLuna
    and yLuna against cLuna it locks.  This file runs it together with a ledger
    of the three tokens and of the stake: after each call the messages of the
    response take effect on the ledger.  The chain may slash the stake at any
    time, and the holders may send and burn what is theirs. *)
From S2P Require Import Prelude Cosmwasm Protocol Wire WireProofs Arith Vault VaultProofs.
From S2P Require VaultSpec.
Import VaultMsg Vault.

Module VaultBacking.

(** The supplies of cLuna, pLuna and yLuna, the cLuna the vault holds and the
    Luna it has staked. *)
Record Ledger : Type := mkLedger {
  cluna_supply : N; held : N; pluna_supply : N; yluna_supply : N; staked : N }.

Definition with_cluna (c h : N) (l : Ledger) : Ledger :=
  mkLedger c h (pluna_supply l) (yluna_supply l) (staked l).
Definition with_pluna (p : N) (l : Ledger) : Ledger :=
  mkLedger (cluna_supply l) (held l) p (yluna_supply l) (staked l).
Definition with_yluna (y : N) (l : Ledger) : Ledger :=
  mkLedger (cluna_supply l) (held l) (pluna_supply l) y (staked l).
Definition with_staked (s : N) (l : Ledger) : Ledger :=
  mkLedger (cluna_supply l) (held l) (pluna_supply l) (yluna_supply l) s.

(** What the loads of a call say of the storage. *)
Ltac load_facts :=
  repeat match goal with
  | H : load_state _ = Ok _ |- _ => apply load_Ok in H
  | H : load_batch _ = Ok _ |- _ => apply load_Ok in H
  | H : load_parameters _ = Ok _ |- _ => apply load_Ok in H
  | H : load_initialized _ = Ok _ |- _ => apply load_initialized_Ok in H as [H _]
  end.

Section ledger.
Context {P : Cosmwasm}.
Variable fb : Binary → outcome StdError Cw20HookMsg.
(** The vault, its coin, and its tokens. *)
Variables (self : Addr) (denom : string) (cluna pluna yluna : Addr).

Definition if_vault (a : Addr) (n : N) : N := if bool_decide (a = self) then n else 0.
Definition guarded (b : bool) (l : Ledger) : option Ledger := if b then Some l else None.

(** A call of the vault to cLuna.  An allowance may be used up at once. *)
Definition cluna_call (m : Cw20.ExecuteMsg Binary) (l : Ledger) : option Ledger :=
  let c := cluna_supply l in
  let h := held l in
  match m with
  | Cw20.Mint to_ n => Some (with_cluna (c + n) (h + if_vault to_ n) l)
  | Cw20.Burn n => guarded (n <=? h) (with_cluna (c - n) (h - n) l)
  | Cw20.Transfer to_ n | Cw20.Send to_ n _ =>
      guarded (n <=? h) (with_cluna c (h - n + if_vault to_ n) l)
  | Cw20.TransferFrom from to_ n =>
      guarded (n <=? if bool_decide (from = self) then h else c - h)
        (with_cluna c (h - if_vault from n + if_vault to_ n) l)
  | Cw20.BurnFrom from n =>
      guarded (n <=? if bool_decide (from = self) then h else c - h)
        (with_cluna (c - n) (h - if_vault from n) l)
  | Cw20.IncreaseAllowance _ n => Some (with_cluna c (h - n) l)
  end.

(** What a call to pLuna or yLuna makes of its supply. *)
Definition supply_call (m : Cw20.ExecuteMsg Binary) (n : N) : option N :=
  match m with
  | Cw20.Mint _ a => Some (n + a)
  | Cw20.Burn a | Cw20.BurnFrom _ a => if a <=? n then Some (n - a) else None
  | _ => Some n
  end.

Definition effect (l : Ledger) (m : CosmosMsg) : option Ledger :=
  match m with
  | WasmExecute t (BinCw20 m) _ =>
      if bool_decide (t = cluna) then cluna_call m l
      else if bool_decide (t = pluna) then p ← supply_call m (pluna_supply l); Some (with_pluna p l)
      else if bool_decide (t = yluna) then y ← supply_call m (yluna_supply l); Some (with_yluna y l)
      else Some l
  | WasmInstantiate _ (BinToken t) _ _ _ =>
      let total := sum_N (TokenMsg.initial_balances t).*2 in
      let mine := sum_N ((λ b, if_vault b.1 b.2) <$> TokenMsg.initial_balances t) in
      Some (if bool_decide (TokenMsg.symbol t = "cLuna"%string)
            then with_cluna (cluna_supply l + total) (held l + mine) l
            else if bool_decide (TokenMsg.symbol t = "pLuna"%string)
            then with_pluna (pluna_supply l + total) l
            else with_yluna (yluna_supply l + total) l)
  | StakingDelegate _ c =>
      Some (if bool_decide (coin_denom c = denom) then with_staked (staked l + coin_amount c) l else l)
  | StakingUndelegate _ c =>
      if bool_decide (coin_denom c = denom)
      then guarded (coin_amount c <=? staked l) (with_staked (staked l - coin_amount c) l)
      else Some l
  | _ => Some l
  end.

(** The messages of a response, in order; if one fails the transaction is void. *)
Definition deliver (resp : Response) (l : Ledger) : option Ledger :=
  optfold effect l (sub_msg <$> messages resp).

(** cLuna sent to the vault arrives before the vault is called. *)
Definition incoming (info : MessageInfo) (msg : ExecuteMsg Binary) (l : Ledger) : option Ledger :=
  match msg with
  | Receive m =>
      if bool_decide (info_sender info = cluna)
      then guarded (cw20_amount m <=? cluna_supply l - held l)
             (with_cluna (cluna_supply l) (held l + cw20_amount m) l)
      else Some l
  | _ => Some l
  end.

(** The chain reports the supply of cLuna and the delegations as they are. *)
Definition honest (q : Querier) (l : Ledger) : Prop :=
  query_cw20_supply q cluna = Ok (cluna_supply l) ∧
  ∃ ds, query_all_delegations q self = Ok ds ∧ delegated denom ds = staked l.

(** The vault is called by itself only with the messages it addresses to
    itself, and the claims of the registry are claims of an airdrop. *)
Definition genuine (info : MessageInfo) (msg : ExecuteMsg Binary) : Prop :=
  match msg with
  | RegisterValidator _ | UpdateGlobalIndex _ | DepositAirdropReward _ => True
  | ClaimAirdrop _ _ m => (∃ claim, m = BinAirdrop claim) ∧ info_sender info ≠ self
  | _ => info_sender info ≠ self
  end.

(** The address configured for the registry is not the vault nor one of the
    tokens: anyone can have the vault call it with any message. *)
Definition wired (st : Storage) : Prop :=
  ∀ c, CONFIG st = Some c → airdrop_registry_contract c ∉ [self; cluna; pluna; yluna].

Definition tokens_of (c : Config) : list Addr := [cluna_contract c; pluna_contract c; yluna_contract c].

(** The vault among its tokens: created together with them in one transaction,
    then called, slashed, and its tokens moved, in any order.  The flag tells
    whether the stake was ever slashed. *)
Inductive run : Storage → Ledger → bool → Prop :=
  | run_create q env info msg st0 r0 st1 r1 m2 st2 r2 m3 st3 r3 m4 st4 r4 c l :
      contract_address env = self → VaultMsg.underlying_coin_denom msg = denom →
      instantiate env info msg = Ok (st0, r0) →
      execute fb st0 q env (mkInfo self []) (RegisterValidator (VaultMsg.validator msg)) = Ok (st1, r1) →
      reply st1 env m2 = Ok (st2, r2) → reply st2 env m3 = Ok (st3, r3) → reply st3 env m4 = Ok (st4, r4) →
      reply_id <$> [m2; m3; m4] = [0; 1; 2] →
      CONFIG st4 = Some c → tokens_of c = [cluna; pluna; yluna] →
      optfold (λ l r, deliver r l) (mkLedger 0 0 0 0 0) [r0; r1; r2; r3; r4] = Some l →
      run st4 l false
  | run_execute st l slashed q env info msg l1 st' resp l' :
      run st l slashed → contract_address env = self → genuine info msg → wired st →
      incoming info msg l = Some l1 → honest q l1 →
      execute fb st q env info msg = Ok (st', resp) → deliver resp l1 = Some l' →
      run st' l' slashed
  | run_slash st l slashed n :
      run st l slashed → n ≤ staked l → run st (with_staked n l) true
  | run_holders st l slashed c h p y :
      run st l slashed → c ≤ cluna_supply l → held l ≤ h → h ≤ c →
      p ≤ pluna_supply l → y ≤ yluna_supply l →
      run st (mkLedger c h p y (staked l)) slashed.

(** What holds between the vault's record and the ledger. *)
Record backing (s : State) (requested : N) (l : Ledger) (slashed : bool) : Prop := mkBacking {
  locked_pluna : pluna_supply l ≤ held l;
  locked_yluna : yluna_supply l ≤ held l;
  held_cluna : held l ≤ cluna_supply l;
  recorded_stake : staked l ≤ total_bond_amount s;
  rate_covered : total_bond_amount s = 0 ∨
    exchange_rate s * (cluna_supply l + requested) ≤ total_bond_amount s * DECIMAL_UNIT;
  never_slashed : slashed = false →
    staked l = total_bond_amount s ∧ cluna_supply l + requested ≤ staked l ∧
    DECIMAL_UNIT ≤ exchange_rate s }.

Definition sound (st : Storage) (l : Ledger) (slashed : bool) : Prop :=
  ∃ c p batch s,
    CONFIG st = Some c ∧ tokens_of c = [cluna; pluna; yluna] ∧
    PARAMETERS st = Some p ∧ p_underlying_coin_denom p = denom ∧
    CURRENT_BATCH st = Some batch ∧ STATE st = Some s ∧
    backing s (requested_with_fee batch) l slashed.
End ledger.

Section proofs.
Context {P : Cosmwasm} {L : CosmwasmLaws P}.
Variable fb : Binary → outcome StdError Cw20HookMsg.
Variables (self : Addr) (denom : string) (cluna pluna yluna : Addr).
Hypothesis distinct : NoDup [cluna; pluna; yluna].

Notation effect := (effect self denom cluna pluna yluna).
Notation sound := (sound denom cluna pluna yluna).
Notation honest := (honest self denom cluna).
Notation deliver := (deliver self denom cluna pluna yluna).

(** ** Effects of the messages *)
Lemma effect_cluna t m l : t = cluna → effect l (wasm_cw20 t m) = cluna_call self m l.
Proof. intros ->. simpl. by rewrite bool_decide_eq_true_2. Qed.
Lemma effect_pluna t m l :
  t = pluna → effect l (wasm_cw20 t m) = p ← supply_call m (pluna_supply l); Some (with_pluna p l).
Proof.
  intros ->. simpl. apply NoDup_cons in distinct as [Hc _].
  rewrite bool_decide_eq_false_2 by set_solver. by rewrite bool_decide_eq_true_2.
Qed.
Lemma effect_yluna t m l :
  t = yluna → effect l (wasm_cw20 t m) = y ← supply_call m (yluna_supply l); Some (with_yluna y l).
Proof.
  intros ->. simpl. apply NoDup_cons in distinct as [Hc Hp]. apply NoDup_cons in Hp as [Hp _].
  rewrite !bool_decide_eq_false_2 by set_solver. by rewrite bool_decide_eq_true_2.
Qed.
Lemma if_vault_self n : if_vault self self n = n.
Proof. unfold if_vault. by rewrite bool_decide_eq_true_2. Qed.
Lemma if_vault_other a n : a ≠ self → if_vault self a n = 0.
Proof. intros Ha. unfold if_vault. by rewrite bool_decide_eq_false_2. Qed.
Lemma guarded_Some b l l' : guarded b l = Some l' ↔ b = true ∧ l' = l.
Proof. unfold guarded. destruct b; split; [intros [= <-]|intros [_ ->]| |intros [? _]]; done. Qed.

Lemma deliver_undelegations us l l' :
  optfold effect l (sub_msg <$> undelegations denom us) = Some l' →
  sum_N us.*2 ≤ staked l ∧ l' = with_staked (staked l - sum_N us.*2) l.
Proof.
  revert l. induction us as [|[v n] us IH]; intros l; csimpl.
  - intros [= <-]. split; [lia|]. rewrite N.sub_0_r. by destruct l.
  - rewrite bool_decide_eq_true_2 by done. unfold guarded.
    destruct (N.leb_spec n (staked l)) as [Hn|]; simpl; [|done].
    intros (Hs & ->)%IH. simpl in *. split; [lia|]. unfold with_staked. simpl. f_equal. lia.
Qed.

Lemma deliver_cons m ms ats l :
  deliver (respond (m :: ms) ats) l = l' ← effect l m; deliver (respond ms ats) l'.
Proof. done. Qed.
Lemma deliver_nil ats l : deliver (respond [] ats) l = Some l.
Proof. done. Qed.

(** ** The exchange rate *)
Lemma rate_backed s supply requested s' :
  update_exchange_rate s supply requested = Some s' →
  s' = with_rate (exchange_rate s') s ∧
  (total_bond_amount s' = 0 ∨
   exchange_rate s' * (supply + requested) ≤ total_bond_amount s' * DECIMAL_UNIT) ∧
  (supply + requested ≤ total_bond_amount s' → DECIMAL_UNIT ≤ exchange_rate s').
Proof.
  intros ->%update_exchange_rate_spec. simpl.
  destruct (N.eqb_spec (total_bond_amount s) 0) as [Hb|Hb]; simpl; [by auto|].
  destruct (N.eqb_spec (supply + requested) 0) as [Hs|Hs]; simpl.
  - rewrite Hs. split_and!; [done|right; lia|done].
  - split_and!; [done|right; rewrite N.mul_comm; apply N.Div0.mul_div_le|].
    intros Hle. apply N.div_le_lower_bound; [done|]. by apply N.mul_le_mono_r.
Qed.

(** Noticing a slash lowers the recorded stake to the real one. *)
Lemma slashing_backing st q env s params st' s' l slashed batch :
  slashing st q env s params = Ok (st', s') →
  contract_address env = self → p_underlying_coin_denom params = denom → honest q l →
  CURRENT_BATCH st = Some batch → query_total_issued st q = Ok (cluna_supply l) →
  backing s (requested_with_fee batch) l slashed → backing s' (requested_with_fee batch) l slashed.
Proof.
  intros H Henv Hd (_ & ds & Hds & Hsum) Hb Hq HB. apply slashing_spec in H as [[_ ->]|H]; [done|].
  destruct H as (ds' & batch' & issued & Hds' & _ & Hb' & Hq' & Hlt & Hu & _).
  rewrite Henv, Hds in Hds'. rewrite Hd in Hlt, Hu. rewrite Hq in Hq'. simplify_eq. rewrite Hsum in Hlt, Hu.
  apply rate_backed in Hu as (Hs' & Hrate & _). rewrite Hs' in *. clear Hs'. simpl in *.
  destruct HB as [H1 H2 H3 H4 H5 H6]. split; simpl; [done|done|done|lia|exact Hrate|].
  intros Hn. destruct (H6 Hn). lia.
Qed.

Lemma slashing_noop st q env s params st' s' l :
  slashing st q env s params = Ok (st', s') →
  contract_address env = self → p_underlying_coin_denom params = denom → honest q l →
  staked l = total_bond_amount s → st' = st ∧ s' = s.
Proof.
  intros [?|H]%slashing_spec Henv Hd (_ & ds & Hds & Hsum) Hst; [done|].
  destruct H as (ds' & batch' & issued & Hds' & _ & _ & _ & Hlt & _).
  rewrite Henv, Hds in Hds'. injection Hds' as <-. rewrite Hd, Hsum in Hlt. lia.
Qed.

Lemma slashing_frame st q env s params st' s' :
  STATE st = Some s → slashing st q env s params = Ok (st', s') →
  st' = set_state s' st ∧ CONFIG st' = CONFIG st.
Proof.
  intros HS [[-> ->]|(? & ? & ? & _ & _ & _ & _ & _ & _ & ->)]%slashing_spec; [|done].
  split; [|done]. destruct st; simpl in *. by subst.
Qed.

(** At a rate of one or more no more is minted than was paid. *)
Lemma mint_below_payment payment rate m :
  decimal_division payment rate = Some m → DECIMAL_UNIT ≤ rate → m ≤ payment.
Proof.
  intros [Hd ->]%decimal_division_Some Hr.
  assert (10 ^ 9 ≤ rate / 10 ^ 9) as Hrd.
  { apply N.div_le_lower_bound; [done|]. exact Hr. }
  rewrite N.Div0.div_div. apply N.Div0.div_le_upper_bound.
  rewrite (N.mul_comm payment). apply N.mul_le_mono_r. change DECIMAL_UNIT with (10 ^ 9 * 10 ^ 9).
  by apply N.mul_le_mono_r.
Qed.
(** A burn of [amount], of which [credited] is entered in the batch. *)
Lemma burn_backing s requested l slashed amount credited s' :
  backing s requested l slashed →
  pluna_supply l + amount ≤ held l → yluna_supply l + amount ≤ held l → credited ≤ amount →
  update_exchange_rate s (cluna_supply l - amount) (requested + credited) = Some s' →
  backing s' (requested + credited) (with_cluna (cluna_supply l - amount) (held l - amount) l) slashed.
Proof.
  intros [H1 H2 H3 H4 H5 H6] Hpl Hyl Hc (Hs' & Hrate & Hone)%rate_backed.
  rewrite Hs' in *. clear Hs'. simpl in *. split; simpl; [lia|lia|lia|done|exact Hrate|].
  intros Hn. destruct (H6 Hn) as (? & ? & ?). split_and!; [done|lia|]. apply Hone. lia.
Qed.

(** Undelegating the value of the batch. *)
Lemma undelegate_backing s requested l slashed u s' :
  backing s requested l slashed →
  u = requested * exchange_rate s / DECIMAL_UNIT → u ≤ total_bond_amount s → u ≤ staked l →
  exchange_rate s' = exchange_rate s → total_bond_amount s' = total_bond_amount s - u →
  backing s' 0 (with_staked (staked l - u) l) slashed.
Proof.
  intros [H1 H2 H3 H4 H5 H6] Hu Hub Hus Hr Hb.
  assert (u * DECIMAL_UNIT ≤ requested * exchange_rate s) as Hval.
  { rewrite Hu, N.mul_comm. apply N.Div0.mul_div_le. }
  assert (total_bond_amount s = 0 ∨
    exchange_rate s * cluna_supply l ≤ (total_bond_amount s - u) * DECIMAL_UNIT) as Hrest.
  { destruct H5 as [H5|H5]; [by left|right]. rewrite N.mul_sub_distr_r. lia. }
  clear H5. split; simpl; rewrite ?Hr, ?Hb, ?N.add_0_r; [done|done|done|lia| |].
  - destruct Hrest; [left; lia|by right].
  - intros Hn. destruct (H6 Hn) as (Hs & Hc & Hone). split_and!; [lia| |done].
    destruct Hrest as [Hz|Hrest]; [lia|]. rewrite Hs.
    apply (N.mul_le_mono_pos_r _ _ DECIMAL_UNIT); [done|]. etrans; [|exact Hrest].
    rewrite (N.mul_comm (exchange_rate s)). by apply N.mul_le_mono_l.
Qed.

(** The burn leaves at least nothing: it is delivered after the undelegations. *)
Lemma deliver_unbond us amount attrs l l' :
  deliver (mkResponse (undelegations denom us ++ [sub_new (wasm_cw20 cluna (Cw20.Burn amount))]) attrs) l
    = Some l' →
  sum_N us.*2 ≤ staked l ∧
  l' = with_staked (staked l - sum_N us.*2)
         (with_cluna (cluna_supply l - amount) (held l - amount) l).
Proof.
  unfold VaultBacking.deliver. simpl. rewrite fmap_app, optfold_app.
  destruct (optfold _ _ _) as [l1|] eqn:H1; simpl; [|done].
  apply deliver_undelegations in H1 as [Hs ->]. rewrite bool_decide_eq_true_2 by done.
  unfold guarded. simpl. destruct (amount <=? held l); [|done]. intros [= <-]. done.
Qed.

End proofs.

(** ** Each call keeps the backing *)
Section calls.
Context {P : Cosmwasm} {L : CosmwasmLaws P}.
Variables (self : Addr) (denom : string) (cluna pluna yluna : Addr).
Notation sound := (sound denom cluna pluna yluna).
Notation honest := (honest self denom cluna).
Notation deliver := (deliver self denom cluna pluna yluna).

Lemma honest_issued st q c l :
  CONFIG st = Some c → tokens_of c = [cluna; pluna; yluna] → honest q l →
  query_total_issued st q = Ok (cluna_supply l).
Proof.
  intros Hc [= Hcl _ _] [Hq _]. unfold query_total_issued, load_config, load. rewrite Hc. simpl.
  by rewrite Hcl.
Qed.

(** After bonding the vault may lock any part of what it minted. *)
Lemma bond_sound st q env info v st' minted msgs payment l slashed :
  sound st l slashed → contract_address env = self → honest q l →
  do_execute_bond st q env info v = Ok (st', minted, msgs, payment) →
  ∃ c validator, CONFIG st' = Some c ∧ CONFIG st = Some c ∧ tokens_of c = [cluna; pluna; yluna] ∧
    msgs = [sub_new (StakingDelegate validator (mkCoin denom payment));
            sub_new (wasm_cw20 cluna (Cw20.Mint (info_sender info) minted))] ∧
    ∀ h p y, p ≤ h → y ≤ h → h ≤ cluna_supply l + minted →
      sound st' (mkLedger (cluna_supply l + minted) h p y (staked l + payment)) slashed.
Proof.
  intros (c & p & batch & s & Hc & Ht & Hp & Hd & Hb & HS & HB) Henv Hq H.
  pose proof (honest_issued _ _ _ _ Hc Ht Hq) as Hissued.
  unfold do_execute_bond in H. inv_ok H. load_facts. simplify_eq.
  match goal with Hs : slashing _ _ _ _ _ = Ok _ |- _ =>
    pose proof (slashing_backing _ _ _ _ _ _ _ _ _ _ _ _ _ Hs eq_refl eq_refl Hq Hb Hissued HB) as HB1;
    destruct (slashing_frame _ _ _ _ _ _ _ HS Hs) as [-> _] end.
  match goal with Hu : unwrap_or (query_total_issued _ _) _ = Some _ |- _ =>
    change (query_total_issued (set_state _ ?st) q) with (query_total_issued st q) in Hu;
    rewrite Hissued in Hu; injection Hu as <- end.
  simpl in *. simplify_eq. platform_facts.
  match goal with Hb : bond_mint_amounts _ _ _ _ _ = Ok _ |- _ =>
    apply bond_mint_amounts_spec in Hb as (Hdiv & Hle & _) end.
  match goal with Hu : update_exchange_rate _ _ _ = Some _ |- _ =>
    apply rate_backed in Hu as (Hs' & Hrate & Hone) end.
  destruct HB1 as [H1 H2 H3 H4 H5 H6]. injection Ht as <- <- <-.
  eexists _, _. split_and!; [done..|]. intros h pl yl Hph Hyh Hh.
  eexists _, _, _, _. split_and!; [done..|]. rewrite Hs' in *. clear Hs'. simpl in *.
  split; simpl; [done|done|done|lia|exact Hrate|].
  intros Hn. destruct (H6 Hn) as (Hs1 & Hs2 & Hs3).
  pose proof (mint_below_payment _ _ _ Hdiv Hs3). split_and!; [lia|lia|]. apply Hone. lia.
Qed.

(** Unbonding burns what was sent; closing a batch undelegates its value. *)
Lemma unbond_sound st q env amount sender st' resp l l' slashed :
  sound st l slashed → contract_address env = self → honest q l →
  pluna_supply l + amount ≤ held l → yluna_supply l + amount ≤ held l →
  execute_unbond st q env amount sender = Ok (st', resp) → deliver resp l = Some l' →
  sound st' l' slashed.
Proof.
  intros (c & p & batch & s & Hc & Ht & Hp & Hd & Hb & HS & HB) Henv Hq Hpl Hyl H Hdel.
  pose proof (honest_issued _ _ _ _ Hc Ht Hq) as Hissued.
  unfold execute_unbond in H. inv_ok H. load_facts. simplify_eq.
  match goal with Hs : slashing _ _ _ _ _ = Ok _ |- _ =>
    pose proof (slashing_backing _ _ _ _ _ _ _ _ _ _ _ _ _ Hs eq_refl eq_refl Hq Hb Hissued HB) as HB1;
    destruct (slashing_frame _ _ _ _ _ _ _ HS Hs) as [-> _] end.
  match goal with Hu : unwrap_or (query_total_issued _ _) _ = Some _ |- _ =>
    change (query_total_issued (set_state _ ?st) q) with (query_total_issued st q) in Hu;
    rewrite Hissued in Hu; injection Hu as <- end.
  match goal with Hw : store_unbond_wait_list _ _ _ _ = Ok _ |- _ =>
    unfold store_unbond_wait_list in Hw; inv_ok Hw; subst end.
  match goal with Hf : unbond_amount_with_fee _ _ _ _ _ = Ok _ |- _ =>
    apply unbond_amount_with_fee_spec in Hf as [Hfee _] end.
  platform_facts.
  match goal with Hu : update_exchange_rate _ _ _ = Some _ |- _ =>
    pose proof (burn_backing _ _ _ _ _ _ _ HB1 Hpl Hyl Hfee Hu) as HB2;
    apply update_exchange_rate_spec in Hu as Hs' end.
  pose proof Ht as Htok. injection Htok as <- <- <-.
  match goal with Hbr : (if _ then _ else _) = Ok _ |- _ => rename Hbr into Hbranch end.
  inv_ok Hbranch; subst; simplify_eq; simpl in *; simplify_eq.
  - match goal with Hp : pick_unbond_validator _ _ _ _ _ = Ok _ |- _ =>
      apply pick_unbond_validator_Ok in Hp as (ds & us & _ & -> & Hsum & _) end.
    platform_facts. apply deliver_unbond in Hdel as [Hs ->]. rewrite Hsum in *.
    eexists _, _, _, _. split_and!; [done..|]. simpl.
    eapply (undelegate_backing _ _ _ _ _ _ HB2); done.
  - apply (deliver_unbond _ _ _ _ _ []) in Hdel as [_ ->]. simpl. rewrite N.sub_0_r.
    eexists _, _, _, _. split_and!; [done..|]. exact HB2.
Qed.

(** What the other messages leave alone. *)
Lemma sound_frame st st' l slashed :
  sound st l slashed →
  (∀ c, CONFIG st = Some c → ∃ c', CONFIG st' = Some c' ∧ tokens_of c' = tokens_of c) →
  (∀ p, PARAMETERS st = Some p →
     ∃ p', PARAMETERS st' = Some p' ∧ p_underlying_coin_denom p' = p_underlying_coin_denom p) →
  CURRENT_BATCH st' = CURRENT_BATCH st →
  (∀ s, STATE st = Some s → ∃ s', STATE st' = Some s' ∧
     exchange_rate s' = exchange_rate s ∧ total_bond_amount s' = total_bond_amount s) →
  sound st' l slashed.
Proof.
  intros (c & p & batch & s & Hc & Ht & Hp & Hd & Hb & HS & HB) HC HP HCB HSt.
  destruct (HC _ Hc) as (c' & ? & Hct). destruct (HP _ Hp) as (p' & ? & Hpd).
  destruct (HSt _ HS) as (s' & ? & Hr & Hbd).
  exists c', p', batch, s'. split_and!; [done|congruence|done|congruence|congruence|done|].
  destruct HB. split; rewrite ?Hr, ?Hbd; done.
Qed.

(** Messages that move neither tokens nor stake. *)
Definition quiet (m : CosmosMsg) : Prop :=
  ∀ l, effect self denom cluna pluna yluna l m = Some l.
Lemma deliver_quiet resp l l' :
  Forall quiet (sub_msg <$> messages resp) → deliver resp l = Some l' → l' = l.
Proof.
  unfold VaultBacking.deliver. generalize (sub_msg <$> messages resp). intros ms Hms. revert l.
  induction Hms as [|m ms Hm _ IH]; intros l; simpl; [by intros [= <-]|]. rewrite Hm. simpl. apply IH.
Qed.
Lemma quiet_outside t m : t ∉ [cluna; pluna; yluna] → quiet (WasmExecute t m []).
Proof.
  intros Ht l. simpl. destruct m; try done. by rewrite !bool_decide_eq_false_2 by set_solver.
Qed.

Hypothesis distinct : NoDup [cluna; pluna; yluna].

Lemma split_sound st env info amount st' resp l l' slashed :
  sound st l slashed → contract_address env = self → info_sender info ≠ self →
  Vault.split st env info amount = Ok (st', resp) → deliver resp l = Some l' → sound st' l' slashed.
Proof.
  intros (c & p & batch & s & Hc & Ht & Hp & Hd & Hb & HS & HB) Henv Hne H Hdel.
  unfold Vault.split in H. inv_ok H. subst st' resp. load_facts. assert (a = c) as -> by congruence.
  pose proof Ht as [= Hcl Hpl Hyl]. revert Hdel.
  rewrite deliver_cons, effect_cluna by done. cbn [cluna_call].
  rewrite bool_decide_eq_false_2, if_vault_other, Henv, if_vault_self by done.
  unfold guarded. destruct (N.leb_spec amount (cluna_supply l - held l)); [|done].
  cbn [mbind option_bind]. rewrite deliver_cons, effect_yluna by done. cbn [supply_call mbind option_bind].
  rewrite deliver_cons, effect_pluna by done. cbn [supply_call mbind option_bind]. rewrite deliver_nil. intros [= <-].
  exists c, p, batch, s. split_and!; [done..|].
  destruct HB as [H1 H2 H3 H4 H5 H6]. split; simpl; [lia|lia|lia|done..].
Qed.

Lemma merge_sound st info amount st' resp l l' slashed :
  sound st l slashed → info_sender info ≠ self →
  merge st info amount = Ok (st', resp) → deliver resp l = Some l' → sound st' l' slashed.
Proof.
  intros (c & p & batch & s & Hc & Ht & Hp & Hd & Hb & HS & HB) Hne H Hdel.
  unfold merge in H. inv_ok H. subst st' resp. load_facts. assert (a = c) as -> by congruence.
  pose proof Ht as [= Hcl Hpl Hyl]. revert Hdel.
  rewrite deliver_cons, effect_yluna by done. cbn [supply_call].
  destruct (N.leb_spec amount (yluna_supply l)); [|done]. cbn [mbind option_bind].
  rewrite deliver_cons, effect_pluna by done. cbn [supply_call]. simpl pluna_supply.
  destruct (N.leb_spec amount (pluna_supply l)); [|done]. cbn [mbind option_bind].
  rewrite deliver_cons, effect_cluna by done. cbn [cluna_call]. rewrite if_vault_other by done.
  unfold guarded. destruct (amount <=? _) eqn:Hh; [|done]. cbn [mbind option_bind]. rewrite deliver_nil. intros [= <-].
  exists c, p, batch, s. split_and!; [done..|].
  destruct HB as [H1 H2 H3 H4 H5 H6]. split; simpl; [lia|lia|lia|done..].
Qed.

Lemma bond_delivered st q env info v st' resp l l' slashed :
  sound st l slashed → contract_address env = self → honest q l → info_sender info ≠ self →
  execute_bond st q env info v = Ok (st', resp) → deliver resp l = Some l' → sound st' l' slashed.
Proof.
  intros HS Henv Hq Hne H Hdel. unfold execute_bond in H. inv_ok H. subst st' resp.
  match goal with Hx : do_execute_bond _ _ _ _ _ = Ok _ |- _ =>
    destruct (bond_sound _ _ _ _ _ _ _ _ _ _ _ HS Henv Hq Hx) as (c & val & _ & _ & _ & -> & Hl) end.
  destruct HS as (? & ? & ? & ? & _ & _ & _ & _ & _ & _ & [H1 H2 H3 _ _ _]).
  revert Hdel. unfold VaultBacking.deliver. simpl. rewrite !bool_decide_eq_true_2 by done.
  cbn [mbind option_bind]. rewrite if_vault_other by done. intros [= <-]. apply Hl; simpl; lia.
Qed.

Lemma bond_split_delivered st q env info v st' resp l l' slashed :
  sound st l slashed → contract_address env = self → honest q l → info_sender info ≠ self →
  execute_bond_split st q env info v = Ok (st', resp) → deliver resp l = Some l' → sound st' l' slashed.
Proof.
  intros HS Henv Hq Hne H Hdel. unfold execute_bond_split in H. inv_ok H. subst st' resp. load_facts.
  match goal with Hx : do_execute_bond _ _ _ _ _ = Ok _ |- _ =>
    destruct (bond_sound _ _ _ _ _ _ _ _ _ _ _ HS Henv Hq Hx) as (c & val & _ & Hc & Ht & -> & Hl) end.
  destruct HS as (? & ? & ? & ? & _ & _ & _ & _ & _ & _ & [H1 H2 H3 _ _ _]).
  assert (a = c) as -> by congruence. pose proof Ht as [= Hcl Hpl Hyl].
  match type of Hdel with _ (mkResponse (removelast [sub_new ?d; _] ++ [sub_new ?m1; sub_new ?m2; sub_new ?m3]) ?ats) _ = _ =>
    change (deliver (respond [d; m1; m2; m3] ats) l = Some l') in Hdel end.
  revert Hdel. rewrite deliver_cons. cbn [VaultBacking.effect coin_denom coin_amount].
  rewrite bool_decide_eq_true_2 by done. cbn [mbind option_bind].
  rewrite deliver_cons, effect_cluna, Henv by done. cbn [cluna_call mbind option_bind]. rewrite if_vault_self.
  rewrite deliver_cons, effect_yluna by done. cbn [supply_call mbind option_bind].
  rewrite deliver_cons, effect_pluna by done. cbn [supply_call mbind option_bind].
  rewrite deliver_nil. intros [= <-]. apply Hl; simpl; lia.
Qed.

Lemma quiet_allowance t spender n :
  t ≠ cluna → quiet (wasm_cw20 t (Cw20.IncreaseAllowance spender n)).
Proof.
  intros Ht l. simpl. rewrite bool_decide_eq_false_2 by done.
  repeat case_bool_decide; simpl; by destruct l.
Qed.

(** The messages that change the configuration, the whitelist, or nothing. *)
Ltac by_frame :=
  eapply sound_frame; [eassumption|..]; simpl; try done; intros; eexists; (split; [eassumption|done]).

Lemma config_sound st info o y r m st' resp l l' slashed :
  sound st l slashed → execute_update_config st info o y r m = Ok (st', resp) →
  deliver resp l = Some l' → sound st' l' slashed.
Proof.
  intros HS H Hdel. unfold execute_update_config in H. inv_ok H. subst.
  assert (l' = l) as ->.
  { eapply deliver_quiet; [|exact Hdel]. destruct y; simpl in *; inv_ok Ha1; subst; simplify_eq.
    - by repeat constructor.
    - constructor. }
  eapply sound_frame; [exact HS|..]; simpl; eauto. intros c Hc. eexists. split; [done|].
  apply load_Ok in Ha. by simplify_eq.
Qed.

Lemma withdraw_sound st q env info st' resp l l' slashed :
  sound st l slashed → execute_withdraw_unbonded st q env info = Ok (st', resp) →
  deliver resp l = Some l' → sound st' l' slashed.
Proof.
  intros HS H Hdel. unfold execute_withdraw_unbonded in H. inv_ok H. subst.
  assert (l' = l) as ->; [eapply deliver_quiet; [|exact Hdel]; repeat constructor; done|].
  pose proof HS as (c & p & batch & s & Hc & Ht & Hp & Hd & Hb & HSt & HB). ok_facts.
  match goal with Hw : process_withdraw_rate _ _ _ = Ok _ |- _ =>
    destruct (process_withdraw_rate_spec _ _ _ _ _ Hw HSt) as
      (? & ? & _ & _ & _ & _ & HS' & _ & Hb' & Hc' & Hp' & _) end.
  load_facts. simpl in *.
  eapply sound_frame; [exact HS|..]; simpl; rewrite ?Hc', ?Hp', ?Hb'; eauto.
  intros s1 Hs1. assert (s1 = s) as -> by congruence. eexists. split; [done|].
  match goal with Hl : STATE _ = Some ?x |- context [with_balance _ ?x] =>
    rewrite HS' in Hl; injection Hl as <- end. done.
Qed.

Lemma update_global_sound st q env hooks st' resp l l' slashed :
  sound st l slashed → wired self cluna pluna yluna st →
  execute_update_global st q env hooks = Ok (st', resp) →
  deliver resp l = Some l' → sound st' l' slashed.
Proof.
  intros HS Hw H Hdel. unfold execute_update_global in H. inv_ok H. subst. load_facts.
  assert (l' = l) as ->.
  { eapply deliver_quiet; [|exact Hdel]. simpl. rewrite !fmap_app. repeat apply Forall_app_2.
    - destruct hooks as [hooks|]; simpl; [|constructor]. rewrite <-list_fmap_compose.
      apply Forall_fmap, Forall_true. intros m. apply quiet_outside. specialize (Hw _ Ha). set_solver.
    - unfold withdraw_all_rewards in *. inv_ok Ha0; subst; [|constructor]. rewrite <-list_fmap_compose.
      apply Forall_fmap, Forall_true. by intros d ?.
    - by repeat constructor. }
  eapply sound_frame; [exact HS|..]; simpl; eauto. intros s Hs. simplify_eq. eauto.
Qed.

Lemma check_slashing_sound st q env st' resp l l' slashed :
  sound st l slashed → contract_address env = self → honest q l →
  execute_slashing st q env = Ok (st', resp) → deliver resp l = Some l' → sound st' l' slashed.
Proof.
  intros (c & p & batch & s & Hc & Ht & Hp & Hd & Hb & HS & HB) Henv Hq H Hdel.
  pose proof (honest_issued _ _ _ _ Hc Ht Hq) as Hissued.
  unfold execute_slashing in H. inv_ok H. subst st' resp. load_facts. injection Hdel as <-.
  match goal with Hs : slashing _ _ _ ?s' ?p' = Ok (?st1, ?s1) |- _ =>
    assert (s' = s) as -> by congruence; assert (p' = p) as -> by congruence;
    pose proof (slashing_backing _ _ _ _ _ _ _ _ _ _ _ _ _ Hs Henv Hd Hq Hb Hissued HB) as HB1;
    destruct (slashing_frame _ _ _ _ _ _ _ HS Hs) as [Hst _]; rewrite Hst end.
  eexists c, p, batch, _. by split_and!.
Qed.

Lemma receive_sound fb st q env info m st' resp l l1 l' slashed :
  sound st l slashed → contract_address env = self → honest q l1 →
  incoming cluna info (Receive m) l = Some l1 →
  receive_cw20 fb st q env info m = Ok (st', resp) → deliver resp l1 = Some l' → sound st' l' slashed.
Proof.
  intros (c & p & batch & s & Hc & Ht & Hp & Hd & Hb & HS & [H1 H2 H3 H4 H5 H6]) Henv Hq Hin H Hdel.
  unfold receive_cw20 in H. inv_ok H. load_facts. pose proof Ht as [= Hcl _ _].
  assert (a0 = c) as -> by congruence. simpl in Hin.
  assert (info_sender info = cluna) as Hs.
  { rewrite <-Hcl. apply dec_stable. by apply bool_decide_eq_false in E0. }
  rewrite bool_decide_eq_true_2 in Hin by done. unfold guarded in Hin.
  destruct (N.leb_spec (cw20_amount m) (cluna_supply l - held l)); [|done]. injection Hin as <-.
  eapply unbond_sound; [|exact Henv|exact Hq|..|exact H|exact Hdel]; simpl; [|lia|lia].
  exists c, p, batch, s. split_and!; [done..|]. split; simpl; [lia|lia|lia|done..].
Qed.

Lemma execute_sound fb st q env info msg l1 st' resp l l' slashed :
  sound st l slashed → contract_address env = self → genuine self info msg →
  wired self cluna pluna yluna st →
  incoming cluna info msg l = Some l1 → honest q l1 →
  execute fb st q env info msg = Ok (st', resp) → deliver resp l1 = Some l' → sound st' l' slashed.
Proof.
  intros HS Henv Hg Hw Hin Hq H Hdel.
  destruct msg; simpl in H, Hg, Hin; try (injection Hin as <-).
  - by eapply config_sound.
  - unfold execute_register_validator in H. inv_ok H. subst st' resp. injection Hdel as <-.
    eapply sound_frame; [exact HS|..]; simpl; eauto.
  - unfold execute_deregister_validator in H. inv_ok H. subst st' resp.
    assert (l' = l) as ->.
    { eapply deliver_quiet; [|exact Hdel]. simpl. repeat case_match; repeat constructor; done. }
    eapply sound_frame; [exact HS|..]; simpl; eauto.
  - unfold execute_update_params in H. inv_ok H. subst st' resp. injection Hdel as <-. load_facts.
    eapply sound_frame; [exact HS|..]; simpl; eauto.
    intros p Hp. eexists. split; [done|]. simpl. congruence.
  - unfold execute_redelegate in H. inv_ok H. subst st' resp.
    assert (l' = l) as -> by (eapply deliver_quiet; [|exact Hdel]; repeat constructor; done). done.
  - by eapply bond_delivered.
  - by eapply bond_split_delivered.
  - by eapply update_global_sound.
  - by eapply withdraw_sound.
  - by eapply check_slashing_sound.
  - by eapply receive_sound.
  - by eapply split_sound.
  - by eapply merge_sound.
  - unfold deposit_airdrop_rewards in H. inv_ok H. subst st' resp. load_facts.
    assert (l' = l) as ->; [|done]. eapply deliver_quiet; [|exact Hdel].
    constructor; [|by repeat constructor]. apply quiet_allowance.
    destruct HS as (c & _ & _ & _ & Hc & [= <- _ _] & _). by case_bool_decide; simplify_eq.
  - unfold claim_airdrop in H. inv_ok H. subst st' resp. destruct Hg as [[claim ->] _].
    assert (l' = l) as -> by (eapply deliver_quiet; [|exact Hdel]; repeat constructor; done). done.
Qed.

(** ** The creation of the vault and its tokens *)
Lemma reply_quiet st env m st' resp l l' :
  reply st env m = Ok (st', resp) → deliver resp l = Some l' → l' = l.
Proof.
  unfold reply, set_token_address. intros H Hdel. inv_ok H. subst. revert Hdel.
  unfold VaultBacking.deliver. simpl. destruct (_ <=? 2); simpl; [|by intros [= <-]].
  unfold VaultBacking.with_cluna, VaultBacking.with_pluna, VaultBacking.with_yluna.
  repeat case_bool_decide; intros [= <-]; destruct l; simpl; by rewrite !N.add_0_r.
Qed.

Lemma create_sound fb q env info msg st0 r0 st1 r1 m2 st2 r2 m3 st3 r3 m4 st4 r4 c l :
  contract_address env = self → VaultMsg.underlying_coin_denom msg = denom →
  instantiate env info msg = Ok (st0, r0) →
  execute fb st0 q env (mkInfo self []) (RegisterValidator (VaultMsg.validator msg)) = Ok (st1, r1) →
  reply st1 env m2 = Ok (st2, r2) → reply st2 env m3 = Ok (st3, r3) → reply st3 env m4 = Ok (st4, r4) →
  CONFIG st4 = Some c → tokens_of c = [cluna; pluna; yluna] →
  optfold (λ l r, deliver r l) (mkLedger 0 0 0 0 0) [r0; r1; r2; r3; r4] = Some l →
  sound st4 l false.
Proof.
  intros Henv Hd H0 H1 H2 H3 H4 Hc Ht. cbn [optfold].
  destruct (deliver r0 _) as [l0|] eqn:D0; [|done]. cbn [mbind option_bind].
  destruct (deliver r1 l0) as [l1|] eqn:D1; [|done]. cbn [mbind option_bind].
  destruct (deliver r2 l1) as [l2|] eqn:D2; [|done]. cbn [mbind option_bind].
  destruct (deliver r3 l2) as [l3|] eqn:D3; [|done]. cbn [mbind option_bind].
  destruct (deliver r4 l3) as [l4|] eqn:D4; [|done]. cbn [mbind option_bind]. intros [= <-].
  apply (reply_quiet _ _ _ _ _ _ _ H2) in D2 as ->. apply (reply_quiet _ _ _ _ _ _ _ H3) in D3 as ->.
  apply (reply_quiet _ _ _ _ _ _ _ H4) in D4 as ->.
  apply VaultSpec.VaultSpec.reply_frame in H2 as [c2 ->], H3 as [c3 ->], H4 as [c4 ->].
  simpl in H1. unfold execute_register_validator in H1. inv_ok H1. subst st1 r1. injection D1 as <-.
  unfold instantiate in H0. inv_ok H0. subst st0 r0. revert D0.
  unfold VaultBacking.deliver. simpl. rewrite Hd, Henv, bool_decide_eq_true_2, if_vault_self by done.
  intros [= <-]. injection Hc as <-.
  eexists c4, _, _, _. split_and!; [done..|]. split; simpl; [lia..| |].
  - right. rewrite dec_one_law, !N.add_0_r. lia.
  - intros _. rewrite dec_one_law. lia.
Qed.

Lemma vault_run_sound fb st l slashed : run fb self denom cluna pluna yluna st l slashed → sound st l slashed.
Proof.
  induction 1 as [| |st l slashed n _ IH Hn|st l slashed c h p y _ IH Hc Hh Hhc Hp Hy].
  - by eapply create_sound.
  - by eapply execute_sound.
  - destruct IH as (c & p & batch & s & Hc & Ht & Hp & Hd & Hb & HS & [H1 H2 H3 H4 H5 H6]).
    exists c, p, batch, s. split_and!; [done..|]. split; simpl; [done..|lia|done|done].
  - destruct IH as (c0 & p0 & batch & s & Hc0 & Ht & Hp0 & Hd & Hb & HS & [H1 H2 H3 H4 H5 H6]).
    exists c0, p0, batch, s. split_and!; [done..|]. split; simpl; [lia|lia|done|done| |].
    + destruct H5 as [?|H5]; [by left|right]. etrans; [|exact H5]. apply N.mul_le_mono_l. lia.
    + intros Hf. destruct (H6 Hf) as (? & ? & ?). split_and!; [done|lia|done].
Qed.

(** ** The fee threshold *)
Definition threshold_valid (st : Storage) : Prop :=
  ∀ p, PARAMETERS st = Some p → p_er_threshold p ≤ DECIMAL_UNIT.

Lemma validate_rate_Ok r r' : validate_rate r = Ok r' → r' = r ∧ r ≤ DECIMAL_UNIT.
Proof. unfold validate_rate. rewrite dec_one_law. intros H. inv_ok H. subst. by ok_facts. Qed.

Lemma slashing_params st q env s p st' s' :
  slashing st q env s p = Ok (st', s') → PARAMETERS st' = PARAMETERS st.
Proof. by intros (_ & _ & _ & H & _)%slashing_bond. Qed.

Lemma do_execute_bond_params st q env info v st' minted msgs payment :
  do_execute_bond st q env info v = Ok (st', minted, msgs, payment) → PARAMETERS st' = PARAMETERS st.
Proof.
  unfold do_execute_bond. intros H. inv_ok H. subst.
  match goal with Hs : slashing _ _ _ _ _ = Ok _ |- _ => by apply slashing_params in Hs end.
Qed.

Lemma execute_unbond_params st q env amount sender st' resp :
  execute_unbond st q env amount sender = Ok (st', resp) → PARAMETERS st' = PARAMETERS st.
Proof.
  unfold execute_unbond. intros H. inv_ok H. subst.
  match goal with Hs : slashing _ _ _ _ _ = Ok _ |- _ => apply slashing_params in Hs as Hp end.
  match goal with Hst : store_unbond_wait_list _ _ _ _ = Ok _ |- _ =>
    unfold store_unbond_wait_list in Hst; inv_ok Hst; subst end.
  match goal with Hb : (if _ then _ else _) = Ok _ |- _ => inv_ok Hb; subst; simplify_eq end;
    simpl; exact Hp.
Qed.

Lemma withdraw_params st q env info st' resp :
  execute_withdraw_unbonded st q env info = Ok (st', resp) → PARAMETERS st' = PARAMETERS st.
Proof.
  unfold execute_withdraw_unbonded. intros H. inv_ok H. subst. simpl.
  match goal with Hw : process_withdraw_rate _ _ _ = Ok _ |- _ => rename Hw into Hrel end.
  assert (∃ s, STATE st = Some s) as [s Hs].
  { pose proof Hrel as H. unfold process_withdraw_rate in H. inv_ok H. load_facts. by eexists. }
  by destruct (process_withdraw_rate_spec _ _ _ _ _ Hrel Hs) as (? & ? & _ & _ & _ & _ & _ & _ & _ & _ & ? & _).
Qed.

Lemma execute_params fb st q env info msg st' resp :
  execute fb st q env info msg = Ok (st', resp) → threshold_valid st → threshold_valid st'.
Proof.
  assert (∀ st1, PARAMETERS st1 = PARAMETERS st → threshold_valid st → threshold_valid st1) as Heq
    by (by intros st1 E Hv p; rewrite E; apply Hv).
  intros H. destruct msg; simpl in H;
    [..|apply Heq; unfold split, merge, deposit_airdrop_rewards, claim_airdrop in H; by inv_ok H; subst].
  - apply Heq. unfold execute_update_config in H. inv_ok H. by subst.
  - apply Heq. unfold execute_register_validator in H. inv_ok H. by subst.
  - apply Heq. unfold execute_deregister_validator in H. inv_ok H. by subst.
  - unfold execute_update_params in H. inv_ok H. subst. apply validate_rate_Ok in Ha2 as [-> ?].
    intros _ p [= <-]. done.
  - apply Heq. unfold execute_redelegate in H. inv_ok H. by subst.
  - apply Heq. unfold execute_bond in H. inv_ok H. subst. by eapply do_execute_bond_params.
  - apply Heq. unfold execute_bond_split in H. inv_ok H. subst. by eapply do_execute_bond_params.
  - apply Heq. unfold execute_update_global in H. inv_ok H. by subst.
  - apply Heq. by eapply withdraw_params.
  - apply Heq. unfold execute_slashing in H. inv_ok H. subst. by eapply slashing_params.
  - apply Heq. unfold receive_cw20 in H. inv_ok H. by eapply execute_unbond_params.
  - apply Heq. unfold Vault.split in H. inv_ok H. by subst.
  - apply Heq. unfold merge in H. inv_ok H. by subst.
  - apply Heq. unfold deposit_airdrop_rewards in H. inv_ok H. by subst.
Qed.

Lemma run_threshold fb st l slashed :
  run fb self denom cluna pluna yluna st l slashed → threshold_valid st.
Proof.
  induction 1 as [q env info msg st0 r0 st1 r1 m2 st2 r2 m3 st3 r3 m4 st4 r4 c l _ _ H0 H1 H2 H3 H4| | |];
    [|by eapply execute_params|done..].
  apply VaultSpec.VaultSpec.reply_frame in H2 as [c2 ->], H3 as [c3 ->], H4 as [c4 ->].
  apply execute_params in H1; [exact H1|]. unfold instantiate in H0. inv_ok H0. subst.
  apply validate_rate_Ok in Ha3 as [-> ?]. by intros p [= <-].
Qed.

(** Unbonding while the recorded stake is exact and covers the supply. *)
Lemma unbond_at_par st q env amount sender st' resp p batch s supply :
  PARAMETERS st = Some p → CURRENT_BATCH st = Some batch → STATE st = Some s →
  p_er_threshold p ≤ DECIMAL_UNIT → DECIMAL_UNIT ≤ exchange_rate s →
  (∀ st1 s1, slashing st q env s p = Ok (st1, s1) → st1 = st ∧ s1 = s) →
  query_total_issued st q = Ok supply → supply + requested_with_fee batch ≤ total_bond_amount s →
  execute_unbond st q env amount sender = Ok (st', resp) →
  UNBOND_WAITLIST st' !! (sender, batch_id batch) =
    Some (default 0 (UNBOND_WAITLIST st !! (sender, batch_id batch)) + amount) ∧
  (UNBOND_HISTORY st' = UNBOND_HISTORY st ∨
   ∃ h, UNBOND_HISTORY st' = <[batch_id batch := h]> (UNBOND_HISTORY st) ∧
     h_amount h = requested_with_fee batch + amount ∧ DECIMAL_UNIT ≤ h_withdraw_rate h).
Proof.
  intros Hp Hb HS Hthr Hrate Hnoop Hissued Hsup H.
  unfold execute_unbond in H. inv_ok H. load_facts. simplify_eq.
  match goal with Hs : slashing _ _ _ _ _ = Ok _ |- _ => destruct (Hnoop _ _ Hs) as [-> ->] end.
  match goal with Hu : unwrap_or _ 0 = Some _ |- _ => rewrite Hissued in Hu; injection Hu as <- end.
  match goal with Hf : unbond_amount_with_fee _ _ _ _ _ = Ok ?x |- _ =>
    apply unbond_amount_with_fee_spec in Hf as (_ & Hfull & _); assert (x = amount) as -> by (apply Hfull; lia) end.
  match goal with Hw : store_unbond_wait_list _ _ _ _ = Ok _ |- _ =>
    unfold store_unbond_wait_list in Hw; inv_ok Hw; subst end.
  match goal with Hv : addr_validate _ = Ok _ |- _ => apply addr_validate_law in Hv; subst end.
  platform_facts.
  match goal with Hu : update_exchange_rate _ _ _ = Some _ |- _ => apply rate_backed in Hu as (Hs' & _ & Hone) end.
  rewrite Hs' in Hone. specialize (Hone ltac:(simpl; lia)).
  match goal with Hbr : (if _ then _ else _) = Ok _ |- _ => inv_ok Hbr; subst; simplify_eq end; simpl.
  - split; [by rewrite lookup_insert_eq|]. right. eexists. split; [done|]. by split.
  - split; [by rewrite lookup_insert_eq|]. by left.
Qed.
End calls.

(** ** What the vault promises *)
Section properties.
Context {P : Cosmwasm} {L : CosmwasmLaws P}.
Variable fb : Binary → outcome StdError Cw20HookMsg.
Variables (self : Addr) (denom : string) (cluna pluna yluna : Addr).
Hypothesis distinct : NoDup [cluna; pluna; yluna].
Notation run := (run fb self denom cluna pluna yluna).
Notation deliver := (deliver self denom cluna pluna yluna).

(** C3: Every token of the vault is backed. After any sequence of calls, slashes
    and token transfers, the vault holds a cLuna for every pLuna and for every
    yLuna; no more Luna is staked than it has recorded; and, unless all of it
    was lost, the cLuna in circulation and in the requests of the current batch
    are worth no more, at the exchange rate, than the recorded stake. As long as
    the stake was never slashed, the record is exact, there is a staked Luna for
    every cLuna and every request, and the exchange rate is at least one. *)
Theorem vault_backed st l slashed :
  run st l slashed →
  ∃ batch s, CURRENT_BATCH st = Some batch ∧ STATE st = Some s ∧
    pluna_supply l ≤ held l ≤ cluna_supply l ∧ yluna_supply l ≤ held l ∧
    staked l ≤ total_bond_amount s ∧
    (total_bond_amount s = 0 ∨
     exchange_rate s * (cluna_supply l + requested_with_fee batch) ≤ total_bond_amount s * DECIMAL_UNIT) ∧
    (slashed = false →
       staked l = total_bond_amount s ∧ cluna_supply l + requested_with_fee batch ≤ staked l ∧
       DECIMAL_UNIT ≤ exchange_rate s).
Proof.
  intros (c & p & batch & s & _ & _ & _ & _ & Hb & HS & [H1 H2 H3 H4 H5 H6])%vault_run_sound; [|done].
  exists batch, s. by split_and!.
Qed.

(** C20: A pair of pLuna and yLuna can always be merged. Whatever happened before,
    whoever holds [n] of both gets [n] cLuna for them: the vault accepts the
    call, and it holds enough for all its messages to succeed. *)
Theorem vault_merge_redeems st l slashed c info q env n :
  run st l slashed → CONFIG st = Some c → initialized c = true →
  n ≤ pluna_supply l → n ≤ yluna_supply l → info_sender info ≠ self →
  ∃ resp, execute fb st q env info (Merge n) = Ok (st, resp) ∧
    sub_msg <$> messages resp =
      [wasm_cw20 yluna (Cw20.BurnFrom (info_sender info) n);
       wasm_cw20 pluna (Cw20.BurnFrom (info_sender info) n);
       wasm_cw20 cluna (Cw20.Transfer (info_sender info) n)] ∧
    deliver resp l = Some (mkLedger (cluna_supply l) (held l - n) (pluna_supply l - n)
                             (yluna_supply l - n) (staked l)).
Proof.
  intros (c' & p & batch & s & Hc' & Ht & _ & _ & _ & _ & [H1 H2 H3 _ _ _])%vault_run_sound Hc Hi Hp Hy Hne; [|done].
  assert (c' = c) as -> by congruence. injection Ht as Hcl Hpl Hyl.
  assert (load_initialized st = Ok c) as Hl by (by apply load_initialized_Ok).
  eexists. split; [simpl; unfold merge; by rewrite Hl|]. rewrite Hcl, Hpl, Hyl. split; [done|].
  rewrite deliver_cons, effect_yluna by done. cbn [supply_call].
  rewrite (proj2 (N.leb_le _ _)) by done. cbn [mbind option_bind].
  rewrite deliver_cons, effect_pluna by done. cbn [supply_call]. simpl pluna_supply.
  rewrite (proj2 (N.leb_le _ _)) by done. cbn [mbind option_bind].
  rewrite deliver_cons, effect_cluna by done. cbn [cluna_call]. rewrite if_vault_other by done.
  unfold guarded. simpl held. rewrite (proj2 (N.leb_le _ _)) by lia. cbn [mbind option_bind].
  rewrite deliver_nil. unfold with_cluna, with_pluna, with_yluna. simpl. by rewrite N.add_0_r.
Qed.

(** C21: Without slashing there is no fee. While the stake was never slashed,
    whoever sends cLuna to the vault to unbond it has the whole amount entered
    in the current batch, and if the call closes the batch, the batch is
    recorded to pay at least one Luna for each cLuna. *)
Theorem vault_unbond_at_par st l l1 q env info m st' resp :
  run st l false → contract_address env = self →
  incoming cluna info (Receive m) l = Some l1 → honest self denom cluna q l1 →
  execute fb st q env info (Receive m) = Ok (st', resp) →
  ∃ batch, CURRENT_BATCH st = Some batch ∧
    UNBOND_WAITLIST st' !! (cw20_sender m, batch_id batch) =
      Some (default 0 (UNBOND_WAITLIST st !! (cw20_sender m, batch_id batch)) + cw20_amount m) ∧
    (UNBOND_HISTORY st' = UNBOND_HISTORY st ∨
     ∃ h, UNBOND_HISTORY st' = <[batch_id batch := h]> (UNBOND_HISTORY st) ∧
       h_amount h = requested_with_fee batch + cw20_amount m ∧ DECIMAL_UNIT ≤ h_withdraw_rate h).
Proof.
  intros Hrun Henv Hin Hq H. pose proof (run_threshold _ _ _ _ _ _ _ _ _ Hrun) as Hthr.
  apply vault_run_sound in Hrun as (c & p & batch & s & Hc & Ht & Hp & Hd & Hb & HS & [H1 H2 H3 H4 H5 H6]); [|done].
  destruct (H6 eq_refl) as (Hstake & Hsup & Hrate). specialize (Hthr _ Hp).
  assert (staked l1 = staked l ∧ cluna_supply l1 = cluna_supply l) as [Hs1 Hc1].
  { simpl in Hin. case_bool_decide; [|by injection Hin as <-]. by apply guarded_Some in Hin as [_ ->]. }
  pose proof (honest_issued _ _ _ _ _ _ _ _ _ Hc Ht Hq) as Hissued.
  simpl in H. unfold receive_cw20 in H. inv_ok H. exists batch. split; [done|].
  eapply (unbond_at_par _ _ _ _ _ _ _ p batch s); try done; [|rewrite Hc1; lia].
  intros st1 s1 Hs. eapply (slashing_noop _ _ _ _ _ _ _ _ _ _ _ Hs Henv Hd Hq). congruence.
Qed.
End properties.

(** ** A run on the reference platform *)
Section example.
Import Reference VaultSpec.VaultSpec.
Notation vrun := (run parse_unbond "vault" "uluna" "cluna" "pluna" "yluna").

Definition ledger_created : Ledger := mkLedger 1000000 1000000 0 0 1000000.
Lemma tokens_distinct : NoDup ["cluna"; "pluna"; "yluna"]%string.
Proof. apply (bool_decide_eq_true_1 _). vm_compute. reflexivity. Qed.
Lemma vcreated_run : vrun (new_state run_reply2) ledger_created false.
Proof.
  exact (run_create parse_unbond "vault" "uluna" "cluna" "pluna" "yluna" (chain 0 0 0) (at_second 50)
    (mkInfo "owner" [mkCoin "uluna" 1000000]) init_msg (new_state run_init) (response_of run_init)
    (new_state run_register) (response_of run_register)
    (token_reply 0 "cluna") (new_state run_reply0) (response_of run_reply0)
    (token_reply 1 "pluna") (new_state run_reply1) (response_of run_reply1)
    (token_reply 2 "yluna") (new_state run_reply2) (response_of run_reply2)
    (config_of (new_state run_reply2)) ledger_created eq_refl eq_refl
    vrun_init_Ok vrun_register_Ok vrun_reply0_Ok vrun_reply1_Ok vrun_reply2_Ok eq_refl eq_refl eq_refl eq_refl).
Qed.

Definition teller : Querier := chain 1000000 1000000 0.
Lemma teller_honest : honest "vault" "uluna" "cluna" teller ledger_created.
Proof. split; [reflexivity|]. exists [mkDelegation "val1" (mkCoin "uluna" 1000000)]. split; reflexivity. Qed.
Lemma registry_wired c st :
  CONFIG st = Some c → airdrop_registry_contract c ∉ ["vault"; "cluna"; "pluna"; "yluna"]%string →
  wired "vault" "cluna" "pluna" "yluna" st.
Proof. intros Hc Hr c' Hc'. congruence. Qed.

Definition run_owner :=
  execute parse_unbond (new_state run_reply2) teller (at_second 60) (mkInfo "owner" [])
    (UpdateConfig None (Some "ystaking"%string) (Some "airdrops"%string) None).
Lemma run_owner_Ok : run_owner = Ok (config_state, response_of run_owner).
Proof. vm_compute. reflexivity. Qed.
Lemma vconfigured_run : vrun config_state ledger_created false.
Proof.
  apply (run_execute parse_unbond "vault" "uluna" "cluna" "pluna" "yluna" (new_state run_reply2) ledger_created false teller
    (at_second 60) (mkInfo "owner" [])
    (UpdateConfig None (Some "ystaking"%string) (Some "airdrops"%string) None) ledger_created config_state
    (response_of run_owner) ledger_created);
    [exact vcreated_run|reflexivity|discriminate| |reflexivity|exact teller_honest|exact run_owner_Ok
    |vm_compute; reflexivity].
  apply (registry_wired (config_of (new_state run_reply2))); [vm_compute; reflexivity|].
  apply (bool_decide_eq_true_1 _). vm_compute. reflexivity.
Qed.

(** Bob bonds 9000 straight into pLuna and yLuna. *)
Definition run_bob :=
  execute parse_unbond config_state teller (at_second 70) (mkInfo "bob" [mkCoin "uluna" 9000]) (BondSplit None).
Lemma run_bob_Ok : run_bob = Ok (new_state run_bob, response_of run_bob).
Proof. by apply vault_run_Ok; vm_compute. Qed.
Definition ledger_bob : Ledger := mkLedger 1009000 1009000 9000 9000 1009000.
Lemma vbob_run : vrun (new_state run_bob) ledger_bob false.
Proof.
  apply (run_execute parse_unbond "vault" "uluna" "cluna" "pluna" "yluna" config_state ledger_created false teller
    (at_second 70) (mkInfo "bob" [mkCoin "uluna" 9000]) (BondSplit None) ledger_created (new_state run_bob)
    (response_of run_bob) ledger_bob);
    [exact vconfigured_run|reflexivity|discriminate| |reflexivity|exact teller_honest|exact run_bob_Ok
    |vm_compute; reflexivity].
  apply (registry_wired (config_of config_state)); [vm_compute; reflexivity|].
  apply (bool_decide_eq_true_1 _). vm_compute. reflexivity.
Qed.

Lemma vault_backed_witness :
  ∃ batch s, CURRENT_BATCH (new_state run_bob) = Some batch ∧ STATE (new_state run_bob) = Some s ∧
    total_bond_amount s = 1009000 ∧ 1009000 + requested_with_fee batch ≤ 1009000.
Proof.
  destruct (vault_backed (P:=platform) parse_unbond "vault" "uluna" "cluna" "pluna" "yluna" tokens_distinct
    (new_state run_bob) ledger_bob false vbob_run) as (batch & s & Hb & Hs & _ & _ & _ & _ & Hw).
  destruct (Hw eq_refl) as (Hst & Hle & _). exists batch, s.
  split; [exact Hb|]. split; [exact Hs|]. split; [exact (eq_sym Hst)|exact Hle].
Defined.

Lemma vault_merge_redeems_witness :
  ∃ resp, execute parse_unbond (new_state run_bob) teller (at_second 80) (mkInfo "bob" []) (Merge 4000) =
    Ok (new_state run_bob, resp) ∧
    deliver "vault" "uluna" "cluna" "pluna" "yluna" resp ledger_bob =
      Some (mkLedger 1009000 1005000 5000 5000 1009000).
Proof.
  destruct (vault_merge_redeems (P:=platform) parse_unbond "vault" "uluna" "cluna" "pluna" "yluna" tokens_distinct
    (new_state run_bob) ledger_bob false (config_of (new_state run_bob)) (mkInfo "bob" []) teller (at_second 80) 4000
    vbob_run) as (resp & H & _ & Hd);
    [vm_compute; reflexivity|vm_compute; reflexivity|vm_compute; discriminate|vm_compute; discriminate|discriminate|].
  exists resp. split; [exact H|exact Hd].
Defined.

(** Bob merges 4000 of it again; then, after the epoch has passed, 500 of his
    cLuna are sent to the vault to unbond, which closes the batch. *)
Definition teller2 : Querier := chain 1009000 1009000 0.
Definition run_merge :=
  execute parse_unbond (new_state run_bob) teller2 (at_second 80) (mkInfo "bob" []) (Merge 4000).
Lemma run_merge_Ok : run_merge = Ok (new_state run_bob, response_of run_merge).
Proof. vm_compute. reflexivity. Qed.
Definition ledger_merged : Ledger := mkLedger 1009000 1005000 5000 5000 1009000.
Definition ledger_sent : Ledger := mkLedger 1009000 1005500 5000 5000 1009000.
Lemma teller2_honest l :
  cluna_supply l = 1009000 → staked l = 1009000 → honest "vault" "uluna" "cluna" teller2 l.
Proof.
  intros Hc Hs. split; [by rewrite Hc|]. exists [mkDelegation "val1" (mkCoin "uluna" 1009000)].
  by rewrite Hs.
Qed.
Lemma vmerged_run : vrun (new_state run_bob) ledger_merged false.
Proof.
  apply (run_execute parse_unbond "vault" "uluna" "cluna" "pluna" "yluna" (new_state run_bob) ledger_bob false
    teller2 (at_second 80) (mkInfo "bob" []) (Merge 4000) ledger_bob (new_state run_bob)
    (response_of run_merge) ledger_merged);
    [exact vbob_run|reflexivity|discriminate| |reflexivity|by apply teller2_honest|exact run_merge_Ok
    |vm_compute; reflexivity].
  apply (registry_wired (config_of (new_state run_bob))); [vm_compute; reflexivity|].
  apply (bool_decide_eq_true_1 _). vm_compute. reflexivity.
Qed.

Definition bob_hook : Cw20ReceiveMsg Binary := mkCw20Receive "bob" 500 (RawBinary "{unbond:{}}").
Definition run_close :=
  execute parse_unbond (new_state run_bob) teller2 (at_second 200) (mkInfo "cluna" []) (Receive bob_hook).
Lemma run_close_Ok : run_close = Ok (new_state run_close, response_of run_close).
Proof. by apply vault_run_Ok; vm_compute. Qed.

Lemma vault_unbond_at_par_witness :
  UNBOND_WAITLIST (new_state run_close) !! ("bob"%string, 1) = Some 500 ∧
  ∃ batch, UNBOND_WAITLIST (new_state run_close) !! ("bob"%string, batch_id batch) =
    Some (default 0 (UNBOND_WAITLIST (new_state run_bob) !! ("bob"%string, batch_id batch)) + 500).
Proof.
  split; [vm_compute; reflexivity|].
  destruct (vault_unbond_at_par (P:=platform) parse_unbond "vault" "uluna" "cluna" "pluna" "yluna" tokens_distinct
    (new_state run_bob) ledger_merged ledger_sent teller2 (at_second 200) (mkInfo "cluna" []) bob_hook
    (new_state run_close) (response_of run_close) vmerged_run eq_refl eq_refl) as (batch & _ & Hw & _);
    [apply teller2_honest; reflexivity|exact run_close_Ok|].
  exists batch. exact Hw.
Defined.
End example.
End VaultBacking.
