(* ===== verification/Gov.v ===== *)
(** * The governance contract (contracts/prism-gov)

    State ([src/state.rs]), polls ([src/polls.rs]), voting deposits
    ([src/voting.rs]), the xPRISM exchange ([src/xprism.rs]), entry points and
    queries ([src/contract.rs]).  A [CanonicalAddr] is the string of its bytes;
    its relation to a human address is the platform's. *)
From S2P Require Import Prelude Cosmwasm Protocol Wire.
Import GovMsg.

Module Gov.

Abbreviation CanonicalAddr := string (only parsing).

(** ** State (src/state.rs) *)
Definition MAX_LIMIT : N := 30.
Definition DEFAULT_LIMIT : N := 10.

Record Config : Type := mkConfig {
  owner : CanonicalAddr;
  prism_token : CanonicalAddr;
  xprism_token : option CanonicalAddr;
  quorum : Decimal;
  threshold : Decimal;
  voting_period : N;
  effective_delay : N;
  proposal_deposit : Uint128;
  snapshot_period : N;
  redemption_time : N;
  poll_gas_limit : N }.

Record VotingTokenManager : Type := mkVotingTokenManager {
  deposit : Uint128;
  (** the poll and what was voted with *)
  locked_balance : list (N * VoterInfo) }.

Definition VotingTokenManager_default : VotingTokenManager := mkVotingTokenManager 0 [].

Record ExecuteData : Type := mkExecuteData { ed_contract : CanonicalAddr; ed_msg : Binary }.

Record Poll : Type := mkPoll {
  id : N;
  creator : CanonicalAddr;
  status : PollStatus;
  yes_votes : Uint128;
  no_votes : Uint128;
  abstain_votes : Uint128;
  end_time : N;
  title : string;
  description : string;
  link : option string;
  execute_data : option ExecuteData;
  deposit_amount : Uint128;
  supply_snapshot : option Uint128;
  required_quorum : Decimal;
  required_threshold : Decimal }.

Record Storage : Type := mkStorage {
  CONFIG : option Config;
  TMP_POLL_ID : option N;
  LAST_POLL_ID : option N;
  POLL_INDEXER : gmap (PollStatus * N) bool;
  POLL_VOTER : gmap (N * CanonicalAddr) VoterInfo;
  POLL : gmap N Poll;
  BANK : gmap CanonicalAddr VotingTokenManager;
  (** (address, return date) -> (xPRISM amount, PRISM amount) *)
  WITHDRAW_ORDERS : gmap (Addr * N) (Uint128 * Uint128);
  TOTAL_PENDING_WITHDRAW : option (Uint128 * Uint128) }.

Definition set_config (c : Config) (st : Storage) : Storage :=
  mkStorage (Some c) (TMP_POLL_ID st) (LAST_POLL_ID st) (POLL_INDEXER st) (POLL_VOTER st)
    (POLL st) (BANK st) (WITHDRAW_ORDERS st) (TOTAL_PENDING_WITHDRAW st).
Definition store_tmp_poll_id (n : N) (st : Storage) : Storage :=
  mkStorage (CONFIG st) (Some n) (LAST_POLL_ID st) (POLL_INDEXER st) (POLL_VOTER st)
    (POLL st) (BANK st) (WITHDRAW_ORDERS st) (TOTAL_PENDING_WITHDRAW st).
Definition store_last_poll_id (n : N) (st : Storage) : Storage :=
  mkStorage (CONFIG st) (TMP_POLL_ID st) (Some n) (POLL_INDEXER st) (POLL_VOTER st)
    (POLL st) (BANK st) (WITHDRAW_ORDERS st) (TOTAL_PENDING_WITHDRAW st).
Definition set_indexer (i : gmap (PollStatus * N) bool) (st : Storage) : Storage :=
  mkStorage (CONFIG st) (TMP_POLL_ID st) (LAST_POLL_ID st) i (POLL_VOTER st)
    (POLL st) (BANK st) (WITHDRAW_ORDERS st) (TOTAL_PENDING_WITHDRAW st).
Definition set_voters (v : gmap (N * CanonicalAddr) VoterInfo) (st : Storage) : Storage :=
  mkStorage (CONFIG st) (TMP_POLL_ID st) (LAST_POLL_ID st) (POLL_INDEXER st) v
    (POLL st) (BANK st) (WITHDRAW_ORDERS st) (TOTAL_PENDING_WITHDRAW st).
Definition set_polls (p : gmap N Poll) (st : Storage) : Storage :=
  mkStorage (CONFIG st) (TMP_POLL_ID st) (LAST_POLL_ID st) (POLL_INDEXER st) (POLL_VOTER st)
    p (BANK st) (WITHDRAW_ORDERS st) (TOTAL_PENDING_WITHDRAW st).
Definition set_bank (b : gmap CanonicalAddr VotingTokenManager) (st : Storage) : Storage :=
  mkStorage (CONFIG st) (TMP_POLL_ID st) (LAST_POLL_ID st) (POLL_INDEXER st) (POLL_VOTER st)
    (POLL st) b (WITHDRAW_ORDERS st) (TOTAL_PENDING_WITHDRAW st).
Definition set_orders (o : gmap (Addr * N) (Uint128 * Uint128)) (st : Storage) : Storage :=
  mkStorage (CONFIG st) (TMP_POLL_ID st) (LAST_POLL_ID st) (POLL_INDEXER st) (POLL_VOTER st)
    (POLL st) (BANK st) o (TOTAL_PENDING_WITHDRAW st).
Definition set_total_pending (t : Uint128 * Uint128) (st : Storage) : Storage :=
  mkStorage (CONFIG st) (TMP_POLL_ID st) (LAST_POLL_ID st) (POLL_INDEXER st) (POLL_VOTER st)
    (POLL st) (BANK st) (WITHDRAW_ORDERS st) (Some t).

Definition save_poll (poll_id : N) (p : Poll) (st : Storage) : Storage :=
  set_polls (<[poll_id := p]> (POLL st)) st.
Definition index_save (s : PollStatus) (poll_id : N) (st : Storage) : Storage :=
  set_indexer (<[(s, poll_id) := true]> (POLL_INDEXER st)) st.
Definition index_remove (s : PollStatus) (poll_id : N) (st : Storage) : Storage :=
  set_indexer (delete (s, poll_id) (POLL_INDEXER st)) st.
Definition save_bank (key : CanonicalAddr) (m : VotingTokenManager) (st : Storage) : Storage :=
  set_bank (<[key := m]> (BANK st)) st.

(** In-place updates of a poll. *)
Definition with_status (s : PollStatus) (p : Poll) : Poll :=
  mkPoll (id p) (creator p) s (yes_votes p) (no_votes p) (abstain_votes p) (end_time p)
    (title p) (description p) (link p) (execute_data p) (deposit_amount p) (supply_snapshot p)
    (required_quorum p) (required_threshold p).
Definition with_snapshot (s : Uint128) (p : Poll) : Poll :=
  mkPoll (id p) (creator p) (status p) (yes_votes p) (no_votes p) (abstain_votes p) (end_time p)
    (title p) (description p) (link p) (execute_data p) (deposit_amount p) (Some s)
    (required_quorum p) (required_threshold p).
Definition with_votes (yes no abstain : Uint128) (p : Poll) : Poll :=
  mkPoll (id p) (creator p) (status p) yes no abstain (end_time p)
    (title p) (description p) (link p) (execute_data p) (deposit_amount p) (supply_snapshot p)
    (required_quorum p) (required_threshold p).

(** [id.to_be_bytes()] followed by a byte 1 is the first key after [id]; an
    address followed by a byte 1 bounds the keys from below. *)
Definition calc_range_start_addr (start_after : option CanonicalAddr) : option CanonicalAddr :=
  (λ addr, addr +:+ String (Ascii.ascii_of_nat 1) "") <$> start_after.
Definition at_least {V} (start : option CanonicalAddr) (l : list (CanonicalAddr * V)) :=
  match start with
  | None => l
  | Some s => List.filter (λ kv : CanonicalAddr * V, negb (String.ltb kv.1 s)) l
  end.

(** [impl From<OrderBy> for Order] applied to an iteration. *)
Definition in_order {A} (order_by : OrderBy) (l : list A) : list A :=
  match order_by with Asc => l | Desc => reverse l end.

Definition page (limit : option N) : nat :=
  N.to_nat (N.min (default DEFAULT_LIMIT limit) MAX_LIMIT).

(** ** Constants *)
Definition POLL_EXECUTE_REPLY_ID : N := 1.
Definition INSTANTIATE_REPLY_ID : N := 2.
Definition MIN_POLL_GAS_LIMIT : N := 1000000.
Definition MIN_TITLE_LENGTH : N := 4.
Definition MAX_TITLE_LENGTH : N := 64.
Definition MIN_DESC_LENGTH : N := 4.
Definition MAX_DESC_LENGTH : N := 256.
Definition MIN_LINK_LENGTH : N := 12.
Definition MAX_LINK_LENGTH : N := 128.
Definition MAX_POLL_VOTES_PER_USER : N := 20.
Definition MAX_ORDER_WITHDRAW_PER_TX : nat := 50.

Definition is_zero (n : N) : bool := n =? 0.

Section contract.
Context `{Cosmwasm}.

Notation StdResult := (outcome StdError).
Definition generic_err {A} (msg : string) : StdResult A := Err (GenericErr msg).
Definition load_config (st : Storage) : StdResult Config := load "Config" (CONFIG st).
Definition load_poll (st : Storage) (poll_id : N) : StdResult Poll := load "Poll" (POLL st !! poll_id).
Definition now (env : Env) : N := ts_seconds (block_time env).

(** Returns the id and stores its successor. *)
Definition pop_last_poll_id (st : Storage) : StdResult (N * Storage) :=
  let? last_id := load "u64" (LAST_POLL_ID st) in
  let! next := u64_add last_id 1 in
  Ok (last_id, store_last_poll_id next st).

Definition read_poll_voters (st : Storage) (poll_id : N) (start_after : option CanonicalAddr)
    (limit : option N) (order_by : option OrderBy) : list (CanonicalAddr * VoterInfo) :=
  let '(start, stop, order_by) :=
    match order_by with
    | Some Asc => (calc_range_start_addr start_after, None, Asc)
    | _ => (None, start_after, Desc)
    end in
  take (page limit) (in_order order_by
    (before String.ltb stop (at_least start (range_addr (prefix (POLL_VOTER st) poll_id))))).

Definition read_polls (st : Storage) (filter : option PollStatus) (start_after limit : option N)
    (order_by : option OrderBy) : StdResult (list Poll) :=
  let '(start, stop, order_by) :=
    match order_by with
    | Some Asc => (start_after, None, Asc)
    | _ => (None, start_after, Desc)
    end in
  match filter with
  | Some status =>
      omapM (λ '(k, _), load_poll st k)
        (take (page limit) (in_order order_by
           (before N.ltb stop (after N.ltb start (range_u64 (prefix (POLL_INDEXER st) status))))))
  | None =>
      Ok (take (page limit) (in_order order_by
           (before N.ltb stop (after N.ltb start (range_u64 (POLL st)))))).*2
  end.

(** ** Polls (src/polls.rs) *)
Definition len (s : string) : N := N.of_nat (String.length s).

Definition validate_title (title : string) : StdResult unit :=
  if len title <? MIN_TITLE_LENGTH then generic_err "Title too short"
  else if MAX_TITLE_LENGTH <? len title then generic_err "Title too long"
  else Ok tt.
Definition validate_description (description : string) : StdResult unit :=
  if len description <? MIN_DESC_LENGTH then generic_err "Description too short"
  else if MAX_DESC_LENGTH <? len description then generic_err "Description too long"
  else Ok tt.
Definition validate_link (link : option string) : StdResult unit :=
  match link with
  | Some link =>
      if len link <? MIN_LINK_LENGTH then generic_err "Link too short"
      else if MAX_LINK_LENGTH <? len link then generic_err "Link too long"
      else Ok tt
  | None => Ok tt
  end.

Definition canonical_execute_data (m : option (PollExecuteMsg Binary)) : StdResult (option ExecuteData) :=
  match m with
  | Some m =>
      let? contract := addr_canonicalize (pe_contract m) in
      Ok (Some (mkExecuteData contract (pe_msg m)))
  | None => Ok None
  end.

Definition create_poll (st : Storage) (env : Env) (proposer : string) (deposit_amount : Uint128)
    (title description : string) (link : option string)
    (poll_execute_msg : option (PollExecuteMsg Binary)) : StdResult (Storage * Response) :=
  let? _ := validate_title title in
  let? _ := validate_description description in
  let? _ := validate_link link in
  let? config := load_config st in
  if deposit_amount <? proposal_deposit config then generic_err "Must deposit more than {} token" else
  let? poll_execute_data := canonical_execute_data poll_execute_msg in
  let? sender_address_raw := addr_canonicalize proposer in
  let? '(poll_id, st) := pop_last_poll_id st in
  let! end_time := u64_add (now env) (voting_period config) in
  let new_poll := mkPoll poll_id sender_address_raw InProgress 0 0 0 end_time
    title description link poll_execute_data deposit_amount None
    (quorum config) (threshold config) in
  let st := save_poll poll_id new_poll st in
  let st := index_save InProgress poll_id st in
  let? creator_addr := addr_humanize (creator new_poll) in
  Ok (st, respond []
    [("action", AStr "create_poll"); ("creator", AStr creator_addr);
     ("poll_id", ANum poll_id); ("end_time", ANum end_time)]).

Definition burn_msg (token : Addr) (amount : Uint128) : CosmosMsg :=
  WasmExecute token (BinCw20 (Cw20.Burn amount)) [].
Definition transfer_msg (token recipient : Addr) (amount : Uint128) : CosmosMsg :=
  WasmExecute token (BinCw20 (Cw20.Transfer recipient amount)) [].
Definition mint_msg (token recipient : Addr) (amount : Uint128) : CosmosMsg :=
  WasmExecute token (BinCw20 (Cw20.Mint recipient amount)) [].

(** [config.xprism_token.unwrap()], as a human address. *)
Definition xprism_addr (config : Config) : StdResult Addr :=
  let! raw := xprism_token config in addr_humanize raw.

(** [yes != 0 && Decimal::from_ratio(yes, yes + no) > required_threshold] *)
Definition threshold_reached (yes no : N) (required : Decimal) : option bool :=
  if is_zero yes then Some false else
  total ← u128_add yes no;
  ratio ← dec_from_ratio yes total;
  Some (required <? ratio).

(** The new status, the reason of a rejection, and what happens to the deposit. *)
Definition poll_outcome (a_poll : Poll) (xprism : Addr) (tallied_weight : N) (quorum : Decimal)
    : StdResult (PollStatus * string * list CosmosMsg) :=
  if is_zero tallied_weight || (quorum <? required_quorum a_poll) then
    Ok (Rejected, "Quorum not reached",
        if is_zero (deposit_amount a_poll) then [] else [burn_msg xprism (deposit_amount a_poll)])
  else
    let! passed := threshold_reached (yes_votes a_poll) (no_votes a_poll) (required_threshold a_poll) in
    let? messages :=
      if is_zero (deposit_amount a_poll) then Ok [] else
      let? recipient := addr_humanize (creator a_poll) in
      Ok [transfer_msg xprism recipient (deposit_amount a_poll)] in
    Ok (if passed then Passed else Rejected, if passed then "" else "Threshold not reached", messages).

Definition end_poll (st : Storage) (q : Querier) (env : Env) (poll_id : N)
    : StdResult (Storage * Response) :=
  let? config := load_config st in
  let? a_poll := load_poll st poll_id in
  let? xprism := xprism_addr config in
  if bool_decide (status a_poll ≠ InProgress) then generic_err "Poll is not in progress" else
  if now env <? end_time a_poll then generic_err "Voting period has not expired" else
  let! yes_no := u128_add (yes_votes a_poll) (no_votes a_poll) in
  let! tallied_weight := u128_add yes_no (abstain_votes a_poll) in
  let? '(total_supply, a_poll) :=
    match supply_snapshot a_poll with
    | Some v => Ok (v, a_poll)
    | None => let? supply := query_supply q xprism in Ok (supply, with_snapshot supply a_poll)
    end in
  let! quorum := if is_zero total_supply then Some 0 else dec_from_ratio tallied_weight total_supply in
  let? '(poll_status, rejected_reason, messages) := poll_outcome a_poll xprism tallied_weight quorum in
  let st := index_remove InProgress (id a_poll) st in
  let st := index_save poll_status (id a_poll) st in
  let st := save_poll poll_id (with_status poll_status a_poll) st in
  Ok (st, respond messages
    [("action", AStr "end_poll"); ("poll_id", ANum poll_id);
     ("rejected_reason", AStr rejected_reason);
     ("passed", ABool (bool_decide (poll_status = Passed)))]).

Definition execute_poll (st : Storage) (env : Env) (poll_id : N) : StdResult (Storage * Response) :=
  let? config := load_config st in
  let? a_poll := load_poll st poll_id in
  if bool_decide (status a_poll ≠ Passed) then generic_err "Poll is not in passed status" else
  let! effective_time := u64_add (end_time a_poll) (effective_delay config) in
  if now env <? effective_time then generic_err "Effective delay has not expired" else
  let st := index_remove Passed poll_id st in
  let st := index_save Executed poll_id st in
  let a_poll := with_status Executed a_poll in
  let st := save_poll poll_id a_poll st in
  match execute_data a_poll with
  | Some execute_data =>
      let? contract_addr := addr_humanize (ed_contract execute_data) in
      let st := store_tmp_poll_id (id a_poll) st in
      Ok (st, mkResponse
        [mkSubMsg POLL_EXECUTE_REPLY_ID (WasmExecute contract_addr (ed_msg execute_data) [])
           (Some (poll_gas_limit config)) ReplyError]
        [("action", AStr "execute_poll"); ("poll_id", ANum poll_id)])
  | None => generic_err "The poll does not have execute_data"
  end.

Definition failed_poll (st : Storage) (poll_id : N) : StdResult (Storage * Response) :=
  let? a_poll := load_poll st poll_id in
  let st := index_remove Executed poll_id st in
  let st := index_save Failed poll_id st in
  let st := save_poll poll_id (with_status Failed a_poll) st in
  Ok (st, respond [] [("action", AStr "failed_poll")]).

(** Adds a vote to the tally of its option. *)
Definition add_vote (vote : VoteOption) (amount : Uint128) (p : Poll) : option Poll :=
  match vote with
  | Yes => n ← uint_add (yes_votes p) amount; Some (with_votes n (no_votes p) (abstain_votes p) p)
  | No => n ← uint_add (no_votes p) amount; Some (with_votes (yes_votes p) n (abstain_votes p) p)
  | Abstain => n ← uint_add (abstain_votes p) amount; Some (with_votes (yes_votes p) (no_votes p) n p)
  end.

Definition token_manager_of (st : Storage) (key : CanonicalAddr) : VotingTokenManager :=
  default VotingTokenManager_default (BANK st !! key).

Definition cast_vote (st : Storage) (q : Querier) (env : Env) (info : MessageInfo) (poll_id : N)
    (vote : VoteOption) (amount : Uint128) : StdResult (Storage * Response) :=
  let? sender_address_raw := addr_canonicalize (info_sender info) in
  let? config := load_config st in
  let? a_poll := map_err (λ _, GenericErr "Poll does not exist") (load_poll st poll_id) in
  if bool_decide (status a_poll ≠ InProgress) || (end_time a_poll <? now env)
  then generic_err "Poll is not in progress" else
  if bool_decide (is_Some (POLL_VOTER st !! (poll_id, sender_address_raw)))
  then generic_err "User has already voted." else
  let token_manager := token_manager_of st sender_address_raw in
  if deposit token_manager <? amount then generic_err "User does not have enough staked tokens." else
  if MAX_POLL_VOTES_PER_USER <=? N.of_nat (length (locked_balance token_manager))
  then generic_err "Can not vote on more than {} at the same time. Voting rewards of finished polls should be claimed." else
  let! a_poll := add_vote vote amount a_poll in
  let vote_info := mkVoterInfo vote amount in
  let token_manager := mkVotingTokenManager (deposit token_manager)
    (locked_balance token_manager ++ [(poll_id, vote_info)]) in
  let st := save_bank sender_address_raw token_manager st in
  let st := set_voters (<[(poll_id, sender_address_raw) := vote_info]> (POLL_VOTER st)) st in
  let! time_to_end := u64_sub (end_time a_poll) (now env) in
  let? a_poll :=
    if (time_to_end <? snapshot_period config) && negb (bool_decide (is_Some (supply_snapshot a_poll)))
    then
      let? xprism := xprism_addr config in
      let? supply := query_supply q xprism in
      Ok (with_snapshot supply a_poll)
    else Ok a_poll in
  let st := save_poll poll_id a_poll st in
  Ok (st, respond []
    [("action", AStr "cast_vote"); ("poll_id", ANum poll_id); ("amount", ANum amount);
     ("voter", AStr (info_sender info)); ("vote_option", AStr (VoteOption_fmt vote))]).

Definition snapshot_poll (st : Storage) (q : Querier) (env : Env) (poll_id : N)
    : StdResult (Storage * Response) :=
  let? config := load_config st in
  let? a_poll := load_poll st poll_id in
  if bool_decide (status a_poll ≠ InProgress) then generic_err "Poll is not in progress" else
  let! time_to_end := u64_sub (end_time a_poll) (now env) in
  if snapshot_period config <? time_to_end then generic_err "Cannot snapshot at this height" else
  if bool_decide (is_Some (supply_snapshot a_poll)) then generic_err "Snapshot has already occurred" else
  let? xprism := xprism_addr config in
  let? supply := query_supply q xprism in
  let st := save_poll poll_id (with_snapshot supply a_poll) st in
  Ok (st, respond []
    [("action", AStr "snapshot_poll"); ("poll_id", ANum poll_id); ("supply_snapshot", ANum supply)]).

(** ** Voting deposits (src/voting.rs) *)
Definition stake_voting_tokens (st : Storage) (sender : string) (amount : Uint128)
    : StdResult (Storage * Response) :=
  if is_zero amount then generic_err "Insufficient funds sent" else
  let? key := addr_canonicalize sender in
  let token_manager := token_manager_of st key in
  let! total := uint_add (deposit token_manager) amount in
  let st := save_bank key (mkVotingTokenManager total (locked_balance token_manager)) st in
  Ok (st, respond []
    [("action", AStr "stake_voting_tokens"); ("sender", AStr sender); ("amount", ANum amount)]).

(** One entry of the filter of [compute_locked_balance]: the voter records, the
    entries to remove, and the largest amount locked so far. *)
Definition locked_step (polls : gmap N Poll) (voter : CanonicalAddr)
    (acc : gmap (N * CanonicalAddr) VoterInfo * list N * N) (entry : N * VoterInfo)
    : option (gmap (N * CanonicalAddr) VoterInfo * list N * N) :=
  let '(voters, to_remove, max_locked) := acc in
  let '(poll_id, v) := entry in
  poll ← polls !! poll_id;
  if bool_decide (status poll ≠ InProgress)
  then Some (delete (poll_id, voter) voters, to_remove ++ [poll_id], max_locked)
  else Some (voters, to_remove, N.max max_locked (balance v)).

(** Returns the largest locked amount in participated polls, and forgets the
    votes of finished polls. *)
Definition compute_locked_balance (st : Storage) (token_manager : VotingTokenManager)
    (voter : CanonicalAddr) : StdResult (Storage * VotingTokenManager * Uint128) :=
  let! '(voters, lock_entries_to_remove, max_locked) :=
    optfold (locked_step (POLL st) voter) (POLL_VOTER st, [], 0) (locked_balance token_manager) in
  let kept := List.filter (λ entry : N * VoterInfo, negb (bool_decide (entry.1 ∈ lock_entries_to_remove)))
    (locked_balance token_manager) in
  Ok (set_voters voters st, mkVotingTokenManager (deposit token_manager) kept, max_locked).

Definition send_tokens (asset_token recipient : CanonicalAddr) (amount : Uint128) (action : string)
    : StdResult Response :=
  let? contract_human := addr_humanize asset_token in
  let? recipient_human := addr_humanize recipient in
  Ok (mkResponse [sub_new (transfer_msg contract_human recipient_human amount)]
    [("action", AStr action); ("recipient", AStr recipient_human); ("amount", ANum amount)]).

Definition withdraw_voting_tokens (st : Storage) (info : MessageInfo) (amount : option Uint128)
    : StdResult (Storage * Response) :=
  let? config := load_config st in
  let? sender_address_raw := addr_canonicalize (info_sender info) in
  let? token_manager :=
    map_err (λ _, GenericErr "no voting information found for this address")
      (load "VotingTokenManager" (BANK st !! sender_address_raw)) in
  let? '(st, token_manager, user_locked_balance) :=
    compute_locked_balance st token_manager sender_address_raw in
  let? withdrawable_balance := checked_sub (deposit token_manager) user_locked_balance in
  let withdraw_amount := default withdrawable_balance amount in
  if withdrawable_balance <? withdraw_amount
  then generic_err "User is trying to withdraw too many tokens" else
  let? remaining := checked_sub (deposit token_manager) withdraw_amount in
  let st := save_bank sender_address_raw
    (mkVotingTokenManager remaining (locked_balance token_manager)) st in
  let! xprism := xprism_token config in
  let? resp := send_tokens xprism sender_address_raw withdraw_amount "withdraw_voting_tokens" in
  Ok (st, resp).

(** ** The xPRISM exchange (src/xprism.rs) *)
Definition load_total_pending (st : Storage) : StdResult (Uint128 * Uint128) :=
  load "TotalPendingWithdraw" (TOTAL_PENDING_WITHDRAW st).

Definition mint_xprism (st : Storage) (q : Querier) (env : Env) (receiver : string) (amount : Uint128)
    : StdResult (Storage * Response) :=
  let? cfg := load_config st in
  let? prism := addr_humanize (prism_token cfg) in
  let? xprism := xprism_addr cfg in
  let? '(pending_xprism, pending_prism) := load_total_pending st in
  let? prism_balance := query_token_balance q prism (contract_address env) in
  let! before_deposit := uint_sub prism_balance amount in
  let! prism_amt := uint_sub before_deposit pending_prism in
  let? supply := query_supply q xprism in
  let! xprism_amt := uint_sub supply pending_xprism in
  let! xprism_to_mint :=
    if is_zero prism_amt then Some amount else uint_multiply_ratio amount xprism_amt prism_amt in
  Ok (st, respond [mint_msg xprism receiver xprism_to_mint]
    [("action", AStr "mint_xprism"); ("mint_amount", ANum xprism_to_mint)]).

Definition redeem_xprism (st : Storage) (q : Querier) (env : Env) (sender : string) (amount : Uint128)
    : StdResult (Storage * Response) :=
  let? cfg := load_config st in
  let? prism := addr_humanize (prism_token cfg) in
  let? xprism := xprism_addr cfg in
  let? '(pending_xprism, pending_prism) := load_total_pending st in
  let? prism_balance := query_token_balance q prism (contract_address env) in
  let! prism_amt := uint_sub prism_balance pending_prism in
  let? supply := query_supply q xprism in
  let! xprism_amt := uint_sub supply pending_xprism in
  let! prism_to_return := uint_multiply_ratio amount prism_amt xprism_amt in
  let! return_time := ts_plus_seconds (block_time env) (redemption_time cfg) in
  let end_time := ts_seconds return_time in
  if bool_decide (is_Some (WITHDRAW_ORDERS st !! (sender, end_time)))
  then generic_err "can only execute one redeem_xprism operation per block" else
  let st := set_orders (<[(sender, end_time) := (amount, prism_to_return)]> (WITHDRAW_ORDERS st)) st in
  let! total_xprism := uint_add pending_xprism amount in
  let! total_prism := uint_add pending_prism prism_to_return in
  let st := set_total_pending (total_xprism, total_prism) st in
  Ok (st, respond []
    [("action", AStr "redeem_xprism"); ("total_redeemed", ANum amount);
     ("prism_queued", ANum prism_to_return)]).

(** The loop over the orders of an address: it stops at the first order that
    has not expired, and returns the sums and the orders to delete. *)
Fixpoint sum_expired (current_time : N) (orders : list (N * (Uint128 * Uint128)))
    (acc : Uint128 * Uint128 * list N) : option (Uint128 * Uint128 * list N) :=
  match orders with
  | [] => Some acc
  | (end_time, (xprism_amt, prism_amt)) :: orders =>
      if current_time <? end_time then Some acc else
      let '(w_xprism, w_prism, to_delete) := acc in
      w_xprism ← uint_add w_xprism xprism_amt;
      w_prism ← uint_add w_prism prism_amt;
      sum_expired current_time orders (w_xprism, w_prism, to_delete ++ [end_time])
  end.

Definition remove_orders (address : Addr) (times : list N)
    (orders : gmap (Addr * N) (Uint128 * Uint128)) : gmap (Addr * N) (Uint128 * Uint128) :=
  foldl (λ m t, delete (address, t) m) orders times.

Definition compute_withdrawable (st : Storage) (current_time : N) (address : Addr)
    : StdResult (Storage * Uint128 * Uint128) :=
  let! '(w_xprism, w_prism, to_delete) :=
    sum_expired current_time
      (take MAX_ORDER_WITHDRAW_PER_TX (range_u64 (prefix (WITHDRAW_ORDERS st) address))) (0, 0, []) in
  let st := set_orders (remove_orders address to_delete (WITHDRAW_ORDERS st)) st in
  let? '(xprism, prism) := load_total_pending st in
  let? xprism := checked_sub xprism w_xprism in
  let? prism := checked_sub prism w_prism in
  Ok (set_total_pending (xprism, prism) st, w_xprism, w_prism).

Definition claim_redeemed_prism (st : Storage) (env : Env) (info : MessageInfo)
    : StdResult (Storage * Response) :=
  let? cfg := load_config st in
  let? prism := addr_humanize (prism_token cfg) in
  let? xprism := xprism_addr cfg in
  let? '(st, w_xprism, w_prism) := compute_withdrawable st (now env) (info_sender info) in
  if is_zero w_prism && is_zero w_xprism then generic_err "nothing to claim" else
  Ok (st, respond [burn_msg xprism w_xprism; transfer_msg prism (info_sender info) w_prism]
    [("action", AStr "claim_redeemed_prism"); ("prism_claimed", ANum w_prism);
     ("xprism_burned", ANum w_xprism)]).

(** ** Entry points (src/contract.rs) *)
Definition validate_quorum (quorum : Decimal) : StdResult unit :=
  if dec_one <? quorum then generic_err "quorum must be 0 to 1" else Ok tt.
Definition validate_threshold (threshold : Decimal) : StdResult unit :=
  if dec_one <? threshold then generic_err "threshold must be 0 to 1" else Ok tt.
Definition validate_poll_gas_limit (poll_gas_limit : N) : StdResult unit :=
  if poll_gas_limit <? MIN_POLL_GAS_LIMIT then generic_err "gas limit can not be smaller than {}"
  else Ok tt.

Definition instantiate (env : Env) (info : MessageInfo) (msg : InstantiateMsg)
    : StdResult (Storage * Response) :=
  let? _ := validate_quorum (im_quorum msg) in
  let? _ := validate_threshold (im_threshold msg) in
  let? _ := validate_poll_gas_limit (im_poll_gas_limit msg) in
  let? prism := addr_canonicalize (im_prism_token msg) in
  let? owner := addr_canonicalize (info_sender info) in
  let config := mkConfig owner prism None (im_quorum msg) (im_threshold msg) (im_voting_period msg)
    (im_effective_delay msg) (im_proposal_deposit msg) (im_snapshot_period msg)
    (im_redemption_time msg) (im_poll_gas_limit msg) in
  Ok (mkStorage (Some config) None (Some 1) ∅ ∅ ∅ ∅ ∅ (Some (0, 0)),
      mkResponse
        [mkSubMsg INSTANTIATE_REPLY_ID
           (WasmInstantiate (im_token_code_id msg)
              (BinToken (TokenMsg.mkInstantiateMsg "Prism Governance Token" "xPRISM" 6 []
                 (Some (TokenMsg.mkMinter (contract_address env) None)))) [] None "")
           None ReplySuccess] []).

Definition receive_cw20 (from_binary : Binary → StdResult (Cw20HookMsg Binary))
    (st : Storage) (q : Querier) (env : Env) (info : MessageInfo) (cw20_msg : Cw20ReceiveMsg Binary)
    : StdResult (Storage * Response) :=
  let? config := load_config st in
  let? sender_raw := addr_canonicalize (info_sender info) in
  let! xprism := xprism_token config in
  let sender := cw20_sender cw20_msg in
  let amount := cw20_amount cw20_msg in
  if bool_decide (xprism = sender_raw) then
    match from_binary (Protocol.cw20_msg cw20_msg) with
    | Ok StakeVotingTokens => stake_voting_tokens st sender amount
    | Ok (CreatePoll title description link execute_msg) =>
        create_poll st env sender amount title description link execute_msg
    | Ok RedeemXprism => redeem_xprism st q env sender amount
    | _ => generic_err "invalid cw20 hook message"
    end
  else if bool_decide (prism_token config = sender_raw) then
    match from_binary (Protocol.cw20_msg cw20_msg) with
    | Ok (MintXprism receiver) =>
        let receiver := default sender receiver in
        let? _ := addr_validate receiver in
        mint_xprism st q env receiver amount
    | _ => generic_err "invalid cw20 hook message"
    end
  else generic_err "unauthorized".

(** [Some(x)] replaces the old value after its validation. *)
Definition validated (check : N → StdResult unit) (old : N) (new : option N) : StdResult N :=
  match new with
  | Some x => let? _ := check x in Ok x
  | None => Ok old
  end.

Definition update_config (st : Storage) (info : MessageInfo) (new_owner : option string)
    (new_quorum new_threshold : option Decimal) (new_voting_period new_effective_delay : option N)
    (new_proposal_deposit : option Uint128)
    (new_snapshot_period new_redemption_time new_poll_gas_limit : option N)
    : StdResult (Storage * Response) :=
  let? config := load_config st in
  let? sender_raw := addr_canonicalize (info_sender info) in
  if bool_decide (owner config ≠ sender_raw) then generic_err "unauthorized" else
  let? owner' :=
    match new_owner with Some o => addr_canonicalize o | None => Ok (owner config) end in
  let? quorum' := validated validate_quorum (quorum config) new_quorum in
  let? threshold' := validated validate_threshold (threshold config) new_threshold in
  let? gas' := validated validate_poll_gas_limit (poll_gas_limit config) new_poll_gas_limit in
  let config := mkConfig owner' (prism_token config) (xprism_token config) quorum' threshold'
    (default (voting_period config) new_voting_period)
    (default (effective_delay config) new_effective_delay)
    (default (proposal_deposit config) new_proposal_deposit)
    (default (snapshot_period config) new_snapshot_period)
    (default (redemption_time config) new_redemption_time) gas' in
  Ok (set_config config st, respond [] []).

Definition execute (from_binary : Binary → StdResult (Cw20HookMsg Binary))
    (st : Storage) (q : Querier) (env : Env) (info : MessageInfo) (msg : ExecuteMsg Binary)
    : StdResult (Storage * Response) :=
  match msg with
  | Receive m => receive_cw20 from_binary st q env info m
  | UpdateConfig owner quorum threshold voting_period effective_delay proposal_deposit
      snapshot_period redemption_time poll_gas_limit =>
      update_config st info owner quorum threshold voting_period effective_delay
        proposal_deposit snapshot_period redemption_time poll_gas_limit
  | WithdrawVotingTokens amount => withdraw_voting_tokens st info amount
  | CastVote poll_id vote amount => cast_vote st q env info poll_id vote amount
  | EndPoll poll_id => end_poll st q env poll_id
  | ExecutePoll poll_id => execute_poll st env poll_id
  | SnapshotPoll poll_id => snapshot_poll st q env poll_id
  | ClaimRedeemedXprism => claim_redeemed_prism st env info
  end.

Definition set_xprism_token (st : Storage) (msg : Reply bytes) : StdResult (Storage * Response) :=
  let? config := load_config st in
  if bool_decide (is_Some (xprism_token config)) then generic_err "xprism token was already set" else
  let? res := map_err (λ _, GenericErr "error parsing xprism instantiation reply")
    (ParseReply.parse_reply_instantiate_data msg) in
  let? xprism_token_addr := addr_validate (ParseReply.contract_address res) in
  let? raw := addr_canonicalize xprism_token_addr in
  let config := mkConfig (owner config) (prism_token config) (Some raw) (quorum config)
    (threshold config) (voting_period config) (effective_delay config) (proposal_deposit config)
    (snapshot_period config) (redemption_time config) (poll_gas_limit config) in
  Ok (set_config config st, respond [] [("xprism_token_addr", AStr xprism_token_addr)]).

Definition reply (st : Storage) (msg : Reply bytes) : StdResult (Storage * Response) :=
  if reply_id msg =? POLL_EXECUTE_REPLY_ID then
    let? poll_id := load "u64" (TMP_POLL_ID st) in
    failed_poll st poll_id
  else if reply_id msg =? INSTANTIATE_REPLY_ID then set_xprism_token st msg
  else generic_err "reply id is invalid".

(** ** Queries (src/contract.rs, src/voting.rs, src/xprism.rs) *)
Definition query_config (st : Storage) : StdResult ConfigResponse :=
  let? config := load_config st in
  let? owner_addr := addr_humanize (owner config) in
  let? prism := addr_humanize (prism_token config) in
  let? xprism := xprism_addr config in
  Ok (mkConfigResponse owner_addr prism xprism (quorum config) (threshold config)
    (voting_period config) (effective_delay config) (proposal_deposit config)
    (snapshot_period config) (redemption_time config) (poll_gas_limit config)).

Definition poll_response (poll : Poll) : StdResult (PollResponse Binary) :=
  let! creator_addr := unwrap (addr_humanize (creator poll)) in
  let? data :=
    match execute_data poll with
    | Some d => let? contract := addr_humanize (ed_contract d) in
                Ok (Some (mkPollExecuteMsg contract (ed_msg d)))
    | None => Ok None
    end in
  Ok (mkPollResponse (id poll) creator_addr (status poll) (end_time poll) (title poll)
    (description poll) (link poll) (deposit_amount poll) data (yes_votes poll) (no_votes poll)
    (abstain_votes poll) (supply_snapshot poll) (required_quorum poll) (required_threshold poll)).

Definition query_poll (st : Storage) (poll_id : N) : StdResult (PollResponse Binary) :=
  match POLL st !! poll_id with
  | Some poll => poll_response poll
  | None => generic_err "Poll does not exist"
  end.

Definition query_polls (st : Storage) (filter : option PollStatus) (start_after limit : option N)
    (order_by : option OrderBy) : StdResult (list (PollResponse Binary)) :=
  let? polls := read_polls st filter start_after limit order_by in omapM poll_response polls.

Definition query_voter (st : Storage) (poll_id : N) (address : string) : StdResult VotersResponseItem :=
  let? raw := addr_canonicalize address in
  let? voter := load "VoterInfo" (POLL_VOTER st !! (poll_id, raw)) in
  Ok (mkVotersResponseItem address (vote voter) (balance voter)).

Definition query_voters (st : Storage) (poll_id : N) (start_after : option string)
    (limit : option N) (order_by : option OrderBy) : StdResult (list VotersResponseItem) :=
  let? start :=
    match start_after with
    | Some s => let? raw := addr_canonicalize s in Ok (Some raw)
    | None => Ok None
    end in
  omapM (λ '(raw, v),
      let? voter := addr_humanize raw in Ok (mkVotersResponseItem voter (vote v) (balance v)))
    (read_poll_voters st poll_id start limit order_by).

(** [retain] with the condition of the source, which panics on a missing poll. *)
Definition retain_in_progress (polls : gmap N Poll) (l : list (N * VoterInfo))
    : option (list (N * VoterInfo)) :=
  optfold (λ kept entry,
      poll ← polls !! entry.1;
      Some (if bool_decide (status poll = InProgress) then kept ++ [entry] else kept)) [] l.

Definition query_voting_tokens (st : Storage) (address : string) : StdResult VotingTokensResponse :=
  let! raw := unwrap (addr_canonicalize address) in
  let? token_manager :=
    map_err (λ _, GenericErr "no voting information found for this address")
      (load "VotingTokenManager" (BANK st !! raw)) in
  let! locked := retain_in_progress (POLL st) (locked_balance token_manager) in
  Ok (mkVotingTokensResponse (deposit token_manager) locked).

Definition query_prism_withdraw_orders (st : Storage) (env : Env) (address : string)
    (start_after limit : option N) (order_by : option OrderBy) : StdResult PrismWithdrawOrdersResponse :=
  let? address := addr_validate address in
  let '(start, stop, order_by) :=
    match order_by with
    | Some Desc => (None, start_after, Desc)
    | _ => (start_after, None, Asc)
    end in
  let! '(claimable, orders) :=
    optfold (λ acc item,
        let '(claimable, orders) := acc in
        let '(end_time, (_, prism_amt)) := item in
        claimable ← (if end_time <=? now env then uint_add claimable prism_amt else Some claimable);
        Some (claimable, orders ++ [(end_time, prism_amt)])) (0, [])
      (take (page limit) (in_order order_by
         (before N.ltb stop (after N.ltb start (range_u64 (prefix (WITHDRAW_ORDERS st) address)))))) in
  Ok (mkPrismWithdrawOrdersResponse claimable orders).

Definition query_xprism_state (st : Storage) (q : Querier) (env : Env) : StdResult XprismStateResponse :=
  let? cfg := load_config st in
  let? prism := addr_humanize (prism_token cfg) in
  let? xprism := xprism_addr cfg in
  let? '(pending_xprism, pending_prism) := load_total_pending st in
  let? prism_balance := query_token_balance q prism (contract_address env) in
  let! prism_amt := uint_sub prism_balance pending_prism in
  let? supply := query_supply q xprism in
  let! xprism_amt := uint_sub supply pending_xprism in
  let! exchange_rate := dec_from_ratio prism_amt xprism_amt in
  Ok (mkXprismStateResponse exchange_rate xprism_amt prism_amt pending_xprism pending_prism).

(** The answer a query serialises. *)
Inductive QueryAnswer : Type :=
  | AConfig (r : ConfigResponse)
  | AVotingTokens (r : VotingTokensResponse)
  | APoll (r : PollResponse Binary)
  | APolls (r : list (PollResponse Binary))
  | AVoter (r : VotersResponseItem)
  | AVoters (r : list VotersResponseItem)
  | AWithdrawOrders (r : PrismWithdrawOrdersResponse)
  | AXprismState (r : XprismStateResponse).

Definition query (st : Storage) (q : Querier) (env : Env) (msg : QueryMsg) : StdResult QueryAnswer :=
  match msg with
  | QConfig => let? r := query_config st in Ok (AConfig r)
  | QVotingTokens address => let? r := query_voting_tokens st address in Ok (AVotingTokens r)
  | QPoll poll_id => let? r := query_poll st poll_id in Ok (APoll r)
  | QPolls filter start_after limit order_by =>
      let? r := query_polls st filter start_after limit order_by in Ok (APolls r)
  | QVoter poll_id address => let? r := query_voter st poll_id address in Ok (AVoter r)
  | QVoters poll_id start_after limit order_by =>
      let? r := query_voters st poll_id start_after limit order_by in Ok (AVoters r)
  | QPrismWithdrawOrders address start_after limit order_by =>
      let? r := query_prism_withdraw_orders st env address start_after limit order_by in
      Ok (AWithdrawOrders r)
  | QXprismState => let? r := query_xprism_state st q env in Ok (AXprismState r)
  end.
End contract.
End Gov.
