(* ===== verification/GovProofs.v ===== *)
(** * Correctness of the governance contract: polls, votes and the exchange *)
From S2P Require Import Prelude Cosmwasm Protocol Wire Gov.
Import GovMsg Gov.

Section proofs.
Context {P : Cosmwasm} {L : CosmwasmLaws P}.

(** ** The life of a poll *)

(** The moves between the statuses of a poll. *)
Inductive status_edge : PollStatus → PollStatus → Prop :=
  | edge_passed : status_edge InProgress Passed
  | edge_rejected : status_edge InProgress Rejected
  | edge_executed : status_edge Passed Executed
  | edge_failed : status_edge Executed Failed.

(** How a poll may change: its terms are fixed, its status moves along the
    edges, a snapshot is taken once, votes are only added, and only while the
    poll is in progress. *)
Record evolves (p p' : Poll) : Prop := {
  ev_terms :
    (id p', creator p', end_time p', (title p', description p', link p'), execute_data p',
     deposit_amount p', required_quorum p', required_threshold p') =
    (id p, creator p, end_time p, (title p, description p, link p), execute_data p,
     deposit_amount p, required_quorum p, required_threshold p);
  ev_status : rtc status_edge (status p) (status p');
  ev_snapshot : supply_snapshot p = None ∨ supply_snapshot p' = supply_snapshot p;
  ev_votes : yes_votes p ≤ yes_votes p' ∧ no_votes p ≤ no_votes p' ∧ abstain_votes p ≤ abstain_votes p';
  ev_final : status p ≠ InProgress →
    (yes_votes p', no_votes p', abstain_votes p', supply_snapshot p') =
    (yes_votes p, no_votes p, abstain_votes p, supply_snapshot p) }.

#[global] Instance evolves_refl : Reflexive evolves.
Proof. intros p. split; try done; by right. Qed.

Lemma edge_leaves s s' : status_edge s s' → s' ≠ InProgress.
Proof. by destruct 1. Qed.

Lemma leaves_progress s s' : rtc status_edge s s' → s ≠ InProgress → s' ≠ InProgress.
Proof. induction 1 as [|s1 s2 s3 H _ IH]; [done|]. intros _. apply IH. by eapply edge_leaves. Qed.

#[global] Instance evolves_trans : Transitive evolves.
Proof.
  intros p1 p2 p3 [T1 S1 N1 V1 F1] [T2 S2 N2 V2 F2]. split.
  - by rewrite T2.
  - by transitivity (status p2).
  - destruct N1 as [|N1]; [by left|]. destruct N2 as [N2|N2]; [left|right]; congruence.
  - lia.
  - intros H. specialize (F1 H). rewrite F2; [done|]. by apply (leaves_progress (status p1)).
Qed.

Record PollsInv (st : Storage) : Prop := {
  pi_id i p : POLL st !! i = Some p → id p = i ∧ ∃ n, LAST_POLL_ID st = Some n ∧ i < n;
  pi_index s i :
    is_Some (POLL_INDEXER st !! (s, i)) ↔ ∃ p, POLL st !! i = Some p ∧ status p = s;
  pi_tmp i : TMP_POLL_ID st = Some i →
    ∃ p, POLL st !! i = Some p ∧ (status p = Executed ∨ status p = Failed) }.

(** The poll part of two storages is the same. *)
Definition same_polls (st st' : Storage) : Prop :=
  POLL st' = POLL st ∧ LAST_POLL_ID st' = LAST_POLL_ID st ∧
  POLL_INDEXER st' = POLL_INDEXER st ∧ TMP_POLL_ID st' = TMP_POLL_ID st.

Lemma polls_inv_same st st' : same_polls st st' → PollsInv st → PollsInv st'.
Proof. intros (HP & HL & HI & HT) []. split; rewrite ?HP, ?HL, ?HI, ?HT; eauto. Qed.

(** Replacing a poll by a later version of itself, moving its index entry. *)
Lemma polls_inv_update st st' i p p' :
  PollsInv st → POLL st !! i = Some p → evolves p p' →
  POLL st' = <[i := p']> (POLL st) → LAST_POLL_ID st' = LAST_POLL_ID st →
  (∀ s j, is_Some (POLL_INDEXER st' !! (s, j)) ↔
     if decide (j = i) then s = status p' else is_Some (POLL_INDEXER st !! (s, j))) →
  (TMP_POLL_ID st' = TMP_POLL_ID st ∨ TMP_POLL_ID st' = Some i ∧ status p' = Executed) →
  PollsInv st'.
Proof.
  intros [Hid Hix Htmp] Hp Hev HP HL HI HT. split.
  - intros j pj. rewrite HP, HL, lookup_insert. case_decide as Hj; [|by apply Hid].
    intros [= <-]. subst j. destruct (Hid _ _ Hp) as [Hi ?]. split; [|done].
    pose proof (ev_terms _ _ Hev). congruence.
  - intros s j. rewrite HI, HP, lookup_insert. destruct (decide (j = i)) as [->|Hj].
    + rewrite decide_True by done. naive_solver.
    + rewrite decide_False by done. apply Hix.
  - intros j Hj. rewrite HP, lookup_insert. destruct HT as [HT|[HT Hs]].
    + rewrite HT in Hj. destruct (Htmp _ Hj) as (pj & Hpj & Hs). case_decide as Hij; [|eauto].
      subst j. exists p'. split; [done|]. simplify_eq.
      pose proof (ev_status _ _ Hev) as Hst. clear -Hs Hst. destruct Hs as [Hs|Hs]; rewrite Hs in Hst.
      * inversion Hst as [|? s2 ? H1 H2]; subst; [auto|]. inversion H1; subst.
        inversion H2 as [|? s3 ? H3 _]; subst; [auto|]. inversion H3.
      * inversion Hst as [|? s2 ? H1 _]; subst; [auto|]. inversion H1.
    + rewrite HT in Hj. simplify_eq. rewrite decide_True by done. eauto.
Qed.

(** The index after a poll moved from status [s1] to status [s2]. *)
Lemma index_moved st i s1 s2 p :
  PollsInv st → POLL st !! i = Some p → status p = s1 →
  ∀ s j, is_Some (POLL_INDEXER (index_save s2 i (index_remove s1 i st)) !! (s, j)) ↔
    if decide (j = i) then s = s2 else is_Some (POLL_INDEXER st !! (s, j)).
Proof.
  intros HI Hp Hs s j. simpl. rewrite is_Some_insert, lookup_delete_is_Some.
  destruct (decide (j = i)) as [->|Hj]; split.
  - intros [|[? (p' & Hp' & Hs')%(pi_index _ HI)]]; congruence.
  - intros ->. by left.
  - intros [|[_ ?]]; [congruence|done].
  - intros ?. right. split; [congruence|done].
Qed.

Lemma index_kept st i p s0 :
  PollsInv st → POLL st !! i = Some p → status p = s0 →
  ∀ s j, is_Some (POLL_INDEXER st !! (s, j)) ↔
    if decide (j = i) then s = s0 else is_Some (POLL_INDEXER st !! (s, j)).
Proof.
  intros HI Hp <- s j. case_decide as Hj; [|done]. subst. rewrite (pi_index _ HI).
  split; [by intros (? & ? & <-); simplify_eq|intros ->; eauto].
Qed.

(** ** What each operation on polls does *)
Ltac gov_facts :=
  unfold load_config, load_poll, load_total_pending in *; platform_facts; simplify_eq/=;
  repeat match goal with H : ¬ (_ ≠ _) |- _ => apply dec_stable in H end.

Lemma validated_length s lo hi (e1 e2 : string) u :
  (if len s <? lo then generic_err e1 else if hi <? len s then generic_err e2 else Ok ()) = Ok u →
  lo ≤ len s ≤ hi.
Proof. intros H. inv_ok H. ok_facts. lia. Qed.

Lemma validate_title_spec t u : validate_title t = Ok u → 4 ≤ len t ≤ 64.
Proof. intros H. by apply validated_length in H. Qed.
Lemma validate_description_spec t u : validate_description t = Ok u → 4 ≤ len t ≤ 256.
Proof. intros H. by apply validated_length in H. Qed.
Lemma validate_link_spec l u : validate_link l = Ok u → ∀ s, l = Some s → 12 ≤ len s ≤ 128.
Proof. intros H s ->. by apply validated_length in H. Qed.

Lemma pop_last_poll_id_spec st n st' :
  pop_last_poll_id st = Ok (n, st') → LAST_POLL_ID st = Some n ∧ st' = store_last_poll_id (n + 1) st.
Proof. unfold pop_last_poll_id. intros H. inv_body H. done. Qed.

Lemma create_poll_spec st env proposer d t desc l m st' resp :
  create_poll st env proposer d t desc l m = Ok (st', resp) →
  ∃ config raw n data finish, CONFIG st = Some config ∧ addr_canonicalize proposer = Ok raw ∧
    LAST_POLL_ID st = Some n ∧ proposal_deposit config ≤ d ∧
    4 ≤ len t ≤ 64 ∧ 4 ≤ len desc ≤ 256 ∧ (∀ s, l = Some s → 12 ≤ len s ≤ 128) ∧
    finish = now env + voting_period config ∧
    st' = index_save InProgress n (save_poll n
      (mkPoll n raw InProgress 0 0 0 finish t desc l data d None (quorum config) (threshold config))
      (store_last_poll_id (n + 1) st)) ∧ messages resp = [].
Proof.
  unfold create_poll. intros H. inv_body H. apply validate_title_spec in Ha. apply validate_description_spec in Ha0.
  pose proof (validate_link_spec _ _ Ha1). apply pop_last_poll_id_spec in Ha5 as [? ->]. gov_facts.
  eexists _, _, _, _, _. split_and!; try done; lia.
Qed.

Lemma xprism_addr_Ok c a : xprism_addr c = Ok a → ∃ raw, xprism_token c = Some raw ∧ addr_humanize raw = Ok a.
Proof. unfold xprism_addr. intros H. inv_ok H. eauto. Qed.

(** The share of the yes votes among the votes that take a side. *)
Definition majority (p : Poll) : bool :=
  negb (yes_votes p =? 0) &&
  (required_threshold p <? yes_votes p * DECIMAL_UNIT / (yes_votes p + no_votes p)).

(** The share of the supply [s] that voted. *)
Definition participation (p : Poll) (s : N) : N :=
  if s =? 0 then 0 else (yes_votes p + no_votes p + abstain_votes p) * DECIMAL_UNIT / s.

Definition quorate (p : Poll) (s : N) : bool :=
  negb (yes_votes p + no_votes p + abstain_votes p =? 0) && (required_quorum p <=? participation p s).

Definition decision (p : Poll) (s : N) : PollStatus :=
  if quorate p s && majority p then Passed else Rejected.

(** What happens to the deposit of a poll that ends. *)
Definition deposit_messages (p : Poll) (s : N) (xprism proposer : Addr) : list CosmosMsg :=
  if deposit_amount p =? 0 then []
  else if quorate p s then [transfer_msg xprism proposer (deposit_amount p)]
  else [burn_msg xprism (deposit_amount p)].

(** The conditions without divisions. *)
Lemma quorate_spec p s :
  quorate p s = true ↔
  yes_votes p + no_votes p + abstain_votes p ≠ 0 ∧ (s = 0 → required_quorum p = 0) ∧
  required_quorum p * s ≤ (yes_votes p + no_votes p + abstain_votes p) * DECIMAL_UNIT.
Proof.
  unfold quorate, participation. rewrite andb_true_iff, negb_true_iff, N.eqb_neq, N.leb_le.
  set (n := yes_votes p + no_votes p + abstain_votes p). destruct (N.eqb_spec s 0) as [->|Hs].
  - split; [intros [? ?]|intros (? & H & _); specialize (H eq_refl)]; split_and!; lia.
  - split; [intros [? Hq]; split_and!; [done|done|]|intros (? & _ & Hq); split; [done|]].
    + pose proof (N.Div0.mul_div_le (n * DECIMAL_UNIT) s). nia.
    + apply N.div_le_lower_bound; [done|lia].
Qed.

Lemma majority_spec p :
  majority p = true ↔
  yes_votes p ≠ 0 ∧ (required_threshold p + 1) * (yes_votes p + no_votes p) ≤ yes_votes p * DECIMAL_UNIT.
Proof.
  unfold majority. rewrite andb_true_iff, negb_true_iff, N.eqb_neq, N.ltb_lt.
  split; intros [Hy Hm]; (split; [done|]).
  - pose proof (N.Div0.mul_div_le (yes_votes p * DECIMAL_UNIT) (yes_votes p + no_votes p)). nia.
  - apply N.le_succ_l. rewrite <-N.add_1_r. apply N.div_le_lower_bound; lia.
Qed.

Lemma threshold_reached_spec p b :
  threshold_reached (yes_votes p) (no_votes p) (required_threshold p) = Some b → b = majority p.
Proof.
  unfold threshold_reached, majority, is_zero. destruct (_ =? 0); simpl; [by intros [= <-]|].
  intros H. simplify_option_eq. by platform_facts.
Qed.

Lemma poll_outcome_spec p s xp tallied quorum st r ms :
  tallied = yes_votes p + no_votes p + abstain_votes p → quorum = participation p s →
  poll_outcome p xp tallied quorum = Ok (st, r, ms) →
  st = decision p s ∧
  ∃ proposer, (quorate p s = true → deposit_amount p ≠ 0 → addr_humanize (creator p) = Ok proposer) ∧
    ms = deposit_messages p s xp proposer.
Proof.
  intros -> ->. unfold poll_outcome, decision, deposit_messages, quorate, is_zero. intros H.
  rewrite (N.leb_antisym (participation p s)). 
  destruct (_ =? 0) eqn:Hz; simpl in *.
  { simplify_eq. split; [done|]. exists ""%string. split; [done|]. by destruct (_ =? 0). }
  destruct (participation p s <? required_quorum p); simpl in *.
  { simplify_eq. split; [done|]. exists ""%string. split; [done|]. by destruct (_ =? 0). }
  inv_ok H; subst; simplify_eq; apply threshold_reached_spec in Ha as ->; ok_facts; subst.
  split; [by destruct (majority p)|]. destruct (N.eqb_spec (deposit_amount p) 0).
  - exists ""%string. simplify_eq. done.
  - inv_ok Ha0. subst. eauto.
Qed.

Lemma with_snapshot_same p s : supply_snapshot p = Some s → with_snapshot s p = p.
Proof. destruct p. simpl. by intros ->. Qed.

Lemma end_poll_spec st q env i st' resp :
  end_poll st q env i = Ok (st', resp) →
  ∃ config p s xp proposer, CONFIG st = Some config ∧ POLL st !! i = Some p ∧
    xprism_addr config = Ok xp ∧
    status p = InProgress ∧ end_time p ≤ now env ∧
    (supply_snapshot p = Some s ∨ supply_snapshot p = None ∧ query_supply q xp = Ok s) ∧
    (quorate p s = true → deposit_amount p ≠ 0 → addr_humanize (creator p) = Ok proposer) ∧
    st' = save_poll i (with_status (decision p s) (with_snapshot s p))
            (index_save (decision p s) (id p) (index_remove InProgress (id p) st)) ∧
    messages resp = sub_new <$> deposit_messages p s xp proposer.
Proof.
  unfold end_poll. intros H. inv_body H. gov_facts. rename p into p', a0 into p.
  assert (a5 = if n =? 0 then 0
    else (yes_votes p + no_votes p + abstain_votes p) * DECIMAL_UNIT / n) as ->.
  { unfold is_zero in Ha5. destruct (n =? 0); [by simplify_eq|by platform_facts]. }
  assert (p' = with_snapshot n p ∧
    (supply_snapshot p = Some n ∨ supply_snapshot p = None ∧ query_supply q a1 = Ok n)) as [-> Hs].
  { inv_ok Ha4; simplify_eq; [|by auto]. split; [|by auto]. by rewrite with_snapshot_same. }
  apply (poll_outcome_spec _ n) in Ha6 as (-> & proposer & Hpr & ->); [|done..].
  exists a, p, n, a1, proposer. by split_and!.
Qed.

Lemma execute_poll_spec st env i st' resp :
  execute_poll st env i = Ok (st', resp) →
  ∃ config p data contract, CONFIG st = Some config ∧ POLL st !! i = Some p ∧ status p = Passed ∧
    end_time p + effective_delay config ≤ now env ∧ execute_data p = Some data ∧
    addr_humanize (ed_contract data) = Ok contract ∧
    st' = store_tmp_poll_id (id p) (save_poll i (with_status Executed p)
            (index_save Executed i (index_remove Passed i st))) ∧
    messages resp = [mkSubMsg POLL_EXECUTE_REPLY_ID (WasmExecute contract (ed_msg data) [])
                       (Some (poll_gas_limit config)) ReplyError].
Proof.
  unfold execute_poll. intros H. inv_body H. gov_facts. eexists _, _, _, _. by split_and!.
Qed.

Lemma failed_poll_spec st i st' resp :
  failed_poll st i = Ok (st', resp) →
  ∃ p, POLL st !! i = Some p ∧ messages resp = [] ∧
    st' = save_poll i (with_status Failed p) (index_save Failed i (index_remove Executed i st)).
Proof. unfold failed_poll. intros H. inv_body H. gov_facts. eauto. Qed.

Lemma snapshot_poll_spec st q env i st' resp :
  snapshot_poll st q env i = Ok (st', resp) →
  ∃ config p s xp, CONFIG st = Some config ∧ POLL st !! i = Some p ∧ xprism_addr config = Ok xp ∧
    status p = InProgress ∧ now env ≤ end_time p ≤ now env + snapshot_period config ∧
    supply_snapshot p = None ∧ query_supply q xp = Ok s ∧
    st' = save_poll i (with_snapshot s p) st ∧ messages resp = [].
Proof.
  unfold snapshot_poll. intros H. inv_body H. gov_facts. eexists _, _, _, _. split_and!; try done; [lia|].
  by apply eq_None_not_Some.
Qed.

(** The vote [v] of [n] tokens added to the tally. *)
Definition voted (v : VoteOption) (n : N) (p : Poll) : Poll :=
  with_votes (yes_votes p + if decide (v = Yes) then n else 0)
    (no_votes p + if decide (v = No) then n else 0)
    (abstain_votes p + if decide (v = Abstain) then n else 0) p.

Lemma add_vote_spec v n p p' : add_vote v n p = Some p' → p' = voted v n p.
Proof.
  unfold add_vote, voted. intros H. destruct v; simplify_option_eq; platform_facts; by rewrite !N.add_0_r.
Qed.

Lemma cast_vote_spec st q env info i v n st' resp :
  cast_vote st q env info i v n = Ok (st', resp) →
  ∃ config key p p', let m := token_manager_of st key in
    CONFIG st = Some config ∧ addr_canonicalize (info_sender info) = Ok key ∧
    POLL st !! i = Some p ∧ status p = InProgress ∧ now env ≤ end_time p ∧
    POLL_VOTER st !! (i, key) = None ∧ n ≤ deposit m ∧ (length (locked_balance m) < 20)%nat ∧
    (p' = voted v n p ∨ ∃ s xp, supply_snapshot p = None ∧ xprism_addr config = Ok xp ∧
       query_supply q xp = Ok s ∧ end_time p < now env + snapshot_period config ∧
       p' = with_snapshot s (voted v n p)) ∧
    st' = save_poll i p' (set_voters (<[(i, key) := mkVoterInfo v n]> (POLL_VOTER st))
            (save_bank key (mkVotingTokenManager (deposit m)
               (locked_balance m ++ [(i, mkVoterInfo v n)])) st)) ∧
    messages resp = [].
Proof.
  unfold cast_vote. intros H. inv_body H. gov_facts. apply add_vote_spec in Ha2 as ->.
  exists a0, a, a1, a4. cbv zeta. unfold MAX_POLL_VOTES_PER_USER in *.
  split_and!; try done; [by apply eq_None_not_Some|lia|].
  destruct (_ && _)%bool eqn:E5; simplify_eq; [|by left]. right. ok_facts. inv_body Ha4. gov_facts.
  eexists _, _. split_and!; try done; [by apply eq_None_not_Some|]. lia.
Qed.

(** ** Voting deposits *)
Definition in_progress (polls : gmap N Poll) (i : N) : bool :=
  match polls !! i with Some p => bool_decide (status p = InProgress) | None => false end.

(** The entries of a list of votes whose poll is still in progress. *)
Definition live (polls : gmap N Poll) (l : list (N * VoterInfo)) : list (N * VoterInfo) :=
  List.filter (λ e, in_progress polls e.1) l.
Definition max_balance (l : list (N * VoterInfo)) : N := foldr N.max 0 ((λ e, balance e.2) <$> l).

Lemma elem_of_live polls l e : e ∈ live polls l ↔ e ∈ l ∧ in_progress polls e.1 = true.
Proof. unfold live. rewrite !list_elem_of_In. apply filter_In. Qed.

Lemma max_balance_ge l e : e ∈ l → balance e.2 ≤ max_balance l.
Proof. unfold max_balance. induction 1 as [|e e' l _ IH]; csimpl; lia. Qed.

Lemma max_balance_le l b : (∀ e, e ∈ l → balance e.2 ≤ b) → max_balance l ≤ b.
Proof.
  unfold max_balance. induction l as [|e l IH]; csimpl; intros H; [lia|].
  pose proof (H e ltac:(left)). specialize (IH (λ e' He, H e' ltac:(by right))). lia.
Qed.

Lemma locked_loop polls voter l acc voters removed mx :
  optfold (locked_step polls voter) acc l = Some (voters, removed, mx) →
  let '(voters0, removed0, mx0) := acc in
  (∀ e, e ∈ l → is_Some (polls !! e.1)) ∧
  (∀ i, i ∈ removed ↔ i ∈ removed0 ∨ (i ∈ l.*1 ∧ in_progress polls i = false)) ∧
  (∀ i a, voters !! (i, a) =
     if decide (a = voter ∧ i ∈ l.*1 ∧ in_progress polls i = false) then None else voters0 !! (i, a)) ∧
  mx = N.max mx0 (max_balance (live polls l)).
Proof.
  revert acc. induction l as [|[j v] l IH]; intros [[voters0 removed0] mx0]; csimpl.
  { intros [= <- <- <-]. split_and!; [by intros e ?%not_elem_of_nil| | |cbn; lia].
    - intros i. split; [by left|]. by intros [?|[?%not_elem_of_nil _]].
    - intros i a. rewrite decide_False; [done|]. by intros (_ & ?%not_elem_of_nil & _). }
  destruct (polls !! j) as [p|] eqn:Hp; simpl; [|discriminate].
  assert (in_progress polls j = bool_decide (status p = InProgress)) as Hj by (unfold in_progress; by rewrite Hp).
  unfold live. csimpl. rewrite Hj. case_bool_decide as Hs; case_bool_decide as Hs'; try done; simpl.
  - intros (H1 & H2 & H3 & H4)%IH. split_and!.
    + intros e [->|?]%elem_of_cons; [by eexists|by apply H1].
    + intros i. rewrite H2, elem_of_cons. split; [intros [?|[??]]; auto|].
      intros [?|[[->|?] ?]]; [auto|congruence|auto].
    + intros i a. rewrite H3. case_decide as C1; case_decide as C2; try done; exfalso.
      * apply C2. destruct C1 as (? & ? & ?). rewrite elem_of_cons. auto.
      * apply C1. destruct C2 as (? & [->|?]%elem_of_cons & ?); [congruence|auto].
    + rewrite H4. unfold live, max_balance. csimpl. lia.
  - intros (H1 & H2 & H3 & H4)%IH. split_and!.
    + intros e [->|?]%elem_of_cons; [by eexists|by apply H1].
    + intros i. rewrite H2, elem_of_app, list_elem_of_singleton, elem_of_cons.
      split; [intros [[?| ->]|[??]]; auto|]. intros [?|[[->|?] ?]]; auto.
    + intros i a. rewrite H3, lookup_delete.
      destruct (decide ((j, voter) = (i, a))) as [[= <- <-]|Hne].
      { rewrite (decide_True (P:=_ ∧ j ∈ j :: _ ∧ _)) by (split_and!; [done|by left|done]).
        by case_decide. }
      case_decide as C1; case_decide as C2; try done; exfalso.
      * apply C2. destruct C1 as (? & ? & ?). rewrite elem_of_cons. auto.
      * apply C1. destruct C2 as (-> & [->|?]%elem_of_cons & ?); [done|auto].
    + done.
Qed.

Lemma compute_locked_balance_spec st m voter st' m' locked :
  compute_locked_balance st m voter = Ok (st', m', locked) →
  (∀ e, e ∈ locked_balance m → is_Some (POLL st !! e.1)) ∧
  (∃ voters, st' = set_voters voters st ∧ ∀ i a, voters !! (i, a) =
     if decide (a = voter ∧ i ∈ (locked_balance m).*1 ∧ in_progress (POLL st) i = false)
     then None else POLL_VOTER st !! (i, a)) ∧
  m' = mkVotingTokenManager (deposit m) (live (POLL st) (locked_balance m)) ∧
  locked = max_balance (live (POLL st) (locked_balance m)).
Proof.
  unfold compute_locked_balance. intros H. inv_body H.
  apply locked_loop in Ha as (H1 & H2 & H3 & ->). split_and!; [done|by eexists| |lia].
  f_equal. apply filter_ext_in. intros [i v] Hin%list_elem_of_In. simpl.
  assert (i ∈ (locked_balance m).*1) as Hi by (apply list_elem_of_fmap; by exists (i, v)).
  case_bool_decide as Hr; rewrite H2 in Hr; simpl.
  - destruct Hr as [?%not_elem_of_nil|[_ ->]]; done.
  - destruct (in_progress (POLL st) i) eqn:Hp; [done|]. exfalso. auto.
Qed.

Lemma stake_voting_tokens_spec st sender n st' resp :
  stake_voting_tokens st sender n = Ok (st', resp) →
  ∃ key, addr_canonicalize sender = Ok key ∧ n ≠ 0 ∧ messages resp = [] ∧
  let m := token_manager_of st key in
  st' = save_bank key (mkVotingTokenManager (deposit m + n) (locked_balance m)) st.
Proof. unfold stake_voting_tokens. intros H. inv_body H. apply N.eqb_neq in E. eauto. Qed.

Lemma withdraw_voting_tokens_spec st info amount st' resp :
  withdraw_voting_tokens st info amount = Ok (st', resp) →
  ∃ config key m xp recipient voters, let locked := live (POLL st) (locked_balance m) in
    CONFIG st = Some config ∧ addr_canonicalize (info_sender info) = Ok key ∧
    BANK st !! key = Some m ∧ (∀ e, e ∈ locked_balance m → is_Some (POLL st !! e.1)) ∧
    xprism_addr config = Ok xp ∧ addr_humanize key = Ok recipient ∧
    let n := default (deposit m - max_balance locked) amount in
    n + max_balance locked ≤ deposit m ∧
    (∀ i a, voters !! (i, a) =
     if decide (a = key ∧ i ∈ (locked_balance m).*1 ∧ in_progress (POLL st) i = false)
     then None else POLL_VOTER st !! (i, a)) ∧
    st' = save_bank key (mkVotingTokenManager (deposit m - n) locked) (set_voters voters st) ∧
    messages resp = [sub_new (transfer_msg xp recipient n)].
Proof.
  unfold withdraw_voting_tokens, send_tokens. intros H. inv_body H. gov_facts.
  apply compute_locked_balance_spec in Ha2 as (Hk & (voters & -> & Hv) & -> & ->). simpl in *. platform_facts.
  inv_body Ha6. eexists a, a0, a1, _, _, voters. cbv zeta. split_and!; try done; [|lia].
  unfold xprism_addr. by rewrite Ha5.
Qed.

(** ** The exchange *)
Lemma mint_xprism_spec st q env receiver n st' resp :
  mint_xprism st q env receiver n = Ok (st', resp) →
  ∃ config prism xp px pp b s, CONFIG st = Some config ∧ addr_humanize (prism_token config) = Ok prism ∧
    xprism_addr config = Ok xp ∧ TOTAL_PENDING_WITHDRAW st = Some (px, pp) ∧
    query_token_balance q prism (contract_address env) = Ok b ∧ query_supply q xp = Ok s ∧
    n + pp ≤ b ∧ px ≤ s ∧ st' = st ∧
    messages resp = [sub_new (mint_msg xp receiver
      (if b - n - pp =? 0 then n else n * (s - px) / (b - n - pp)))].
Proof.
  unfold mint_xprism. intros H. inv_body H. gov_facts.
  eexists a, a0, a1, _, _, _, _. split_and!; try done; [lia|].
  unfold is_zero in *. destruct (_ =? 0); simplify_eq; [done|]. by platform_facts.
Qed.

Lemma redeem_xprism_spec st q env sender n st' resp :
  redeem_xprism st q env sender n = Ok (st', resp) →
  ∃ config prism xp px pp b s, CONFIG st = Some config ∧ addr_humanize (prism_token config) = Ok prism ∧
    xprism_addr config = Ok xp ∧ TOTAL_PENDING_WITHDRAW st = Some (px, pp) ∧
    query_token_balance q prism (contract_address env) = Ok b ∧ query_supply q xp = Ok s ∧
    pp ≤ b ∧ px < s ∧
    let r := n * (b - pp) / (s - px) in
    let t := (block_time env + redemption_time config * 10 ^ 9) / 10 ^ 9 in
    WITHDRAW_ORDERS st !! (sender, t) = None ∧ px + n < u128_limit ∧ pp + r < u128_limit ∧
    st' = set_total_pending (px + n, pp + r)
            (set_orders (<[(sender, t) := (n, r)]> (WITHDRAW_ORDERS st)) st) ∧ messages resp = [].
Proof.
  unfold redeem_xprism. intros H. inv_body H. gov_facts. rewrite ts_plus_seconds_law in Ha8.
  apply checked_width_Some in Ha8 as [-> _]. rewrite ts_seconds_law in *.
  eexists a, a0, a1, _, _, _, _. split_and!; try done; [lia|]. by apply eq_None_not_Some.
Qed.

Definition orders_of (st : Storage) (a : Addr) : gmap N (N * N) := prefix (WITHDRAW_ORDERS st) a.
Definition claimable (st : Storage) (t : N) (a : Addr) : list (N * (N * N)) :=
  first_matured MAX_ORDER_WITHDRAW_PER_TX t (orders_of st a).

Lemma sum_expired_spec t l wx wp del res :
  sum_expired t l (wx, wp, del) = Some res →
  res = (wx + sum_N (matured t l).*2.*1, wp + sum_N (matured t l).*2.*2, del ++ (matured t l).*1).
Proof.
  revert wx wp del. induction l as [|[e [x p]] l IH]; intros wx wp del; csimpl.
  { intros [= <-]. by rewrite !N.add_0_r, app_nil_r. }
  destruct (t <? e); csimpl; [intros [= <-]; by rewrite !N.add_0_r, app_nil_r|].
  destruct (uint_add wx x) eqn:Hx; simpl; [|done]. destruct (uint_add wp p) eqn:Hp; simpl; [|done].
  intros ->%IH. platform_facts. rewrite <-app_assoc. simpl. split_pairs; lia.
Qed.

Lemma lookup_remove_claimed a times m k :
  remove_orders a times m !! k = if decide (k.1 = a ∧ k.2 ∈ times) then None else m !! k.
Proof.
  apply lookup_remove_keys.
Qed.

Lemma claim_redeemed_prism_spec st env info st' resp :
  claim_redeemed_prism st env info = Ok (st', resp) →
  ∃ config prism xp px pp, let w := claimable st (now env) (info_sender info) in
    let wx := sum_N w.*2.*1 in let wp := sum_N w.*2.*2 in
    CONFIG st = Some config ∧ addr_humanize (prism_token config) = Ok prism ∧
    xprism_addr config = Ok xp ∧ TOTAL_PENDING_WITHDRAW st = Some (px, pp) ∧
    wx ≤ px ∧ wp ≤ pp ∧ wx + wp ≠ 0 ∧
    st' = set_total_pending (px - wx, pp - wp)
      (set_orders (remove_orders (info_sender info) w.*1 (WITHDRAW_ORDERS st)) st) ∧
    messages resp = [sub_new (burn_msg xp wx); sub_new (transfer_msg prism (info_sender info) wp)].
Proof.
  unfold claim_redeemed_prism, compute_withdrawable. intros H. inv_body H. inv_body Ha2.
  gov_facts. apply sum_expired_spec in Ha3. injection Ha3 as -> -> ->.
  fold (orders_of st (info_sender info)) in *.
  fold (first_matured MAX_ORDER_WITHDRAW_PER_TX (now env) (orders_of st (info_sender info))) in *.
  fold (claimable st (now env) (info_sender info)) in *.
  eexists a, a0, a1, _, _. split_and!; try done.
  unfold is_zero in E1. apply andb_false_iff in E1 as [E1|E1]; apply N.eqb_neq in E1; lia.
Qed.

(** ** The polls invariant is preserved *)
Lemma create_polls st st' n p :
  PollsInv st → LAST_POLL_ID st = Some n → id p = n → status p = InProgress →
  POLL st' = <[n := p]> (POLL st) → LAST_POLL_ID st' = Some (n + 1) →
  POLL_INDEXER st' = <[(InProgress, n) := true]> (POLL_INDEXER st) →
  TMP_POLL_ID st' = TMP_POLL_ID st → PollsInv st'.
Proof.
  intros [Hid Hix Htmp] Hn Hi Hs HP HL HI HT.
  assert (POLL st !! n = None) as Hnew.
  { destruct (POLL st !! n) as [p'|] eqn:Hp'; [|done]. destruct (Hid _ _ Hp') as (_ & m & ? & ?).
    simplify_eq. lia. }
  split.
  - intros j pj. rewrite HP, HL, lookup_insert. case_decide as Hj.
    + intros [= <-]. subst j. split; [done|]. eexists. split; [done|lia].
    + intros Hpj. destruct (Hid _ _ Hpj) as (? & m & ? & ?). simplify_eq. split; [done|].
      eexists. split; [done|lia].
  - intros s j. rewrite HI, HP, is_Some_insert, Hix, lookup_insert.
    case_decide as Hj; [subst j|]; split.
    + intros [[= ->]|(p' & ? & ?)]; [by eauto|congruence].
    + intros (p' & [= <-] & <-). left. by rewrite Hs.
    + intros [[= -> ->]|?]; [congruence|done].
    + intros ?. by right.
  - intros j. rewrite HT, HP. intros Hj. destruct (Htmp _ Hj) as (p' & Hp' & ?).
    exists p'. rewrite lookup_insert_ne; [done|congruence].
Qed.

(** What a step does to the polls: a new poll is added, or a poll is replaced
    by a later version of itself, or nothing changes. *)
Inductive polls_step (st st' : Storage) : Prop :=
  | ps_same : same_polls st st' → polls_step st st'
  | ps_create n p : LAST_POLL_ID st = Some n → id p = n → status p = InProgress →
      yes_votes p = 0 → no_votes p = 0 → abstain_votes p = 0 →
      POLL st' = <[n := p]> (POLL st) → LAST_POLL_ID st' = Some (n + 1) →
      POLL_INDEXER st' = <[(InProgress, n) := true]> (POLL_INDEXER st) →
      TMP_POLL_ID st' = TMP_POLL_ID st → polls_step st st'
  | ps_update i p p' : POLL st !! i = Some p → evolves p p' →
      POLL st' = <[i := p']> (POLL st) → LAST_POLL_ID st' = LAST_POLL_ID st →
      (∀ s j, is_Some (POLL_INDEXER st' !! (s, j)) ↔
         if decide (j = i) then s = status p' else is_Some (POLL_INDEXER st !! (s, j))) →
      (TMP_POLL_ID st' = TMP_POLL_ID st ∨ TMP_POLL_ID st' = Some i ∧ status p' = Executed) →
      polls_step st st'.

Lemma polls_step_inv st st' : polls_step st st' → PollsInv st → PollsInv st'.
Proof.
  intros [?|n p|i p p'] HI; [by eapply polls_inv_same|by eapply create_polls|by eapply polls_inv_update].
Qed.

Lemma polls_step_evolves st st' i p :
  polls_step st st' → PollsInv st → POLL st !! i = Some p →
  ∃ p', POLL st' !! i = Some p' ∧ evolves p p'.
Proof.
  intros [(HP & _)|n q Hn _ _ _ _ _ HP|j q q' Hq Hev HP] HI Hp; rewrite HP.
  - by exists p.
  - exists p. rewrite lookup_insert_ne; [done|]. intros ->.
    destruct (pi_id _ HI _ _ Hp) as (_ & m & ? & ?). simplify_eq. lia.
  - rewrite lookup_insert. case_decide; [subst j; simplify_eq; eauto|by exists p].
Qed.

Lemma decision_edge p s : status_edge InProgress (decision p s).
Proof. unfold decision. destruct (_ && _)%bool; constructor. Qed.

Lemma end_poll_polls st q env i st' resp :
  PollsInv st → end_poll st q env i = Ok (st', resp) → polls_step st st'.
Proof.
  intros HI (c & p & s & xp & pr & _ & Hp & _ & Hs & _ & Hsn & _ & -> & _)%end_poll_spec.
  destruct (pi_id _ HI _ _ Hp) as [Hid _].
  eapply (ps_update _ _ i p (with_status (decision p s) (with_snapshot s p))); try done.
  - split; try done; simpl.
    + rewrite Hs. apply rtc_once, decision_edge.
    + destruct Hsn as [->|[-> _]]; auto.
  - rewrite Hid. by apply (index_moved st i InProgress _ p).
  - by left.
Qed.

Lemma execute_poll_polls st env i st' resp :
  PollsInv st → execute_poll st env i = Ok (st', resp) → polls_step st st'.
Proof.
  intros HI (c & p & d & a & _ & Hp & Hs & _ & _ & _ & -> & _)%execute_poll_spec.
  destruct (pi_id _ HI _ _ Hp) as [Hid _].
  eapply (ps_update _ _ i p (with_status Executed p)); try done.
  - split; try done; simpl; [|by right]. rewrite Hs. apply rtc_once. constructor.
  - by apply (index_moved st i Passed _ p).
  - right. simpl. by rewrite Hid.
Qed.

Lemma failed_poll_polls st i st' resp :
  PollsInv st → TMP_POLL_ID st = Some i → failed_poll st i = Ok (st', resp) → polls_step st st'.
Proof.
  intros HI Ht (p & Hp & _ & ->)%failed_poll_spec.
  destruct (pi_tmp _ HI _ Ht) as (p' & Hp' & Hs). simplify_eq.
  eapply (ps_update _ _ i p (with_status Failed p)); try done.
  - split; try done; simpl; [|by right]. destruct Hs as [Hs|Hs]; rewrite Hs; [|done].
    apply rtc_once. constructor.
  - intros s j. simpl. rewrite is_Some_insert, lookup_delete_is_Some.
    destruct (decide (j = i)) as [->|Hj]; split.
    + intros [|[? (q & Hq & Hs')%(pi_index _ HI)]]; [congruence|]. simplify_eq.
      destruct Hs as [Hs|Hs]; [by rewrite Hs in *|by rewrite Hs in *].
    + intros ->. by left.
    + intros [|[_ ?]]; [congruence|done].
    + intros ?. right. split; [congruence|done].
  - by left.
Qed.

Lemma snapshot_poll_polls st q env i st' resp :
  PollsInv st → snapshot_poll st q env i = Ok (st', resp) → polls_step st st'.
Proof.
  intros HI (c & p & s & xp & _ & Hp & _ & Hs & _ & Hn & _ & -> & _)%snapshot_poll_spec.
  eapply (ps_update _ _ i p (with_snapshot s p)); try done; [|by apply (index_kept st i p)|by left].
  split; try done. by left.
Qed.

Lemma cast_vote_polls st q env info i v n st' resp :
  PollsInv st → cast_vote st q env info i v n = Ok (st', resp) → polls_step st st'.
Proof.
  intros HI (c & k & p & p' & _ & _ & Hp & Hs & _ & _ & _ & _ & Hp' & -> & _)%cast_vote_spec.
  assert (evolves p (voted v n p)) as Hev.
  { split; try done; simpl; [by right|lia]. }
  eapply (ps_update _ _ i p p'); try done; [| |by left].
  2: { apply (index_kept st i p); [done..|]. by destruct Hp' as [->|(? & ? & _ & _ & _ & _ & ->)]. }
  destruct Hp' as [->|(s & xp & Hn & _ & _ & _ & ->)]; [done|].
  etrans; [done|]. split; try done. by left.
Qed.

(** ** The votes invariant *)

(** What the recorded votes for option [v] on poll [i] add up to. *)
Definition vote_of (v : VoteOption) (x : VoterInfo) : N := if decide (vote x = v) then balance x else 0.
Definition votes (v : VoteOption) (i : N) (st : Storage) : N :=
  map_sum (λ k x, if decide (k.1 = i) then vote_of v x else 0) (POLL_VOTER st).

(** The tallies of a poll in progress are the sums of the recorded votes; the
    votes of an account are exactly the entries it has locked; a vote on a poll
    in progress is covered by the account's deposit; an account votes at most
    once per poll, and on at most twenty polls. *)
Record VotesInv (st : Storage) : Prop := {
  vi_tally i p : POLL st !! i = Some p → status p = InProgress →
    (yes_votes p, no_votes p, abstain_votes p) = (votes Yes i st, votes No i st, votes Abstain i st);
  vi_voter i a v : POLL_VOTER st !! (i, a) = Some v ↔
    ∃ m, BANK st !! a = Some m ∧ (i, v) ∈ locked_balance m;
  vi_entry a m i v : BANK st !! a = Some m → (i, v) ∈ locked_balance m →
    ∃ p, POLL st !! i = Some p ∧ (status p = InProgress → balance v ≤ deposit m);
  vi_once a m : BANK st !! a = Some m →
    NoDup (locked_balance m).*1 ∧ (length (locked_balance m) ≤ 20)%nat }.

Lemma votes_same v i st st' : POLL_VOTER st' = POLL_VOTER st → votes v i st' = votes v i st.
Proof. unfold votes. by intros ->. Qed.

(** A poll without votes has none to count. *)
Lemma votes_unknown v i st : VotesInv st → POLL st !! i = None → votes v i st = 0.
Proof.
  intros HI Hi. apply map_sum_zero. intros [j a] x Hx. simpl. case_decide as Hj; [|done]. subst j.
  apply (vi_voter _ HI) in Hx as (m & Hm & Hx).
  destruct (vi_entry _ HI _ _ _ _ Hm Hx) as (p & ? & _). congruence.
Qed.

(** Steps that change polls but no votes. *)
Lemma votes_inv_polls st st' :
  polls_step st st' → PollsInv st → POLL_VOTER st' = POLL_VOTER st → BANK st' = BANK st →
  (∀ i p p', POLL st !! i = Some p → POLL st' !! i = Some p' → status p' = InProgress →
     (yes_votes p', no_votes p', abstain_votes p') = (yes_votes p, no_votes p, abstain_votes p)) →
  VotesInv st → VotesInv st'.
Proof.
  intros Hstep HP HV HB Htally HI. split.
  - intros i p' Hp' Hs. rewrite !(votes_same _ _ st st' HV).
    destruct (POLL st !! i) as [p|] eqn:Hp.
    + destruct (polls_step_evolves _ _ _ _ Hstep HP Hp) as (p2 & Hp2 & Hev).
      rewrite Hp' in Hp2. injection Hp2 as <-. rewrite (Htally i p p') by done. apply (vi_tally _ HI); [done|].
      destruct (decide (status p = InProgress)) as [|Hn]; [done|].
      by destruct (leaves_progress _ _ (ev_status _ _ Hev) Hn).
    + rewrite !(votes_unknown _ _ _ HI Hp). destruct Hstep as [(HP' & _)|n q ? ? ? Hy Hn Ha HP'|j q q' ? ? HP'].
      * by rewrite HP', Hp in Hp'.
      * rewrite HP', lookup_insert in Hp'. case_decide; simplify_eq. by rewrite Hy, Hn, Ha.
      * rewrite HP', lookup_insert in Hp'. case_decide; simplify_eq.
  - intros i a v. rewrite HV, HB. apply (vi_voter _ HI).
  - intros a m i v. rewrite HB. intros Hm Hv. destruct (vi_entry _ HI _ _ _ _ Hm Hv) as (p & Hp & Hle).
    destruct (polls_step_evolves _ _ _ _ Hstep HP Hp) as (p' & Hp' & Hev). exists p'. split; [done|].
    intros Hs. apply Hle. destruct (decide (status p = InProgress)) as [|Hn]; [done|].
    by destruct (leaves_progress _ _ (ev_status _ _ Hev) Hn).
  - intros a m. rewrite HB. apply (vi_once _ HI).
Qed.

Definition account (st : Storage) (a : CanonicalAddr) : VotingTokenManager := token_manager_of st a.

Lemma account_entry st a e :
  e ∈ locked_balance (account st a) ↔ ∃ m, BANK st !! a = Some m ∧ e ∈ locked_balance m.
Proof.
  unfold account, token_manager_of. destruct (BANK st !! a) as [m|]; simpl.
  - split; [eauto|by intros (? & [= <-] & ?)].
  - split; [by intros ?%not_elem_of_nil|by intros (? & ? & _)].
Qed.

Lemma account_once st a : VotesInv st →
  NoDup (locked_balance (account st a)).*1 ∧ (length (locked_balance (account st a)) ≤ 20)%nat.
Proof.
  intros HI. unfold account, token_manager_of. destruct (BANK st !! a) as [m|] eqn:Hm; simpl.
  - by apply (vi_once _ HI a).
  - split; [constructor|lia].
Qed.

(** Steps on the deposit of one account, which may forget its votes on
    finished polls. *)
Lemma votes_inv_account st st' key m' keep :
  POLL st' = POLL st → BANK st' = <[key := m']> (BANK st) →
  locked_balance m' = List.filter (λ e : N * VoterInfo, keep e.1) (locked_balance (account st key)) →
  (∀ i, in_progress (POLL st) i = true → keep i = true) →
  (∀ i a, POLL_VOTER st' !! (i, a) =
     if decide (a = key ∧ i ∈ (locked_balance (account st key)).*1 ∧ keep i = false)
     then None else POLL_VOTER st !! (i, a)) →
  (∀ e, e ∈ locked_balance m' → in_progress (POLL st) e.1 = true → balance e.2 ≤ deposit m') →
  VotesInv st → VotesInv st'.
Proof.
  intros HP HB Hl Hkeep HV Hcov HI.
  assert (∀ e, e ∈ locked_balance m' ↔ e ∈ locked_balance (account st key) ∧ keep e.1 = true) as Hm'.
  { intros e. rewrite Hl, !list_elem_of_In. apply filter_In. }
  split.
  - intros i p. rewrite HP. intros Hp Hs. rewrite (vi_tally _ HI i p Hp Hs).
    assert (∀ v, votes v i st = votes v i st') as Hv; [|by rewrite !Hv].
    intros v. apply map_sum_contrib. intros [j a]. unfold contrib. rewrite HV.
    destruct (decide (a = key ∧ _ ∧ _)) as [(_ & _ & Hk)|]; [|done]. destruct (POLL_VOTER st !! (j, a)); simpl; [|done].
    rewrite decide_False; [done|]. intros ->. rewrite Hkeep in Hk; [done|].
    unfold in_progress. by rewrite Hp, Hs.
  - intros i a v. rewrite HV, HB, lookup_insert. destruct (decide (key = a)) as [<-|Hne].
    + split.
      * case_decide as Hd; [done|]. intros (m & Hm & Hv)%(vi_voter _ HI). exists m'. split; [done|].
        apply Hm'. simpl. assert ((i, v) ∈ locked_balance (account st key)) as Hin
          by (apply account_entry; eauto). split; [done|].
        destruct (keep i) eqn:Hk; [done|]. exfalso. apply Hd. split_and!; [done| |done].
        apply list_elem_of_fmap. by exists (i, v).
      * intros (? & [= <-] & [Hin Hk]%Hm'). simpl in *. rewrite decide_False by (intros (_ & _ & ?); congruence).
        by apply (vi_voter _ HI), account_entry.
    + rewrite decide_False by (intros [? _]; congruence). apply (vi_voter _ HI).
  - intros a m i v. rewrite HB, HP, lookup_insert. case_decide as Ha; [|by apply (vi_entry _ HI)].
    intros [= <-] Hv. pose proof (Hcov _ Hv) as Hle. apply Hm' in Hv as [Hv Hk].
    apply account_entry in Hv as (m0 & Hm0 & Hv). destruct (vi_entry _ HI _ _ _ _ Hm0 Hv) as (p & Hp & _).
    exists p. split; [done|]. intros Hs. apply Hle. simpl. unfold in_progress. by rewrite Hp, Hs.
  - intros a m. rewrite HB, lookup_insert. case_decide as Ha; [|by apply (vi_once _ HI)]. intros [= <-].
    destruct (account_once _ key HI) as [Hnd Hlen]. rewrite Hl. split.
    + rewrite <-filter_keys. by apply NoDup_ListNoDup, List.NoDup_filter, NoDup_ListNoDup.
    + etrans; [apply List.filter_length_le|done].
Qed.

Lemma in_progress_true polls i :
  in_progress polls i = true ↔ ∃ p, polls !! i = Some p ∧ status p = InProgress.
Proof.
  unfold in_progress. destruct (polls !! i) as [p|]; [|naive_solver].
  rewrite bool_decide_eq_true. naive_solver.
Qed.

(** A live vote is covered by the deposit of its account. *)
Lemma account_cover st a e :
  VotesInv st → e ∈ locked_balance (account st a) → in_progress (POLL st) e.1 = true →
  balance e.2 ≤ deposit (account st a).
Proof.
  intros HI He Hp. apply account_entry in He as (m & Hm & He). destruct e as [i v]. simpl in *.
  destruct (vi_entry _ HI _ _ _ _ Hm He) as (p & Hpi & Hle).
  apply in_progress_true in Hp as (p' & Hp' & Hs). simplify_eq.
  unfold account, token_manager_of. rewrite Hm. by apply Hle.
Qed.

Lemma stake_votes st sender n st' resp :
  stake_voting_tokens st sender n = Ok (st', resp) → VotesInv st → VotesInv st'.
Proof.
  intros (key & _ & _ & _ & ->)%stake_voting_tokens_spec HI.
  apply (votes_inv_account st _ key
    (mkVotingTokenManager (deposit (account st key) + n) (locked_balance (account st key))) (λ _, true));
    try done; simpl.
  - by rewrite filter_true.
  - intros i a. rewrite decide_False; [done|]. by intros (_ & _ & ?).
  - intros e He Hp. pose proof (account_cover _ _ _ HI He Hp). lia.
Qed.

Lemma withdraw_votes st info amount st' resp :
  withdraw_voting_tokens st info amount = Ok (st', resp) → VotesInv st → VotesInv st'.
Proof.
  intros (c & key & m & xp & r & voters & _ & _ & Hm & _ & _ & _ & Hle & Hv & -> & _)%withdraw_voting_tokens_spec HI.
  assert (account st key = m) as Hacc by (unfold account, token_manager_of; by rewrite Hm).
  eapply (votes_inv_account st _ key _ (in_progress (POLL st))); try done; simpl.
  - by rewrite Hacc.
  - intros i a. by rewrite Hacc.
  - intros e He _. pose proof (max_balance_ge _ _ He). simpl in Hle. lia.
Qed.

Lemma cast_votes st q env info i v n st' resp :
  cast_vote st q env info i v n = Ok (st', resp) → VotesInv st → VotesInv st'.
Proof.
  intros (c & key & p & p' & _ & _ & Hp & Hs & _ & Hnew & Hn & Hlen & Hp' & -> & _)%cast_vote_spec HI.
  fold (account st key) in *.
  assert (status p' = InProgress ∧ (yes_votes p', no_votes p', abstain_votes p') =
    (yes_votes (voted v n p), no_votes (voted v n p), abstain_votes (voted v n p))) as [Hs' Htally]
    by (destruct Hp' as [->|(s & xp & _ & _ & _ & _ & ->)]; by rewrite <-Hs). clear Hp'.
  assert (∀ w, (i, w) ∉ locked_balance (account st key)) as Hfresh.
  { intros w Hin%account_entry. apply (vi_voter _ HI) in Hin. congruence. }
  split; simpl.
  - intros j pj. rewrite lookup_insert.
    assert (∀ w, votes w j (set_voters (<[(i, key) := mkVoterInfo v n]> (POLL_VOTER st)) st) =
      (if decide (i = j) then vote_of w (mkVoterInfo v n) else 0) + votes w j st) as Hv.
    { intros w. unfold votes. simpl. by rewrite map_sum_insert_new. }
    case_decide as Hj.
    + intros [= <-] _. subst j. rewrite Htally. simpl.
      pose proof (vi_tally _ HI i p Hp Hs) as [= -> -> ->].
      unfold votes in *. simpl in *. rewrite !Hv. unfold vote_of. simpl. split_pairs; lia.
    + intros Hpj Hsj. unfold votes in *. simpl in *. rewrite !Hv. by apply (vi_tally _ HI).
  - intros j a w. rewrite !lookup_insert. destruct (decide (key = a)) as [<-|Ha].
    + destruct (decide ((i, key) = (j, key))) as [[= <-]|Hj]; simpl.
      * split; [intros [= <-]; eexists; split; [done|]; simpl; set_solver|].
        intros (m & [= <-] & [?|Hin]%elem_of_app); [by edestruct Hfresh|].
        apply list_elem_of_singleton in Hin. congruence.
      * rewrite (vi_voter _ HI), <-account_entry. split.
        -- intros ?. eexists. split; [done|]. simpl. apply elem_of_app. by left.
        -- intros (m & [= <-] & [?|Hin]%elem_of_app); [done|]. apply list_elem_of_singleton in Hin. congruence.
    + rewrite decide_False by congruence. apply (vi_voter _ HI).
  - intros a m j w. rewrite !lookup_insert.
    assert (∀ b d, (∃ pj, POLL st !! j = Some pj ∧ (status pj = InProgress → b ≤ d)) →
      ∃ pj, (if decide (i = j) then Some p' else POLL st !! j) = Some pj ∧
        (status pj = InProgress → b ≤ d)) as Htr.
    { intros b d (pj & Hpj & Hb). case_decide; [|eauto]. subst j. simplify_eq. eauto. }
    destruct (decide (key = a)) as [<-|Ha]; [|intros Hm Hw; by eapply Htr, (vi_entry _ HI)].
    intros [= <-] [Hin%account_entry|Hin]%elem_of_app; simpl; apply Htr.
    + destruct Hin as (m & Hm & Hin). unfold account, token_manager_of. rewrite Hm.
      by apply (vi_entry _ HI key).
    + apply list_elem_of_singleton in Hin. simplify_eq. eauto.
  - intros a m. rewrite lookup_insert. destruct (decide (key = a)) as [<-|Ha]; [|apply (vi_once _ HI)].
    intros [= <-]. simpl. destruct (account_once _ key HI) as [Hnd _]. split.
    + rewrite fmap_app. apply NoDup_app. split_and!; [done| |apply NoDup_singleton].
      intros j Hj ->%list_elem_of_singleton. apply list_elem_of_fmap in Hj as ([j w] & Heq & Hin).
      simpl in Heq. subst j. by apply (Hfresh w).
    + rewrite length_app. simpl. lia.
Qed.

(** ** The pending redemptions *)
Definition queued_xprism (st : Storage) : N := map_sum (λ _ o, o.1) (WITHDRAW_ORDERS st).
Definition queued_prism (st : Storage) : N := map_sum (λ _ o, o.2) (WITHDRAW_ORDERS st).
Definition PendingInv (st : Storage) : Prop :=
  TOTAL_PENDING_WITHDRAW st = Some (queued_xprism st, queued_prism st) ∧
  queued_xprism st < u128_limit ∧ queued_prism st < u128_limit.

Lemma redeem_pending st q env sender n st' resp :
  redeem_xprism st q env sender n = Ok (st', resp) → PendingInv st → PendingInv st'.
Proof.
  intros (c & pr & xp & px & pp & b & s & _ & _ & _ & Ht & _ & _ & _ & _ & Hnew & ? & ? & -> & _)%redeem_xprism_spec
    [HI _].
  rewrite HI in Ht. simplify_eq. unfold PendingInv, queued_xprism, queued_prism in *. simpl.
  rewrite !map_sum_insert_new by done. simpl. split; [f_equal; split_pairs; lia|lia].
Qed.

(** What is queued splits into what can be claimed and the rest. *)
Lemma queued_split st t a :
  let w := claimable st t a in
  let rest := remove_orders a w.*1 (WITHDRAW_ORDERS st) in
  queued_xprism st = sum_N w.*2.*1 + map_sum (λ _ o, o.1) rest ∧
  queued_prism st = sum_N w.*2.*2 + map_sum (λ _ o, o.2) rest.
Proof.
  intros w rest. pose proof (λ f, first_matured_split f (WITHDRAW_ORDERS st) a MAX_ORDER_WITHDRAW_PER_TX t) as Hrm.
  cbv zeta in Hrm. fold (claimable st t a) in Hrm.
  unfold queued_xprism, queued_prism. rewrite (Hrm (λ _ o, o.1)), (Hrm (λ _ o, o.2)).
  rewrite <-!list_fmap_compose. done.
Qed.

Lemma claim_pending st env info st' resp :
  claim_redeemed_prism st env info = Ok (st', resp) → PendingInv st → PendingInv st'.
Proof.
  intros (c & pr & xp & px & pp & _ & _ & _ & Ht & _ & _ & _ & -> & _)%claim_redeemed_prism_spec [HI Hb].
  rewrite HI in Ht. simplify_eq. destruct (queued_split st (now env) (info_sender info)) as [Hx Hp].
  unfold PendingInv, queued_xprism, queued_prism in *. simpl. split; [f_equal; split_pairs; lia|lia].
Qed.

(** ** The contract as a whole *)
Record Inv (st : Storage) : Prop := {
  inv_polls : PollsInv st;
  inv_votes : VotesInv st;
  inv_pending : PendingInv st }.

Lemma gov_instantiate_inv env info msg st resp : instantiate env info msg = Ok (st, resp) → Inv st.
Proof.
  unfold instantiate. intros H. inv_body H. split; [split; simpl|split; simpl|].
  - by intros i p ?.
  - intros s i. split; [by intros [? ?]|by intros (? & ? & _)].
  - by intros i ?.
  - by intros i p ?.
  - intros i k v. split; [done|by intros (? & ? & _)].
  - by intros k m i v ?.
  - by intros k m ?.
  - unfold PendingInv, queued_xprism, queued_prism. simpl. by autorewrite with prism_maps.
Qed.

Variable from_binary : Binary → outcome StdError (Cw20HookMsg Binary).

(** What a token may deliver to the contract. *)
Lemma receive_cw20_spec st q env info m st' resp :
  receive_cw20 from_binary st q env info m = Ok (st', resp) →
  ∃ config raw xraw, CONFIG st = Some config ∧ addr_canonicalize (info_sender info) = Ok raw ∧
    xprism_token config = Some xraw ∧
    (raw = xraw ∧
      (stake_voting_tokens st (cw20_sender m) (cw20_amount m) = Ok (st', resp) ∨
       (∃ t d l x, create_poll st env (cw20_sender m) (cw20_amount m) t d l x = Ok (st', resp)) ∨
       redeem_xprism st q env (cw20_sender m) (cw20_amount m) = Ok (st', resp)) ∨
     raw ≠ xraw ∧ raw = prism_token config ∧
      ∃ r, mint_xprism st q env r (cw20_amount m) = Ok (st', resp)).
Proof.
  unfold receive_cw20. intros H.
  apply qbind_Ok in H as (c & Hc & H). apply qbind_Ok in H as (raw & Hraw & H).
  apply obind_Ok in H as (x & Hx & H). apply load_Ok in Hc.
  exists c, raw, x. split_and!; try done. case_bool_decide as Hs.
  - left. split; [done|]. destruct (from_binary _) as [[]| |]; try done; eauto 8.
  - right. case_bool_decide as Hp; [|done]. split_and!; [done..|].
    destruct (from_binary _) as [[]| |]; try done. apply qbind_Ok in H as (? & _ & H). eauto.
Qed.

Lemma update_config_spec st info o qu th vp ed pd sp rt gl st' resp :
  update_config st info o qu th vp ed pd sp rt gl = Ok (st', resp) →
  messages resp = [] ∧ ∃ config config' raw, CONFIG st = Some config ∧ st' = set_config config' st ∧
    addr_canonicalize (info_sender info) = Ok raw ∧ owner config = raw ∧
    prism_token config' = prism_token config ∧ xprism_token config' = xprism_token config.
Proof.
  unfold update_config. intros H. inv_body H. gov_facts. split; [done|]. eexists _, _, _. by split_and!.
Qed.

Lemma set_xprism_token_spec st msg st' resp :
  set_xprism_token st msg = Ok (st', resp) →
  messages resp = [] ∧ ∃ config config' raw, CONFIG st = Some config ∧ st' = set_config config' st ∧
    xprism_token config = None ∧ prism_token config' = prism_token config ∧ xprism_token config' = Some raw.
Proof.
  unfold set_xprism_token. intros H. inv_body H. gov_facts. split; [done|]. eexists _, _, _.
  split_and!; try done. by apply eq_None_not_Some.
Qed.

Lemma execute_polls st q env info msg st' resp :
  PollsInv st → execute from_binary st q env info msg = Ok (st', resp) → polls_step st st'.
Proof.
  intros HI. destruct msg as [m|o qu th vp ed pd sp rt gl|i v n|amount|i|i|i|]; simpl.
  - intros (c & raw & x & _ & _ & _ & [(_ & [H|[(t & d & l & e & H)|H]])|(_ & _ & r & H)])%receive_cw20_spec.
    + apply stake_voting_tokens_spec in H as (k & _ & _ & _ & ->). by apply ps_same.
    + apply create_poll_spec in H as (c' & k & n & data & f & _ & _ & Hn & _ & _ & _ & _ & _ & -> & _).
      eapply (ps_create st _ n); [done|..|reflexivity|done|done|done]; done.
    + apply redeem_xprism_spec in H as (c' & pr & xp & px & pp & b & s & _ & _ & _ & _ & _ & _ & _ & _ & _ & _ & _ & -> & _).
      by apply ps_same.
    + apply mint_xprism_spec in H as (c' & pr & xp & px & pp & b & s & _ & _ & _ & _ & _ & _ & _ & _ & -> & _).
      by apply ps_same.
  - intros (_ & c & c' & raw & _ & -> & _)%update_config_spec. by apply ps_same.
  - by apply cast_vote_polls.
  - intros (c & k & m & xp & r & vs & _ & _ & _ & _ & _ & _ & _ & _ & -> & _)%withdraw_voting_tokens_spec.
    by apply ps_same.
  - by apply end_poll_polls.
  - by apply execute_poll_polls.
  - by apply snapshot_poll_polls.
  - intros (c & pr & xp & px & pp & _ & _ & _ & _ & _ & _ & _ & -> & _)%claim_redeemed_prism_spec.
    by apply ps_same.
Qed.

Lemma reply_polls st msg st' resp :
  PollsInv st → reply st msg = Ok (st', resp) → polls_step st st'.
Proof.
  intros HI. unfold reply. destruct (_ =? POLL_EXECUTE_REPLY_ID).
  - intros (i & Hi & H)%qbind_Ok. apply load_Ok in Hi. by eapply failed_poll_polls.
  - destruct (_ =? INSTANTIATE_REPLY_ID); [|done].
    intros (_ & c & c' & raw & _ & -> & _)%set_xprism_token_spec. by apply ps_same.
Qed.

(** Only voting changes the tally of a poll that stays in progress. *)
Lemma same_tally st st' :
  POLL st' = POLL st → ∀ i p p', POLL st !! i = Some p → POLL st' !! i = Some p' → status p' = InProgress →
  (yes_votes p', no_votes p', abstain_votes p') = (yes_votes p, no_votes p, abstain_votes p).
Proof. intros HP i p p' Hp. rewrite HP, Hp. by intros [= <-]. Qed.

Lemma replaced_tally (polls polls' : gmap N Poll) j q q' :
  polls !! j = Some q → polls' = <[j := q']> polls →
  (status q' = InProgress →
   (yes_votes q', no_votes q', abstain_votes q') = (yes_votes q, no_votes q, abstain_votes q)) →
  ∀ i p p', polls !! i = Some p → polls' !! i = Some p' → status p' = InProgress →
  (yes_votes p', no_votes p', abstain_votes p') = (yes_votes p, no_votes p, abstain_votes p).
Proof.
  intros Hq -> Hqq i p p' Hp. rewrite lookup_insert. case_decide as Hj; [subst j|congruence].
  intros [= <-]. simplify_eq. done.
Qed.

Lemma gov_execute_inv st q env info msg st' resp :
  Inv st → execute from_binary st q env info msg = Ok (st', resp) → Inv st'.
Proof.
  intros [HP HV HE] H. pose proof (execute_polls _ _ _ _ _ _ _ HP H) as Hst.
  assert (PollsInv st') as HP' by (by eapply polls_step_inv).
  pose proof (λ A B C, votes_inv_polls _ _ Hst HP A B C HV) as Hfr.
  destruct msg as [m|o qu th vp ed pd sp rt gl|i v n|amount|i|i|i|]; simpl in H.
  - apply receive_cw20_spec in H as
      (c & raw & x & _ & _ & _ & [(_ & [H|[(t & d & l & e & H)|H]])|(_ & _ & r & H)]).
    + pose proof (stake_votes _ _ _ _ _ H HV).
      apply stake_voting_tokens_spec in H as (k & _ & _ & _ & ->). by split.
    + apply create_poll_spec in H as (c' & k & n & data & f & _ & _ & Hn & _ & _ & _ & _ & _ & -> & _).
      split; [done| |done]. apply Hfr; try done. simpl. intros i p p' Hp. rewrite lookup_insert_ne; [congruence|].
      intros ->. destruct (pi_id _ HP _ _ Hp) as (_ & k' & ? & ?). simplify_eq. lia.
    + pose proof (redeem_pending _ _ _ _ _ _ _ H HE).
      apply redeem_xprism_spec in H as (c' & pr & xp & px & pp & b & s & _ & _ & _ & _ & _ & _ & _ & _ & _ & _ & _ & -> & _).
      split; [done| |done]. apply Hfr; try done. by apply same_tally.
    + by apply mint_xprism_spec in H as (c' & pr & xp & px & pp & b & s & _ & _ & _ & _ & _ & _ & _ & _ & -> & _).
  - apply update_config_spec in H as (_ & c & c' & raw & _ & -> & _). split; [done| |done].
    apply Hfr; try done. by apply same_tally.
  - pose proof (cast_votes _ _ _ _ _ _ _ _ _ H HV).
    apply cast_vote_spec in H as (c & k & p & p' & _ & _ & _ & _ & _ & _ & _ & _ & _ & -> & _). by split.
  - pose proof (withdraw_votes _ _ _ _ _ H HV).
    apply withdraw_voting_tokens_spec in H as
      (c & k & m & xp & r & vs & _ & _ & _ & _ & _ & _ & _ & _ & -> & _). by split.
  - apply end_poll_spec in H as (c & p & s & xp & pr & _ & Hp & _ & _ & _ & _ & _ & -> & _).
    split; [done| |done]. apply Hfr; try done. by eapply replaced_tally.
  - apply execute_poll_spec in H as (c & p & d & a & _ & Hp & _ & _ & _ & _ & -> & _).
    split; [done| |done]. apply Hfr; try done. by eapply replaced_tally.
  - apply snapshot_poll_spec in H as (c & p & s & xp & _ & Hp & _ & _ & _ & _ & _ & -> & _).
    split; [done| |done]. apply Hfr; try done. by eapply replaced_tally.
  - pose proof (claim_pending _ _ _ _ _ H HE).
    apply claim_redeemed_prism_spec in H as (c & pr & xp & px & pp & _ & _ & _ & _ & _ & _ & _ & -> & _).
    split; [done| |done]. apply Hfr; try done. by apply same_tally.
Qed.

Lemma reply_inv st msg st' resp : Inv st → reply st msg = Ok (st', resp) → Inv st'.
Proof.
  intros [HP HV HE] H. pose proof (reply_polls _ _ _ _ HP H) as Hst.
  assert (PollsInv st') as HP' by (by eapply polls_step_inv).
  pose proof (λ A B C, votes_inv_polls _ _ Hst HP A B C HV) as Hfr.
  unfold reply in H. destruct (_ =? POLL_EXECUTE_REPLY_ID).
  - apply qbind_Ok in H as (i & _ & H). apply failed_poll_spec in H as (p & Hp & _ & ->).
    split; [done| |done]. apply Hfr; try done. by eapply replaced_tally.
  - destruct (_ =? INSTANTIATE_REPLY_ID); [|done].
    apply set_xprism_token_spec in H as (_ & c & c' & raw & _ & -> & _).
    split; [done| |done]. apply Hfr; try done. by apply same_tally.
Qed.

(** ** What the contract owes in xPRISM

    The staked deposits and the deposits of the polls in progress are committed;
    what is queued for redemption is pending. *)
Definition staked (st : Storage) : N := map_sum (λ _ m, deposit m) (BANK st).
Definition held (p : Poll) : N := if decide (status p = InProgress) then deposit_amount p else 0.
Definition poll_deposits (st : Storage) : N := map_sum (λ _ p, held p) (POLL st).
Definition pending_xprism (st : Storage) : N := (default (0, 0) (TOTAL_PENDING_WITHDRAW st)).1.
Definition pending_prism (st : Storage) : N := (default (0, 0) (TOTAL_PENDING_WITHDRAW st)).2.
Definition committed (st : Storage) : N := staked st + poll_deposits st.

Lemma held_live p : status p = InProgress → held p = deposit_amount p.
Proof. intros Hs. unfold held. by rewrite decide_True. Qed.
Lemma held_done p : status p ≠ InProgress → held p = 0.
Proof. intros Hs. unfold held. by rewrite decide_False. Qed.

Lemma staked_save st key m' :
  map_sum (λ _ m, deposit m) (<[key := m']> (BANK st)) + deposit (account st key) = staked st + deposit m'.
Proof.
  unfold staked. pose proof (map_sum_insert (λ _ m, deposit m) (BANK st) key m') as H.
  rewrite <-H. f_equal. unfold contrib, account, token_manager_of. by destruct (BANK st !! key).
Qed.

Lemma poll_deposits_save st i p p' :
  POLL st !! i = Some p →
  map_sum (λ _ p, held p) (<[i := p']> (POLL st)) + held p = poll_deposits st + held p'.
Proof.
  intros Hp. unfold poll_deposits. pose proof (map_sum_insert (λ _ p, held p) (POLL st) i p') as H.
  by rewrite (contrib_Some _ _ _ _ Hp) in H.
Qed.

Lemma committed_stake st sender n st' resp :
  stake_voting_tokens st sender n = Ok (st', resp) →
  committed st' = committed st + n ∧ messages resp = [] ∧ CONFIG st' = CONFIG st ∧
  TOTAL_PENDING_WITHDRAW st' = TOTAL_PENDING_WITHDRAW st.
Proof.
  intros (k & _ & _ & Hms & ->)%stake_voting_tokens_spec. split_and!; try done.
  unfold committed, staked, poll_deposits. simpl.
  pose proof (staked_save st k (mkVotingTokenManager (deposit (account st k) + n) (locked_balance (account st k)))).
  unfold account, staked in *. simpl in *. lia.
Qed.

Lemma committed_create st env a n t d l x st' resp :
  PollsInv st → create_poll st env a n t d l x = Ok (st', resp) →
  committed st' = committed st + n ∧ messages resp = [] ∧ CONFIG st' = CONFIG st ∧
  TOTAL_PENDING_WITHDRAW st' = TOTAL_PENDING_WITHDRAW st.
Proof.
  intros HI (c & k & i & data & f & _ & _ & Hi & _ & _ & _ & _ & _ & -> & Hms)%create_poll_spec.
  split_and!; try done. unfold committed, poll_deposits, staked. simpl.
  rewrite map_sum_insert_new; [unfold held; simpl; lia|].
  destruct (POLL st !! i) as [q|] eqn:Hq; [|done]. destruct (pi_id _ HI _ _ Hq) as (_ & m & ? & ?).
  simplify_eq. lia.
Qed.

(** The operations that pay xPRISM out of what is committed. *)
Lemma committed_withdraw st info amount st' resp :
  withdraw_voting_tokens st info amount = Ok (st', resp) →
  ∃ c xp r n, CONFIG st = Some c ∧ xprism_addr c = Ok xp ∧
    messages resp = [sub_new (transfer_msg xp r n)] ∧ committed st' + n = committed st ∧
    CONFIG st' = CONFIG st ∧ TOTAL_PENDING_WITHDRAW st' = TOTAL_PENDING_WITHDRAW st.
Proof.
  intros (c & key & m & xp & r & voters & Hc & _ & Hm & _ & Hx & _ & Hle & _ & -> & Hms)%withdraw_voting_tokens_spec.
  eexists c, xp, r, _. split_and!; try done. simpl in Hle.
  unfold committed, staked, poll_deposits. simpl.
  match goal with |- context [<[key := ?m']> _] => pose proof (staked_save st key m') as H end.
  unfold account, token_manager_of, staked in H. rewrite Hm in H. simpl in H. lia.
Qed.

Lemma committed_end_poll st q env i st' resp :
  PollsInv st → end_poll st q env i = Ok (st', resp) →
  ∃ c xp n, CONFIG st = Some c ∧ xprism_addr c = Ok xp ∧
    (messages resp = [sub_new (burn_msg xp n)] ∨ (∃ r, messages resp = [sub_new (transfer_msg xp r n)]) ∨
     messages resp = [] ∧ n = 0) ∧ committed st' + n = committed st ∧
    CONFIG st' = CONFIG st ∧ TOTAL_PENDING_WITHDRAW st' = TOTAL_PENDING_WITHDRAW st.
Proof.
  intros HI (c & p & s & xp & pr & Hc & Hp & Hx & Hs & _ & _ & _ & -> & Hms)%end_poll_spec.
  exists c, xp, (deposit_amount p). split_and!; try done.
  - unfold deposit_messages in Hms. destruct (N.eqb_spec (deposit_amount p) 0); [by auto|].
    destruct (quorate p s); eauto.
  - unfold committed, staked, poll_deposits. simpl.
    pose proof (poll_deposits_save st i p (with_status (decision p s) (with_snapshot s p)) Hp) as H.
    rewrite (held_live p Hs), (held_done (with_status _ _)) in H; [unfold poll_deposits in H; lia|].
    apply (edge_leaves _ _ (decision_edge p s)).
Qed.

(** The operations that do not change what is committed. *)
Lemma committed_cast st q env info i v n st' resp :
  cast_vote st q env info i v n = Ok (st', resp) →
  messages resp = [] ∧ committed st' = committed st ∧ CONFIG st' = CONFIG st ∧
  TOTAL_PENDING_WITHDRAW st' = TOTAL_PENDING_WITHDRAW st.
Proof.
  intros (c & key & p & p' & _ & _ & Hp & Hs & _ & _ & _ & _ & Hp' & -> & Hms)%cast_vote_spec.
  assert (held p' = held p) as Hh
    by (destruct Hp' as [->|(s & xp & _ & _ & _ & _ & ->)]; done).
  split_and!; try done. unfold committed, staked, poll_deposits. simpl.
  pose proof (poll_deposits_save st i p p' Hp).
  match goal with |- context [<[key := ?m']> _] => pose proof (staked_save st key m') as H2 end.
  unfold account, poll_deposits, staked in *. simpl in *. lia.
Qed.

Lemma committed_replace st st' i p p' :
  POLL st !! i = Some p → POLL st' = <[i := p']> (POLL st) → held p' = held p →
  BANK st' = BANK st → TOTAL_PENDING_WITHDRAW st' = TOTAL_PENDING_WITHDRAW st → committed st' = committed st.
Proof.
  intros Hp HP Hh HB HT. unfold committed, staked, poll_deposits. rewrite HP, HB.
  pose proof (poll_deposits_save st i p p' Hp). unfold poll_deposits in *. lia.
Qed.

Lemma committed_snapshot st q env i st' resp :
  snapshot_poll st q env i = Ok (st', resp) →
  messages resp = [] ∧ committed st' = committed st ∧ CONFIG st' = CONFIG st ∧
  TOTAL_PENDING_WITHDRAW st' = TOTAL_PENDING_WITHDRAW st.
Proof.
  intros (c & p & s & xp & _ & Hp & _ & Hs & _ & _ & _ & -> & Hms)%snapshot_poll_spec.
  split_and!; try done. by eapply (committed_replace _ _ i p).
Qed.

Lemma committed_execute_poll st env i st' resp :
  execute_poll st env i = Ok (st', resp) →
  Forall (λ m, sub_reply_on m = ReplyError) (messages resp) ∧ committed st' = committed st ∧ CONFIG st' = CONFIG st ∧
  TOTAL_PENDING_WITHDRAW st' = TOTAL_PENDING_WITHDRAW st.
Proof.
  intros (c & p & d & a & _ & Hp & Hs & _ & _ & _ & -> & ->)%execute_poll_spec.
  split_and!; try done; [by repeat constructor|]. eapply (committed_replace _ _ i p); try done.
  by rewrite !held_done by (simpl; congruence).
Qed.

Lemma committed_failed_poll st i st' resp :
  PollsInv st → TMP_POLL_ID st = Some i → failed_poll st i = Ok (st', resp) →
  committed st' = committed st ∧ CONFIG st' = CONFIG st ∧ TOTAL_PENDING_WITHDRAW st' = TOTAL_PENDING_WITHDRAW st.
Proof.
  intros HI Ht (p & Hp & _ & ->)%failed_poll_spec. destruct (pi_tmp _ HI _ Ht) as (p' & Hp' & Hs).
  split_and!; try done. eapply (committed_replace _ _ i p); try done. simplify_eq.
  rewrite !held_done; [done| |done]. destruct Hs; congruence.
Qed.

Lemma committed_claim st env info st' resp :
  claim_redeemed_prism st env info = Ok (st', resp) →
  ∃ c p xp wx wp, CONFIG st = Some c ∧ addr_humanize (prism_token c) = Ok p ∧ xprism_addr c = Ok xp ∧
    messages resp = [sub_new (burn_msg xp wx); sub_new (transfer_msg p (info_sender info) wp)] ∧
    committed st' = committed st ∧ pending_xprism st' + wx = pending_xprism st ∧
    pending_prism st' + wp = pending_prism st ∧ CONFIG st' = CONFIG st.
Proof.
  intros (c & p & xp & px & pp & Hc & Hp & Hx & Ht & ? & ? & _ & -> & Hms)%claim_redeemed_prism_spec.
  eexists c, p, xp, _, _. split_and!; try done; unfold committed, staked, poll_deposits, pending_xprism, pending_prism;
    rewrite Ht; simpl; lia.
Qed.

(** ** Totality on the states the contract reaches *)
Lemma locked_loop_total polls voter acc l :
  (∀ e, e ∈ l → is_Some (polls !! e.1)) → is_Some (optfold (locked_step polls voter) acc l).
Proof.
  revert acc. induction l as [|[i v] l IH]; intros [[vs rm] mx] Hl; simpl; [by eexists|].
  destruct (Hl (i, v)) as [p Hp]; [by left|]. simpl in Hp. rewrite Hp. simpl.
  destruct (bool_decide _); simpl; apply IH; intros e He; apply Hl; by right.
Qed.

Lemma sum_expired_total t l wx wp del :
  wx + sum_N (matured t l).*2.*1 < u128_limit → wp + sum_N (matured t l).*2.*2 < u128_limit →
  is_Some (sum_expired t l (wx, wp, del)).
Proof.
  revert wx wp del. induction l as [|[e [x p]] l IH]; intros wx wp del; csimpl; [by eexists|].
  destruct (t <? e); csimpl; [by eexists|]. intros H1 H2.
  rewrite (proj2 (uint_add_Some wx x _)) by (split; [done|lia]). simpl.
  rewrite (proj2 (uint_add_Some wp p _)) by (split; [done|lia]). simpl. apply IH; lia.
Qed.

Lemma claimable_filter st t a :
  claimable st t a =
  List.filter (λ e, e.1 <=? t) (take MAX_ORDER_WITHDRAW_PER_TX (range_u64 (orders_of st a))).
Proof. apply first_matured_filter. Qed.

(** A poll in progress counts at most what is staked. *)
Lemma votes_cast i st :
  votes Yes i st + votes No i st + votes Abstain i st = map_sum (λ _ v, balance v) (prefix (POLL_VOTER st) i).
Proof.
  unfold votes. rewrite !(map_sum_prefix (λ _ x, vote_of _ x)).
  induction (prefix (POLL_VOTER st) i) as [|a v m Ha IH] using map_ind; [by rewrite !map_sum_empty|].
  rewrite !map_sum_insert_new by done. rewrite <-IH. unfold vote_of. destruct (vote v); simpl; lia.
Qed.

Lemma votes_staked st i p :
  VotesInv st → POLL st !! i = Some p → status p = InProgress →
  yes_votes p + no_votes p + abstain_votes p ≤ staked st.
Proof.
  intros HI Hp Hs. pose proof (vi_tally _ HI i p Hp Hs) as [= -> -> ->]. rewrite votes_cast.
  apply map_sum_le. intros a. unfold contrib. rewrite lookup_prefix.
  destruct (POLL_VOTER st !! (i, a)) as [v|] eqn:Hv; simpl; [|lia].
  apply (vi_voter _ HI) in Hv as (m & Hm & Hv). rewrite Hm. simpl.
  destruct (vi_entry _ HI _ _ _ _ Hm Hv) as (p' & Hp' & Hle). simplify_eq. by apply Hle.
Qed.
End proofs.
