(* ===== verification/GovSpec.v ===== *)
(** * What the governance contract promises *)
From S2P Require Import Prelude Cosmwasm Protocol Wire WireProofs Gov GovProofs.
Import GovMsg Gov.

Module GovSpec.

(** ** The abstract exchange

    What the contract promises its users, without polls, accounts and orders:
    [x] of the [s] xPRISM in existence are in custody, [committed] of them for
    stakers and proposers and [px] for redemptions, which claim [pp] of the [p]
    PRISM in custody. *)
Module Exchange.
Record Book : Type := mkBook { committed : N; px : N; pp : N; x : N; s : N; p : N }.

(** PRISM and xPRISM that set the price. *)
Definition underlying (b : Book) : N := p b - pp b.
Definition shares (b : Book) : N := s b - px b.

Inductive step (b : Book) : Book → Prop :=
  | receive n : x b + n ≤ s b →
      step b (mkBook (committed b + n) (px b) (pp b) (x b + n) (s b) (p b))
  | redeem n : x b + n ≤ s b → px b < s b → pp b ≤ p b →
      step b (mkBook (committed b) (px b + n) (pp b + n * underlying b / shares b) (x b + n) (s b) (p b))
  | mint n m x' : pp b ≤ p b → px b ≤ s b → x b ≤ x' ≤ x b + m →
      m = (if underlying b =? 0 then n else n * shares b / underlying b) →
      step b (mkBook (committed b) (px b) (pp b) x' (s b + m) (p b + n))
  | pay c' n x' s' : c' + n = committed b → x b ≤ x' + n → x' ≤ s' ≤ s b →
      step b (mkBook c' (px b) (pp b) x' s' (p b))
  | claim px' pp' wx wp x' s' p' : px' + wx = px b → pp' + wp = pp b → x' + wx = x b → s' + wx = s b →
      p b ≤ p' + wp → step b (mkBook (committed b) px' pp' x' s' p')
  | world x' s' p' : x b ≤ x' ≤ s' → s' ≤ s b → p b ≤ p' →
      step b (mkBook (committed b) (px b) (pp b) x' s' p').

(** Everything owed is in custody. *)
Definition solvent (b : Book) : Prop := committed b + px b ≤ x b ≤ s b ∧ pp b ≤ p b.

Lemma step_solvent b b' : step b b' → solvent b → solvent b'.
Proof.
  unfold solvent. destruct 1 as [n|n ? ? ?|n m x' ? ? ? ?|c' n x' s'|px' pp' wx wp x' s' p'|x' s' p'];
    simpl; intros [? ?]; try lia.
  assert (n * underlying b / shares b ≤ underlying b); [|unfold underlying in *; lia_div].
  unfold shares. etrans; [apply N.Div0.div_le_mono, (N.mul_le_mono_r n (s b - px b)); lia|].
  rewrite N.mul_comm, N.div_mul; lia.
Qed.

(** The price never falls: [underlying / shares] after a step is at least what
    it was before. *)
Lemma step_price b b' : step b b' → solvent b → underlying b * shares b' ≤ underlying b' * shares b.
Proof.
  unfold solvent. destruct 1 as [n ?|n ? ? ?|n m x' ? ? ? Hm|c' n x' s' ? ? ?|px' pp' wx wp x' s' p'|x' s' p' ? ? ?];
    unfold underlying, shares in *; simpl; intros [? ?].
  - lia.
  - set (U := p b - pp b) in *. set (S := s b - px b) in *.
    replace (s b - (px b + n)) with (S - n) by lia.
    replace (p b - (pp b + n * U / S)) with (U - n * U / S) by lia.
    pose proof (N.Div0.mul_div_le (n * U) S) as Hd. set (q := n * U / S) in *. nia.
  - set (U := p b - pp b) in *. set (S := s b - px b) in *.
    replace (s b + m - px b) with (S + m) by lia. replace (p b + n - pp b) with (U + n) by lia.
    destruct (N.eqb_spec U 0) as [->|HU]; [lia|]. subst m.
    pose proof (N.Div0.mul_div_le (n * S) U) as Hd. set (q := n * S / U) in *. nia.
  - apply N.mul_le_mono_l. lia.
  - apply N.mul_le_mono; lia.
  - apply N.mul_le_mono; lia.
Qed.
End Exchange.

Section runs.
Context {P : Cosmwasm}.
Variable from_binary : Binary → outcome StdError (Cw20HookMsg Binary).

(** A step of the contract: a successful message or reply. *)
Inductive step (st st' : Storage) : Prop :=
  | step_execute q env info msg resp :
      execute from_binary st q env info msg = Ok (st', resp) → step st st'
  | step_reply msg resp : reply st msg = Ok (st', resp) → step st st'.

Inductive reachable : Storage → Prop :=
  | reach_init env info msg st resp : instantiate env info msg = Ok (st, resp) → reachable st
  | reach_step st st' : reachable st → step st st' → reachable st'.

(** ** The tokens around the contract

    A ledger gives, for every token, the balance of the contract and the total
    supply. *)
Record Ledger : Type := mkLedger { bal : Addr → N; supply : Addr → N }.

Definition credit (token : Addr) (amount : N) (l : Ledger) : Ledger :=
  mkLedger (λ t, if decide (t = token) then bal l t + amount else bal l t) (supply l).

(** What the token contract credits before a message is executed. *)
Definition incoming (info : MessageInfo) (msg : ExecuteMsg Binary) (l : Ledger) : Ledger :=
  match msg with
  | Receive m => credit (info_sender info) (cw20_amount m) l
  | _ => l
  end.

(** What a message to token contract [token] moves out of, and into, the
    account [self], and what it burns and mints. *)
Definition flow (self token : Addr) (m : CosmosMsg) : N * N * N * N :=
  match m with
  | WasmExecute c (BinCw20 msg) _ =>
      if decide (c = token) then
        match msg with
        | Cw20.Transfer r a => (if decide (r = self) then 0 else a, 0, 0, 0)
        | Cw20.Burn a => (a, 0, a, 0)
        | Cw20.Mint r a => (0, if decide (r = self) then a else 0, 0, a)
        | _ => (0, 0, 0, 0)
        end
      else (0, 0, 0, 0)
  | _ => (0, 0, 0, 0)
  end.

(** The message of an executed poll, the only one that asks for a reply, is the
    voters' own: if it is addressed to a token contract, it can do anything
    there that the governance contract can. *)
Definition no_reply (s : SubMsg) : bool := match sub_reply_on s with ReplyNever => true | _ => false end.
Definition own_messages (resp : Response) : list CosmosMsg :=
  sub_msg <$> List.filter no_reply (messages resp).
Definition addressed_by_vote (resp : Response) (token : Addr) : Prop :=
  ∃ sm msg funds, sm ∈ messages resp ∧ no_reply sm = false ∧ sub_msg sm = WasmExecute token msg funds.

Definition total (f : N * N * N * N → N) (self token : Addr) (resp : Response) : N :=
  sum_N ((λ m, f (flow self token m)) <$> own_messages resp).

(** All messages of a response are carried out: no balance is overdrawn, and
    what the message of an executed poll does to the token it is addressed to is
    left open. *)
Definition settle (self : Addr) (resp : Response) (l l' : Ledger) : Prop :=
  ∀ t, addressed_by_vote resp t ∧ bal l' t ≤ supply l' t ∨
       bal l' t + total (λ f, f.1.1.1) self t resp = bal l t + total (λ f, f.1.1.2) self t resp ∧
       supply l' t + total (λ f, f.1.2) self t resp = supply l t + total (λ f, f.2) self t resp.

(** The token contracts answer with the ledger. *)
Definition honest (q : Querier) (self : Addr) (l : Ledger) : Prop :=
  ∀ t, query_cw20_balance q t self = Ok (bal l t) ∧ query_cw20_supply q t = Ok (supply l t).

Definition bounded (l : Ledger) : Prop := ∀ t, bal l t ≤ supply l t.

(** The sender is an address in the normal form of the chain. *)
Definition normal (a : Addr) : Prop := ∀ raw, addr_canonicalize a = Ok raw → addr_humanize raw = Ok a.

Definition is_prism (st : Storage) (p : Addr) : Prop :=
  ∃ c, CONFIG st = Some c ∧ addr_humanize (prism_token c) = Ok p.
Definition is_xprism (st : Storage) (x : Addr) : Prop :=
  ∃ c, CONFIG st = Some c ∧ xprism_addr c = Ok x.

(** Between the two states a passed poll was executed whose message is addressed
    to [token]. *)
Definition vote_calls (st st' : Storage) (token : Addr) : Prop :=
  ∃ i poll d, POLL st !! i = Some poll ∧ status poll = Passed ∧ execute_data poll = Some d ∧
    addr_humanize (ed_contract d) = Ok token ∧ POLL st' !! i = Some (with_status Executed poll).

(** A step of the contract among the tokens, or of the world around it: others
    send tokens to the contract and move or burn their own, but only the
    contract mints xPRISM. *)
Inductive world_step (self : Addr) (st : Storage) (l : Ledger) (st' : Storage) (l' : Ledger) : Prop :=
  | ws_execute q env info msg resp :
      contract_address env = self → normal (info_sender info) →
      bounded (incoming info msg l) → honest q self (incoming info msg l) →
      execute from_binary st q env info msg = Ok (st', resp) →
      settle self resp (incoming info msg l) l' → world_step self st l st' l'
  | ws_reply msg resp :
      reply st msg = Ok (st', resp) → l' = l →
      (* a new token contract has a new address *)
      (∀ x p, is_xprism st' x → is_prism st' p → x ≠ p) → world_step self st l st' l'
  | ws_world :
      st' = st → (∀ t, bal l t ≤ bal l' t) → bounded l' →
      (∀ x, is_xprism st x → supply l' x ≤ supply l x) → world_step self st l st' l'.

(** The runs on which no executed poll has called the contract's own tokens: it
    could have given an allowance on them, or the right to mint. *)
Inductive run (self : Addr) : Storage → Ledger → Prop :=
  | run_init env info msg st resp l :
      instantiate env info msg = Ok (st, resp) → bounded l → run self st l
  | run_step st l st' l' :
      run self st l → world_step self st l st' l' →
      (∀ t, is_xprism st t ∨ is_prism st t → ¬ vote_calls st st' t) → run self st' l'.
End runs.

Section properties.
Context {P : Cosmwasm} {L : CosmwasmLaws P}.
Variable fb : Binary → outcome StdError (Cw20HookMsg Binary).

Lemma gov_step_inv st st' : Inv st → step fb st st' → Inv st'.
Proof. intros HI [q env info msg resp H|msg resp H]; [by eapply gov_execute_inv|by eapply reply_inv]. Qed.

Lemma gov_reachable_inv st : reachable fb st → Inv st.
Proof. induction 1; [by eapply gov_instantiate_inv|by eapply gov_step_inv]. Qed.

Lemma run_reachable self st l : run fb self st l → reachable fb st.
Proof.
  induction 1 as [env info msg st resp l H|st l st' l' _ IH H _]; [by eapply reach_init|].
  destruct H as [q env info msg resp _ _ _ _ H _|msg resp H _ _| -> _ _ _]; [| |done].
  - eapply reach_step; [done|by eapply step_execute].
  - eapply reach_step; [done|by eapply step_reply].
Qed.

(** ** Flows of the responses *)

(** Without the message of a poll, the messages are the contract's own. *)
Lemma settle_own self resp l l' :
  Forall (λ m, no_reply m = true) (messages resp) → settle self resp l l' → ∀ t,
  bal l' t + sum_N ((λ m, (flow self t (sub_msg m)).1.1.1) <$> messages resp) =
    bal l t + sum_N ((λ m, (flow self t (sub_msg m)).1.1.2) <$> messages resp) ∧
  supply l' t + sum_N ((λ m, (flow self t (sub_msg m)).1.2) <$> messages resp) =
    supply l t + sum_N ((λ m, (flow self t (sub_msg m)).2) <$> messages resp).
Proof.
  intros Hown Hs t. assert (own_messages resp = sub_msg <$> messages resp) as Hall.
  { unfold own_messages. f_equal. induction Hown as [|m ms Hm _ IH]; simpl; [done|]. by rewrite Hm, IH. }
  destruct (Hs t) as [[(sm & msg & funds & Hin & Hno & _) _]|H].
  - rewrite Forall_forall in Hown. specialize (Hown _ Hin). congruence.
  - unfold total in H. rewrite Hall, <-!list_fmap_compose in H. exact H.
Qed.
Ltac settled Hm Hs t :=
  pose proof (settle_own _ _ _ _ ltac:(rewrite Hm; repeat constructor) Hs t) as Hst; rewrite Hm in Hst; simpl in Hst.

Lemma settle_quiet self resp l l' :
  messages resp = [] → settle self resp l l' → ∀ t, bal l' t = bal l t ∧ supply l' t = supply l t.
Proof. intros Hm Hs t. settled Hm Hs t. lia. Qed.

Lemma settle_burn self resp l l' c n :
  messages resp = [sub_new (burn_msg c n)] → settle self resp l l' →
  ∀ t, let d := if decide (c = t) then n else 0 in bal l' t + d = bal l t ∧ supply l' t + d = supply l t.
Proof. intros Hm Hs t. settled Hm Hs t. simpl. destruct (decide (c = t)); simpl in Hst; lia. Qed.

Lemma settle_transfer self resp l l' c r n :
  messages resp = [sub_new (transfer_msg c r n)] → settle self resp l l' →
  ∀ t, supply l' t = supply l t ∧ bal l t ≤ bal l' t + (if decide (c = t) then n else 0) ∧ bal l' t ≤ bal l t.
Proof.
  intros Hm Hs t. settled Hm Hs t.
  destruct (decide (c = t)); simpl in Hst; [destruct (decide (r = self)); simpl in Hst|]; lia.
Qed.

Lemma settle_mint self resp l l' c r n :
  messages resp = [sub_new (mint_msg c r n)] → settle self resp l l' →
  ∀ t, let d := if decide (c = t) then n else 0 in
    supply l' t = supply l t + d ∧ bal l t ≤ bal l' t ∧ bal l' t ≤ bal l t + d.
Proof.
  intros Hm Hs t. settled Hm Hs t. simpl.
  destruct (decide (c = t)); simpl in Hst; [destruct (decide (r = self)); simpl in Hst|]; lia.
Qed.

Lemma settle_mint_intro self resp l l' c r n :
  messages resp = [sub_new (mint_msg c r n)] → r ≠ self → (∀ t, bal l' t = bal l t) →
  (∀ t, supply l' t = supply l t + if decide (c = t) then n else 0) → settle self resp l l'.
Proof.
  intros Hm Hr Hb Hs t. right. rewrite Hb, Hs. unfold total, own_messages. rewrite Hm. simpl.
  destruct (decide (c = t)); simpl; [rewrite (decide_False (P:=r = self)) by done|]; simpl; lia.
Qed.

Lemma settle_claim self resp l l' x wx p r wp :
  messages resp = [sub_new (burn_msg x wx); sub_new (transfer_msg p r wp)] → settle self resp l l' → x ≠ p →
  bal l' x + wx = bal l x ∧ supply l' x + wx = supply l x ∧
  bal l p ≤ bal l' p + wp ∧ (∀ t, bal l t ≤ supply l t → bal l' t ≤ supply l' t).
Proof.
  intros Hm Hs Hxp. split_and!; [settled Hm Hs x|settled Hm Hs x|settled Hm Hs p|intros t; settled Hm Hs t];
    repeat case_decide; simpl in *; subst; try done; lia.
Qed.

(** ** The contract implements the exchange *)
Definition view (x p : Addr) (st : Storage) (l : Ledger) : Exchange.Book :=
  Exchange.mkBook (committed st) (pending_xprism st) (pending_prism st) (bal l x) (supply l x) (bal l p).

Lemma same_tokens st st' c c' :
  CONFIG st = Some c → CONFIG st' = Some c' → prism_token c' = prism_token c → xprism_token c' = xprism_token c →
  ∀ a, (is_xprism st a ↔ is_xprism st' a) ∧ (is_prism st a ↔ is_prism st' a).
Proof.
  intros Hc Hc' Hp Hx a. unfold is_xprism, is_prism, xprism_addr. rewrite Hc, Hc'.
  split; split; intros (? & [= <-] & H); eexists; (split; [done|]); congruence.
Qed.

Lemma config_tokens st st' :
  CONFIG st' = CONFIG st → ∀ a, (is_xprism st a ↔ is_xprism st' a) ∧ (is_prism st a ↔ is_prism st' a).
Proof. intros Hc a. unfold is_xprism, is_prism. by rewrite Hc. Qed.

Lemma xprism_unique st x y : is_xprism st x → is_xprism st y → x = y.
Proof. intros (c & Hc & Hx) (c' & Hc' & Hy). simplify_eq. rewrite Hx in Hy. by simplify_eq. Qed.
Lemma prism_unique st x y : is_prism st x → is_prism st y → x = y.
Proof. intros (c & Hc & Hx) (c' & Hc' & Hy). simplify_eq. rewrite Hx in Hy. by simplify_eq. Qed.

Lemma bal_credit_eq t n l : bal (credit t n l) t = bal l t + n.
Proof. simpl. by rewrite decide_True. Qed.
Lemma bal_credit_ne t t' n l : t ≠ t' → bal (credit t n l) t' = bal l t'.
Proof. intros Ht. simpl. rewrite decide_False; [done|congruence]. Qed.

Lemma honest_balance q self l t b : honest q self l → query_token_balance q t self = Ok b → b = bal l t.
Proof. unfold query_token_balance. intros Hq. destruct (Hq t) as [-> _]. by intros [= <-]. Qed.
Lemma honest_supply q self l t n : honest q self l → query_supply q t = Ok n → n = supply l t.
Proof. unfold query_supply. intros Hq. destruct (Hq t) as [_ ->]. by intros [= <-]. Qed.

(** A poll called one of the contract's tokens, and the contract's own books are
    as they were. *)
Definition by_vote (st st' : Storage) (x p : Addr) : Prop :=
  (vote_calls st st' x ∨ vote_calls st st' p) ∧ committed st' = committed st ∧
  pending_xprism st' = pending_xprism st ∧ pending_prism st' = pending_prism st.

(** What a step guarantees of the tokens it does not replace. *)
Definition refines (st st' : Storage) (l l' : Ledger) : Prop :=
  bounded l' ∧ (∀ a, (is_xprism st a ↔ is_xprism st' a) ∧ (is_prism st a ↔ is_prism st' a)) ∧
  ∀ x p, is_xprism st x → is_prism st p → x ≠ p →
    Exchange.step (view x p st l) (view x p st' l') ∨ by_vote st st' x p.

(** Nothing moves but what the world moves. *)
Lemma refines_world st st' l l' :
  bounded l' → (∀ t, bal l t ≤ bal l' t) → (∀ x, is_xprism st x → supply l' x ≤ supply l x) →
  committed st' = committed st → TOTAL_PENDING_WITHDRAW st' = TOTAL_PENDING_WITHDRAW st →
  (∀ a, (is_xprism st a ↔ is_xprism st' a) ∧ (is_prism st a ↔ is_prism st' a)) → refines st st' l l'.
Proof.
  intros Hb Hl Hs Hc Ht Htok. split_and!; [done..|]. intros x p Hx Hp Hxp. left. unfold view.
  rewrite Hc. unfold pending_xprism, pending_prism. rewrite Ht.
  by apply (Exchange.world (view x p st l)); simpl; auto.
Qed.

Lemma refines_quiet self st st' l l' resp :
  bounded l → messages resp = [] → settle self resp l l' →
  committed st' = committed st → TOTAL_PENDING_WITHDRAW st' = TOTAL_PENDING_WITHDRAW st →
  (∀ a, (is_xprism st a ↔ is_xprism st' a) ∧ (is_prism st a ↔ is_prism st' a)) → refines st st' l l'.
Proof.
  intros Hb Hm Hs. assert (∀ t, bal l' t = bal l t ∧ supply l' t = supply l t) as Hl
    by by eapply settle_quiet.
  apply refines_world.
  - intros t. destruct (Hl t) as [-> ->]. apply Hb.
  - intros t. destruct (Hl t). lia.
  - intros t _. destruct (Hl t). lia.
Qed.

(** xPRISM received for a deposit. *)
Lemma refines_receive self st st' l l' resp x n :
  bounded (credit x n l) → is_xprism st x → messages resp = [] → settle self resp (credit x n l) l' →
  committed st' = committed st + n → TOTAL_PENDING_WITHDRAW st' = TOTAL_PENDING_WITHDRAW st →
  CONFIG st' = CONFIG st → refines st st' l l'.
Proof.
  intros Hb Hx Hm Hs Hc Ht Hconf.
  assert (∀ t, bal l' t = bal (credit x n l) t ∧ supply l' t = supply l t) as Hl
    by by apply (settle_quiet self resp (credit x n l)).
  split_and!; [intros t; destruct (Hl t) as [-> ->]; apply (Hb t)|by apply config_tokens|].
  intros x' p Hx' Hp Hxp. left. rewrite (xprism_unique _ _ _ Hx' Hx) in *. clear Hx'.
  unfold view. rewrite Hc. unfold pending_xprism, pending_prism. rewrite Ht.
  destruct (Hl x) as [-> ->], (Hl p) as [-> _]. rewrite bal_credit_eq, bal_credit_ne by done.
  apply (Exchange.receive (view x p st l)). simpl. specialize (Hb x). by rewrite bal_credit_eq in Hb.
Qed.

Lemma refines_redeem self st q env l l' sender n st' resp x :
  contract_address env = self → bounded (credit x n l) → is_xprism st x →
  honest q self (credit x n l) → settle self resp (credit x n l) l' →
  redeem_xprism st q env sender n = Ok (st', resp) → refines st st' l l'.
Proof.
  intros Hself Hb Hx Hq Hs (c & pr & xp & px & pp & b & s & Hc & Hpr & Hxp & Ht & Hqb & Hqs & Hpp & Hpx &
    _ & _ & _ & -> & Hm)%redeem_xprism_spec. rewrite Hself in Hqb.
  assert (∀ t, bal l' t = bal (credit x n l) t ∧ supply l' t = supply l t) as Hl
    by by apply (settle_quiet self resp (credit x n l)).
  split_and!; [intros t; destruct (Hl t) as [-> ->]; apply (Hb t)|by apply config_tokens|].
  intros x' p Hx' Hp Hxp'. left. rewrite (xprism_unique _ _ _ Hx' Hx) in *. clear Hx'.
  assert (pr = p) as -> by (eapply prism_unique; [|done]; by exists c).
  assert (xp = x) as -> by (eapply xprism_unique; [|done]; by exists c).
  apply (honest_balance _ _ _ _ _ Hq) in Hqb. apply (honest_supply _ _ _ _ _ Hq) in Hqs.
  rewrite bal_credit_ne in Hqb by done. simpl in Hqs. subst b s.
  unfold view, committed, pending_xprism, pending_prism. simpl. rewrite Ht. simpl.
  destruct (Hl x) as [-> ->], (Hl p) as [-> _]. rewrite bal_credit_eq, bal_credit_ne by done.
  specialize (Hb x). rewrite bal_credit_eq in Hb. simpl in Hb.
  pose proof (Exchange.redeem (view x p st l) n) as Hr.
  unfold view, committed, pending_xprism, pending_prism in Hr. rewrite Ht in Hr. by apply Hr.
Qed.

Lemma refines_mint self st q env l l' r n st' resp p :
  contract_address env = self → bounded (credit p n l) → is_prism st p →
  honest q self (credit p n l) → settle self resp (credit p n l) l' →
  mint_xprism st q env r n = Ok (st', resp) → refines st st' l l'.
Proof.
  intros Hself Hb Hp Hq Hs (c & pr & xp & px & pp & b & s & Hc & Hpr & Hxp & Ht & Hqb & Hqs & Hpp & Hpx &
    -> & Hm)%mint_xprism_spec. rewrite Hself in Hqb.
  assert (is_xprism st xp) as Hx by (by exists c).
  assert (pr = p) as -> by (eapply prism_unique; [|done]; by exists c).
  apply (honest_balance _ _ _ _ _ Hq) in Hqb. apply (honest_supply _ _ _ _ _ Hq) in Hqs.
  pose proof (settle_mint _ _ _ _ _ _ _ Hm Hs) as Hl. cbv zeta in Hl.
  rewrite bal_credit_eq in Hqb. simpl in Hqs. subst b s.
  split_and!; [|by apply config_tokens|].
  { intros t. specialize (Hl t). specialize (Hb t). simpl in *. case_decide; lia. }
  intros x p' Hx' Hp' Hxp'. left. rewrite (xprism_unique _ _ _ Hx' Hx), (prism_unique _ _ _ Hp' Hp) in *.
  pose proof (Hl xp) as Hlx. pose proof (Hl p) as Hlp.
  rewrite bal_credit_ne in Hlx by done. rewrite bal_credit_eq in Hlp.
  rewrite decide_True in Hlx by done. rewrite decide_False in Hlp by done. simpl in *.
  replace (bal l p + n - n - pp) with (bal l p - pp) in * by lia.
  pose proof (λ m, Exchange.mint (view xp p st l) n m (bal l' xp)) as Hmint.
  unfold view, pending_xprism, pending_prism, Exchange.underlying, Exchange.shares in *. rewrite Ht in *. simpl in *.
  destruct Hlx as [-> ?]. replace (bal l' p) with (bal l p + n) by lia. apply Hmint; [lia..|done].
Qed.

(** xPRISM paid out of what is committed, burnt or transferred. *)
Lemma refines_pay self st st' l l' resp x n :
  bounded l → is_xprism st x →
  (messages resp = [sub_new (burn_msg x n)] ∨ (∃ r, messages resp = [sub_new (transfer_msg x r n)]) ∨
   messages resp = [] ∧ n = 0) →
  settle self resp l l' → committed st' + n = committed st →
  CONFIG st' = CONFIG st → TOTAL_PENDING_WITHDRAW st' = TOTAL_PENDING_WITHDRAW st → refines st st' l l'.
Proof.
  intros Hb Hx Hm Hs Hc Hconf Ht.
  assert (∀ t, bal l t ≤ bal l' t + (if decide (x = t) then n else 0) ∧ bal l' t ≤ supply l' t ≤ supply l t ∧
    (x ≠ t → bal l' t = bal l t)) as Hl.
  { intros t. specialize (Hb t). destruct Hm as [Hm|[[r Hm]|[Hm ->]]].
    - pose proof (settle_burn _ _ _ _ _ _ Hm Hs t) as Hl. simpl in Hl. case_decide; [subst|]; split_and!; lia || done.
    - pose proof (settle_transfer _ _ _ _ _ _ _ Hm Hs t) as Hl. simpl in Hl. case_decide; [subst|]; split_and!; lia || done.
    - destruct (settle_quiet _ _ _ _ Hm Hs t).
      case_decide; [subst|]; split_and!; lia || done. }
  split_and!; [intros t; destruct (Hl t); lia|by apply config_tokens|].
  intros x' p Hx' Hp Hxp. left. rewrite (xprism_unique _ _ _ Hx' Hx) in *. clear Hx'.
  destruct (Hl x) as (Hl1 & Hl2 & _). rewrite decide_True in Hl1 by done.
  destruct (Hl p) as (_ & _ & Hl3). unfold view, pending_xprism, pending_prism. rewrite Ht, (Hl3 Hxp).
  by apply (Exchange.pay (view x p st l) _ n).
Qed.

Lemma refines_claim self st env info l l' st' resp :
  bounded l → settle self resp l l' →
  claim_redeemed_prism st env info = Ok (st', resp) → 
  (∀ x p, is_xprism st x → is_prism st p → x ≠ p) → refines st st' l l'.
Proof.
  intros Hb Hs (c & p & x & wx & wp & Hc & Hp & Hx & Hm & Hcom & Hpx & Hpp & Hconf)%committed_claim Hdist.
  assert (is_xprism st x) as Hx' by (by exists c). assert (is_prism st p) as Hp' by (by exists c).
  destruct (settle_claim _ _ _ _ _ _ _ _ _ Hm Hs (Hdist x p Hx' Hp')) as (H1 & H2 & H3 & H4).
  split_and!; [intros t; apply H4, Hb|by apply config_tokens|].
  intros x2 p2 Hx2 Hp2 _. left. rewrite (xprism_unique _ _ _ Hx2 Hx'), (prism_unique _ _ _ Hp2 Hp').
  unfold view. rewrite Hcom. by apply (Exchange.claim (view x p st l) _ _ wx wp).
Qed.

(** The message of a poll leaves alone the tokens it does not call. *)
Lemma refines_execute_poll self st env i st' resp l l' :
  bounded l → execute_poll st env i = Ok (st', resp) → settle self resp l l' → refines st st' l l'.
Proof.
  intros Hb H Hs. pose proof (committed_execute_poll _ _ _ _ _ H) as (_ & Hcom & Hconf & Htot).
  apply execute_poll_spec in H as (c & poll & d & a & Hc & Hp & Hst & _ & Hd & Ha & Hst' & Hm).
  assert (vote_calls st st' a) as Hcall.
  { exists i, poll, d. split_and!; try done. by rewrite Hst'; simpl; rewrite lookup_insert_eq. }
  assert (∀ t, bal l' t ≤ supply l' t ∧ (t ≠ a → bal l' t = bal l t ∧ supply l' t = supply l t)) as Hl.
  { intros t. unfold settle, total, own_messages, addressed_by_vote in Hs. rewrite Hm in Hs. simpl in Hs.
    specialize (Hb t). destruct (Hs t) as [[(sm & m & f & [->|Hin]%elem_of_cons & _ & Hsm) Hbt]|[H1 H2]].
    - simpl in Hsm. injection Hsm as -> _ _. split; [done|]. by intros [].
    - by apply not_elem_of_nil in Hin.
    - rewrite !N.add_0_r in H1, H2. rewrite H1, H2. done. }
  split_and!; [intros t; apply Hl|by apply config_tokens|]. intros x p Hx Hp' Hxp.
  assert (pending_xprism st' = pending_xprism st ∧ pending_prism st' = pending_prism st) as [Hpx Hpp]
    by (unfold pending_xprism, pending_prism; by rewrite Htot).
  destruct (decide (x = a)) as [->|Hxa]; [right; by split; [left|]|].
  destruct (decide (p = a)) as [->|Hpa]; [right; by split; [right|]|]. left.
  destruct (proj2 (Hl x) Hxa) as [Hbx Hsx], (proj2 (Hl p) Hpa) as [Hbp _].
  unfold view. rewrite Hcom, Hpx, Hpp, Hbx, Hsx, Hbp. specialize (Hb x).
  by apply (Exchange.world (view x p st l)).
Qed.

Lemma execute_refines self st q env info msg st' resp l l' :
  Inv st → (∀ x p, is_xprism st x → is_prism st p → x ≠ p) → bounded l →
  contract_address env = self → normal (info_sender info) →
  bounded (incoming info msg l) → honest q self (incoming info msg l) →
  execute fb st q env info msg = Ok (st', resp) → settle self resp (incoming info msg l) l' →
  refines st st' l l'.
Proof.
  intros [HP _ _] Hdist Hb0 Hself Hn Hb Hq H Hs.
  destruct msg as [m|o qu th vp ed pd sp rt gl|i v n|amount|i|i|i|]; simpl in H, Hb, Hq, Hs.
  - apply receive_cw20_spec in H as (c & raw & x & Hc & Hraw & Hxraw & Hcase).
    pose proof (Hn _ Hraw) as Hhum. destruct Hcase as [[-> Hcase]|(_ & -> & r & H)].
    + assert (is_xprism st (info_sender info)) as Hx
        by (exists c; split; [done|]; unfold xprism_addr; by rewrite Hxraw).
      destruct Hcase as [H|[(t & d & u & e & H)|H]].
      * apply committed_stake in H as (? & ? & ? & ?). by eapply refines_receive.
      * apply committed_create in H as (? & ? & ? & ?); [|done]. by eapply refines_receive.
      * by eapply refines_redeem.
    + assert (is_prism st (info_sender info)) as Hp by (by exists c). by eapply refines_mint.
  - apply update_config_spec in H as (Hm & c & c' & raw & Hc & -> & _ & _ & Hp & Hx).
    eapply refines_quiet; [done|done|exact Hs|done..|]. by eapply same_tokens.
  - apply committed_cast in H as (? & ? & ? & ?). eapply refines_quiet; [done..|]. by apply config_tokens.
  - apply committed_withdraw in H as (c & x & r & n & Hc & Hx & Hm & ? & ? & ?).
    eapply (refines_pay _ _ _ _ _ _ x n); eauto. by exists c.
  - apply committed_end_poll in H as (c & x & n & Hc & Hx & Hm & ? & ? & ?); [|done].
    eapply (refines_pay _ _ _ _ _ _ x n); eauto. by exists c.
  - by eapply refines_execute_poll.
  - apply committed_snapshot in H as (? & ? & ? & ?). eapply refines_quiet; [done..|]. by apply config_tokens.
  - by eapply refines_claim.
Qed.

(** Until its token exists the contract owes nothing. *)
Definition idle (st : Storage) : Prop :=
  ∀ c, CONFIG st = Some c → xprism_token c = None →
  committed st = 0 ∧ TOTAL_PENDING_WITHDRAW st = Some (0, 0).

Lemma execute_idle st q env info msg st' resp :
  execute fb st q env info msg = Ok (st', resp) → Inv st → idle st → idle st'.
Proof.
  intros H [HP _ _] Hi c' Hc' Hn. destruct msg as [m|o qu th vp ed pd sp rt gl|i v n|amount|i|i|i|]; simpl in H.
  - apply receive_cw20_spec in H as (c & raw & x & Hc & _ & Hx & Hcase). exfalso.
    enough (CONFIG st' = CONFIG st) by congruence.
    destruct Hcase as [(_ & [H|[(t & d & u & e & H)|H]])|(_ & _ & r & H)].
    + by apply committed_stake in H as (_ & _ & ? & _).
    + by apply committed_create in H as (_ & _ & ? & _).
    + by apply redeem_xprism_spec in H as (? & ? & ? & ? & ? & ? & ? & ? & ? & ? & ? & ? & ? & ? & ? & ? & ? & ? & -> & _).
    + by apply mint_xprism_spec in H as (? & ? & ? & ? & ? & ? & ? & ? & ? & ? & ? & ? & ? & ? & ? & -> & _).
  - apply update_config_spec in H as (_ & c & c2 & raw & Hc & -> & _ & _ & _ & Hx).
    simpl in Hc'. simplify_eq. apply (Hi c); [done|congruence].
  - apply committed_cast in H as (_ & -> & Hc & ->). apply (Hi c'); congruence.
  - apply committed_withdraw in H as (c & x & r & n & Hc & (? & ? & _)%xprism_addr_Ok & _ & _ & Hc2 & _). congruence.
  - apply committed_end_poll in H as (c & x & n & Hc & (? & ? & _)%xprism_addr_Ok & _ & _ & Hc2 & _); congruence.
  - apply committed_execute_poll in H as (_ & -> & Hc & ->). apply (Hi c'); congruence.
  - apply committed_snapshot in H as (_ & -> & Hc & ->). apply (Hi c'); congruence.
  - apply committed_claim in H as (c & p & x & wx & wp & Hc & _ & (? & ? & _)%xprism_addr_Ok & _ & _ & _ & _ & Hc2). congruence.
Qed.

Record sound (st : Storage) (l : Ledger) : Prop := {
  sd_bounded : bounded l;
  sd_distinct x p : is_xprism st x → is_prism st p → x ≠ p;
  sd_solvent x p : is_xprism st x → is_prism st p → Exchange.solvent (view x p st l);
  sd_idle : idle st }.

(** No poll calls one of the contract's tokens. *)
Definition tame (st st' : Storage) : Prop := ∀ t, is_xprism st t ∨ is_prism st t → ¬ vote_calls st st' t.

Lemma refines_sound st st' l l' : refines st st' l l' → tame st st' → idle st' → sound st l → sound st' l'.
Proof.
  intros (Hb & Htok & Hstep) Ht Hi [_ Hd Hs _]. split; [done| | |done].
  - intros x p Hx%(Htok x) Hp%(Htok p). by apply Hd.
  - intros x p Hx%(Htok x) Hp%(Htok p). destruct (Hstep x p Hx Hp (Hd x p Hx Hp)) as [Hst|[[Hv|Hv] _]].
    + by eapply Exchange.step_solvent; [|apply Hs].
    + by destruct (Ht x (or_introl Hx)).
    + by destruct (Ht p (or_intror Hp)).
Qed.

Lemma reply_refines st msg st' resp l :
  Inv st → reply st msg = Ok (st', resp) → bounded l → idle st →
  refines st st' l l ∧ idle st' ∨
  (∃ c, CONFIG st = Some c ∧ xprism_token c = None) ∧ committed st' = 0 ∧
  TOTAL_PENDING_WITHDRAW st' = Some (0, 0) ∧ idle st'.
Proof.
  intros [HP _ _] H Hb Hi. unfold reply in H. destruct (_ =? POLL_EXECUTE_REPLY_ID).
  - apply qbind_Ok in H as (i & Ht & H). apply load_Ok in Ht. left.
    destruct (committed_failed_poll _ _ _ _ HP Ht H) as (Hc & Hconf & Htot).
    split; [apply refines_world; try done; by apply config_tokens|].
    intros c. rewrite Hc, Hconf, Htot. apply Hi.
  - destruct (_ =? INSTANTIATE_REPLY_ID); [|done]. right.
    apply set_xprism_token_spec in H as (_ & c & c' & raw & Hc & -> & Hn & _ & Hs).
    destruct (Hi _ Hc Hn) as [Hcom Htot]. split_and!; [by exists c|done|done|].
    intros c2 Hc2. simpl in Hc2. congruence.
Qed.

Lemma world_step_sound self st l st' l' :
  Inv st → sound st l → world_step fb self st l st' l' → tame st st' → sound st' l'.
Proof.
  intros HI Hs Hw Ht. pose proof Hs as [Hb Hd Hsol Hi].
  destruct Hw as [q env info msg resp Hself Hn Hbi Hq H Hset|msg resp H -> Hdist| -> Hle Hb' Hsup].
  - apply (refines_sound st _ l); [by eapply execute_refines|exact Ht|by eapply execute_idle|done].
  - destruct (reply_refines _ _ _ _ l HI H Hb Hi) as [[Href Hi']|(_ & Hc & Htot & Hi')].
    + by eapply refines_sound.
    + split; [done|by apply Hdist| |done]. intros x p Hx Hp. unfold Exchange.solvent, view, pending_xprism, pending_prism.
      rewrite Hc, Htot. simpl. specialize (Hb x). lia.
  - apply (refines_sound st _ l); [by apply refines_world|done..].
Qed.

Lemma run_sound self st l : run fb self st l → sound st l.
Proof.
  induction 1 as [env info msg st resp l H Hb|st l st' l' Hr IH Hw Ht].
  - unfold instantiate in H. inv_body H. split; [done|..].
    + intros x p (c & Hc & Hx) _. simpl in Hc. by simplify_eq.
    + intros x p (c & Hc & Hx) _. simpl in Hc. by simplify_eq.
    + intros c _ _. unfold committed, staked, poll_deposits. simpl. by autorewrite with prism_maps.
  - eapply world_step_sound; [|done..]. by eapply gov_reachable_inv, run_reachable.
Qed.

Lemma world_step_refines self st l st' l' x p :
  Inv st → sound st l → world_step fb self st l st' l' → is_xprism st x → is_prism st p →
  Exchange.step (view x p st l) (view x p st' l') ∨ by_vote st st' x p.
Proof.
  intros HI Hs Hw Hx Hp. pose proof Hs as [Hb Hd _ Hi].
  enough (refines st st' l l') as (_ & _ & Hst) by (by apply Hst, Hd).
  destruct Hw as [q env info msg resp Hself Hn Hbi Hq H Hset|msg resp H -> Hdist| -> Hle Hb' Hsup].
  - by eapply execute_refines.
  - destruct (reply_refines _ _ _ _ l HI H Hb Hi) as [[Href _]|((c & Hc & Hn) & _)]; [done|].
    destruct Hx as (c' & Hc' & (raw & Hraw & _)%xprism_addr_Ok). congruence.
  - by apply refines_world.
Qed.

(** C11: The books of the governance contract. In every state the contract can
    reach, each poll is indexed under exactly its status; the tallies of a poll
    in progress are the sums of the recorded votes, each covered by the deposit
    of its voter, who votes at most once per poll and on at most twenty polls;
    the pending totals are the sums of the queued redemption orders. *)
Theorem gov_books st : reachable fb st → Inv st.
Proof. apply gov_reachable_inv. Qed.

(** No poll counts more votes than are staked. In every reachable state the
    votes tallied for a poll in progress, over the three options together, are
    at most the voting tokens staked with the contract. *)
Theorem gov_votes_staked st i p :
  reachable fb st → POLL st !! i = Some p → status p = InProgress →
  yes_votes p + no_votes p + abstain_votes p ≤ staked st.
Proof. intros [_ HV _]%gov_reachable_inv. by apply votes_staked. Qed.

(** C24: The life of a poll. Along any run of the contract a poll never
    disappears, its terms never change, its status only moves from in progress
    to passed or rejected, from passed to executed, from executed to failed; a
    supply snapshot is taken at most once; votes are only added, and none after
    the poll has left the status in progress. *)
Theorem gov_poll_lifecycle st st' i p :
  reachable fb st → rtc (step fb) st st' → POLL st !! i = Some p →
  ∃ p', POLL st' !! i = Some p' ∧ evolves p p'.
Proof.
  intros Hr Hsteps. revert p Hr. induction Hsteps as [st|st1 st2 st3 H12 _ IH]; intros p Hr Hp; [by exists p|].
  pose proof (gov_reachable_inv _ Hr) as [HP _ _].
  assert (polls_step st1 st2) as Hst
    by (destruct H12; [by eapply execute_polls|by eapply reply_polls]).
  destruct (polls_step_evolves _ _ _ _ Hst HP Hp) as (p2 & Hp2 & Hev).
  destruct (IH p2 (reach_step _ _ _ Hr H12) Hp2) as (p3 & Hp3 & Hev').
  exists p3. split; [done|by etrans].
Qed.

(** C25: What ending a poll decides. It ends a poll in progress whose voting
    period is over; the poll passes exactly when somebody voted, the votes
    reach the required share of the supply (of the snapshot, or at the time of
    the call), and the yes votes exceed the required share of the yes and no
    votes by at least one atomic; otherwise it is rejected.  The deposit goes
    back to the proposer when the quorum is reached and is burnt otherwise. *)
Theorem gov_end_poll st q env i st' resp :
  end_poll st q env i = Ok (st', resp) →
  ∃ p s x d, POLL st !! i = Some p ∧ status p = InProgress ∧ end_time p ≤ now env ∧ is_xprism st x ∧
    (supply_snapshot p = Some s ∨ supply_snapshot p = None ∧ query_supply q x = Ok s) ∧
    let n := yes_votes p + no_votes p + abstain_votes p in
    let quorum := n ≠ 0 ∧ (s = 0 → required_quorum p = 0) ∧ required_quorum p * s ≤ n * DECIMAL_UNIT in
    let majority := yes_votes p ≠ 0 ∧
      (required_threshold p + 1) * (yes_votes p + no_votes p) ≤ yes_votes p * DECIMAL_UNIT in
    (d = Passed ∧ quorum ∧ majority ∨ d = Rejected ∧ ¬ (quorum ∧ majority)) ∧
    POLL st' = <[i := with_status d (with_snapshot s p)]> (POLL st) ∧
    (deposit_amount p = 0 ∧ messages resp = [] ∨
     deposit_amount p ≠ 0 ∧ quorum ∧ (∃ a, addr_humanize (creator p) = Ok a ∧
       messages resp = [sub_new (transfer_msg x a (deposit_amount p))]) ∨
     deposit_amount p ≠ 0 ∧ ¬ quorum ∧ messages resp = [sub_new (burn_msg x (deposit_amount p))]).
Proof.
  intros (c & p & s & x & a & Hc & Hp & Hx & Hs & Ht & Hsn & Ha & -> & Hm)%end_poll_spec.
  exists p, s, x, (decision p s). split_and!; [done..|by exists c|done|]. cbv zeta.
  pose proof (quorate_spec p s) as Hq. pose proof (majority_spec p) as Hmaj.
  split_and!; [|done|].
  - unfold decision. rewrite <-Hq, <-Hmaj. destruct (quorate p s), (majority p); simpl; [by left|right..];
      (split; [done|by intros [? ?]]).
  - rewrite <-Hq, Hm. unfold deposit_messages. destruct (N.eqb_spec (deposit_amount p) 0); [by left|right].
    destruct (quorate p s); [left|right]; [|done]. split_and!; [done..|]. exists a. eauto.
Qed.

(** C26: Withdrawing voting tokens. In a reachable state, an account can
    withdraw exactly what exceeds its largest vote on a poll in progress: up to
    that amount (by default all of it) the call succeeds, pays it, lowers the
    deposit by it and forgets the votes on finished polls, and nothing else
    changes hands; beyond it the call is refused. *)
Theorem gov_withdraw_voting st info amount key m x a :
  reachable fb st → addr_canonicalize (info_sender info) = Ok key → BANK st !! key = Some m →
  is_xprism st x → addr_humanize key = Ok a →
  let locked := live (POLL st) (locked_balance m) in
  let free := deposit m - max_balance locked in
  let n := default free amount in
  max_balance locked ≤ deposit m ∧
  (n ≤ free → ∃ st' resp, withdraw_voting_tokens st info amount = Ok (st', resp) ∧
    messages resp = [sub_new (transfer_msg x a n)] ∧
    BANK st' = <[key := mkVotingTokenManager (deposit m - n) locked]> (BANK st) ∧
    (∀ i b, in_progress (POLL st) i = true ∨ b ≠ key → POLL_VOTER st' !! (i, b) = POLL_VOTER st !! (i, b)) ∧
    POLL st' = POLL st ∧ WITHDRAW_ORDERS st' = WITHDRAW_ORDERS st) ∧
  (free < n → withdraw_voting_tokens st info amount =
    Err (GenericErr "User is trying to withdraw too many tokens")).
Proof.
  intros [_ HV _]%gov_reachable_inv Hkey Hm (c & Hc & (raw & Hraw & Hx)%xprism_addr_Ok) Ha locked free n.
  assert (max_balance locked ≤ deposit m) as Hle.
  { apply max_balance_le. intros e [He Hp]%elem_of_live.
    pose proof (account_cover st key e HV) as Hcov. unfold account, token_manager_of in Hcov.
    rewrite Hm in Hcov. by apply Hcov. }
  split; [done|].
  destruct (compute_locked_balance st m key) as [[[st1 m1] l1]|e|] eqn:Hlock.
  - pose proof (compute_locked_balance_spec _ _ _ _ _ _ Hlock) as (_ & (vs & -> & Hvs) & -> & ->).
    unfold withdraw_voting_tokens, load_config. rewrite Hc. simpl. rewrite Hkey. simpl.
    rewrite Hm. simpl. rewrite Hlock. simpl.
    fold locked. rewrite (proj2 (checked_sub_Ok (deposit m) (max_balance locked) _)) by done. simpl.
    fold free n. split; intros Hn.
    + rewrite (proj2 (N.ltb_ge free n)) by done.
      rewrite (proj2 (checked_sub_Ok (deposit m) n _)) by (split; [unfold free in Hn; lia|done]). simpl.
      rewrite Hraw. unfold send_tokens. simpl. rewrite Hx. simpl. rewrite Ha. simpl.
      eexists _, _. split_and!; try done. simpl. intros i b Hi. rewrite Hvs, decide_False; [done|].
      intros (-> & _ & Hf). destruct Hi; congruence.
    + by rewrite (proj2 (N.ltb_lt free n)).
  - exfalso. unfold compute_locked_balance in Hlock. by destruct (optfold _ _ _) as [[[? ?] ?]|].
  - exfalso. unfold compute_locked_balance in Hlock.
    destruct (locked_loop_total (POLL st) key (POLL_VOTER st, [], 0) (locked_balance m)) as [[[? ?] ?] Hr].
    { intros [i v] He. destruct (vi_entry _ HV _ _ _ _ Hm He) as (p & ? & _). by exists p. }
    by rewrite Hr in Hlock.
Qed.

(** C27: Claiming redeemed PRISM. In a reachable state a claim looks at the
    first fifty orders of the sender in time order and takes those whose time
    has come; when they are worth nothing the claim is refused, otherwise it
    succeeds, burns their xPRISM, pays their PRISM, deletes exactly these orders
    and reduces the pending totals by them. *)
Theorem gov_claim_redeemed st env info x p :
  reachable fb st → is_xprism st x → is_prism st p →
  let orders := take 50 (range_u64 (prefix (WITHDRAW_ORDERS st) (info_sender info))) in
  let due := List.filter (λ e, e.1 <=? now env) orders in
  let wx := sum_N due.*2.*1 in let wp := sum_N due.*2.*2 in
  (wx + wp = 0 → claim_redeemed_prism st env info = Err (GenericErr "nothing to claim")) ∧
  (wx + wp ≠ 0 → ∃ st' resp, claim_redeemed_prism st env info = Ok (st', resp) ∧
    messages resp = [sub_new (burn_msg x wx); sub_new (transfer_msg p (info_sender info) wp)] ∧
    (∀ a t, WITHDRAW_ORDERS st' !! (a, t) =
      if decide (a = info_sender info ∧ t ∈ due.*1) then None else WITHDRAW_ORDERS st !! (a, t)) ∧
    pending_xprism st' + wx = pending_xprism st ∧ pending_prism st' + wp = pending_prism st).
Proof.
  intros [_ _ (Ht & Hbx & Hbp)]%gov_reachable_inv (c & Hc & Hx) (c' & Hc' & Hp) orders due.
  simplify_eq. assert (due = claimable st (now env) (info_sender info)) as ->
    by (symmetry; apply claimable_filter). clear orders. intros wx wp.
  destruct (queued_split st (now env) (info_sender info)) as [Hqx Hqp]. fold wx in Hqx. fold wp in Hqp.
  destruct (sum_expired_total (now env)
    (take MAX_ORDER_WITHDRAW_PER_TX (range_u64 (orders_of st (info_sender info)))) 0 0 []) as [r Hr].
  { unfold wx, claimable, first_matured in *. lia. } { unfold wp, claimable, first_matured in *. lia. }
  pose proof (sum_expired_spec _ _ _ _ _ _ Hr) as ->.
  fold (first_matured MAX_ORDER_WITHDRAW_PER_TX (now env) (orders_of st (info_sender info))) in Hr.
  fold (claimable st (now env) (info_sender info)) in Hr.
  fold wx wp in Hr. simpl in Hr.
  unfold claim_redeemed_prism, compute_withdrawable, load_config, load_total_pending. rewrite Hc. simpl.
  rewrite Hp. simpl. rewrite Hx. simpl. unfold orders_of in Hr. rewrite Hr. simpl. rewrite Ht. simpl.
  rewrite (proj2 (checked_sub_Ok (queued_xprism st) wx _)) by (split; [lia|done]). simpl.
  rewrite (proj2 (checked_sub_Ok (queued_prism st) wp _)) by (split; [lia|done]). simpl.
  unfold is_zero. rewrite !N.add_0_l. split; intros Hz.
  { by replace wx with 0 by lia; replace wp with 0 by lia. }
  assert ((wp =? 0) && (wx =? 0) = false) as -> by (apply andb_false_iff; rewrite !N.eqb_neq; lia).
  eexists _, _. split_and!; [done|done| | |].
  - intros a t. simpl. apply (lookup_remove_claimed _ _ _ (a, t)).
  - unfold pending_xprism. rewrite Ht. simpl. lia.
  - unfold pending_prism. rewrite Ht. simpl. lia.
Qed.

(** C2: The contract implements an exchange with custody. Read as a book (what
    is committed to stakers and proposers, what is pending in xPRISM and PRISM,
    the custody balances and the xPRISM supply), every step of the contract
    among its token contracts is a step of the abstract exchange: a receipt, a
    redemption or a mint at the current price, a payment out of what is
    committed, a claim out of what is pending, or a gift of the world. The one
    exception is the vote: a step that executes a passed poll whose message is
    addressed to PRISM or xPRISM leaves the commitments and the pending totals
    as they are, and what the message does to custody and supply is the voters'
    choice. The steps are those of runs on which no such poll was executed
    before. *)
Theorem gov_refines_exchange self st l st' l' x p :
  run fb self st l → world_step fb self st l st' l' → is_xprism st x → is_prism st p →
  Exchange.step (view x p st l) (view x p st' l') ∨
  (vote_calls st st' x ∨ vote_calls st st' p) ∧
    committed st' = committed st ∧ pending_xprism st' = pending_xprism st ∧ pending_prism st' = pending_prism st.
Proof.
  intros Hr Hw Hx Hp. eapply world_step_refines; [|by eapply run_sound|done..].
  by eapply gov_reachable_inv, run_reachable.
Qed.

(** Solvency of governance. On every run among the tokens on which no executed
    poll has called PRISM or xPRISM, the contract
    holds at least the xPRISM it owes (the deposits of stakers, the deposits of
    the polls in progress, and what waits to be burnt for redemptions) and at
    least the PRISM it has promised to redemptions. *)
Theorem gov_solvent self st l x p :
  run fb self st l → is_xprism st x → is_prism st p →
  staked st + poll_deposits st + pending_xprism st ≤ bal l x ∧ pending_prism st ≤ bal l p.
Proof.
  intros Hr Hx Hp. destruct (sd_solvent _ _ (run_sound _ _ _ Hr) x p Hx Hp) as [[H _] ?].
  unfold view, committed in H. simpl in H. split; [lia|done].
Qed.

(** C4: Only a vote lowers the price of xPRISM. On every run among the tokens on
    which no executed poll has called PRISM or xPRISM, a step that lowers the
    ratio of the PRISM that backs xPRISM to the xPRISM that shares it, both net
    of what is pending, is the execution of a passed poll whose message is
    addressed to one of the two tokens: whatever else is minted, redeemed,
    claimed, burnt, voted or rounded, it is not at the expense of the other
    holders. *)
Theorem gov_price_monotone self st l st' l' x p :
  run fb self st l → world_step fb self st l st' l' → is_xprism st x → is_prism st p →
  let backing st l := bal l p - pending_prism st in
  let shares st l := supply l x - pending_xprism st in
  backing st l * shares st' l' ≤ backing st' l' * shares st l ∨
  ∃ i poll d token, POLL st !! i = Some poll ∧ status poll = Passed ∧ execute_data poll = Some d ∧
    addr_humanize (ed_contract d) = Ok token ∧ (token = x ∨ token = p) ∧
    POLL st' !! i = Some (with_status Executed poll).
Proof.
  intros Hr Hw Hx Hp backing shares. pose proof (run_sound _ _ _ Hr) as Hs.
  assert (Exchange.step (view x p st l) (view x p st' l') ∨ by_vote st st' x p) as [Hst|[Hv _]].
  { eapply world_step_refines; [|done..]. by eapply gov_reachable_inv, run_reachable. }
  - left. exact (Exchange.step_price _ _ Hst (sd_solvent _ _ Hs x p Hx Hp)).
  - right. destruct Hv as [(i & poll & d & Hpoll)|(i & poll & d & Hpoll)]; exists i, poll, d; eexists;
      destruct Hpoll as (? & ? & ? & ? & ?); split_and!; eauto.
Qed.
End properties.

(** ** Concrete runs *)
Section calls.
Context {P : Cosmwasm}.
Variable from_binary : Binary → outcome StdError (Cw20HookMsg Binary).

(** A call of the contract. *)
Inductive call : Type :=
  | Exec (q : Querier) (env : Env) (info : MessageInfo) (msg : ExecuteMsg Binary)
  | Answer (msg : Reply bytes).
Definition run_call (st : Storage) (c : call) : outcome StdError (Storage * Response) :=
  match c with
  | Exec q env info msg => execute from_binary st q env info msg
  | Answer msg => reply st msg
  end.
Definition next (st : Storage) (c : call) : option Storage :=
  match run_call st c with Ok (st', _) => Some st' | _ => None end.

Lemma next_step st c st' : next st c = Some st' → step from_binary st st'.
Proof.
  unfold next. destruct (run_call st c) as [[st1 resp]| |] eqn:Hc; intros [= <-].
  destruct c; [by eapply step_execute|by eapply step_reply].
Qed.

Lemma calls_rtc st cs st' : optfold next st cs = Some st' → rtc (step from_binary) st st'.
Proof.
  revert st. induction cs as [|c cs IH]; intros st; simpl; [by intros [= ->]|].
  destruct (next st c) as [st1|] eqn:Hc; simpl; [|done]. intros H%IH.
  eapply rtc_l; [by eapply next_step|done].
Qed.

Lemma reachable_rtc st st' : reachable from_binary st → rtc (step from_binary) st st' → reachable from_binary st'.
Proof. intros Hr Hs. induction Hs as [|st1 st2 st3 H _ IH]; [done|]. by apply IH, (reach_step _ _ _ Hr). Qed.
End calls.

Section witnesses.
Import Reference.
#[local] Existing Instance Reference.platform.

Definition parse_hook (b : Binary) : outcome StdError (Cw20HookMsg Binary) :=
  match b with BinGovHook m => Ok m | _ => Err ParseErr end.
Definition at_second (s : N) : Env := mkEnv 1 (s * 10 ^ 9) "gov".
Definition by_sender (a : Addr) : MessageInfo := mkInfo a [].
(** A chain that answers every token query with the same figures. *)
Definition figures (b s : N) : Querier :=
  mkQuerier (λ _, Ok []) (λ _ _, Ok None) (λ _, Ok None) (Ok []) (λ _ _, Ok 0) (λ _ _, Ok b) (λ _, Ok s).
Definition hook (sender : Addr) (n : N) (m : Cw20HookMsg Binary) : ExecuteMsg Binary :=
  Receive (mkCw20Receive sender n (BinGovHook m)).

Definition empty_storage : Storage := mkStorage None None None ∅ ∅ ∅ ∅ ∅ None.
Definition new_state (r : outcome StdError (Storage * Response)) : Storage :=
  match r with Ok (st, _) => st | _ => empty_storage end.
Definition response_of (r : outcome StdError (Storage * Response)) : Response :=
  match r with Ok (_, resp) => resp | _ => mkResponse [] [] end.
Lemma gov_run_Ok r : is_ok r = true → r = Ok (new_state r, response_of r).
Proof. by destruct r as [[? ?]| |]. Qed.

Definition init_msg : InstantiateMsg :=
  mkInstantiateMsg "prism" (10 ^ 17) (5 * 10 ^ 17) 1000 100 50 100 500 1000000 7.
Definition run_instantiate := instantiate (at_second 0) (by_sender "owner") init_msg.
Definition init_state : Storage := new_state run_instantiate.
Lemma grun_init_Ok : run_instantiate = Ok (init_state, response_of run_instantiate).
Proof. apply gov_run_Ok. vm_compute. reflexivity. Qed.

(** xPRISM is created; alice stakes 400, bob proposes a poll, alice votes yes
    with 300, carol redeems 100. *)
Definition xprism_reply : Reply bytes := mkReply 2 (inr (Some (encode_field 1 (string_bytes "xprism")))).
Definition voting_calls : list call :=
  [Answer xprism_reply;
   Exec (figures 0 0) (at_second 10) (by_sender "xprism") (hook "alice" 400 StakeVotingTokens);
   Exec (figures 0 0) (at_second 20) (by_sender "xprism")
     (hook "bob" 50 (CreatePoll "Poll" "A poll" None (Some (mkPollExecuteMsg "target" (RawBinary "{}")))));
   Exec (figures 0 0) (at_second 30) (by_sender "alice") (CastVote 1 Yes 300);
   Exec (figures 1000 1000) (at_second 40) (by_sender "xprism") (hook "carol" 100 RedeemXprism)].
Definition voted_state : Storage := default empty_storage (optfold (next parse_hook) init_state voting_calls).
Lemma voted_calls : optfold (next parse_hook) init_state voting_calls = Some voted_state.
Proof. vm_compute. reflexivity. Qed.
Lemma voted_reachable : reachable parse_hook voted_state.
Proof.
  exact (reachable_rtc parse_hook init_state voted_state
    (reach_init parse_hook (at_second 0) (by_sender "owner") init_msg _ _ grun_init_Ok)
    (calls_rtc parse_hook init_state voting_calls voted_state voted_calls)).
Qed.
Definition end_call : call := Exec (figures 0 1000) (at_second 1020) (by_sender "dan") (EndPoll 1).
Definition closing_calls : list call :=
  [end_call; Exec (figures 0 0) (at_second 1120) (by_sender "dan") (ExecutePoll 1);
   Answer (mkReply 1 (inl "failed"%string))].
Definition closed_state : Storage := default empty_storage (optfold (next parse_hook) voted_state closing_calls).
Lemma closed_calls : optfold (next parse_hook) voted_state closing_calls = Some closed_state.
Proof. vm_compute. reflexivity. Qed.

Definition the_poll (st : Storage) : Poll :=
  default (mkPoll 0 "" InProgress 0 0 0 0 "" "" None None 0 None 0 0) (POLL st !! 1).
Lemma voted_poll : POLL voted_state !! 1 = Some (the_poll voted_state).
Proof. vm_compute. reflexivity. Qed.

Lemma closed_poll : POLL closed_state !! 1 = Some (the_poll closed_state).
Proof. vm_compute. reflexivity. Qed.

Lemma gov_books_witness : Inv voted_state ∧ yes_votes (the_poll voted_state) = 300.
Proof. split; [exact (gov_books parse_hook voted_state voted_reachable)|vm_compute; reflexivity]. Defined.

Lemma gov_votes_staked_witness : 300 ≤ staked voted_state ∧ staked voted_state = 400.
Proof.
  split; [|vm_compute; reflexivity].
  exact (gov_votes_staked parse_hook voted_state 1 (the_poll voted_state) voted_reachable voted_poll eq_refl).
Defined.

Lemma gov_poll_lifecycle_witness :
  status (the_poll voted_state) = InProgress ∧
  ∃ p', POLL closed_state !! 1 = Some p' ∧ evolves (the_poll voted_state) p' ∧ status p' = Failed.
Proof.
  split; [vm_compute; reflexivity|].
  destruct (gov_poll_lifecycle parse_hook voted_state closed_state 1 (the_poll voted_state) voted_reachable
    (calls_rtc parse_hook voted_state closing_calls closed_state closed_calls) voted_poll) as (p' & Hp' & Hev).
  pose proof (Some_inj _ _ (eq_trans (eq_sym closed_poll) Hp')) as Heq. destruct Heq.
  exists (the_poll closed_state). split; [exact closed_poll|]. split; [exact Hev|].
  vm_compute. reflexivity.
Defined.

Definition run_end := end_poll voted_state (figures 0 1000) (at_second 1020) 1.
Lemma grun_end_Ok : run_end = Ok (new_state run_end, response_of run_end).
Proof. apply gov_run_Ok. vm_compute. reflexivity. Qed.
Lemma gov_end_poll_witness :
  status (the_poll (new_state run_end)) = Passed ∧
  ∃ p, POLL voted_state !! 1 = Some p ∧ status p = InProgress ∧ end_time p ≤ 1020.
Proof.
  split; [vm_compute; reflexivity|].
  destruct (gov_end_poll (P:=platform) voted_state (figures 0 1000) (at_second 1020) 1 _ _ grun_end_Ok)
    as (p & s & x & d & Hp & Hs & Ht & _).
  exists p. split; [exact Hp|]. split; [exact Hs|exact Ht].
Defined.

Lemma voted_xprism : is_xprism voted_state "xprism".
Proof. eexists. split; vm_compute; reflexivity. Qed.
Lemma voted_prism : is_prism voted_state "prism".
Proof. eexists. split; vm_compute; reflexivity. Qed.

Definition alice_account : VotingTokenManager := account voted_state "alice".
Lemma gov_withdraw_voting_witness :
  max_balance (live (POLL voted_state) (locked_balance alice_account)) ≤ deposit alice_account ∧
  ∃ st' resp, withdraw_voting_tokens voted_state (by_sender "alice") None = Ok (st', resp) ∧
    messages resp = [sub_new (transfer_msg "xprism" "alice" 100)].
Proof.
  destruct (gov_withdraw_voting (P:=platform) parse_hook voted_state (by_sender "alice") None "alice" alice_account
    "xprism" "alice" voted_reachable eq_refl) as (Hle & Hw & _); [vm_compute; reflexivity|exact voted_xprism|reflexivity|].
  split; [exact Hle|]. destruct Hw as (st' & resp & Hw & Hm & _); [vm_compute; discriminate|].
  exists st', resp. split; [exact Hw|]. rewrite Hm. vm_compute. reflexivity.
Defined.

Lemma gov_claim_redeemed_witness :
  ∃ st' resp, claim_redeemed_prism voted_state (at_second 540) (by_sender "carol") = Ok (st', resp) ∧
    messages resp = [sub_new (burn_msg "xprism" 100); sub_new (transfer_msg "prism" "carol" 100)] ∧
    pending_prism st' + 100 = 100.
Proof.
  destruct (gov_claim_redeemed (P:=platform) parse_hook voted_state (at_second 540) (by_sender "carol")
    "xprism" "prism" voted_reachable voted_xprism voted_prism) as [_ Hok].
  destruct Hok as (st' & resp & Hc & Hm & _ & _ & Hp); [vm_compute; discriminate|].
  exists st', resp. split; [exact Hc|]. split; [rewrite Hm; vm_compute; reflexivity|].
  refine (eq_trans (eq_trans _ Hp) _); [|vm_compute; reflexivity]. reflexivity.
Defined.

(** Among the tokens: alice mints with 1000 PRISM and redeems 200 of what she got. *)
Definition ledger0 : Ledger := mkLedger (λ _, 0) (λ t, if decide (t = "prism"%string) then 5000 else 0).
Definition ledger1 : Ledger :=
  mkLedger (bal (credit "prism" 1000 ledger0)) (λ t, if decide (t = "xprism"%string) then 1000 else supply ledger0 t).
Definition ledger2 : Ledger := credit "xprism" 200 ledger1.
Definition teller (l : Ledger) : Querier :=
  mkQuerier (λ _, Ok []) (λ _ _, Ok None) (λ _, Ok None) (Ok []) (λ _ _, Ok 0)
    (λ t _, Ok (bal l t)) (λ t, Ok (supply l t)).
Definition open_state : Storage := default empty_storage (next parse_hook init_state (Answer xprism_reply)).
Definition mint_msg1 : ExecuteMsg Binary := hook "alice" 1000 (MintXprism None).
Definition redeem_msg1 : ExecuteMsg Binary := hook "alice" 200 RedeemXprism.
Definition run_open := reply init_state xprism_reply.
Definition run_mint :=
  execute parse_hook open_state (teller (credit "prism" 1000 ledger0)) (at_second 10) (by_sender "prism") mint_msg1.
Definition run_redeem :=
  execute parse_hook open_state (teller ledger2) (at_second 20) (by_sender "xprism") redeem_msg1.
Lemma grun_open_Ok : run_open = Ok (open_state, response_of run_open).
Proof. vm_compute. reflexivity. Qed.
Lemma grun_mint_Ok : run_mint = Ok (open_state, response_of run_mint).
Proof. vm_compute. reflexivity. Qed.
Lemma grun_redeem_Ok : run_redeem = Ok (new_state run_redeem, response_of run_redeem).
Proof. apply gov_run_Ok. vm_compute. reflexivity. Qed.
Lemma open_xprism : is_xprism open_state "xprism".
Proof. eexists. split; vm_compute; reflexivity. Qed.
Lemma open_prism : is_prism open_state "prism".
Proof. eexists. split; vm_compute; reflexivity. Qed.
Lemma redeem_xprism_token : is_xprism (new_state run_redeem) "xprism".
Proof. eexists. split; vm_compute; reflexivity. Qed.
Lemma redeem_prism_token : is_prism (new_state run_redeem) "prism".
Proof. eexists. split; vm_compute; reflexivity. Qed.

Lemma honest_teller self l : honest (teller l) self l.
Proof. by intros t. Qed.
Lemma normal_address a : normal a.
Proof. by intros raw [= <-]. Qed.
Lemma ledger_bounds : bounded ledger0 ∧ bounded (credit "prism" 1000 ledger0) ∧ bounded ledger2.
Proof.
  split_and!; intros t; unfold ledger2, ledger1, ledger0, credit; simpl; repeat case_decide; subst; try done; lia.
Qed.

(** Without polls there is no vote. *)
Lemma no_polls st st' t : POLL st = ∅ → ¬ vote_calls st st' t.
Proof. intros He (i & poll & d & Hi & _). rewrite He, lookup_empty in Hi. done. Qed.

Lemma open_run : run parse_hook "gov" open_state ledger0.
Proof.
  eapply run_step.
  - eapply run_init; [exact grun_init_Ok|exact (proj1 ledger_bounds)].
  - eapply ws_reply; [exact grun_open_Ok|done|]. intros x p Hx Hp.
    rewrite (xprism_unique _ _ _ Hx open_xprism), (prism_unique _ _ _ Hp open_prism). done.
  - intros t _. apply no_polls. vm_compute. reflexivity.
Qed.
Lemma mint_step : world_step parse_hook "gov" open_state ledger0 open_state ledger1.
Proof.
  apply (ws_execute parse_hook "gov" open_state ledger0 open_state ledger1 (teller (credit "prism" 1000 ledger0))
    (at_second 10) (by_sender "prism") mint_msg1 (response_of run_mint));
    [reflexivity|apply normal_address|exact (proj1 (proj2 ledger_bounds))|apply honest_teller|exact grun_mint_Ok|].
  assert (messages (response_of run_mint) = [sub_new (mint_msg "xprism" "alice" 1000)]) as Hm
    by (vm_compute; reflexivity).
  apply (settle_mint_intro _ _ _ _ _ _ _ Hm); [done|done|]. intros t.
  unfold ledger1, ledger0, credit. cbn [supply].
  destruct (decide (t = "xprism"%string)) as [->|Hx].
  - vm_compute. reflexivity.
  - rewrite (decide_False (P:="xprism"%string = t)) by congruence. by rewrite N.add_0_r.
Qed.
Lemma redeem_step : world_step parse_hook "gov" open_state ledger1 (new_state run_redeem) ledger2.
Proof.
  apply (ws_execute parse_hook "gov" open_state ledger1 (new_state run_redeem) ledger2 (teller ledger2)
    (at_second 20) (by_sender "xprism") redeem_msg1 (response_of run_redeem));
    [reflexivity|apply normal_address|exact (proj2 (proj2 ledger_bounds))|apply honest_teller|exact grun_redeem_Ok|].
  assert (messages (response_of run_redeem) = []) as Hm by (vm_compute; reflexivity).
  intros t. right. unfold total, own_messages. rewrite Hm. split; reflexivity.
Qed.
Lemma mint_run : run parse_hook "gov" open_state ledger1.
Proof.
  refine (run_step parse_hook "gov" _ _ _ _ open_run mint_step _). intros t _. apply no_polls. vm_compute. reflexivity.
Qed.
Lemma redeem_run : run parse_hook "gov" (new_state run_redeem) ledger2.
Proof.
  refine (run_step parse_hook "gov" _ _ _ _ mint_run redeem_step _). intros t _. apply no_polls. vm_compute. reflexivity.
Qed.

Lemma gov_refines_exchange_witness :
  Exchange.step (Exchange.mkBook 0 0 0 0 1000 1000) (Exchange.mkBook 0 200 200 200 1000 1000).
Proof.
  destruct (gov_refines_exchange (P:=platform) parse_hook "gov" open_state ledger1 (new_state run_redeem) ledger2
    "xprism" "prism" mint_run redeem_step open_xprism open_prism) as [H|[[H|H] _]]; [revert H; vm_compute; trivial|..];
    (apply no_polls in H; [destruct H|vm_compute; reflexivity]).
Defined.
Lemma gov_solvent_witness :
  staked (new_state run_redeem) + poll_deposits (new_state run_redeem) + pending_xprism (new_state run_redeem) ≤ 200 ∧
  pending_xprism (new_state run_redeem) = 200.
Proof.
  split; [|vm_compute; reflexivity].
  exact (proj1 (gov_solvent (P:=platform) parse_hook "gov" (new_state run_redeem) ledger2 "xprism" "prism"
    redeem_run redeem_xprism_token redeem_prism_token)).
Defined.
Lemma gov_price_monotone_witness : 1000 * (1000 - 200) ≤ (1000 - 200) * 1000.
Proof.
  destruct (gov_price_monotone (P:=platform) parse_hook "gov" open_state ledger1 (new_state run_redeem) ledger2
    "xprism" "prism" mint_run redeem_step open_xprism open_prism) as [H|(i & poll & d & t & Hi & _)].
  { vm_compute in H. exact H. }
  exfalso. assert (POLL open_state = ∅) as He by (vm_compute; reflexivity). rewrite He, lookup_empty in Hi. discriminate Hi.
Defined.
End witnesses.
End GovSpec.
