(* ===== verification/GovPaging.v ===== *)
(** * The pages of the governance polls

    The keys of contracts/prism-gov/src/state.rs as the bytes they are stored
    under, [read_polls] over those bytes, and what a client reads that asks for
    one page after the other. *)
From S2P Require Import Prelude Cosmwasm Protocol Wire WireProofs Gov GovProofs GovSpec.
Import GovMsg Gov Wire.

Module GovPaging.

(** ** Walking through the pages of a sorted list *)
Section walk.
Context {E A K : Type} (key : A → K).

(** A client that asks for the page after the last entry it has seen, until a
    page comes back empty. It panics when it runs out of fuel. *)
Fixpoint walk (fuel : nat) (fetch : option K → outcome E (list A)) (start : option K) : outcome E (list A) :=
  match fuel with
  | O => Panic
  | S fuel =>
      let? items := fetch start in
      match last items with
      | None => Ok []
      | Some item => let? rest := walk fuel fetch (Some (key item)) in Ok (items ++ rest)
      end
  end.

Variable lt : K → K → bool.

(** The entries of [l] that come after [start]. *)
Definition beyond (start : option K) (l : list A) : list A :=
  match start with None => l | Some k => List.filter (λ a, lt k (key a)) l end.

Lemma beyond_last l1 l2 a :
  (∀ x, lt x x = false) → (∀ x y, lt x y = true → lt y x = false) → Transitive (λ x y : K, lt x y = true) →
  StronglySorted (λ x y, lt (key x) (key y) = true) (l1 ++ l2) → last l1 = Some a →
  beyond (Some (key a)) (l1 ++ l2) = l2.
Proof.
  intros Hirr Hasym Htr Hs [l ->]%last_Some. rewrite <-app_assoc in *. simpl in Hs |- *.
  rewrite List.filter_app. induction l as [|x l IH]; simpl in *.
  - rewrite Hirr. apply StronglySorted_inv in Hs as [_ Hall]. revert Hall. clear Hirr Hasym Htr.
    induction l2 as [|y l2 IH]; intros Hall; simpl; [done|].
    apply Forall_cons in Hall as [-> Hall]. f_equal. by apply IH.
  - apply StronglySorted_inv in Hs as [Hs Hx]. rewrite (Hasym (key x) (key a)); [by apply IH|].
    rewrite Forall_app, Forall_cons in Hx. tauto.
Qed.

Variable fetch : option K → outcome E (list A).
Variables (n : nat) (l : list A).
Hypothesis irreflexive_lt : ∀ x, lt x x = false.
Hypothesis asymmetric_lt : ∀ x y, lt x y = true → lt y x = false.
Hypothesis transitive_lt : Transitive (λ x y : K, lt x y = true).
Hypothesis sorted : StronglySorted (λ x y, lt (key x) (key y) = true) l.
Hypothesis pages :
  ∀ start, (∀ k, start = Some k → ∃ a, a ∈ l ∧ k = key a) → fetch start = Ok (take n (beyond start l)).

Lemma beyond_split l1 l2 : l = l1 ++ l2 → beyond (key <$> last l1) l = l2.
Proof.
  intros Hl. destruct (last l1) as [a|] eqn:Ha; simpl.
  - rewrite Hl. apply (beyond_last _ _ a); try done. by rewrite <-Hl.
  - apply last_None in Ha as ->. done.
Qed.

Lemma last_of_split l1 l2 k : l = l1 ++ l2 → key <$> last l1 = Some k → ∃ a, a ∈ l ∧ k = key a.
Proof.
  intros -> (a & Ha & ->)%fmap_Some. exists a. split; [|done].
  apply last_Some in Ha as [l' ->]. rewrite !elem_of_app. left. right. by apply list_elem_of_singleton.
Qed.

(** Pages of a fixed positive length make up the list. *)
Lemma walk_from fuel l1 l2 :
  (0 < n)%nat → l = l1 ++ l2 → (length l2 < fuel)%nat → walk fuel fetch (key <$> last l1) = Ok l2.
Proof.
  intros Hn. revert l1 l2. induction fuel as [|fuel IH]; intros l1 l2 Hl Hlen; [lia|]. simpl.
  rewrite pages, (beyond_split l1 l2) by (done || eauto using last_of_split). cbn [qbind].
  destruct (last (take n l2)) as [a|] eqn:Ha.
  - assert (l2 ≠ []) as Hne by (intros ->; by rewrite take_nil in Ha).
    specialize (IH (l1 ++ take n l2) (drop n l2)). rewrite last_app, Ha in IH. simpl in IH.
    rewrite IH.
    + cbn [qbind]. by rewrite take_drop.
    + by rewrite <-app_assoc, take_drop.
    + rewrite length_drop. destruct l2; [done|]. simpl in *. lia.
  - apply last_None in Ha. destruct l2 as [|x l2]; [done|]. destruct n; [lia|done].
Qed.

Lemma walk_all fuel : (0 < n)%nat → (length l < fuel)%nat → walk fuel fetch None = Ok l.
Proof. intros. by apply (walk_from fuel [] l). Qed.
End walk.

(** ** Keys as bytes (src/state.rs) *)

(** The order of the storage, byte by byte. *)
Fixpoint bytes_ltb (k1 k2 : bytes) : bool :=
  match k1, k2 with
  | _, [] => false
  | [], _ :: _ => true
  | b1 :: k1, b2 :: k2 => (b1 <? b2) || (b1 =? b2) && bytes_ltb k1 k2
  end.

(** The key of an id is [id.to_be_bytes()]. *)
Definition id_key (id : N) : bytes := to_be_bytes 8 id.
#[global] Arguments id_key : simpl never.

(** [impl Display for PollStatus], the name of the index of a status. *)
Definition status_to_string (s : PollStatus) : string :=
  match s with
  | InProgress => "InProgress"
  | Passed => "Passed"
  | Rejected => "Rejected"
  | Executed => "Executed"
  | Failed => "Failed"
  end.
#[global] Instance status_to_string_inj : Inj (=) (=) status_to_string.
Proof. by intros [] []. Qed.

Definition calc_range_start (start_after : option N) : option bytes :=
  (λ id, id_key id ++ [1]) <$> start_after.
Definition calc_range_end (start_after : option N) : option bytes := id_key <$> start_after.

(** [ReadonlyBucket::range] of the crate cosmwasm-storage, over the entries of
    a bucket: those from [start], which is included, to [stop], which is not,
    in either direction of the order of the storage. *)
Class Buckets : Type :=
  bucket_range : ∀ {V : Type}, list (bytes * V) → option bytes → option bytes → OrderBy → list (bytes * V).
Definition from_start {V} (start : option bytes) (l : list (bytes * V)) : list (bytes * V) :=
  List.filter (λ kv, match start with Some s => negb (bytes_ltb kv.1 s) | None => true end) l.
Definition to_stop {V} (stop : option bytes) (l : list (bytes * V)) : list (bytes * V) :=
  List.filter (λ kv, match stop with Some s => bytes_ltb kv.1 s | None => true end) l.
Class BucketLaws (B : Buckets) : Prop :=
  bucket_range_law : ∀ {V} (bucket : list (bytes * V)) start stop order,
    StronglySorted (λ e1 e2, bytes_ltb e1.1 e2.1 = true) bucket →
    bucket_range bucket start stop order = in_order order (from_start start (to_stop stop bucket)).

Section keys.
Context `{Cosmwasm} `{Buckets}.

(** The bucket that keeps the entries of [m]. *)
Definition id_bucket {V} (m : gmap N V) : list (bytes * V) := (λ kv, (id_key kv.1, kv.2)) <$> range_u64 m.
Definition load_poll_key (st : Storage) (k : bytes) : outcome StdError Poll :=
  load_poll st (De.from_be_bytes k).

(** The index of a status is the bucket under its name; the names differ
    ([status_to_string_inj]), so it holds the entries of that status. *)
Definition read_polls_keys (st : Storage) (filter : option PollStatus) (start_after limit : option N)
    (order_by : option OrderBy) : outcome StdError (list Poll) :=
  let '(start, stop, order_by) :=
    match order_by with
    | Some Asc => (calc_range_start start_after, None, Asc)
    | _ => (None, calc_range_end start_after, Desc)
    end in
  match filter with
  | Some status =>
      let poll_indexer := id_bucket (prefix (POLL_INDEXER st) status) in
      omapM (λ '(k, _), load_poll_key st k) (take (page limit) (bucket_range poll_indexer start stop order_by))
  | None =>
      Ok (take (page limit) (bucket_range (id_bucket (POLL st)) start stop order_by)).*2
  end.
End keys.

(** ** The byte order of the keys is the order of the ids *)
Lemma from_be_bytes_cons b l : De.from_be_bytes (b :: l) = b * 256 ^ N.of_nat (length l) + De.from_be_bytes l.
Proof.
  induction l as [|c l IH] using rev_ind; [unfold De.from_be_bytes; simpl; lia|].
  rewrite app_comm_cons, !from_be_bytes_app, IH, length_app. simpl length.
  rewrite Nat2N.inj_add, N.pow_add_r. simpl (256 ^ N.of_nat 1). lia.
Qed.

Lemma from_be_bytes_bound l : Forall (λ b, b < 256) l → De.from_be_bytes l < 256 ^ N.of_nat (length l).
Proof.
  induction 1 as [|b l Hb _ IH]; [done|]. rewrite from_be_bytes_cons. simpl length.
  rewrite Nat2N.inj_succ, N.pow_succ_r'. nia.
Qed.

Lemma to_be_bytes_range k n : Forall (λ b, b < 256) (to_be_bytes k n).
Proof.
  revert n. induction k as [|k IH]; intros n; simpl; [constructor|].
  apply Forall_app. split; [apply IH|]. constructor; [|constructor]. apply N.mod_lt. lia.
Qed.

Lemma bytes_ltb_be l1 l2 :
  length l1 = length l2 → Forall (λ b, b < 256) l1 → Forall (λ b, b < 256) l2 →
  bytes_ltb l1 l2 = (De.from_be_bytes l1 <? De.from_be_bytes l2).
Proof.
  revert l2. induction l1 as [|b1 l1 IH]; intros [|b2 l2]; try done. intros [= Hl] [Hb1 H1]%Forall_cons [Hb2 H2]%Forall_cons.
  simpl bytes_ltb. rewrite (IH l2) by done. rewrite !from_be_bytes_cons.
  pose proof (from_be_bytes_bound _ H1). pose proof (from_be_bytes_bound _ H2). rewrite Hl in *.
  destruct (N.ltb_spec b1 b2); simpl; [symmetry; apply N.ltb_lt; nia|].
  destruct (N.eqb_spec b1 b2) as [->|]; simpl.
  - destruct (N.ltb_spec (De.from_be_bytes l1) (De.from_be_bytes l2)), (N.ltb_spec
      (b2 * 256 ^ N.of_nat (length l2) + De.from_be_bytes l1) (b2 * 256 ^ N.of_nat (length l2) + De.from_be_bytes l2));
      done || lia.
  - symmetry. apply N.ltb_ge. nia.
Qed.

(** Nothing lies between a key and that key followed by a byte 1, among the
    keys of its length. *)
Lemma bytes_ltb_push k s b : length k = length s → negb (bytes_ltb k (s ++ [b])) = bytes_ltb s k.
Proof.
  revert s. induction k as [|c k IH]; intros [|d s]; try done. intros [= Hl]. simpl.
  rewrite <-(IH s) by done. destruct (N.ltb_spec c d), (N.ltb_spec d c), (N.eqb_spec c d), (N.eqb_spec d c);
    simpl; done || lia.
Qed.

Definition u64 (n : N) : Prop := n < 2 ^ 64.

Lemma id_key_ltb i j : u64 i → u64 j → bytes_ltb (id_key i) (id_key j) = (i <? j).
Proof.
  intros. unfold id_key. rewrite bytes_ltb_be; [by rewrite !from_to_be_bytes|by rewrite !length_to_be_bytes|
    apply to_be_bytes_range..].
Qed.
Lemma id_key_start i j : u64 i → u64 j → negb (bytes_ltb (id_key i) (id_key j ++ [1])) = (j <? i).
Proof. intros. rewrite bytes_ltb_push; [by apply id_key_ltb|]. unfold id_key. by rewrite !length_to_be_bytes. Qed.

Lemma filter_all {A} (l : list A) : List.filter (λ _, true) l = l.
Proof. induction l; simpl; congruence. Qed.

Lemma filter_map_keys {V} (f : bytes → bool) (g : N → bool) (l : list (N * V)) :
  Forall (λ kv, f (id_key kv.1) = g kv.1) l →
  List.filter (λ kv : bytes * V, f kv.1) ((λ kv, (id_key kv.1, kv.2)) <$> l) =
  (λ kv, (id_key kv.1, kv.2)) <$> List.filter (λ kv : N * V, g kv.1) l.
Proof.
  induction 1 as [|[k v] l Hk _ IH]; csimpl; [done|]. simpl in Hk. rewrite Hk, IH. by destruct (g k).
Qed.

Lemma in_order_fmap {A B} (f : A → B) o l : in_order o (f <$> l) = f <$> in_order o l.
Proof. destruct o; [done|]. simpl. by rewrite fmap_reverse. Qed.

(** ** Sorted lists *)
Lemma Forall_in_order {A} (Q : A → Prop) o l : Forall Q l → Forall Q (in_order o l).
Proof. destruct o; [done|]. apply Forall_reverse. Qed.
Lemma Forall_filter_bool {A} (Q : A → Prop) f (l : list A) : Forall Q l → Forall Q (List.filter f l).
Proof. induction 1; simpl; [constructor|]. case_match; by try constructor. Qed.

Lemma sorted_filter_bool {A} (R : relation A) f l : StronglySorted R l → StronglySorted R (List.filter f l).
Proof.
  induction 1 as [|x l _ IH Hx]; simpl; [constructor|]. case_match; [|done].
  constructor; [done|]. by apply Forall_filter_bool.
Qed.

Lemma sorted_impl {A} (R S : relation A) l : (∀ x y, R x y → S x y) → StronglySorted R l → StronglySorted S l.
Proof.
  intros HRS. induction 1 as [|x l _ IH Hx]; constructor; [done|].
  by apply (Forall_impl _ _ _ Hx), HRS.
Qed.

Lemma sorted_strict (l : list N) : StronglySorted N.le l → NoDup l → StronglySorted N.lt l.
Proof.
  induction 1 as [|x l _ IH Hx]; intros Hd; [constructor|]. apply NoDup_cons in Hd as [Hn Hd].
  constructor; [by apply IH|]. rewrite Forall_forall in Hx |- *. intros y Hy.
  specialize (Hx y Hy). assert (x ≠ y) by (by intros ->). lia.
Qed.

Lemma sorted_reverse {A} (R : relation A) l : StronglySorted R l → StronglySorted (flip R) (reverse l).
Proof.
  induction 1 as [|x l _ IH Hx]; [constructor|]. rewrite reverse_cons. apply StronglySorted_app_2; [|done|].
  - intros a b Ha ->%list_elem_of_singleton. rewrite elem_of_reverse in Ha. rewrite Forall_forall in Hx. by apply Hx.
  - repeat constructor.
Qed.

Section pages.
Context {P : Cosmwasm} {L : CosmwasmLaws P} {B : Buckets} {BL : BucketLaws B}.

Definition u64_keys {V} (m : gmap N V) : Prop := ∀ i v, m !! i = Some v → u64 i.
Definition u64_option (o : option N) : Prop := match o with Some i => u64 i | None => True end.

Lemma u64_entries {V} (m : gmap N V) : u64_keys m → Forall (λ kv, u64 kv.1) (range_u64 m).
Proof. intros Hm. apply Forall_forall. intros [k v] Hk%elem_of_range_u64. by eapply Hm. Qed.

Lemma range_strict {V} (m : gmap N V) : StronglySorted (λ e1 e2, e1.1 < e2.1) (range_u64 m).
Proof.
  pose proof (sorted_strict _ (range_u64_sorted m) (NoDup_range_u64 m)) as Hs.
  induction (range_u64 m) as [|e l IH]; [constructor|]. csimpl in *.
  apply StronglySorted_inv in Hs as [Hs He]. constructor; [by apply IH|]. by rewrite Forall_fmap in He.
Qed.

Lemma id_bucket_sorted {V} (m : gmap N V) :
  u64_keys m → StronglySorted (λ e1 e2, bytes_ltb e1.1 e2.1 = true) (id_bucket m).
Proof.
  intros Hm. unfold id_bucket. pose proof (range_strict m) as Hs.
  induction (u64_entries m Hm) as [|[i v] l Hi Hl IH]; [constructor|]. csimpl in *.
  apply StronglySorted_inv in Hs as [Hs He]. constructor; [by apply IH|]. apply Forall_fmap. clear IH Hs.
  induction Hl as [|[j w] l Hj _ IH]; [constructor|]. apply Forall_cons in He as [Hij He].
  constructor; [|by apply IH]. change (bytes_ltb (id_key i) (id_key j) = true). rewrite id_key_ltb by done. by apply N.ltb_lt.
Qed.

Lemma bucket_range_ids {V} (m : gmap N V) start stop o :
  u64_keys m → u64_option start → u64_option stop →
  bucket_range (id_bucket m) (calc_range_start start) (calc_range_end stop) o =
  (λ kv, (id_key kv.1, kv.2)) <$> in_order o (after N.ltb start (before N.ltb stop (range_u64 m))).
Proof.
  intros Hm Hstart Hstop. rewrite bucket_range_law by by apply id_bucket_sorted.
  unfold from_start, to_stop, id_bucket. rewrite <-in_order_fmap. f_equal.
  pose proof (u64_entries m Hm) as Hall.
  rewrite (filter_map_keys (λ k, match calc_range_end stop with Some s => bytes_ltb k s | None => true end)
    (λ k, match stop with Some s => k <? s | None => true end)).
  2:{ apply (Forall_impl _ _ _ Hall). intros [k v] Hk. destruct stop; [|reflexivity]. exact (id_key_ltb _ _ Hk Hstop). }
  assert (before N.ltb stop (range_u64 m) =
    List.filter (λ kv : N * V, match stop with Some s => kv.1 <? s | None => true end) (range_u64 m)) as <-.
  { destruct stop; [reflexivity|]. symmetry. apply filter_all. }
  set (rest := before N.ltb stop (range_u64 m)).
  assert (Forall (λ kv, u64 kv.1) rest) as Hrest.
  { unfold rest. destruct stop; [|exact Hall]. unfold before. apply List.Forall_forall. intros kv [Hkv _]%filter_In.
    rewrite List.Forall_forall in Hall. auto. }
  rewrite (filter_map_keys (λ k, match calc_range_start start with Some s => negb (bytes_ltb k s) | None => true end)
    (λ k, match start with Some s => s <? k | None => true end)).
  2:{ apply (Forall_impl _ _ _ Hrest). intros [k v] Hk. destruct start; [|reflexivity]. exact (id_key_start _ _ Hk Hstart). }
  destruct start; [reflexivity|]. unfold after. f_equal. apply filter_all.
Qed.

Lemma omapM_load_key st (l : list (N * bool)) :
  Forall (λ kv, u64 kv.1) l →
  omapM (λ '(k, _), load_poll_key st k) ((λ kv, (id_key kv.1, kv.2)) <$> l) = omapM (λ '(k, _), load_poll st k) l.
Proof.
  induction 1 as [|[i v] l Hi _ IH]; [done|]. csimpl. rewrite IH. unfold load_poll_key, id_key.
  by rewrite from_to_be_bytes.
Qed.

(** Reading by keys reads what reading by ids does. *)
Lemma read_polls_keys_eq st filter start_after limit order_by :
  u64_keys (POLL st) → (∀ s, u64_keys (prefix (POLL_INDEXER st) s)) → u64_option start_after →
  read_polls_keys st filter start_after limit order_by = read_polls st filter start_after limit order_by.
Proof.
  intros Hp Hi Hs. unfold read_polls_keys, read_polls.
  assert (∀ V (m : gmap N V), u64_keys m →
    bucket_range (id_bucket m) (calc_range_start start_after) None Asc =
    (λ kv, (id_key kv.1, kv.2)) <$> after N.ltb start_after (range_u64 m)) as Hasc.
  { intros V m Hm. exact (bucket_range_ids m start_after None Asc Hm Hs I). }
  assert (∀ V (m : gmap N V), u64_keys m →
    bucket_range (id_bucket m) None (calc_range_end start_after) Desc =
    (λ kv, (id_key kv.1, kv.2)) <$> reverse (before N.ltb start_after (range_u64 m))) as Hdesc.
  { intros V m Hm. exact (bucket_range_ids m None start_after Desc Hm I Hs). }
  destruct filter as [status|].
  - pose proof (u64_entries _ (Hi status)) as Hall.
    assert (Forall (λ kv, u64 kv.1) (after N.ltb start_after (range_u64 (prefix (POLL_INDEXER st) status)))) as Ha
      by (destruct start_after; [by apply Forall_filter_bool|exact Hall]).
    assert (Forall (λ kv, u64 kv.1) (before N.ltb start_after (range_u64 (prefix (POLL_INDEXER st) status)))) as Hb
      by (destruct start_after; [by apply Forall_filter_bool|exact Hall]).
    destruct order_by as [[]|]; rewrite ?Hasc, ?Hdesc by done; rewrite <-fmap_take, omapM_load_key;
      (reflexivity || (apply Forall_take; first [exact Ha|by apply Forall_reverse])).
  - destruct order_by as [[]|]; rewrite ?Hasc, ?Hdesc, <-fmap_take, <-list_fmap_compose by done; done.
Qed.

(** ** A page of polls as a part of the list of all polls *)
Definition direction (order_by : option OrderBy) : OrderBy := match order_by with Some Asc => Asc | _ => Desc end.
Definition comes_before (o : OrderBy) (i j : N) : bool := match o with Asc => i <? j | Desc => j <? i end.
Definition has_status (filter : option PollStatus) (p : Poll) : bool :=
  match filter with Some s => bool_decide (status p = s) | None => true end.

(** The polls with the ids they are stored under, oldest first. *)
Definition poll_entries (st : Storage) (filter : option PollStatus) : list (N * Poll) :=
  List.filter (λ kv, has_status filter kv.2) (range_u64 (POLL st)).
Definition all_polls (st : Storage) (filter : option PollStatus) (order_by : option OrderBy) : list Poll :=
  in_order (direction order_by) (poll_entries st filter).*2.

Definition cut {V} (order_by : option OrderBy) (start : option N) (limit : option N) (l : list (N * V)) :=
  take (page limit) (in_order (direction order_by)
    (match start with
     | Some s => List.filter (λ kv, comes_before (direction order_by) s kv.1) l
     | None => l
     end)).

Lemma reverse_rev {A} (l : list A) : reverse l = rev l.
Proof. unfold reverse. symmetry. apply rev_alt. Qed.
Lemma filter_in_order {A} (f : A → bool) o l : List.filter f (in_order o l) = in_order o (List.filter f l).
Proof. destruct o; [done|]. simpl. rewrite !reverse_rev. apply List.filter_rev. Qed.

Lemma cut_keys {V W} order_by start limit (l1 : list (N * V)) (l2 : list (N * W)) :
  l1.*1 = l2.*1 → (cut order_by start limit l1).*1 = (cut order_by start limit l2).*1.
Proof.
  intros Hl. unfold cut. rewrite !fmap_take, <-!in_order_fmap. do 2 f_equal.
  destruct start; [|done]. rewrite <-!filter_keys. by rewrite Hl.
Qed.

Lemma poll_entries_spec st filter : Forall (λ kv, POLL st !! kv.1 = Some kv.2) (poll_entries st filter).
Proof. apply Forall_filter_bool, Forall_forall. intros [i q] Hq. by apply elem_of_range_u64 in Hq. Qed.

Lemma cut_Forall {V} (Q : N * V → Prop) order_by start limit l : Forall Q l → Forall Q (cut order_by start limit l).
Proof. intros Hl. apply Forall_take, Forall_in_order. destruct start; [by apply Forall_filter_bool|done]. Qed.

Lemma omapM_load st (l : list (N * bool)) (Q : list (N * Poll)) :
  l.*1 = Q.*1 → Forall (λ kv, POLL st !! kv.1 = Some kv.2) Q →
  omapM (λ '(k, _), load_poll st k) l = Ok Q.*2.
Proof.
  intros Hl HQ. revert l Hl. induction HQ as [|[i q] Q Hq _ IH]; intros [|[j v] l]; try done. csimpl.
  intros [= -> Hl]. unfold load_poll at 1. simpl in Hq. rewrite Hq. cbn [load ok_or qbind]. by rewrite IH.
Qed.

Lemma poll_entries_NoDup st filter : NoDup (poll_entries st filter).*1.
Proof.
  unfold poll_entries. pose proof (NoDup_range_u64 (POLL st)) as Hd. induction (range_u64 (POLL st)) as [|e l IH]; [constructor|].
  csimpl in *. apply NoDup_cons in Hd as [Hn Hd]. case_match; [|by apply IH].
  csimpl. constructor; [|by apply IH]. intros (e' & He & Hin)%list_elem_of_fmap. apply Hn.
  apply list_elem_of_fmap. exists e'. split; [done|]. apply list_elem_of_In, filter_In in Hin as [Hin _].
  by apply list_elem_of_In.
Qed.

Lemma poll_entries_sorted st filter : StronglySorted N.lt (poll_entries st filter).*1.
Proof.
  apply (StronglySorted_fmap fst (λ x y, x.1 < y.1) N.lt); [done|]. apply sorted_filter_bool, range_strict.
Qed.

(** The index under a status lists the polls that have it. *)
Lemma index_keys st s :
  PollsInv st → (range_u64 (prefix (POLL_INDEXER st) s)).*1 = (poll_entries st (Some s)).*1.
Proof.
  intros HI. apply (StronglySorted_unique N.le); [apply range_u64_sorted| |].
  - apply (sorted_impl N.lt); [lia|]. apply poll_entries_sorted.
  - apply NoDup_Permutation; [apply NoDup_range_u64|apply poll_entries_NoDup|]. intros i.
    transitivity (is_Some (POLL_INDEXER st !! (s, i))).
    + rewrite <-lookup_prefix, list_elem_of_fmap. split.
      * intros ([j v] & -> & Hv%elem_of_range_u64). by exists v.
      * intros [v Hv]. exists (i, v). by rewrite elem_of_range_u64.
    + rewrite (pi_index _ HI), list_elem_of_fmap. unfold poll_entries. split.
      * intros (q & Hq & Hs). exists (i, q). split; [done|]. apply list_elem_of_In, filter_In.
        rewrite <-list_elem_of_In, elem_of_range_u64. split; [done|]. simpl. by apply bool_decide_eq_true.
      * intros ([j q] & -> & [Hq Hs]%list_elem_of_In%filter_In). apply list_elem_of_In, elem_of_range_u64 in Hq.
        exists q. split; [done|]. by apply bool_decide_eq_true in Hs.
Qed.

Lemma read_polls_page st filter start limit order_by :
  PollsInv st →
  read_polls st filter start limit order_by = Ok (cut order_by start limit (poll_entries st filter)).*2.
Proof.
  intros HI. unfold read_polls. destruct filter as [s|].
  - rewrite <-(omapM_load st (cut order_by start limit (range_u64 (prefix (POLL_INDEXER st) s)))).
    + destruct order_by as [[]|], start; reflexivity.
    + by apply cut_keys, index_keys.
    + apply cut_Forall, poll_entries_spec.
  - unfold poll_entries. cbn [has_status]. rewrite filter_all. destruct order_by as [[]|], start; reflexivity.
Qed.

Lemma cut_beyond order_by start limit (Q : list (N * Poll)) :
  Forall (λ kv, id kv.2 = kv.1) Q →
  (cut order_by start limit Q).*2 =
  take (page limit) (beyond id (comes_before (direction order_by)) start (in_order (direction order_by) Q.*2)).
Proof.
  intros HQ. unfold cut, beyond. rewrite fmap_take. f_equal. destruct start as [s|]; [|by rewrite in_order_fmap].
  rewrite filter_in_order, <-in_order_fmap. f_equal.
  induction HQ as [|[i q] Q Hq _ IH]; [done|]. csimpl. simpl in Hq. rewrite Hq. case_match; csimpl; congruence.
Qed.

Lemma poll_entries_id st filter : PollsInv st → Forall (λ kv, id kv.2 = kv.1) (poll_entries st filter).
Proof.
  intros HI. apply (Forall_impl _ _ _ (poll_entries_spec st filter)). intros [i q] Hq. by apply (pi_id _ HI).
Qed.

Lemma all_polls_sorted st filter order_by :
  PollsInv st →
  StronglySorted (λ p1 p2, comes_before (direction order_by) (id p1) (id p2) = true) (all_polls st filter order_by).
Proof.
  intros HI. assert (StronglySorted (λ p1 p2, id p1 < id p2) (poll_entries st filter).*2) as Hs.
  { pose proof (poll_entries_sorted st filter) as Hs. induction (poll_entries_id st filter HI) as [|[i q] Q Hq HQ IH];
      [constructor|]. csimpl in *. apply StronglySorted_inv in Hs as [Hs Hi]. constructor; [by apply IH|].
    clear IH Hs. simpl in Hq. subst i. induction HQ as [|[j r] Q Hr _ IH]; [constructor|]. csimpl in *.
    apply Forall_cons in Hi as [? ?]. simpl in Hr. constructor; [by rewrite Hr|by apply IH]. }
  unfold all_polls. destruct (direction order_by); simpl.
  - revert Hs. apply sorted_impl. intros ? ?. apply N.ltb_lt.
  - apply sorted_reverse in Hs. revert Hs. apply sorted_impl. intros ? ?. apply N.ltb_lt.
Qed.

Lemma elem_of_all_polls st filter order_by p :
  p ∈ all_polls st filter order_by ↔ has_status filter p = true ∧ ∃ i, POLL st !! i = Some p.
Proof.
  assert (p ∈ all_polls st filter order_by ↔ p ∈ (poll_entries st filter).*2) as ->
    by (unfold all_polls; destruct (direction order_by); simpl; [done|apply elem_of_reverse]).
  rewrite list_elem_of_fmap. unfold poll_entries. split.
  - intros ([i q] & -> & [Hq Hs]%list_elem_of_In%filter_In). apply list_elem_of_In, elem_of_range_u64 in Hq. eauto.
  - intros (Hs & i & Hq). exists (i, p). split; [done|]. apply list_elem_of_In, filter_In.
    by rewrite <-list_elem_of_In, elem_of_range_u64.
Qed.

Lemma length_all_polls st filter order_by : (length (all_polls st filter order_by) ≤ size (POLL st))%nat.
Proof.
  assert (length (all_polls st filter order_by) = length (poll_entries st filter)) as ->.
  { unfold all_polls. by destruct (direction order_by); simpl; rewrite ?length_reverse, length_fmap. }
  rewrite <-length_range_u64. apply List.filter_length_le.
Qed.

Lemma polls_u64 st n : PollsInv st → LAST_POLL_ID st = Some n → n ≤ 2 ^ 64 → u64_keys (POLL st).
Proof.
  intros HI Hn Hle i p Hp. destruct (pi_id _ HI _ _ Hp) as (_ & m & Hm & Him). simplify_eq.
  exact (N.lt_le_trans _ _ _ Him Hle).
Qed.
Lemma index_u64 st s : PollsInv st → u64_keys (POLL st) → u64_keys (prefix (POLL_INDEXER st) s).
Proof.
  intros HI Hu i b. rewrite lookup_prefix. intros Hb. destruct (proj1 (pi_index _ HI s i) (mk_is_Some _ _ Hb)) as (p & Hp & _).
  exact (Hu i p Hp).
Qed.

Lemma page_pos limit : limit ≠ Some 0 → (0 < page limit)%nat.
Proof. intros Hl. unfold page, DEFAULT_LIMIT, MAX_LIMIT. destruct limit as [k|]; simpl; [|lia]. assert (k ≠ 0) by congruence. lia. Qed.

Lemma walk_polls st n filter limit order_by fuel :
  PollsInv st → LAST_POLL_ID st = Some n → n ≤ 2 ^ 64 → limit ≠ Some 0 → (size (POLL st) < fuel)%nat →
  walk id fuel (λ start, read_polls_keys st filter start limit order_by) None = Ok (all_polls st filter order_by).
Proof.
  intros HI Hn Hle Hl Hf. pose proof (polls_u64 _ _ HI Hn Hle) as Hu.
  apply (walk_all id (comes_before (direction order_by)) _ (page limit)).
  - intros x. destruct (direction order_by); apply N.ltb_irrefl.
  - intros x y. destruct (direction order_by); unfold comes_before; rewrite N.ltb_lt, N.ltb_ge; lia.
  - intros x y z. destruct (direction order_by); unfold comes_before; rewrite !N.ltb_lt; lia.
  - by apply all_polls_sorted.
  - intros start Hstart. rewrite read_polls_keys_eq; [|done|intros s; by apply index_u64|].
    + rewrite read_polls_page by done. f_equal. by apply cut_beyond, poll_entries_id.
    + destruct start as [k|]; [|done]. destruct (Hstart k eq_refl) as (p & (_ & i & Hp)%elem_of_all_polls & ->).
      simpl. rewrite (proj1 (pi_id _ HI _ _ Hp)). exact (Hu i p Hp).
  - by apply page_pos.
  - apply (Nat.le_lt_trans _ (size (POLL st))); [apply length_all_polls|done].
Qed.
End pages.

Section properties.
Context {P : Cosmwasm} {L : CosmwasmLaws P} {B : Buckets} {BL : BucketLaws B}.
Variable from_binary : Binary → outcome StdError (Cw20HookMsg Binary).

(** C31: The list of polls can be read page by page. In every state the
    governance contract can reach, the page that is read from the stored bytes
    after an id is the page of the polls with larger ids (smaller ones when
    reading backwards); and a client that asks for page after page, each time
    after the last poll it has seen, gets every poll with the status it asked
    for exactly once, in the order it asked for, whatever the page size,
    unless it asks for pages of size zero. *)
Theorem gov_polls_paging st n filter limit order_by fuel :
  GovSpec.reachable from_binary st → LAST_POLL_ID st = Some n → n ≤ 2 ^ 64 →
  limit ≠ Some 0 → (size (POLL st) < fuel)%nat →
  (∀ start, start < 2 ^ 64 →
     read_polls_keys st filter (Some start) limit order_by = read_polls st filter (Some start) limit order_by) ∧
  ∃ polls,
    walk id fuel (λ start, read_polls_keys st filter start limit order_by) None = Ok polls ∧
    StronglySorted (λ p1 p2, match order_by with Some Asc => id p1 < id p2 | _ => id p2 < id p1 end) polls ∧
    ∀ p, p ∈ polls ↔ (∀ s, filter = Some s → status p = s) ∧ ∃ i, POLL st !! i = Some p.
Proof.
  intros [HI _ _]%GovSpec.gov_reachable_inv Hn Hle Hl Hf. pose proof (polls_u64 _ _ HI Hn Hle) as Hu. split.
  { intros start Hs. apply read_polls_keys_eq; [done|intros s; by apply index_u64|exact Hs]. }
  exists (all_polls st filter order_by). split_and!.
  - by apply (walk_polls st n).
  - generalize (all_polls_sorted st filter order_by HI). apply sorted_impl. intros p1 p2.
    destruct order_by as [[]|]; apply N.ltb_lt.
  - intros p. rewrite elem_of_all_polls. unfold has_status. destruct filter as [s|].
    + rewrite bool_decide_eq_true. naive_solver.
    + naive_solver.
Qed.
End properties.

(** ** Three polls, of which the second is rejected, read one and two at a time *)
Section witnesses.
Import GovSpec Reference.
#[local] Instance reference_buckets : Buckets := λ V bucket start stop order,
  in_order order (from_start start (to_stop stop bucket)).
#[local] Instance reference_bucket_laws : BucketLaws reference_buckets.
Proof. done. Qed.
#[local] Existing Instance Reference.platform.

Definition propose (second : N) (title : string) : call :=
  Exec (figures 0 0) (at_second second) (by_sender "xprism") (hook "bob" 50 (CreatePoll title "A poll" None None)).
Definition polls_calls : list call :=
  [Answer xprism_reply; propose 10 "First"; propose 20 "Second"; propose 2000 "Third";
   Exec (figures 0 1000) (at_second 2010) (by_sender "dan") (EndPoll 2)].
Definition polls_state : Storage := default empty_storage (optfold (next parse_hook) init_state polls_calls).
Lemma polls_calls_run : optfold (next parse_hook) init_state polls_calls = Some polls_state.
Proof. vm_compute. reflexivity. Qed.
Lemma polls_reachable : GovSpec.reachable parse_hook polls_state.
Proof.
  exact (reachable_rtc parse_hook init_state polls_state
    (reach_init parse_hook (at_second 0) (by_sender "owner") init_msg _ _ grun_init_Ok)
    (calls_rtc parse_hook init_state polls_calls polls_state polls_calls_run)).
Qed.

Lemma gov_polls_paging_witness :
  read_polls_keys polls_state None (Some 3) (Some 1) None = read_polls polls_state None (Some 3) (Some 1) None ∧
  (∃ polls, walk id 4 (λ start, read_polls_keys polls_state None start (Some 2) None) None = Ok polls ∧
     id <$> polls = [3; 2; 1]) ∧
  ∃ polls, walk id 4 (λ start, read_polls_keys polls_state (Some InProgress) start (Some 1) (Some Asc)) None = Ok polls ∧
    id <$> polls = [1; 3].
Proof.
  assert (∀ limit : N, limit ≠ 0 → Some limit ≠ Some 0) as Hlimit by congruence.
  split_and!.
  - apply (gov_polls_paging parse_hook polls_state 4 None (Some 1) None 4 polls_reachable);
      [vm_compute; reflexivity|vm_compute; discriminate|by apply Hlimit|vm_compute; lia|vm_compute; reflexivity].
  - destruct (gov_polls_paging parse_hook polls_state 4 None (Some 2) None 4 polls_reachable) as (_ & polls & Hw & _);
      [vm_compute; reflexivity|vm_compute; discriminate|by apply Hlimit|vm_compute; lia|].
    exists polls. split; [exact Hw|]. revert Hw. vm_compute. by intros [= <-].
  - destruct (gov_polls_paging parse_hook polls_state 4 (Some InProgress) (Some 1) (Some Asc) 4 polls_reachable)
      as (_ & polls & Hw & _);
      [vm_compute; reflexivity|vm_compute; discriminate|by apply Hlimit|vm_compute; lia|].
    exists polls. split; [exact Hw|]. revert Hw. vm_compute. by intros [= <-].
Defined.
End witnesses.
End GovPaging.
