(* ===== verification/XprismBoost.v ===== *)
(** * The boost contract (contracts/prism-xprism-boost)

    State ([src/state.rs], with the records of
    packages/prism_protocol/src/xprism_boost.rs) and entry points
    ([src/contract.rs]).  Bonded xPRISM accrues boost (AMPS) with time up to a
    cap; unbonding resets it and tells the launch pool. *)
From S2P Require Import Prelude Cosmwasm Protocol.
Import XprismBoostMsg.

Module XprismBoost.

(** ** Errors (src/error.rs) *)
Inductive ContractError : Type :=
  | Std (e : StdError)
  | OverflowError
  | Unauthorized
  | InvalidBond
  | InvalidUnbond
  | InvalidBoostInterval
  | InvalidMaxBoost.
#[global] Instance from_std : FromErr StdError ContractError := Std.

(** ** State (src/state.rs) *)
Record Storage : Type := mkStorage {
  CONFIG : option Config;
  USER_INFO : gmap Addr UserInfo }.

Definition save_config (c : Config) (st : Storage) : Storage := mkStorage (Some c) (USER_INFO st).
Definition save_user (a : Addr) (i : UserInfo) (st : Storage) : Storage :=
  mkStorage (CONFIG st) (<[a := i]> (USER_INFO st)).
Definition remove_user (a : Addr) (st : Storage) : Storage :=
  mkStorage (CONFIG st) (delete a (USER_INFO st)).

Definition MAX_BOOST_PER_HOUR : string := "1.0".

(** What a query answers. *)
Inductive Answer : Type :=
  | AnswerConfig (c : Config)
  | AnswerBoost (i : UserInfo).

Section contract.
Context `{Cosmwasm}.
Variable from_binary : Binary → outcome StdError Cw20HookMsg.

Notation Result := (outcome ContractError).
Notation StdResult := (outcome StdError).

Definition now (env : Env) : N := ts_seconds (block_time env).
Definition load_config (st : Storage) : StdResult Config := load "Config" (CONFIG st).

(** [deps.api.addr_validate] under an [Option]. *)
Definition validate_opt (o : option string) : StdResult (option Addr) :=
  match o with
  | Some s => let? a := addr_validate s in Ok (Some a)
  | None => Ok None
  end.

(** [boost_per_hour > Decimal::from_str(MAX_BOOST_PER_HOUR)?] *)
Definition check_boost_per_hour (boost_per_hour : Decimal) : Result unit :=
  let? limit := ok_or (dec_from_str MAX_BOOST_PER_HOUR) (GenericErr "Error parsing") in
  if limit <? boost_per_hour then Err InvalidBoostInterval else Ok tt.

Definition instantiate (msg : InstantiateMsg) : Result (Storage * Response) :=
  let? _ := check_boost_per_hour (boost_per_hour msg) in
  let? launch_pool := validate_opt (launch_pool_contract msg) in
  let? owner := addr_validate (owner msg) in
  let? xprism_token := addr_validate (xprism_token msg) in
  Ok (mkStorage
        (Some (mkConfig owner xprism_token (boost_per_hour msg) (max_boost_per_xprism msg) launch_pool)) ∅,
      respond [] []).

(** The boost accrued since [last_updated], never beyond the maximum. *)
Definition _accumulate_boost (st : Storage) (env : Env) (info : UserInfo) : StdResult UserInfo :=
  if negb (amt_bonded info =? 0) && (last_updated info <? now env) then
    let? cfg := load_config st in
    let! per_hour := uint_mul_dec (amt_bonded info) (cfg_boost_per_hour cfg) in
    let! elapsed := u64_sub (now env) (last_updated info) in
    let! hours := dec_from_ratio elapsed 3600 in
    let! new_boost := uint_mul_dec per_hour hours in
    let! max_boost := uint_mul (amt_bonded info) (cfg_max_boost_per_xprism cfg) in
    let! total := uint_add (total_boost info) new_boost in
    Ok (mkUserInfo (amt_bonded info) (N.min total max_boost) (now env) (boost_accrual_start_time info))
  else Ok info.

Definition bond (st : Storage) (env : Env) (sender : string) (amount : Uint128)
    : Result (Storage * Response) :=
  if amount =? 0 then Err InvalidBond else
  let? addr := addr_validate sender in
  let info := default (mkUserInfo 0 0 (now env) (now env)) (USER_INFO st !! addr) in
  let? user_info := _accumulate_boost st env info in
  let! bonded := uint_add (amt_bonded user_info) amount in
  let st := save_user addr (mkUserInfo bonded (total_boost user_info) (last_updated user_info)
                              (boost_accrual_start_time user_info)) st in
  Ok (st, respond [] [("user", AStr addr); ("bond", ANum amount)]).

Definition transfer_msg (token recipient : Addr) (amount : Uint128) : CosmosMsg :=
  WasmExecute token (BinCw20 (Cw20.Transfer recipient amount)) [].
Definition refresh_msg (launch_pool account : Addr) : CosmosMsg :=
  WasmExecute launch_pool (BinLaunchPool (LaunchPoolMsg.PrivilegedRefreshBoost account)) [].

Definition unbond (st : Storage) (env : Env) (info : MessageInfo) (amount : option Uint128)
    : Result (Storage * Response) :=
  let? user_info := load "UserInfo" (USER_INFO st !! info_sender info) in
  let amt := default (amt_bonded user_info) amount in
  if amt_bonded user_info <? amt then Err InvalidUnbond else
  let? remaining := ok_or (uint_checked_sub (amt_bonded user_info) amt) OverflowError in
  let st :=
    if remaining =? 0 then remove_user (info_sender info) st
    else save_user (info_sender info) (mkUserInfo remaining 0 (now env) (now env)) st in
  let? cfg := load_config st in
  let messages :=
    transfer_msg (cfg_xprism_token cfg) (info_sender info) amt ::
    match cfg_launch_pool_contract cfg with
    | Some address => [refresh_msg address (info_sender info)]
    | None => []
    end in
  Ok (st, respond messages [("user", AStr (info_sender info)); ("unbond", ANum amt)]).

(** [Some("")] clears the launch pool, [None] leaves it untouched. *)
Definition update_launch_pool (current : option Addr) (o : option string) : StdResult (option Addr) :=
  match o with
  | None => Ok current
  | Some s => if bool_decide (s = ""%string) then Ok None else let? a := addr_validate s in Ok (Some a)
  end.

(** Only increases are allowed. *)
Definition update_max_boost (current : Uint128) (o : option Uint128) : Result Uint128 :=
  match o with
  | Some new => if new <=? current then Err InvalidMaxBoost else Ok new
  | None => Ok current
  end.

Definition update_config (st : Storage) (owner : option string) (boost_per_hour : option Decimal)
    (max_boost_per_xprism : option Uint128) (launch_pool_contract : option string)
    : Result (Storage * Response) :=
  let? cfg := load_config st in
  let? new_owner := validate_opt owner in
  let? rate :=
    match boost_per_hour with
    | Some b => let? _ := check_boost_per_hour b in Ok b
    | None => Ok (cfg_boost_per_hour cfg)
    end in
  let? max_boost := update_max_boost (cfg_max_boost_per_xprism cfg) max_boost_per_xprism in
  let? launch_pool := update_launch_pool (cfg_launch_pool_contract cfg) launch_pool_contract in
  Ok (save_config (mkConfig (default (cfg_owner cfg) new_owner) (cfg_xprism_token cfg) rate max_boost
                     launch_pool) st,
      respond [] []).

Definition receive_cw20 (st : Storage) (env : Env) (msg : Cw20ReceiveMsg Binary)
    : Result (Storage * Response) :=
  let? hook := from_binary (cw20_msg msg) in
  match hook with
  | Bond user => bond st env (default (cw20_sender msg) user) (cw20_amount msg)
  end.

Definition execute (st : Storage) (env : Env) (info : MessageInfo) (msg : ExecuteMsg Binary)
    : Result (Storage * Response) :=
  match msg with
  | Unbond amount => unbond st env info amount
  | Receive msg =>
      let? config := load_config st in
      if bool_decide (cfg_xprism_token config ≠ info_sender info) then Err Unauthorized
      else receive_cw20 st env msg
  | UpdateConfig owner rate max_boost launch_pool =>
      let? config := load_config st in
      if bool_decide (cfg_owner config ≠ info_sender info) then Err Unauthorized
      else update_config st owner rate max_boost launch_pool
  end.

(** [QueryMsg::GetBoost] *)
Definition get_boost (st : Storage) (env : Env) (user : Addr) : StdResult UserInfo :=
  _accumulate_boost st env (default UserInfo_default (USER_INFO st !! user)).

Definition query (st : Storage) (env : Env) (msg : QueryMsg) : StdResult Answer :=
  match msg with
  | QConfig => let? c := load_config st in Ok (AnswerConfig c)
  | QGetBoost user => let? i := get_boost st env user in Ok (AnswerBoost i)
  end.
End contract.
End XprismBoost.
