(* ===== verification/XprismBoostProofs.v ===== *)
(** * Lemmas on the boost contract

    What accrual computes, what each operation does, and the invariant that
    every operation preserves. *)
From S2P Require Import Prelude Cosmwasm Protocol XprismBoost.
Import XprismBoostMsg XprismBoost.

Module XprismBoostProofs.

(** What is bonded in total. *)
Definition bonded (st : Storage) : N := map_sum (λ _ i, amt_bonded i) (USER_INFO st).
Definition xprism (st : Storage) : option Addr := cfg_xprism_token <$> CONFIG st.

(** The largest boost a user may have. *)
Definition cap (c : Config) (i : UserInfo) : N := amt_bonded i * cfg_max_boost_per_xprism c.
(** The boost of a whole hour, and of [elapsed] seconds. *)
Definition hourly (c : Config) (i : UserInfo) : N := amt_bonded i * cfg_boost_per_hour c / DECIMAL_UNIT.
Definition accrued (c : Config) (i : UserInfo) (elapsed : N) : N :=
  hourly c i * (elapsed * DECIMAL_UNIT / 3600) / DECIMAL_UNIT.

(** A record as the contract keeps it at time [t]. *)
Definition user_ok (c : Config) (t : N) (i : UserInfo) : Prop :=
  amt_bonded i ≠ 0 ∧ total_boost i ≤ cap c i ∧
  boost_accrual_start_time i ≤ last_updated i ≤ t.

Definition Inv (st : Storage) (t : N) : Prop :=
  ∃ c, CONFIG st = Some c ∧ ∀ u i, USER_INFO st !! u = Some i → user_ok c t i.

Section accrual.
Context {P : Cosmwasm} {L : CosmwasmLaws P}.

Lemma accumulate_spec st env i i' :
  _accumulate_boost st env i = Ok i' →
  (i' = i ∧ (amt_bonded i = 0 ∨ now env ≤ last_updated i)) ∨
  (amt_bonded i ≠ 0 ∧ last_updated i < now env ∧ ∃ c, CONFIG st = Some c ∧
   i' = mkUserInfo (amt_bonded i)
          (N.min (total_boost i + accrued c i (now env - last_updated i)) (cap c i))
          (now env) (boost_accrual_start_time i)).
Proof.
  unfold _accumulate_boost, load_config. intros H.
  destruct (negb _ && _) eqn:Hc.
  - right. inv_body H. split_and!; [done|done|]. eexists; split; [done|].
    unfold cap, accrued, hourly. done.
  - left. injection H as <-. split; [done|].
    apply andb_false_iff in Hc as [Hc|Hc]; platform_facts; [left|right]; done.
Qed.

(** Accrual never fails below the width of the numbers. *)
Lemma accumulate_total st env i c :
  CONFIG st = Some c → now env - last_updated i < u64_limit →
  hourly c i < 2 ^ 64 → cap c i < u128_limit → total_boost i < 2 ^ 127 →
  ∃ i', _accumulate_boost st env i = Ok i'.
Proof.
  intros Hc Ht Hh Hcap Hb. unfold _accumulate_boost, load_config. rewrite Hc. simpl.
  destruct (negb _ && _) eqn:Hg; [|by eexists]. ok_facts.
  rewrite uint_mul_dec_law. fold (hourly c i). unfold checked_width, u128_limit, u64_limit in *.
  rewrite (proj2 (N.ltb_lt _ _)) by lia. simpl.
  unfold u64_sub. rewrite (proj2 (N.leb_le _ _)) by lia. simpl. rewrite dec_from_ratio_law. simpl.
  set (h := (now env - last_updated i) * DECIMAL_UNIT / 3600).
  assert (h ≤ 2 ^ 64 * DECIMAL_UNIT / 3600) as Hhm.
  { apply N.Div0.div_le_mono, N.mul_le_mono_r. lia. }
  assert (h < 2 ^ 128) as Hh1 by (eapply N.le_lt_trans; [exact Hhm|vm_compute; reflexivity]).
  unfold checked_width, u128_limit. rewrite (proj2 (N.ltb_lt _ _)) by done. simpl. rewrite uint_mul_dec_law.
  assert (hourly c i * h / DECIMAL_UNIT ≤ 2 ^ 64 * (2 ^ 64 * DECIMAL_UNIT / 3600) / DECIMAL_UNIT) as Hn.
  { apply N.Div0.div_le_mono, N.mul_le_mono; [lia|done]. }
  assert (2 ^ 64 * (2 ^ 64 * DECIMAL_UNIT / 3600) / DECIMAL_UNIT < 2 ^ 127) as Hn2 by (vm_compute; reflexivity).
  unfold checked_width, u128_limit. rewrite (proj2 (N.ltb_lt _ _)) by (unfold u128_limit; lia). simpl.
  rewrite uint_mul_law. fold (cap c i). unfold checked_width, u128_limit.
  rewrite (proj2 (N.ltb_lt _ _)) by done. simpl. rewrite uint_add_law. unfold checked_width, u128_limit.
  rewrite (proj2 (N.ltb_lt _ _)) by lia. simpl. by eexists.
Qed.

Lemma accrued_mono c i d d' : d ≤ d' → accrued c i d ≤ accrued c i d'.
Proof.
  intros Hd. unfold accrued. apply N.Div0.div_le_mono, N.mul_le_mono_l, N.Div0.div_le_mono, N.mul_le_mono_r, Hd.
Qed.

(** Whole hours earn the hourly boost each. *)
Lemma accrued_hours c i d k : 3600 * k ≤ d → hourly c i * k ≤ accrued c i d.
Proof.
  intros Hd. unfold accrued. apply N.div_le_lower_bound; [done|].
  enough (k * DECIMAL_UNIT ≤ d * DECIMAL_UNIT / 3600) as Hk.
  { etrans; [|apply N.mul_le_mono_l, Hk]. by rewrite N.mul_comm, N.mul_assoc. }
  apply N.div_le_lower_bound; [done|]. rewrite N.mul_assoc. by apply N.mul_le_mono_r.
Qed.

(** Accrual keeps records well-formed and never lowers a boost. *)
Lemma accumulate_ok st env i i' c t :
  CONFIG st = Some c → t ≤ now env → user_ok c t i →
  _accumulate_boost st env i = Ok i' →
  user_ok c (now env) i' ∧ amt_bonded i' = amt_bonded i ∧ total_boost i ≤ total_boost i' ∧
  last_updated i' = now env.
Proof.
  intros Hc Ht (Ha & Hb & Hs & Hl) [[-> Hz]|(_ & Hlt & c' & Hc' & ->)]%accumulate_spec.
  - destruct Hz as [?|Hz]; [done|]. unfold user_ok. split_and!; try done; lia.
  - simplify_eq. unfold user_ok, cap in *. simpl. split_and!; try done; lia.
Qed.

Lemma get_boost_absent st env u :
  USER_INFO st !! u = None → get_boost st env u = Ok UserInfo_default.
Proof. intros Hu. unfold get_boost. rewrite Hu. done. Qed.
End accrual.

Section operations.
Context {P : Cosmwasm} {L : CosmwasmLaws P}.
Variable fb : Binary → outcome StdError Cw20HookMsg.

Lemma bonded_save u i st :
  bonded (save_user u i st) + from_option amt_bonded 0 (USER_INFO st !! u) = bonded st + amt_bonded i.
Proof. unfold bonded. simpl. apply (map_sum_insert (λ _, amt_bonded)). Qed.
Lemma bonded_remove u st :
  bonded (remove_user u st) + from_option amt_bonded 0 (USER_INFO st !! u) = bonded st.
Proof. unfold bonded. simpl. apply (map_sum_delete_contrib (λ _, amt_bonded)). Qed.

(** The record a first bond starts from. *)
Definition fresh (t : N) : UserInfo := mkUserInfo 0 0 t t.

Lemma boost_bond_spec st env sender n st' resp :
  bond st env sender n = Ok (st', resp) →
  n ≠ 0 ∧ messages resp = [] ∧ ∃ i,
    _accumulate_boost st env (default (fresh (now env)) (USER_INFO st !! sender)) = Ok i ∧
    st' = save_user sender (mkUserInfo (amt_bonded i + n) (total_boost i) (last_updated i)
                              (boost_accrual_start_time i)) st.
Proof.
  unfold bond. intros H. inv_body H.
  match goal with H : addr_validate _ = Ok _ |- _ => apply addr_validate_law in H; subst end.
  split_and!; [done|done|]. eauto.
Qed.

Definition unbonded (t rest : N) (u : Addr) (st : Storage) : Storage :=
  if rest =? 0 then remove_user u st else save_user u (mkUserInfo rest 0 t t) st.
Definition notices (c : Config) (u : Addr) : list CosmosMsg :=
  match cfg_launch_pool_contract c with Some a => [refresh_msg a u] | None => [] end.

Lemma boost_unbond_spec st env info amount st' resp :
  unbond st env info amount = Ok (st', resp) →
  ∃ c i, let n := default (amt_bonded i) amount in
    CONFIG st = Some c ∧ USER_INFO st !! info_sender info = Some i ∧ n ≤ amt_bonded i ∧
    st' = unbonded (now env) (amt_bonded i - n) (info_sender info) st ∧
    messages resp = sub_new <$> transfer_msg (cfg_xprism_token c) (info_sender info) n ::
                                notices c (info_sender info).
Proof.
  unfold unbond, load_config. intros H. inv_body H.
  match goal with
  | Hu : _ = Some ?i, Hc : CONFIG _ = Some ?c |- _ => exists c, i; split_and!; try done; revert Hc; by destruct (_ =? 0)
  end.
Qed.

Lemma boost_update_config_spec st owner rate max_boost launch_pool st' resp :
  update_config st owner rate max_boost launch_pool = Ok (st', resp) →
  messages resp = [] ∧ ∃ c c', CONFIG st = Some c ∧ st' = save_config c' st ∧
    cfg_xprism_token c' = cfg_xprism_token c ∧
    cfg_boost_per_hour c' = default (cfg_boost_per_hour c) rate ∧
    cfg_max_boost_per_xprism c' = default (cfg_max_boost_per_xprism c) max_boost ∧
    cfg_max_boost_per_xprism c ≤ cfg_max_boost_per_xprism c' ∧
    update_launch_pool (cfg_launch_pool_contract c) launch_pool = Ok (cfg_launch_pool_contract c').
Proof.
  unfold update_config, load_config. intros H. inv_ok H. subst. platform_facts.
  match goal with Hr : match rate with _ => _ end = Ok ?r |- _ => assert (r = default (cfg_boost_per_hour a) rate) as ->
    by (destruct rate; [inv_ok Hr; by subst|by injection Hr as <-]) end.
  match goal with Hm : update_max_boost _ _ = Ok ?m |- _ =>
    assert (m = default (cfg_max_boost_per_xprism a) max_boost ∧ cfg_max_boost_per_xprism a ≤ m) as [-> ?]
      by (unfold update_max_boost in Hm; inv_ok Hm; subst; platform_facts; split; lia || done) end.
  split; [done|]. eexists _, _. split_and!; try done.
Qed.

Lemma instantiate_spec msg st resp :
  instantiate msg = Ok (st, resp) →
  USER_INFO st = ∅ ∧ ∃ c, CONFIG st = Some c ∧
    cfg_xprism_token c = xprism_token msg ∧ cfg_max_boost_per_xprism c = max_boost_per_xprism msg.
Proof.
  unfold instantiate. intros H. inv_ok H. subst. simpl. split; [done|]. eexists; split; [done|].
  simpl. split; [|done]. by match goal with H : addr_validate (xprism_token _) = _ |- _ => apply addr_validate_law in H end.
Qed.
End operations.

(** ** The invariant *)
Section invariant.
Context {P : Cosmwasm} {L : CosmwasmLaws P}.
Variable fb : Binary → outcome StdError Cw20HookMsg.

Lemma user_ok_weaken c c' t t' i :
  user_ok c t i → cfg_max_boost_per_xprism c ≤ cfg_max_boost_per_xprism c' → t ≤ t' → user_ok c' t' i.
Proof.
  intros (? & Hb & ? & ?) Hm Ht. unfold user_ok, cap in *. split_and!; [done| |done|lia].
  etrans; [exact Hb|]. by apply N.mul_le_mono_l.
Qed.

Lemma Inv_later st t t' : t ≤ t' → Inv st t → Inv st t'.
Proof. intros Ht (c & Hc & Hi). exists c. split; [done|]. intros u i Hu. by eapply user_ok_weaken; eauto. Qed.

Lemma Inv_save st t c u i : Inv st t → CONFIG st = Some c → user_ok c t i → Inv (save_user u i st) t.
Proof.
  intros (c' & Hc' & Hi) Hc Hu. assert (c' = c) as -> by congruence. exists c. split; [done|]. intros v j. simpl.
  rewrite lookup_insert. case_decide; [by intros [= <-]|apply Hi].
Qed.

Lemma bond_inv st env sender n st' resp t :
  bond st env sender n = Ok (st', resp) → t ≤ now env → Inv st t → Inv st' (now env).
Proof.
  intros (Hn & _ & i & Hi & ->)%boost_bond_spec Ht HI. pose proof HI as (c & Hc & Hu).
  eapply Inv_save; [by eapply Inv_later|done|].
  destruct (USER_INFO st !! sender) as [j|] eqn:Hj; simpl in Hi.
  - eapply accumulate_ok in Hi as ((? & Hb & ?) & Ha & ? & ?); [|done..|by eapply Hu].
    unfold user_ok, cap in *. simpl. split_and!; try done; lia.
  - apply accumulate_spec in Hi as [[-> _]|(? & _)]; [|done].
    unfold user_ok, cap. simpl. split_and!; try done; lia.
Qed.

Lemma unbonded_inv st t rest u : Inv st t → Inv (unbonded t rest u st) t.
Proof.
  intros HI. pose proof HI as (c & Hc & Hi). unfold unbonded. destruct (N.eqb_spec rest 0).
  - exists c. split; [done|]. intros v j. simpl. rewrite lookup_delete. case_decide; [done|apply Hi].
  - eapply Inv_save; [done..|]. unfold user_ok. simpl. split_and!; try done; lia.
Qed.

Lemma boost_execute_inv st env info msg st' resp t :
  execute fb st env info msg = Ok (st', resp) → t ≤ now env → Inv st t → Inv st' (now env).
Proof.
  intros H Ht HI. destruct msg as [m|o r mb lp|amount]; simpl in H.
  - inv_ok H. unfold receive_cw20 in H. inv_ok H. by eapply bond_inv.
  - inv_ok H. apply boost_update_config_spec in H as (_ & c & c' & Hc & -> & _ & _ & _ & Hm & _).
    destruct HI as (c2 & Hc2 & Hi). simplify_eq. exists c'. split; [done|].
    intros u i Hu. by eapply user_ok_weaken; eauto.
  - apply boost_unbond_spec in H as (c & i & _ & _ & _ & -> & _). by eapply unbonded_inv, Inv_later.
Qed.

Lemma execute_xprism st env info msg st' resp :
  execute fb st env info msg = Ok (st', resp) → xprism st' = xprism st.
Proof.
  unfold xprism. intros H. destruct msg as [m|o r mb lp|amount]; simpl in H.
  - inv_ok H. unfold receive_cw20 in H. inv_ok H. by apply boost_bond_spec in H as (_ & _ & i & _ & ->).
  - inv_ok H. apply boost_update_config_spec in H as (_ & c & c' & -> & -> & Hx & _). simpl. by rewrite Hx.
  - apply boost_unbond_spec in H as (c & i & _ & _ & _ & -> & _). unfold unbonded. by destruct (_ =? 0).
Qed.

Lemma notices_send t c u : sum_N ((λ s, cw20_out t (sub_msg s)) <$> (sub_new <$> notices c u)) = 0.
Proof. unfold notices. by destruct (cfg_launch_pool_contract c). Qed.

(** What a message deposits with the contract. *)
Definition deposited (msg : ExecuteMsg Binary) : N :=
  match msg with Receive m => cw20_amount m | _ => 0 end.

(** What is bonded changes by what comes in and what is sent. *)
Lemma execute_bonded st env info msg st' resp x :
  execute fb st env info msg = Ok (st', resp) → xprism st = Some x →
  bonded st' + cw20_sent x resp = bonded st + deposited msg ∧
  (deposited msg ≠ 0 → info_sender info = x).
Proof.
  unfold xprism. intros H Hx. destruct msg as [m|o r mb lp|amount]; simpl in H; simpl.
  - inv_ok H. ok_facts. unfold receive_cw20 in H. inv_ok H.
    apply load_Ok in Ha. rewrite Ha in Hx. simpl in Hx. injection Hx as <-.
    apply dec_stable in E. split; [|by intros _]. 
    apply boost_bond_spec in H as (Hn & Hm & i & Hi & ->). unfold cw20_sent. rewrite Hm. simpl.
    match goal with |- bonded (save_user ?u ?j st) + 0 = _ => pose proof (bonded_save u j st) as Hb end.
    simpl in Hb. enough (amt_bonded i = from_option amt_bonded 0 (USER_INFO st !! default (cw20_sender m) user)) by lia.
    apply accumulate_spec in Hi as [[-> _]|(_ & _ & c & _ & ->)]; simpl; by destruct (USER_INFO st !! _).
  - split; [|done]. inv_ok H. apply boost_update_config_spec in H as (Hm & c & c' & _ & -> & _).
    unfold cw20_sent. rewrite Hm. done.
  - split; [|done]. apply boost_unbond_spec in H as (c & i & Hc & Hi & Hn & -> & Hm).
    rewrite Hc in Hx. simpl in Hx. injection Hx as <-. unfold cw20_sent. rewrite Hm, fmap_cons. simpl.
    rewrite bool_decide_eq_true_2 by done. rewrite notices_send. unfold unbonded.
    set (n := default (amt_bonded i) amount) in *. destruct (N.eqb_spec (amt_bonded i - n) 0).
    + pose proof (bonded_remove (info_sender info) st) as Hb. rewrite Hi in Hb. simpl in Hb. lia.
    + match goal with |- bonded (save_user ?u ?j st) + _ = _ => pose proof (bonded_save u j st) as Hb end.
      rewrite Hi in Hb. simpl in Hb. lia.
Qed.
End invariant.
End XprismBoostProofs.
