(* ===== verification/XprismBoostSpec.v ===== *)
(** * What the boost contract promises

    The runs of the contract with its token balances, its properties, and
    concrete runs on the reference platform that witness them. *)
From S2P Require Import Prelude Cosmwasm Protocol XprismBoost XprismBoostProofs.
Import XprismBoostMsg XprismBoost XprismBoostProofs Tokens.

Module XprismBoostSpec.

Section runs.
Context {P : Cosmwasm}.
Variable from_binary : Binary → outcome StdError Cw20HookMsg.

(** What the token contract credits before a message is executed. *)
Definition incoming (info : MessageInfo) (msg : ExecuteMsg Binary) (l : ledger) : ledger :=
  match msg with
  | Receive m => credit (info_sender info) (cw20_amount m) l
  | _ => l
  end.

(** The states of the contract, with the time of the last block and its token
    balances: after instantiation, after time has passed or tokens have
    arrived, and after a successful message. *)
Inductive run : Storage → N → ledger → Prop :=
  | run_init msg st resp t l :
      instantiate msg = Ok (st, resp) → run st t l
  | run_wait st t t' l token n :
      run st t l → t ≤ t' → run st t' (credit token n l)
  | run_step st t l env info msg st' resp :
      run st t l → t ≤ now env →
      execute from_binary st env info msg = Ok (st', resp) →
      run st' (now env) (pay_out resp (incoming info msg l)).
End runs.

Section properties.
Context {P : Cosmwasm} {L : CosmwasmLaws P}.
Variable fb : Binary → outcome StdError Cw20HookMsg.

Lemma run_inv st t l : run fb st t l → Inv st t.
Proof.
  induction 1 as [msg st resp t l Hi|st t t' l tok n _ IH Ht|st t l env info msg st' resp _ IH Ht H].
  - apply instantiate_spec in Hi as (He & c & Hc & _). exists c. split; [done|]. intros u i. by rewrite He.
  - by eapply Inv_later.
  - by eapply boost_execute_inv.
Qed.

(** C36: Well-formed boost records. In every state the boost contract can reach
    there is a configuration, and every stored user has a positive bond, a boost
    within the cap of that bond, and times in order: accrual started no later
    than the last update, which is not in the future. *)
Theorem boost_records_wf st t l :
  run fb st t l → ∃ c, CONFIG st = Some c ∧
    ∀ u i, USER_INFO st !! u = Some i →
      amt_bonded i ≠ 0 ∧ total_boost i ≤ amt_bonded i * cfg_max_boost_per_xprism c ∧
      boost_accrual_start_time i ≤ last_updated i ≤ t.
Proof. apply run_inv. Qed.

Lemma run_solvent st t l x : run fb st t l → xprism st = Some x → bonded st ≤ l x.
Proof.
  induction 1 as [msg st resp t l Hi|st t t' l tok n _ IH Ht|st t l env info msg st' resp _ IH Ht H]; intros Hx.
  - apply instantiate_spec in Hi as (He & _). unfold bonded. rewrite He, map_sum_empty. lia.
  - specialize (IH Hx). pose proof (credit_le tok x n l). lia.
  - rewrite (execute_xprism _ _ _ _ _ _ _ H) in Hx. specialize (IH Hx).
    destruct (execute_bonded _ _ _ _ _ _ _ _ H Hx) as [Hb Hs]. unfold pay_out.
    enough (l x + deposited msg ≤ incoming info msg l x) by lia.
    destruct msg as [m| |]; simpl in *; [|lia..].
    destruct (decide (cw20_amount m = 0)) as [Hz|Hz].
    + pose proof (credit_le (info_sender info) x (cw20_amount m) l). lia.
    + rewrite (Hs Hz), credit_eq. lia.
Qed.

(** C23: Solvency of the boost contract. On every run, the xPRISM bonded by all
    users is covered by the contract's xPRISM balance. *)
Theorem boost_solvent st t l x :
  run fb st t l → xprism st = Some x → map_sum (λ _ i, amt_bonded i) (USER_INFO st) ≤ l x.
Proof. apply run_solvent. Qed.

(** C15: The boost contract never refuses an unbonding. On every run, when a user
    who has bonded at least [n] calls for [n] at any later time, whatever has
    accrued, the handler succeeds and orders the transfer of exactly [n], which
    the contract's balance covers, and the notice to the launch pool if there is
    one; the user is left with the rest bonded and no boost, and nobody else is
    affected.  Whether the transaction goes through then rests with these two
    messages: a launch pool that cannot refresh the account still makes it fail
    ([PoolBoost.pool_blocks_unbond]). *)
Theorem boost_accepts_unbond st t l env info n i :
  run fb st t l → t ≤ now env →
  USER_INFO st !! info_sender info = Some i → n ≤ amt_bonded i →
  ∃ c st' resp, CONFIG st = Some c ∧
    execute fb st env info (Unbond (Some n)) = Ok (st', resp) ∧
    messages resp = sub_new <$> transfer_msg (cfg_xprism_token c) (info_sender info) n ::
                                notices c (info_sender info) ∧
    n ≤ l (cfg_xprism_token c) ∧
    (∃ i', get_boost st' env (info_sender info) = Ok i' ∧
       amt_bonded i' = amt_bonded i - n ∧ total_boost i' = 0) ∧
    (∀ u, u ≠ info_sender info → USER_INFO st' !! u = USER_INFO st !! u).
Proof.
  intros Hr Ht Hi Hn. destruct (run_inv _ _ _ Hr) as (c & Hc & _).
  pose proof (run_solvent _ _ _ (cfg_xprism_token c) Hr) as Hsol. unfold xprism in Hsol. rewrite Hc in Hsol.
  specialize (Hsol eq_refl). assert (amt_bonded i ≤ bonded st) as Hle.
  { pose proof (contrib_le (λ _, amt_bonded) (USER_INFO st) (info_sender info)) as Hle.
    by rewrite (contrib_Some _ _ _ _ Hi) in Hle. }
  assert (execute fb st env info (Unbond (Some n)) =
    Ok (unbonded (now env) (amt_bonded i - n) (info_sender info) st,
        respond (transfer_msg (cfg_xprism_token c) (info_sender info) n :: notices c (info_sender info))
          [("user", AStr (info_sender info)); ("unbond", ANum n)])) as Hex.
  { simpl. unfold unbond, load_config. rewrite Hi. simpl. rewrite (proj2 (N.ltb_ge _ _)) by done.
    rewrite uint_checked_sub_law, (proj2 (N.leb_le _ _)) by done. simpl.
    assert (∀ b : bool, CONFIG (if b then remove_user (info_sender info) st else
      save_user (info_sender info) (mkUserInfo (amt_bonded i - n) 0 (now env) (now env)) st) = CONFIG st) as ->
      by (by intros []). by rewrite Hc. }
  eexists c, _, _. split_and!; [done|exact Hex|done|lia| |].
  - unfold get_boost, unbonded. destruct (N.eqb_spec (amt_bonded i - n) 0) as [Hz|Hz]; simpl.
    + rewrite lookup_delete_eq. eexists. split; [done|]. simpl. lia.
    + rewrite lookup_insert_eq. simpl. unfold _accumulate_boost. simpl. rewrite N.ltb_irrefl, andb_false_r.
      by eexists.
  - intros u Hu. unfold unbonded. destruct (_ =? 0); simpl.
    + by rewrite lookup_delete_ne.
    + by rewrite lookup_insert_ne.
Qed.

(** Boost reaches its cap. A user who stays bonded gains at least the boost
    of one hour per hour, so after [k] hours that are worth the cap the boost
    is the cap and stays there, provided the numbers fit their widths. *)
Theorem boost_reaches_cap st t l env u i c k :
  run fb st t l → CONFIG st = Some c → USER_INFO st !! u = Some i →
  let per_hour := amt_bonded i * cfg_boost_per_hour c / DECIMAL_UNIT in
  let limit := amt_bonded i * cfg_max_boost_per_xprism c in
  per_hour < 2 ^ 64 → limit < 2 ^ 127 → now env < u64_limit →
  limit ≤ per_hour * k → last_updated i + 3600 * k ≤ now env → 0 < k →
  ∃ i', get_boost st env u = Ok i' ∧ amt_bonded i' = amt_bonded i ∧ total_boost i' = limit.
Proof.
  intros Hr Hc Hi per_hour limit Hp Hl Ht Hk Hn Hk0.
  destruct (run_inv _ _ _ Hr) as (c' & Hc' & Hok). assert (c' = c) as -> by congruence.
  destruct (Hok _ _ Hi) as (Ha & Hb & _). unfold get_boost. rewrite Hi. simpl. 
  destruct (accumulate_total st env i c) as [i' Hi'];
    [done|lia|done|unfold cap, u128_limit; fold limit; lia|unfold cap in Hb; fold limit in Hb; lia|].
  exists i'. split; [done|].
  apply accumulate_spec in Hi' as [[-> [?|?]]|(_ & _ & c2 & Hc2 & ->)]; [done|lia|].
  assert (c2 = c) as -> by congruence. simpl. split; [done|].
  pose proof (accrued_hours c i (now env - last_updated i) k) as Hac. unfold hourly in Hac. fold per_hour in Hac.
  unfold cap. fold limit. lia.
Qed.

(** The owner's new rate also applies to the time before it was set: what a
    user accrues depends only on the rate at the time of the query. *)
Lemma boost_rate_change_retroactive st env info r st' resp env' u i i' :
  execute fb st env info (UpdateConfig None (Some r) None None) = Ok (st', resp) →
  USER_INFO st !! u = Some i → amt_bonded i ≠ 0 → last_updated i < now env' →
  get_boost st' env' u = Ok i' →
  ∃ c, CONFIG st = Some c ∧ total_boost i' =
    N.min (total_boost i + amt_bonded i * r / DECIMAL_UNIT *
             ((now env' - last_updated i) * DECIMAL_UNIT / 3600) / DECIMAL_UNIT)
      (amt_bonded i * cfg_max_boost_per_xprism c).
Proof.
  intros H Hi Ha Ht Hg. simpl in H. inv_ok H.
  apply boost_update_config_spec in H as (_ & c & c' & Hc & -> & _ & Hr & Hm & _). exists c. split; [done|].
  unfold get_boost in Hg. simpl in Hg. rewrite Hi in Hg. simpl in Hg, Hr, Hm.
  apply accumulate_spec in Hg as [[-> [?|?]]|(_ & _ & c2 & Hc2 & ->)]; [done|lia|].
  simpl in Hc2. injection Hc2 as <-. simpl. unfold accrued, hourly, cap. by rewrite Hr, Hm.
Qed.
End properties.

(** ** Concrete runs *)
Section witnesses.
Import Reference.
#[local] Existing Instance Reference.platform.

Definition parse_hook (b : Binary) : outcome StdError Cw20HookMsg :=
  match b with BinBoostHook m => Ok m | _ => Err ParseErr end.
Definition at_second (s : N) : Env := mkEnv 1 (s * 10 ^ 9) "boost".
Definition by_sender (a : Addr) : MessageInfo := mkInfo a [].
Definition empty_storage : Storage := mkStorage None ∅.
Definition new_state (r : outcome ContractError (Storage * Response)) : Storage :=
  match r with Ok (st, _) => st | _ => empty_storage end.
Definition response_of (r : outcome ContractError (Storage * Response)) : Response :=
  match r with Ok (_, resp) => resp | _ => mkResponse [] [] end.
Lemma boost_run_Ok r : is_ok r = true → r = Ok (new_state r, response_of r).
Proof. by destruct r as [[? ?]| |]. Qed.

(** One AMP per xPRISM and hour, at most one hundred. *)
Definition init_msg : InstantiateMsg :=
  mkInstantiateMsg "owner" "xprism" DECIMAL_UNIT 100 (Some "pool"%string).
Definition run_instantiate := instantiate init_msg.
Lemma brun_init_Ok : run_instantiate = Ok (new_state run_instantiate, response_of run_instantiate).
Proof. apply boost_run_Ok. vm_compute. reflexivity. Qed.

Definition bond_msg : ExecuteMsg Binary :=
  Receive (mkCw20Receive "alice" 1000 (BinBoostHook (Bond None))).
Definition run_bond :=
  execute parse_hook (new_state run_instantiate) (at_second 7200) (by_sender "xprism") bond_msg.
Lemma brun_bond_Ok : run_bond = Ok (new_state run_bond, response_of run_bond).
Proof. apply boost_run_Ok. vm_compute. reflexivity. Qed.

Definition boost_state : Storage := new_state run_bond.
Definition boost_ledger : ledger := pay_out (response_of run_bond) (incoming (by_sender "xprism") bond_msg (λ _, 0)).
Lemma bonded_run : run parse_hook boost_state (now (at_second 7200)) boost_ledger.
Proof.
  eapply (run_step parse_hook (new_state run_instantiate) 0); [|vm_compute; discriminate|exact brun_bond_Ok].
  exact (run_init parse_hook init_msg _ _ 0 (λ _, 0) brun_init_Ok).
Qed.
Definition alice_info : UserInfo := mkUserInfo 1000 0 7200 7200.
Lemma alice_bonded : USER_INFO boost_state !! ("alice"%string : Addr) = Some alice_info.
Proof. vm_compute. reflexivity. Qed.
Definition boost_config : Config := mkConfig "owner" "xprism" DECIMAL_UNIT 100 (Some "pool"%string).
Lemma boost_state_config : CONFIG boost_state = Some boost_config.
Proof. vm_compute. reflexivity. Qed.

Lemma boost_records_wf_witness :
  ∃ c, CONFIG boost_state = Some c ∧ total_boost alice_info ≤ 1000 * cfg_max_boost_per_xprism c.
Proof.
  destruct (boost_records_wf (P:=platform) parse_hook _ _ _ bonded_run) as (c & Hc & Hi).
  exists c. split; [exact Hc|]. destruct (Hi _ _ alice_bonded) as (_ & Hb & _). exact Hb.
Defined.

Lemma boost_solvent_witness :
  map_sum (λ _ i, amt_bonded i) (USER_INFO boost_state) ≤ 1000 ∧ bonded boost_state = 1000.
Proof.
  split; [|vm_compute; reflexivity].
  exact (boost_solvent (P:=platform) parse_hook _ _ _ "xprism" bonded_run eq_refl).
Defined.

Lemma boost_accepts_unbond_witness :
  ∃ c st' resp, CONFIG boost_state = Some c ∧
    execute parse_hook boost_state (at_second 10800) (by_sender "alice") (Unbond (Some 400)) = Ok (st', resp) ∧
    messages resp = [sub_new (transfer_msg "xprism" "alice" 400); sub_new (refresh_msg "pool" "alice")].
Proof.
  destruct (boost_accepts_unbond (P:=platform) parse_hook _ _ _ (at_second 10800) (by_sender "alice") 400 alice_info
    bonded_run) as (c & st' & resp & Hc & Hex & Hm & _);
    [vm_compute; discriminate|exact alice_bonded|vm_compute; discriminate|].
  exists c, st', resp. split; [exact Hc|]. split; [exact Hex|]. 
  assert (boost_config = c) as <- by exact (Some_inj _ _ (eq_trans (eq_sym boost_state_config) Hc)).
  exact Hm.
Defined.

Lemma boost_reaches_cap_witness :
  ∃ i', get_boost boost_state (at_second 367200) "alice" = Ok i' ∧ total_boost i' = 100000.
Proof.
  destruct (boost_reaches_cap (P:=platform) parse_hook _ _ _ (at_second 367200) "alice" alice_info boost_config 100
    bonded_run boost_state_config alice_bonded) as (i' & Hg & _ & Ht);
    [vm_compute; reflexivity|vm_compute; reflexivity|vm_compute; reflexivity|vm_compute; discriminate
    |vm_compute; discriminate|vm_compute; reflexivity|].
  exists i'. split; [exact Hg|exact Ht].
Defined.
End witnesses.
End XprismBoostSpec.
