(* ===== verification/LaunchPool.v ===== *)
(** * The launch pool (contracts/prism-launch-pool)

    State ([src/state.rs]), bonding of yLuna against a schedule of PRISM split
    between a base pool and a boost pool ([src/contract.rs]), vesting and
    claiming of the rewards ([src/vest.rs]), the query of the boost contract
    ([src/querier.rs]). *)
From S2P Require Import Prelude Cosmwasm Protocol.
Import LaunchPoolMsg.

Module LaunchPool.

(** ** Errors (src/error.rs); a formatted reason is kept as its format string. *)
Inductive ContractError : Type :=
  | Std (e : StdError)
  | OverflowError
  | Unauthorized
  | InvalidDistributionSchedule
  | InvalidBond (reason : string)
  | InvalidUnbond (reason : string)
  | InvalidClaimWithdrawnRewards (reason : string)
  | InvalidActivateBoost (reason : string)
  | InvalidBasePoolRatio.
#[global] Instance from_std : FromErr StdError ContractError := Std.

(** ** State (src/state.rs) *)
Record DistributionStatus : Type := mkStatus {
  total_distributed : Uint128;
  total_weight : Uint128;
  ds_pending_reward : Uint128;
  reward_index : Decimal }.
(** [#[derive(Default)]] *)
Definition DistributionStatus_default : DistributionStatus := mkStatus 0 0 0 0.

Record Config : Type := mkConfig {
  owner : Addr;
  operator : Addr;
  prism_token : Addr;
  xprism_token : Addr;
  gov : Addr;
  yluna_staking : Addr;
  yluna_token : Addr;
  vesting_period : N;
  boost_contract : Addr;
  (** start, end, amount *)
  distribution_schedule : N * N * Uint128;
  base_pool_ratio : Decimal;
  min_bond_amount : Uint128 }.

Record RewardInfo : Type := mkRewardInfo {
  base_index : Decimal;
  boost_index : Decimal;
  active_boost : Uint128;
  boost_weight : Uint128;
  pending_reward : Uint128 }.

Record Storage : Type := mkStorage {
  CONFIG : option Config;
  BASE_DISTRIBUTION_STATUS : option DistributionStatus;
  BOOST_DISTRIBUTION_STATUS : option DistributionStatus;
  BOND_AMOUNTS : gmap Addr Uint128;
  REWARD_INFO : gmap Addr RewardInfo;
  (** (account, end time) -> amount *)
  SCHEDULED_VEST : gmap (Addr * N) Uint128;
  PENDING_WITHDRAW : gmap Addr Uint128 }.

Definition status_as_res (s : DistributionStatus) : DistributionInfo :=
  mkDistributionInfo (total_distributed s) (total_weight s) (ds_pending_reward s) (reward_index s).
Definition config_as_res (c : Config) : ConfigResponse :=
  mkConfigResponse (owner c) (operator c) (prism_token c) (xprism_token c) (gov c) (yluna_staking c)
    (yluna_token c) (vesting_period c) (boost_contract c) (distribution_schedule c) (base_pool_ratio c)
    (min_bond_amount c).
Definition reward_as_res (i : RewardInfo) (bond_amount : Uint128) : RewardInfoResponse :=
  mkRewardInfoResponse bond_amount (base_index i) (boost_index i) (boost_weight i) (active_boost i)
    (pending_reward i).

Definition set_config (c : Config) (st : Storage) : Storage :=
  mkStorage (Some c) (BASE_DISTRIBUTION_STATUS st) (BOOST_DISTRIBUTION_STATUS st) (BOND_AMOUNTS st)
    (REWARD_INFO st) (SCHEDULED_VEST st) (PENDING_WITHDRAW st).
Definition set_statuses (base boost : DistributionStatus) (st : Storage) : Storage :=
  mkStorage (CONFIG st) (Some base) (Some boost) (BOND_AMOUNTS st)
    (REWARD_INFO st) (SCHEDULED_VEST st) (PENDING_WITHDRAW st).
Definition set_base (base : DistributionStatus) (st : Storage) : Storage :=
  mkStorage (CONFIG st) (Some base) (BOOST_DISTRIBUTION_STATUS st) (BOND_AMOUNTS st)
    (REWARD_INFO st) (SCHEDULED_VEST st) (PENDING_WITHDRAW st).
Definition set_boost (boost : DistributionStatus) (st : Storage) : Storage :=
  mkStorage (CONFIG st) (BASE_DISTRIBUTION_STATUS st) (Some boost) (BOND_AMOUNTS st)
    (REWARD_INFO st) (SCHEDULED_VEST st) (PENDING_WITHDRAW st).
Definition set_bonds (b : gmap Addr Uint128) (st : Storage) : Storage :=
  mkStorage (CONFIG st) (BASE_DISTRIBUTION_STATUS st) (BOOST_DISTRIBUTION_STATUS st) b
    (REWARD_INFO st) (SCHEDULED_VEST st) (PENDING_WITHDRAW st).
Definition set_rewards (r : gmap Addr RewardInfo) (st : Storage) : Storage :=
  mkStorage (CONFIG st) (BASE_DISTRIBUTION_STATUS st) (BOOST_DISTRIBUTION_STATUS st) (BOND_AMOUNTS st)
    r (SCHEDULED_VEST st) (PENDING_WITHDRAW st).
Definition set_vests (v : gmap (Addr * N) Uint128) (st : Storage) : Storage :=
  mkStorage (CONFIG st) (BASE_DISTRIBUTION_STATUS st) (BOOST_DISTRIBUTION_STATUS st) (BOND_AMOUNTS st)
    (REWARD_INFO st) v (PENDING_WITHDRAW st).
Definition set_withdraws (w : gmap Addr Uint128) (st : Storage) : Storage :=
  mkStorage (CONFIG st) (BASE_DISTRIBUTION_STATUS st) (BOOST_DISTRIBUTION_STATUS st) (BOND_AMOUNTS st)
    (REWARD_INFO st) (SCHEDULED_VEST st) w.

Definition with_distributed (n : Uint128) (s : DistributionStatus) : DistributionStatus :=
  mkStatus n (total_weight s) (ds_pending_reward s) (reward_index s).
Definition with_total_weight (w : Uint128) (s : DistributionStatus) : DistributionStatus :=
  mkStatus (total_distributed s) w (ds_pending_reward s) (reward_index s).

(** What the other contracts answer when the pool asks: the boost contract
    ([GetBoost]) and the yLuna staking contract ([RewardAssetWhitelist]). *)
Record Peers : Type := mkPeers {
  query_get_boost : Addr → Addr → outcome StdError XprismBoostMsg.UserInfo;
  query_reward_whitelist : Addr → outcome StdError (list AssetInfo) }.

(** [limit as usize] on the 32-bit target of the contracts. *)
Definition as_usize (n : N) : nat := N.to_nat (n mod 2 ^ 32).

Definition TIME_UNIT : N := 60 * 60 * 24.
Definition MAX_UPDATE_VEST_PER_TX : nat := 50.

(** What a query answers. *)
Inductive Answer : Type :=
  | AnswerConfig (r : ConfigResponse)
  | AnswerDistributionStatus (r : DistributionStatusResponse)
  | AnswerRewardInfo (r : RewardInfoResponse)
  | AnswerVestingStatus (r : VestingStatusResponse).

Section contract.
Context `{Cosmwasm} `{CwAsset}.
Variable from_binary : Binary → outcome StdError Cw20HookMsg.

Notation Result := (outcome ContractError).
Notation StdResult := (outcome StdError).

Definition now (env : Env) : N := ts_seconds (block_time env).
Definition load_config (st : Storage) : StdResult Config := load "Config" (CONFIG st).
Definition load_base (st : Storage) : StdResult DistributionStatus :=
  load "DistributionStatus" (BASE_DISTRIBUTION_STATUS st).
Definition load_boost (st : Storage) : StdResult DistributionStatus :=
  load "DistributionStatus" (BOOST_DISTRIBUTION_STATUS st).

(** ** The boost contract (src/querier.rs) *)
Definition query_boost_amount (peers : Peers) (boost_contract address : Addr) : StdResult Uint128 :=
  let? res := query_get_boost peers boost_contract address in
  Ok (XprismBoostMsg.total_boost res).

(** ** Rewards (src/contract.rs) *)
Definition _pull_pending_rewards (st : Storage) (address : Addr) : StdResult RewardInfo :=
  let? base := load_base st in
  let? boost := load_boost st in
  let bond_amount := default 0 (BOND_AMOUNTS st !! address) in
  let info := default (mkRewardInfo (reward_index base) (reward_index boost) 0 0 0)
                (REWARD_INFO st !! address) in
  let! base_now := uint_mul_dec bond_amount (reward_index base) in
  let! base_then := uint_mul_dec bond_amount (base_index info) in
  let? base_pending := checked_sub base_now base_then in
  let! boost_now := uint_mul_dec (boost_weight info) (reward_index boost) in
  let! boost_then := uint_mul_dec (boost_weight info) (boost_index info) in
  let? boost_pending := checked_sub boost_now boost_then in
  let! earned := uint_add base_pending boost_pending in
  let! pending := uint_add (pending_reward info) earned in
  Ok (mkRewardInfo (reward_index base) (reward_index boost) (active_boost info) (boost_weight info) pending).

Definition _update_reward_index (env : Env) (s : DistributionStatus) (schedule : N * N * Uint128)
    (ratio : Decimal) : option DistributionStatus :=
  let '(start, stop, amount) := schedule in
  if now env <? start then Some s else
  denom ← u64_sub stop start;
  elapsed ← u64_sub (now env) start;
  due ← uint_multiply_ratio amount (N.min elapsed denom) denom;
  total ← uint_mul_dec due ratio;
  here ← uint_sub total (total_distributed s);
  if total_weight s =? 0 then
    pending ← uint_add (ds_pending_reward s) here;
    Some (mkStatus total (total_weight s) pending (reward_index s))
  else
    here ← uint_add here (ds_pending_reward s);
    per_bond ← dec_from_ratio here (total_weight s);
    index ← dec_add (reward_index s) per_bond;
    Some (mkStatus total (total_weight s) 0 index).

(** Both statuses, brought up to the time of the block. *)
Definition updated_statuses (st : Storage) (env : Env) (cfg : Config)
    : StdResult (DistributionStatus * DistributionStatus) :=
  let? base := load_base st in
  let? boost := load_boost st in
  let! base := _update_reward_index env base (distribution_schedule cfg) (base_pool_ratio cfg) in
  let! rest := dec_sub dec_one (base_pool_ratio cfg) in
  let! boost := _update_reward_index env boost (distribution_schedule cfg) rest in
  Ok (base, boost).

Definition update_reward_indexes (st : Storage) (env : Env) (cfg : Config) : StdResult Storage :=
  let? '(base, boost) := updated_statuses st env cfg in
  Ok (set_statuses base boost st).

(** Saves the weight of the account in the boost pool, and its rewards. *)
Definition update_and_save_boost_weight_and_reward_info (st : Storage) (peers : Peers) (cfg : Config)
    (account : Addr) (current_bound_amount : Uint128) (info : RewardInfo) : Result (Storage * Uint128) :=
  let? boost_amount := query_boost_amount peers (boost_contract cfg) account in
  let! product := u128_mul current_bound_amount boost_amount in
  let new_boost_weight := integer_sqrt product in
  let? boost := load_boost st in
  let! others := uint_sub (total_weight boost) (boost_weight info) in
  let! weight := uint_add others new_boost_weight in
  let st := set_boost (with_total_weight weight boost) st in
  let st :=
    if (current_bound_amount =? 0) && (pending_reward info =? 0) then
      set_rewards (delete account (REWARD_INFO st)) st
    else
      set_rewards (<[account := mkRewardInfo (base_index info) (boost_index info) boost_amount
                                  new_boost_weight (pending_reward info)]> (REWARD_INFO st)) st in
  Ok (st, boost_amount).

(** [BASE_DISTRIBUTION_STATUS.update], changing the total weight. *)
Definition update_base_weight (st : Storage) (f : Uint128 → option Uint128) : StdResult Storage :=
  let? base := load_base st in
  let! w := f (total_weight base) in
  Ok (set_base (with_total_weight w base) st).

Definition exec_msg (contract_addr : Addr) (m : Binary) : CosmosMsg := WasmExecute contract_addr m [].

Definition bond (st : Storage) (peers : Peers) (env : Env) (sender : Addr) (amount : Uint128)
    : Result (Storage * Response) :=
  let? cfg := load_config st in
  if amount <? min_bond_amount cfg then
    Err (InvalidBond "bond amount too low; must be at least {}") else
  let? st := update_reward_indexes st env cfg in
  let? info := _pull_pending_rewards st sender in
  let current_bond := default 0 (BOND_AMOUNTS st !! sender) in
  let! new_bond_amount := uint_add current_bond amount in
  let st := set_bonds (<[sender := new_bond_amount]> (BOND_AMOUNTS st)) st in
  let? st := update_base_weight st (λ w, uint_add w amount) in
  let? '(st, boost_amount) :=
    update_and_save_boost_weight_and_reward_info st peers cfg sender new_bond_amount info in
  Ok (st, respond
    [exec_msg (yluna_token cfg)
       (BinCw20 (Cw20.Send (yluna_staking cfg) amount (BinYassetHook YassetStakingMsg.Bond)))]
    [("action", AStr "yluna_farming_bond"); ("total_user_bonded", ANum new_bond_amount);
     ("boost_amount", ANum boost_amount)]).

(** The amount to unbond, by default everything. *)
Definition unbond_amount (current_bond : Uint128) (amount : option Uint128) : Result Uint128 :=
  match amount with
  | Some amount =>
      if current_bond <? amount then Err (InvalidUnbond "can not unbond more than the bonded amount")
      else Ok amount
  | None => Ok current_bond
  end.

Definition unbond (st : Storage) (peers : Peers) (env : Env) (info : MessageInfo)
    (amount : option Uint128) : Result (Storage * Response) :=
  let sender := info_sender info in
  let? cfg := load_config st in
  let? st := update_reward_indexes st env cfg in
  let? reward_info := _pull_pending_rewards st sender in
  let? current_bond := ok_or (BOND_AMOUNTS st !! sender) (InvalidUnbond "no tokens bonded") in
  let? unbond_amt := unbond_amount current_bond amount in
  let! new_bond_amount := uint_sub current_bond unbond_amt in
  if (0 <? new_bond_amount) && (new_bond_amount <? min_bond_amount cfg) then
    Err (InvalidUnbond "invalid unbond, remaining amount: {}, min_bond_amount: {}") else
  let? st := update_base_weight st (λ w, uint_sub w unbond_amt) in
  let st :=
    if new_bond_amount =? 0 then set_bonds (delete sender (BOND_AMOUNTS st)) st
    else set_bonds (<[sender := new_bond_amount]> (BOND_AMOUNTS st)) st in
  let? '(st, boost_amount) :=
    update_and_save_boost_weight_and_reward_info st peers cfg sender new_bond_amount reward_info in
  Ok (st, respond
    [exec_msg (yluna_staking cfg) (BinYassetStaking (YassetStakingMsg.Unbond (Some unbond_amt)));
     exec_msg (yluna_token cfg) (BinCw20 (Cw20.Transfer sender unbond_amt))]
    [("action", AStr "yluna_farming_unbond"); ("total_user_bonded", ANum new_bond_amount);
     ("boost_amount", ANum boost_amount)]).

(** The bonded amount and the boost, after the indexes, the rewards and the
    boost weight of the account have been updated. *)
Definition refresh_boost (st : Storage) (peers : Peers) (env : Env) (account : Addr)
    : Result (Storage * (Uint128 * Uint128)) :=
  let? cfg := load_config st in
  let? st := update_reward_indexes st env cfg in
  let? info := _pull_pending_rewards st account in
  let current_bond := default 0 (BOND_AMOUNTS st !! account) in
  let? '(st, boost_amount) :=
    update_and_save_boost_weight_and_reward_info st peers cfg account current_bond info in
  Ok (st, (current_bond, boost_amount)).

Definition boost_attributes (action : string) (current_bond boost_amount : Uint128) :=
  [("action", AStr action); ("total_user_bonded", ANum current_bond); ("boost_amount", ANum boost_amount)].

Definition privileged_refresh_boost (st : Storage) (peers : Peers) (env : Env) (info : MessageInfo)
    (human : Addr) : Result (Storage * Response) :=
  let? cfg := load_config st in
  if bool_decide (info_sender info ≠ boost_contract cfg) then Err Unauthorized else
  let? '(st, (current_bond, boost_amount)) := refresh_boost st peers env human in
  Ok (st, respond [] (boost_attributes "privileged_refresh_boost" current_bond boost_amount)).

Definition activate_boost (st : Storage) (peers : Peers) (env : Env) (info : MessageInfo)
    : Result (Storage * Response) :=
  let? '(st, (current_bond, boost_amount)) := refresh_boost st peers env (info_sender info) in
  if current_bond =? 0 then Err (InvalidActivateBoost "Nothing bonded") else
  Ok (st, respond [] (boost_attributes "activate_boost" current_bond boost_amount)).

(** ** Withdrawal of the underlying yLuna rewards by the owner *)
Definition to_asset_balance (q : Querier) (address : Addr) (info : AssetInfo) : StdResult Asset :=
  let? amount := asset_query_balance q info address in Ok (mkAsset info amount).

Definition admin_withdraw_rewards (st : Storage) (q : Querier) (peers : Peers) (env : Env)
    (info : MessageInfo) : Result (Storage * Response) :=
  let? cfg := load_config st in
  if bool_decide (info_sender info ≠ owner cfg) then Err Unauthorized else
  let? assets := query_reward_whitelist peers (yluna_staking cfg) in
  let? balances := omapM (to_asset_balance q (contract_address env)) assets in
  Ok (st, respond
    [exec_msg (yluna_staking cfg) (BinYassetStaking YassetStakingMsg.ClaimRewards);
     exec_msg (contract_address env) (BinLaunchPool (AdminSendWithdrawnRewards balances))] []).

(** The transfer of what has arrived of one asset. *)
Definition send_received (q : Querier) (env : Env) (recipient : Addr) (msgs : list CosmosMsg) (prev : Asset)
    : Result (list CosmosMsg) :=
  let? current := to_asset_balance q (contract_address env) (asset_info prev) in
  let! received := uint_sub (asset_amount current) (asset_amount prev) in
  if received =? 0 then Ok msgs else
  let? m := asset_transfer_msg (mkAsset (asset_info prev) received) recipient in
  Ok (msgs ++ [m]).

Definition admin_send_withdrawn_rewards (st : Storage) (q : Querier) (env : Env) (info : MessageInfo)
    (original_balances : list Asset) : Result (Storage * Response) :=
  let? cfg := load_config st in
  if bool_decide (info_sender info ≠ contract_address env) then Err Unauthorized else
  let? messages := ofold (send_received q env (owner cfg)) [] original_balances in
  Ok (st, respond messages []).

(** ** Vesting and claiming (src/vest.rs) *)

(** The loop of [update_vest]: what has vested, and the times to delete. *)
Fixpoint vest_loop (current_time : N) (can_withdraw : Uint128) (to_delete : list N)
    (l : list (N * Uint128)) : option (Uint128 * list N) :=
  match l with
  | [] => Some (can_withdraw, to_delete)
  | (end_time, unlocked) :: l =>
      if current_time <? end_time then Some (can_withdraw, to_delete) else
      can_withdraw ← uint_add can_withdraw unlocked;
      vest_loop current_time can_withdraw (to_delete ++ [end_time]) l
  end.

Definition update_vest (st : Storage) (current_time : N) (address : Addr) : option Storage :=
  '(can_withdraw, to_delete) ←
    vest_loop current_time (default 0 (PENDING_WITHDRAW st !! address)) []
      (take MAX_UPDATE_VEST_PER_TX (range_u64 (prefix (SCHEDULED_VEST st) address)));
  let st := set_vests (foldl (λ m t, delete (address, t) m) (SCHEDULED_VEST st) to_delete) st in
  Some (set_withdraws
    (if can_withdraw =? 0 then delete address (PENDING_WITHDRAW st)
     else <[address := can_withdraw]> (PENDING_WITHDRAW st)) st).

(** The end of the vesting period, in whole days. *)
Definition vest_end (env : Env) (cfg : Config) : option N :=
  t ← u64_add (now env) (vesting_period cfg);
  u64_sub t (t mod TIME_UNIT).

Definition _withdraw_rewards_single (st : Storage) (env : Env) (cfg : Config) (address : Addr)
    : Result (Storage * Uint128) :=
  let? info := _pull_pending_rewards st address in
  let to_withdraw := pending_reward info in
  let info := mkRewardInfo (base_index info) (boost_index info) (active_boost info) (boost_weight info) 0 in
  let st :=
    if default 0 (BOND_AMOUNTS st !! address) =? 0 then set_rewards (delete address (REWARD_INFO st)) st
    else set_rewards (<[address := info]> (REWARD_INFO st)) st in
  let! st := update_vest st (now env) address in
  if to_withdraw =? 0 then Ok (st, to_withdraw) else
  let! end_time := vest_end env cfg in
  let! vest := uint_add (default 0 (SCHEDULED_VEST st !! (address, end_time))) to_withdraw in
  Ok (set_vests (<[(address, end_time) := vest]> (SCHEDULED_VEST st)) st, to_withdraw).

Definition withdraw_rewards (st : Storage) (env : Env) (info : MessageInfo) : Result (Storage * Response) :=
  let? cfg := load_config st in
  let? st := update_reward_indexes st env cfg in
  let? '(st, to_withdraw) := _withdraw_rewards_single st env cfg (info_sender info) in
  Ok (st, respond [] [("action", AStr "withdraw_rewards_single"); ("withdraw_amount", ANum to_withdraw)]).

(** The batch: up to [limit] accounts strictly after the given address. *)
Definition bulk_addresses (st : Storage) (limit : N) (start_after_address : option string) : list Addr :=
  take (as_usize limit) (after String.ltb start_after_address (range_addr (REWARD_INFO st))).*1.

Definition withdraw_rewards_bulk (st : Storage) (env : Env) (info : MessageInfo) (limit : N)
    (start_after_address : option string) : Result (Storage * Response) :=
  let? cfg := load_config st in
  if bool_decide (info_sender info ≠ operator cfg) then Err Unauthorized else
  let? st := update_reward_indexes st env cfg in
  let? _ :=
    match start_after_address with
    | Some address => let? _ := addr_validate address in Ok tt
    | None => Ok tt
    end in
  let addresses := bulk_addresses st limit start_after_address in
  let? st := ofold (λ st address, let? '(st, _) := _withdraw_rewards_single st env cfg address in Ok st)
    st addresses in
  Ok (st, respond []
    [("action", AStr "withdraw_rewards_bulk");
     ("start_after_address", AStr (default "" start_after_address));
     ("last_address", AStr (default "" (last addresses)))]).

Definition mint_xprism_msg (cfg : Config) (amount : Uint128) (receiver : Addr) : CosmosMsg :=
  exec_msg (prism_token cfg)
    (BinCw20 (Cw20.Send (gov cfg) amount (BinGovHook (GovMsg.MintXprism (Some receiver))))).

(** The messages that pay [amount] PRISM in the requested form. *)
Definition claim_messages (q : Querier) (env : Env) (cfg : Config) (sender : Addr) (amount : Uint128)
    (claim_type : ClaimType) : Result (list CosmosMsg) :=
  match claim_type with
  | Prism =>
      let? m := asset_transfer_msg (mkAsset (Cw20Asset (prism_token cfg)) amount) sender in Ok [m]
  | Xprism => Ok [mint_xprism_msg cfg amount sender]
  | Amps =>
      let? xprism_balance := query_token_balance q (xprism_token cfg) (contract_address env) in
      Ok [mint_xprism_msg cfg amount (contract_address env);
          exec_msg (contract_address env) (BinLaunchPool (BondWithBoostContractHook sender xprism_balance))]
  end.

Definition claim_withdrawn_rewards (st : Storage) (q : Querier) (env : Env) (info : MessageInfo)
    (claim_type : ClaimType) : Result (Storage * Response) :=
  let sender := info_sender info in
  let? cfg := load_config st in
  let! st := update_vest st (now env) sender in
  let amount := default 0 (PENDING_WITHDRAW st !! sender) in
  if amount =? 0 then Err (InvalidClaimWithdrawnRewards "There are no claimable rewards") else
  let? msgs := claim_messages q env cfg sender amount claim_type in
  Ok (set_withdraws (delete sender (PENDING_WITHDRAW st)) st, respond msgs
    [("action", AStr "claim_withdrawn_rewards"); ("claim_type", AStr (ClaimType_fmt claim_type));
     ("prism_reward_claimed", ANum amount)]).

Definition bond_with_boost_contract_hook (st : Storage) (q : Querier) (env : Env) (info : MessageInfo)
    (receiver : Addr) (prev_xprism_balance : Uint128) : Result (Storage * Response) :=
  let? cfg := load_config st in
  if bool_decide (info_sender info ≠ contract_address env) then Err Unauthorized else
  let? balance := query_token_balance q (xprism_token cfg) (contract_address env) in
  let? xprism_reward := checked_sub balance prev_xprism_balance in
  let messages :=
    if xprism_reward =? 0 then [] else
    [exec_msg (xprism_token cfg)
       (BinCw20 (Cw20.Send (boost_contract cfg) xprism_reward
          (BinBoostHook (XprismBoostMsg.Bond (Some receiver)))))] in
  Ok (st, respond messages
    [("action", AStr "bond_with_boost_contract_hook"); ("bond_amount", ANum xprism_reward)]).

(** ** Configuration *)

(** A new ratio applies from now on: inside the schedule, the rest of the
    distribution becomes a schedule of its own. *)
Definition restart_schedule (st : Storage) (env : Env) (cfg : Config) (ratio : Decimal)
    : Result (Storage * Config * list (string * AttrValue)) :=
  let '(start, stop, amount) := distribution_schedule cfg in
  let with_schedule s := mkConfig (owner cfg) (operator cfg) (prism_token cfg) (xprism_token cfg) (gov cfg)
    (yluna_staking cfg) (yluna_token cfg) (vesting_period cfg) (boost_contract cfg) s ratio
    (min_bond_amount cfg) in
  if (start <? now env) && (now env <? stop) then
    let? base := load_base st in
    let? boost := load_boost st in
    let! distributed := uint_add (total_distributed base) (total_distributed boost) in
    let? remaining := ok_or (uint_checked_sub amount distributed) OverflowError in
    Ok (set_statuses (with_distributed 0 base) (with_distributed 0 boost) st,
        with_schedule (now env, stop, remaining),
        [("base_pool_ratio", ADec ratio); ("distribution_start", ANum (now env));
         ("distribution_end", ANum stop); ("distribution_amount", ANum remaining)])
  else Ok (st, with_schedule (start, stop, amount), []).

Definition with_min_bond (n : Uint128) (c : Config) : Config :=
  mkConfig (owner c) (operator c) (prism_token c) (xprism_token c) (gov c) (yluna_staking c)
    (yluna_token c) (vesting_period c) (boost_contract c) (distribution_schedule c) (base_pool_ratio c) n.

Definition update_config (st : Storage) (env : Env) (info : MessageInfo)
    (min_bond_amount : option Uint128) (base_pool_ratio : option Decimal) : Result (Storage * Response) :=
  let? cfg := load_config st in
  if bool_decide (info_sender info ≠ owner cfg) then Err Unauthorized else
  let '(cfg, attributes) :=
    match min_bond_amount with
    | Some n => (with_min_bond n cfg, [("min_bond_amount", ANum n)])
    | None => (cfg, [])
    end in
  let? '(st, cfg, more) :=
    match base_pool_ratio with
    | Some ratio =>
        if dec_one <? ratio then Err InvalidBasePoolRatio else
        let? st := update_reward_indexes st env cfg in
        restart_schedule st env cfg ratio
    | None => Ok (st, cfg, [])
    end in
  Ok (set_config cfg st, respond [] ([("action", AStr "update_config")] ++ attributes ++ more)).

(** ** Entry points *)
Definition instantiate (msg : InstantiateMsg) : Result (Storage * Response) :=
  let? owner := addr_validate (im_owner msg) in
  let? operator := addr_validate (im_operator msg) in
  let? prism_token := addr_validate (im_prism_token msg) in
  let? xprism_token := addr_validate (im_xprism_token msg) in
  let? gov := addr_validate (im_gov msg) in
  let? yluna_staking := addr_validate (im_yluna_staking msg) in
  let? yluna_token := addr_validate (im_yluna_token msg) in
  let? boost_contract := addr_validate (im_boost_contract msg) in
  let cfg := mkConfig owner operator prism_token xprism_token gov yluna_staking yluna_token
    (im_vesting_period msg) boost_contract (im_distribution_schedule msg) (im_base_pool_ratio msg)
    (im_min_bond_amount msg) in
  let '(start, stop, _) := im_distribution_schedule msg in
  if stop <? start then Err InvalidDistributionSchedule else
  if dec_one <? im_base_pool_ratio msg then Err InvalidBasePoolRatio else
  Ok (mkStorage (Some cfg) (Some DistributionStatus_default) (Some DistributionStatus_default) ∅ ∅ ∅ ∅,
      respond [] []).

Definition receive_cw20 (st : Storage) (peers : Peers) (env : Env) (info : MessageInfo)
    (msg : Cw20ReceiveMsg Binary) : Result (Storage * Response) :=
  let? cw20_sender := addr_validate (cw20_sender msg) in
  let? hook := from_binary (cw20_msg msg) in
  match hook with
  | Bond =>
      let? cfg := load_config st in
      if bool_decide (yluna_token cfg ≠ info_sender info) then Err Unauthorized
      else bond st peers env cw20_sender (cw20_amount msg)
  end.

Definition execute (st : Storage) (q : Querier) (peers : Peers) (env : Env) (info : MessageInfo)
    (msg : ExecuteMsg Binary) : Result (Storage * Response) :=
  match msg with
  | Receive msg => receive_cw20 st peers env info msg
  | Unbond amount => unbond st peers env info amount
  | ActivateBoost => activate_boost st peers env info
  | WithdrawRewards => withdraw_rewards st env info
  | ClaimWithdrawnRewards claim_type => claim_withdrawn_rewards st q env info claim_type
  | AdminWithdrawRewards => admin_withdraw_rewards st q peers env info
  | AdminSendWithdrawnRewards original_balances =>
      admin_send_withdrawn_rewards st q env info original_balances
  | WithdrawRewardsBulk limit start_after_address =>
      withdraw_rewards_bulk st env info limit start_after_address
  | UpdateConfig min_bond_amount base_pool_ratio =>
      update_config st env info min_bond_amount base_pool_ratio
  | PrivilegedRefreshBoost account =>
      let? account := addr_validate account in privileged_refresh_boost st peers env info account
  | BondWithBoostContractHook receiver prev_xprism_balance =>
      bond_with_boost_contract_hook st q env info receiver prev_xprism_balance
  end.

(** ** Queries *)
Definition query_config (st : Storage) : StdResult ConfigResponse :=
  let? cfg := load_config st in Ok (config_as_res cfg).

Definition query_distribution_status (st : Storage) (env : Env) : StdResult DistributionStatusResponse :=
  let? cfg := load_config st in
  let? '(base, boost) := updated_statuses st env cfg in
  Ok (mkDistributionStatusResponse (status_as_res base) (status_as_res boost)).

Definition query_reward_info (st : Storage) (staker_addr : string) : StdResult RewardInfoResponse :=
  let? staker_addr := addr_validate staker_addr in
  let bond_amount := default 0 (BOND_AMOUNTS st !! staker_addr) in
  let? info := _pull_pending_rewards st staker_addr in
  Ok (reward_as_res info bond_amount).

Definition vested_step (current_time : N) (can_withdraw : Uint128) (item : N * Uint128) : option Uint128 :=
  if current_time <? item.1 then Some can_withdraw else uint_add can_withdraw item.2.

Definition query_vesting_status (st : Storage) (env : Env) (staker_addr : string)
    : StdResult VestingStatusResponse :=
  let scheduled_vests := range_u64 (prefix (SCHEDULED_VEST st) staker_addr) in
  let! can_withdraw := optfold (vested_step (now env)) (default 0 (PENDING_WITHDRAW st !! staker_addr))
    scheduled_vests in
  Ok (mkVestingStatusResponse scheduled_vests can_withdraw).

Definition query (st : Storage) (env : Env) (msg : QueryMsg) : StdResult Answer :=
  match msg with
  | QConfig => let? r := query_config st in Ok (AnswerConfig r)
  | QDistributionStatus => let? r := query_distribution_status st env in Ok (AnswerDistributionStatus r)
  | QRewardInfo staker_addr => let? r := query_reward_info st staker_addr in Ok (AnswerRewardInfo r)
  | QVestingStatus staker_addr => let? r := query_vesting_status st env staker_addr in Ok (AnswerVestingStatus r)
  end.
End contract.
End LaunchPool.
