(* ===== verification/LaunchPoolProofs.v ===== *)
(** * Lemmas on the launch pool

    What each operation does to the books (bonds, weights, indexes), how
    rewards move from the schedule to the accounts, through vesting, to the
    claims, and the invariants every operation preserves. *)
From S2P Require Import Prelude Cosmwasm Protocol LaunchPool.
Import LaunchPoolMsg LaunchPool.

Module LaunchPoolProofs.

Definition base_of (st : Storage) : DistributionStatus :=
  default DistributionStatus_default (BASE_DISTRIBUTION_STATUS st).
Definition boost_of (st : Storage) : DistributionStatus :=
  default DistributionStatus_default (BOOST_DISTRIBUTION_STATUS st).
Definition bond_of (st : Storage) (u : Addr) : N := default 0 (BOND_AMOUNTS st !! u).

(** ** Distribution *)

(** What the schedule owes by time [t]. *)
Definition due (schedule : N * N * Uint128) (t : N) : N :=
  let '(start, stop, amount) := schedule in
  amount * N.min (t - start) (stop - start) / (stop - start).

(** A status after an update: what was distributed is either promised by the
    index to the weight, or still pending. *)
Record advances (s s' : DistributionStatus) : Prop := {
  adv_weight : total_weight s' = total_weight s;
  adv_distributed : total_distributed s ≤ total_distributed s';
  adv_index : reward_index s ≤ reward_index s';
  adv_promise :
    (reward_index s' - reward_index s) * total_weight s + ds_pending_reward s' * DECIMAL_UNIT ≤
    ds_pending_reward s * DECIMAL_UNIT +
      (total_distributed s' - total_distributed s) * DECIMAL_UNIT }.

Lemma advances_refl s : advances s s.
Proof. split; lia. Qed.

Section distribution.
Context {P : Cosmwasm} {L : CosmwasmLaws P}.

Lemma update_index_spec env s start stop amount ratio s' :
  _update_reward_index env s (start, stop, amount) ratio = Some s' →
  (now env < start ∧ s' = s) ∨
  (start ≤ now env ∧ start < stop ∧ advances s s' ∧
   total_distributed s' = due (start, stop, amount) (now env) * ratio / DECIMAL_UNIT).
Proof.
  unfold _update_reward_index, due. intros H. destruct (N.ltb_spec (now env) start) as [Hn|Hn].
  { injection H as <-. by left. }
  right. simplify_option_eq. platform_facts. subst.
  match type of H with context [uint_add _ (?x - total_distributed s)] => set (total := x) in * end.
  destruct (N.eqb_spec (total_weight s) 0) as [Hz|Hz]; simplify_option_eq; platform_facts; subst; simpl.
  - split_and!; [done|lia| |done]. split; simpl; lia.
  - split_and!; [done|lia| |done].
    pose proof (N.Div0.mul_div_le ((total - total_distributed s + ds_pending_reward s) * DECIMAL_UNIT)
      (total_weight s)). split; simpl; lia_div.
Qed.

Lemma update_index_advances env s schedule ratio s' :
  _update_reward_index env s schedule ratio = Some s' → advances s s'.
Proof.
  destruct schedule as [[start stop] amount]. intros [[_ ->]|(_ & _ & H & _)]%update_index_spec; [|done].
  apply advances_refl.
Qed.

Lemma update_indexes_spec st env c st' :
  update_reward_indexes st env c = Ok st' →
  ∃ base boost, BASE_DISTRIBUTION_STATUS st = Some (base_of st) ∧ BOOST_DISTRIBUTION_STATUS st = Some (boost_of st) ∧
    base_pool_ratio c ≤ DECIMAL_UNIT ∧
    _update_reward_index env (base_of st) (distribution_schedule c) (base_pool_ratio c) = Some base ∧
    _update_reward_index env (boost_of st) (distribution_schedule c) (DECIMAL_UNIT - base_pool_ratio c) = Some boost ∧
    st' = set_statuses base boost st.
Proof.
  unfold update_reward_indexes, updated_statuses, load_base, load_boost, base_of, boost_of. intros H.
  inv_body H. inv_body Ha. rewrite dec_one_law in *. eexists _, _.
  repeat match goal with H : ?x = Some _ |- context [default _ ?x] => rewrite H; simpl end.
  split_and!; done.
Qed.
End distribution.

(** ** Accounts *)

(** The record of an account, a new one starting at the current indexes. *)
Definition stored (st : Storage) (u : Addr) : RewardInfo :=
  default (mkRewardInfo (reward_index (base_of st)) (reward_index (boost_of st)) 0 0 0) (REWARD_INFO st !! u).

Definition earned (st : Storage) (u : Addr) : N :=
  growth (bond_of st u) (reward_index (base_of st)) (base_index (stored st u)) +
  growth (boost_weight (stored st u)) (reward_index (boost_of st)) (boost_index (stored st u)).

(** The record after its rewards have been pulled. *)
Definition pulled (st : Storage) (u : Addr) : RewardInfo :=
  mkRewardInfo (reward_index (base_of st)) (reward_index (boost_of st)) (active_boost (stored st u))
    (boost_weight (stored st u)) (pending_reward (stored st u) + earned st u).

(** A status whose total weight exchanges [old] for [new]. *)
Definition reweighed (s s' : DistributionStatus) (old new : N) : Prop :=
  total_weight s' + old = total_weight s + new ∧ total_distributed s' = total_distributed s ∧
  ds_pending_reward s' = ds_pending_reward s ∧ reward_index s' = reward_index s.

Lemma reweighed_refl s n : reweighed s s n n.
Proof. done. Qed.

Section accounts.
Context {P : Cosmwasm} {L : CosmwasmLaws P}.

Lemma pull_spec st u i :
  _pull_pending_rewards st u = Ok i →
  i = pulled st u ∧ is_Some (BASE_DISTRIBUTION_STATUS st) ∧ is_Some (BOOST_DISTRIBUTION_STATUS st).
Proof.
  unfold _pull_pending_rewards, load_base, load_boost, pulled, earned, stored, growth, base_of, boost_of. intros H.
  inv_body H. repeat match goal with H : ?x = Some _ |- context [default _ ?x] => rewrite H; simpl end.
  split_and!; by try eexists.
Qed.

(** The state after the weight and the record of [u] have been saved. *)
Record saved (st st' : Storage) (c : Config) (peers : Peers) (u : Addr) (stake : N) (i : RewardInfo)
    (boost : N) : Prop := {
  sv_query : query_boost_amount peers (boost_contract c) u = Ok boost;
  sv_config : CONFIG st' = CONFIG st;
  sv_base : BASE_DISTRIBUTION_STATUS st' = BASE_DISTRIBUTION_STATUS st;
  sv_some : is_Some (BOOST_DISTRIBUTION_STATUS st');
  sv_boost : reweighed (boost_of st) (boost_of st') (boost_weight i) (N.sqrt (stake * boost));
  sv_bonds : BOND_AMOUNTS st' = BOND_AMOUNTS st;
  sv_vests : SCHEDULED_VEST st' = SCHEDULED_VEST st;
  sv_withdraws : PENDING_WITHDRAW st' = PENDING_WITHDRAW st;
  sv_rewards : stake = 0 ∧ pending_reward i = 0 ∧ REWARD_INFO st' = delete u (REWARD_INFO st) ∨
    (stake ≠ 0 ∨ pending_reward i ≠ 0) ∧
    REWARD_INFO st' = <[u := mkRewardInfo (base_index i) (boost_index i) boost (N.sqrt (stake * boost))
                               (pending_reward i)]> (REWARD_INFO st) }.

Lemma save_spec st peers c u stake i st' boost :
  update_and_save_boost_weight_and_reward_info st peers c u stake i = Ok (st', boost) →
  saved st st' c peers u stake i boost.
Proof.
  unfold update_and_save_boost_weight_and_reward_info, load_boost. intros H. inv_body H.
  rewrite integer_sqrt_law in *.
  assert (boost_of st = a1) as Hb.
  { unfold boost_of. by match goal with H : BOOST_DISTRIBUTION_STATUS st = _ |- _ => rewrite H end. }
  destruct (_ && _) eqn:Hz; simplify_eq/=; split; try done; try (by eexists).
  all: ok_facts.
  - unfold reweighed, boost_of. simpl. fold (boost_of st). split_and!; [lia|done..].
  - left. split_and!; [lia..|done].
  - unfold reweighed, boost_of. simpl. fold (boost_of st). split_and!; [lia|done..].
  - right. split; [|done]. apply andb_false_iff in Hz as [Hz|Hz]; ok_facts; [by left|by right].
Qed.

(** What bonding, unbonding and refreshing do to the account [u] of a state
    whose indexes are up to date: its rewards are pulled, its bond becomes
    [stake], its weight follows its boost. *)
Record resettled (st st' : Storage) (c : Config) (peers : Peers) (u : Addr) (stake boost : N) : Prop := {
  rs_query : query_boost_amount peers (boost_contract c) u = Ok boost;
  rs_config : CONFIG st' = CONFIG st;
  rs_base_some : is_Some (BASE_DISTRIBUTION_STATUS st');
  rs_base : reweighed (base_of st) (base_of st') (bond_of st u) stake;
  rs_boost_some : is_Some (BOOST_DISTRIBUTION_STATUS st');
  rs_boost : reweighed (boost_of st) (boost_of st') (boost_weight (stored st u)) (N.sqrt (stake * boost));
  rs_bonds : BOND_AMOUNTS st' = <[u := stake]> (BOND_AMOUNTS st) ∨
    stake = 0 ∧ BOND_AMOUNTS st' = delete u (BOND_AMOUNTS st) ∨
    stake = bond_of st u ∧ BOND_AMOUNTS st' = BOND_AMOUNTS st;
  rs_vests : SCHEDULED_VEST st' = SCHEDULED_VEST st;
  rs_withdraws : PENDING_WITHDRAW st' = PENDING_WITHDRAW st;
  rs_rewards : stake = 0 ∧ pending_reward (pulled st u) = 0 ∧
      REWARD_INFO st' = delete u (REWARD_INFO st) ∨
    (stake ≠ 0 ∨ pending_reward (pulled st u) ≠ 0) ∧
    REWARD_INFO st' = <[u := mkRewardInfo (reward_index (base_of st)) (reward_index (boost_of st)) boost
                               (N.sqrt (stake * boost)) (pending_reward (pulled st u))]> (REWARD_INFO st) }.

Lemma update_base_weight_spec st f st' :
  update_base_weight st f = Ok st' →
  ∃ w, f (total_weight (base_of st)) = Some w ∧ st' = set_base (with_total_weight w (base_of st)) st.
Proof.
  unfold update_base_weight, load_base, base_of. intros H. inv_body H.
  match goal with H : BASE_DISTRIBUTION_STATUS _ = Some _ |- _ => rewrite H end. eauto.
Qed.

Lemma resettled_of_saved st w b st' c peers u stake boost :
  saved (set_bonds b (set_base (with_total_weight w (base_of st)) st)) st' c peers u stake (pulled st u) boost →
  w + bond_of st u = total_weight (base_of st) + stake →
  b = <[u := stake]> (BOND_AMOUNTS st) ∨ stake = 0 ∧ b = delete u (BOND_AMOUNTS st) →
  resettled st st' c peers u stake boost.
Proof.
  intros [] Hw Hb. simpl in *. split; try done.
  - unfold reweighed, base_of at 1 3 5 7. by rewrite sv_base0.
  - rewrite sv_bonds0. destruct Hb as [->|[? ->]]; auto.
Qed.

Lemma pool_bond_spec st peers env u n st' resp :
  bond st peers env u n = Ok (st', resp) →
  ∃ c st1 boost, CONFIG st = Some c ∧ min_bond_amount c ≤ n ∧
    update_reward_indexes st env c = Ok st1 ∧ resettled st1 st' c peers u (bond_of st1 u + n) boost ∧
    messages resp = [sub_new (exec_msg (yluna_token c)
      (BinCw20 (Cw20.Send (yluna_staking c) n (BinYassetHook YassetStakingMsg.Bond))))].
Proof.
  unfold bond, load_config. intros H. inv_ok H. subst. platform_facts.
  apply pull_spec in Ha1 as (-> & Hb & Ho). apply update_base_weight_spec in Ha3 as (w & Hw & ->). simpl in Hw.
  platform_facts. subst. apply save_spec in Ha4. fold (bond_of a0 u) in *.
  eexists _, _, _. split_and!; [done|done|done| |done].
  eapply resettled_of_saved; [exact Ha4| |by left].
  change (base_of (set_bonds _ a0)) with (base_of a0). lia.
Qed.

Lemma pool_unbond_spec st peers env info amount st' resp :
  unbond st peers env info amount = Ok (st', resp) →
  let u := info_sender info in
  ∃ c st1 boost, let n := default (bond_of st1 u) amount in CONFIG st = Some c ∧
    update_reward_indexes st env c = Ok st1 ∧ is_Some (BOND_AMOUNTS st1 !! u) ∧ n ≤ bond_of st1 u ∧
    (n = bond_of st1 u ∨ min_bond_amount c ≤ bond_of st1 u - n) ∧
    resettled st1 st' c peers u (bond_of st1 u - n) boost ∧
    messages resp = [sub_new (exec_msg (yluna_staking c) (BinYassetStaking (YassetStakingMsg.Unbond (Some n))));
                     sub_new (exec_msg (yluna_token c) (BinCw20 (Cw20.Transfer u n)))].
Proof.
  unfold unbond, load_config. intros H. inv_ok H. subst. platform_facts.
  apply pull_spec in Ha1 as (-> & Hb & Ho).
  apply update_base_weight_spec in Ha5 as (w & Hw & ->).
  assert (a3 = default a2 amount ∧ a3 ≤ a2) as [-> Hle].
  { unfold unbond_amount in Ha3. destruct amount; inv_ok Ha3; subst; platform_facts; simpl; split; lia || done. }
  platform_facts. subst.
  assert (bond_of a0 (info_sender info) = a2) as Hbond by (unfold bond_of; by rewrite Ha2).
  eexists _, _, _. rewrite Hbond. split_and!; [done|done|by eexists|done| | |done].
  - apply andb_false_iff in E as [E|E]; ok_facts; lia.
  - apply save_spec in Ha6. destruct (N.eqb_spec (a2 - default a2 amount) 0) as [Hz|Hz].
    + eapply resettled_of_saved; [exact Ha6|rewrite Hbond; lia|by right].
    + eapply resettled_of_saved; [exact Ha6|rewrite Hbond; lia|by left].
Qed.

Lemma refresh_spec st peers env u st' n boost :
  refresh_boost st peers env u = Ok (st', (n, boost)) →
  ∃ c st1, CONFIG st = Some c ∧ update_reward_indexes st env c = Ok st1 ∧ n = bond_of st1 u ∧
    resettled st1 st' c peers u n boost.
Proof.
  unfold refresh_boost, load_config. intros H. inv_ok H. subst. platform_facts.
  apply pull_spec in Ha1 as (-> & Hb & Ho). apply save_spec in Ha2. simplify_eq.
  eexists _, _. split_and!; [done|done|done|]. destruct Ha2. fold (bond_of a0 u) in *.
  assert (base_of st' = base_of a0) as Hbase by (unfold base_of; by rewrite sv_base0).
  split; try done; [by rewrite sv_base0|by rewrite Hbase|by right; right].
Qed.

(** ** Vesting *)

(** The entries of [u] that mature by [t], fifty at most, and what it can then
    withdraw. *)
Definition due_vests (st : Storage) (t : N) (u : Addr) : list (N * N) :=
  first_matured MAX_UPDATE_VEST_PER_TX t (prefix (SCHEDULED_VEST st) u).
Definition withdrawable (st : Storage) (t : N) (u : Addr) : N :=
  default 0 (PENDING_WITHDRAW st !! u) + sum_N (due_vests st t u).*2.
Definition vested (st : Storage) (t : N) (u : Addr) : Storage :=
  set_withdraws
    (if withdrawable st t u =? 0 then delete u (PENDING_WITHDRAW st)
     else <[u := withdrawable st t u]> (PENDING_WITHDRAW st))
    (set_vests (foldl (λ m t, delete (u, t) m) (SCHEDULED_VEST st) (due_vests st t u).*1) st).

(** What is vesting, and what waits to be claimed. *)
Definition vesting (st : Storage) : N := map_sum (λ _ n, n) (SCHEDULED_VEST st).
Definition claimable (st : Storage) : N := map_sum (λ _ n, n) (PENDING_WITHDRAW st).

Lemma vest_loop_spec t can del l res :
  vest_loop t can del l = Some res →
  res = (can + sum_N (matured t l).*2, del ++ (matured t l).*1).
Proof.
  revert can del. induction l as [|[e n] l IH]; intros can del; csimpl.
  { intros [= <-]. by rewrite N.add_0_r, app_nil_r. }
  destruct (t <? e); csimpl; [intros [= <-]; by rewrite N.add_0_r, app_nil_r|].
  destruct (uint_add can n) eqn:Hx; simpl; [|done].
  intros ->%IH. platform_facts. rewrite <-app_assoc. simpl. split_pairs; lia.
Qed.

Lemma vest_loop_total t can del l :
  can + sum_N (matured t l).*2 < u128_limit → is_Some (vest_loop t can del l).
Proof.
  revert can del. induction l as [|[e n] l IH]; intros can del; csimpl; [by eexists|].
  destruct (t <? e); csimpl; [by eexists|]. intros Hl.
  rewrite (proj2 (uint_add_Some can n _)) by (split; [done|lia]). simpl. apply IH. lia.
Qed.

Lemma update_vest_spec st t u st' : update_vest st t u = Some st' → st' = vested st t u.
Proof.
  unfold update_vest, vested, withdrawable, due_vests, first_matured. intros H.
  destruct (vest_loop _ _ _ _) as [[n del]|] eqn:Hv; simpl in H; [|done].
  apply vest_loop_spec in Hv. injection Hv as -> ->. by injection H as <-.
Qed.

Lemma update_vest_total st t u : withdrawable st t u < u128_limit → update_vest st t u = Some (vested st t u).
Proof.
  intros Hw. destruct (update_vest st t u) as [st'|] eqn:Hu; [by apply update_vest_spec in Hu as ->|].
  exfalso. unfold update_vest in Hu.
  edestruct (vest_loop_total t (default 0 (PENDING_WITHDRAW st !! u)) []
    (take MAX_UPDATE_VEST_PER_TX (range_u64 (prefix (SCHEDULED_VEST st) u)))) as [[? ?] Hr]; [exact Hw|].
  by rewrite Hr in Hu.
Qed.

Lemma contrib_id {K V} `{Countable K} (m : gmap K V) (f : V → N) k :
  contrib (λ _, f) m k = from_option f 0 (m !! k).
Proof. done. Qed.

Lemma pending_insert (m : gmap Addr N) u n :
  map_sum (λ _ n, n) (if n =? 0 then delete u m else <[u := n]> m) + default 0 (m !! u) =
  map_sum (λ _ n, n) m + n.
Proof.
  destruct (N.eqb_spec n 0) as [->|Hn].
  - pose proof (map_sum_delete_contrib (λ _ n, n) m u) as Hs. unfold contrib in Hs.
    destruct (m !! u); simpl in *; lia.
  - pose proof (map_sum_insert (λ _ n, n) m u n) as Hs. unfold contrib in Hs.
    destruct (m !! u); simpl in *; lia.
Qed.

Lemma vested_sums st t u :
  vesting (vested st t u) + sum_N (due_vests st t u).*2 = vesting st ∧
  claimable (vested st t u) = claimable st + sum_N (due_vests st t u).*2.
Proof.
  unfold vesting, claimable, vested. simpl. split.
  - rewrite (first_matured_split (λ _ n, n) (SCHEDULED_VEST st) u MAX_UPDATE_VEST_PER_TX t).
    fold (due_vests st t u). rewrite N.add_comm. done.
  - pose proof (pending_insert (PENDING_WITHDRAW st) u (withdrawable st t u)) as Hs.
    unfold withdrawable in *. lia.
Qed.

(** What withdrawing the rewards of [u] does. *)
Record withdrawn (st st' : Storage) (env : Env) (c : Config) (u : Addr) (n : N) : Prop := {
  wd_amount : n = pending_reward (pulled st u);
  wd_config : CONFIG st' = CONFIG st;
  wd_base : BASE_DISTRIBUTION_STATUS st' = BASE_DISTRIBUTION_STATUS st;
  wd_boost : BOOST_DISTRIBUTION_STATUS st' = BOOST_DISTRIBUTION_STATUS st;
  wd_bonds : BOND_AMOUNTS st' = BOND_AMOUNTS st;
  wd_rewards : REWARD_INFO st' =
    if bond_of st u =? 0 then delete u (REWARD_INFO st) else
    <[u := mkRewardInfo (reward_index (base_of st)) (reward_index (boost_of st)) (active_boost (stored st u))
             (boost_weight (stored st u)) 0]> (REWARD_INFO st);
  wd_withdraws : PENDING_WITHDRAW st' = PENDING_WITHDRAW (vested st (now env) u);
  wd_vests : n = 0 ∧ SCHEDULED_VEST st' = SCHEDULED_VEST (vested st (now env) u) ∨
    n ≠ 0 ∧ ∃ e, vest_end env c = Some e ∧ SCHEDULED_VEST st' =
      <[(u, e) := default 0 (SCHEDULED_VEST (vested st (now env) u) !! (u, e)) + n]>
        (SCHEDULED_VEST (vested st (now env) u)) }.

Lemma withdraw_single_spec st env c u st' n :
  _withdraw_rewards_single st env c u = Ok (st', n) → withdrawn st st' env c u n.
Proof.
  unfold _withdraw_rewards_single. intros H. inv_ok H; subst; platform_facts.
  all: apply pull_spec in Ha as (-> & _ & _); apply update_vest_spec in Ha0; subst; fold (bond_of st u).
  all: destruct (N.eqb_spec (bond_of st u) 0) as [Hz|Hz]; split; try done; simpl.
  all: try (rewrite (proj2 (N.eqb_eq _ _)) by done; done); try (rewrite (proj2 (N.eqb_neq _ _)) by done; done).
  1,2: by left. 
  all: right; split; [done|]; eexists; split; [done|]; done.
Qed.

Lemma withdrawn_sums st st' env c u n :
  withdrawn st st' env c u n → vesting st' + claimable st' = vesting st + claimable st + n.
Proof.
  intros []. destruct (vested_sums st (now env) u) as [Hv Hc]. unfold vesting, claimable in *.
  rewrite wd_withdraws0. destruct wd_vests0 as [[-> ->]|(_ & e & _ & ->)]; [lia|].
  set (m := SCHEDULED_VEST (vested st (now env) u)) in *.
  pose proof (map_sum_insert (λ _ n, n) m (u, e) (default 0 (m !! (u, e)) + n)) as Hs.
  unfold contrib in Hs. destruct (m !! (u, e)); simpl in *; lia.
Qed.

Lemma claim_spec `{CwAsset} st q env info ty st' resp :
  claim_withdrawn_rewards st q env info ty = Ok (st', resp) →
  ∃ c msgs, let u := info_sender info in let n := withdrawable st (now env) u in
    CONFIG st = Some c ∧ n ≠ 0 ∧ claim_messages q env c u n ty = Ok msgs ∧
    messages resp = sub_new <$> msgs ∧
    st' = set_withdraws (delete u (PENDING_WITHDRAW st)) (vested st (now env) u).
Proof.
  unfold claim_withdrawn_rewards, load_config. intros H'. inv_ok H'. subst. platform_facts.
  apply update_vest_spec in Ha0 as ->. unfold vested in *. simpl in *.
  destruct (N.eqb_spec (withdrawable st (now env) (info_sender info)) 0) as [Hz|Hz]; simpl in *.
  { by rewrite lookup_delete_eq in E. }
  rewrite lookup_insert_eq in *. simpl in *. eexists _, _. split_and!; [done|done|done|done|].
  by rewrite delete_insert_eq.
Qed.

(** The state and configuration after a new ratio, from a state with indexes up
    to date: inside the schedule the rest of it starts anew. *)
Definition restarted (st st' : Storage) (env : Env) (c c' : Config) (ratio : N) : Prop :=
  base_pool_ratio c' = ratio ∧ vesting_period c' = vesting_period c ∧
  boost_contract c' = boost_contract c ∧ prism_token c' = prism_token c ∧
  let '(start, stop, amount) := distribution_schedule c in
  let d := total_distributed (base_of st) + total_distributed (boost_of st) in
  (start < now env < stop ∧ d ≤ amount ∧ distribution_schedule c' = (now env, stop, amount - d) ∧
   st' = set_statuses (with_distributed 0 (base_of st)) (with_distributed 0 (boost_of st)) st) ∨
  ((now env ≤ start ∨ stop ≤ now env) ∧ distribution_schedule c' = distribution_schedule c ∧ st' = st).

Lemma restart_spec st env c ratio st' c' attrs :
  restart_schedule st env c ratio = Ok (st', c', attrs) → restarted st st' env c c' ratio.
Proof.
  unfold restart_schedule, restarted, load_base, load_boost, base_of, boost_of. intros H.
  destruct (distribution_schedule c) as [[start stop] amount] eqn:Hd.
  destruct (_ && _) eqn:Hin; [|injection H as <- <- <-].
  - inv_body H. repeat match goal with H : ?x = Some _ |- context [default _ ?x] => rewrite H; simpl end.
    split_and!; try done. left. split_and!; try done. 
  - split_and!; try done. right. split_and!; try done.
    apply andb_false_iff in Hin as [Hin|Hin]; ok_facts; [by left|by right].
Qed.

Lemma pool_update_config_spec st env info m r st' resp :
  update_config st env info m r = Ok (st', resp) →
  messages resp = [] ∧ ∃ c, CONFIG st = Some c ∧ info_sender info = owner c ∧
    let c1 := from_option (λ n, with_min_bond n c) c m in
    match r with
    | None => st' = set_config c1 st
    | Some ratio => ratio ≤ DECIMAL_UNIT ∧ ∃ st1 st2 c', update_reward_indexes st env c1 = Ok st1 ∧
        restarted st1 st2 env c1 c' ratio ∧ st' = set_config c' st2
    end.
Proof.
  unfold update_config, load_config. intros H.
  destruct m as [m|]; inv_ok H; subst; platform_facts; apply dec_stable in E; (split; [done|]);
    exists a; (split; [done|]); (split; [done|]); simpl;
    destruct r as [ratio|]; [|by simplify_eq| |by simplify_eq];
    match goal with H : (if _ then _ else _) = _ |- _ => inv_ok H; apply restart_spec in H end;
    platform_facts; rewrite dec_one_law in *; eauto 10.
Qed.
End accounts.

(** ** Books *)
Definition bonds (st : Storage) : N := map_sum (λ _ n, n) (BOND_AMOUNTS st).
Definition weights (st : Storage) : N := map_sum (λ _ i, boost_weight i) (REWARD_INFO st).

Record Books (st : Storage) : Prop := {
  bk_config : is_Some (CONFIG st);
  bk_base : is_Some (BASE_DISTRIBUTION_STATUS st);
  bk_boost : is_Some (BOOST_DISTRIBUTION_STATUS st);
  (** total weights are the sums of the bonds and of the boost weights *)
  bk_bonds : bonds st = total_weight (base_of st);
  bk_weights : weights st = total_weight (boost_of st);
  (** no account is ahead of the indexes *)
  bk_index : ∀ u i, REWARD_INFO st !! u = Some i →
    base_index i ≤ reward_index (base_of st) ∧ boost_index i ≤ reward_index (boost_of st);
  (** without a bond there is no boost weight, with a bond there is a record *)
  bk_idle : ∀ u i, REWARD_INFO st !! u = Some i → bond_of st u = 0 → boost_weight i = 0;
  bk_known : ∀ u, bond_of st u ≠ 0 → is_Some (REWARD_INFO st !! u) }.

Lemma weight_contrib st u : contrib (λ _ i, boost_weight i) (REWARD_INFO st) u = boost_weight (stored st u).
Proof. unfold contrib, stored. by destruct (REWARD_INFO st !! u). Qed.

Lemma bond_contrib st u : contrib (λ _ n, n) (BOND_AMOUNTS st) u = bond_of st u.
Proof. unfold contrib, bond_of. by destruct (BOND_AMOUNTS st !! u). Qed.

Section books.
Context {P : Cosmwasm} {L : CosmwasmLaws P}.

Lemma bond_of_resettled st st' c peers u stake boost v :
  resettled st st' c peers u stake boost → bond_of st' v = if decide (v = u) then stake else bond_of st v.
Proof.
  intros [_ _ _ _ _ _ Hb _ _ _]. unfold bond_of.
  destruct Hb as [->|[[-> ->]|[-> ->]]]; rewrite ?lookup_insert, ?lookup_delete; repeat case_decide; subst; done.
Qed.

Lemma rewards_resettled st st' c peers u stake boost v i :
  resettled st st' c peers u stake boost → REWARD_INFO st' !! v = Some i →
  (v ≠ u ∧ REWARD_INFO st !! v = Some i) ∨
  (v = u ∧ i = mkRewardInfo (reward_index (base_of st)) (reward_index (boost_of st)) boost
                 (N.sqrt (stake * boost)) (pending_reward (pulled st u))).
Proof.
  intros [_ _ _ _ _ _ _ _ _ [(_ & _ & ->)|[_ ->]]].
  - rewrite lookup_delete_Some. intros [Hv ?]. left. by split.
  - rewrite lookup_insert_Some. intros [[<- <-]|[Hv ?]]; [by right|left]. by split.
Qed.

Lemma Books_resettled st st' c peers u stake boost :
  Books st → resettled st st' c peers u stake boost → Books st'.
Proof.
  intros HB HR. pose proof HR as []. destruct HB.
  destruct rs_base0 as (Hbw & _ & _ & Hbi), rs_boost0 as (How & _ & _ & Hoi).
  split; [by rewrite rs_config0|done|done|..].
  - unfold bonds in *. enough (map_sum (λ _ n, n) (BOND_AMOUNTS st') + bond_of st u =
      map_sum (λ _ n, n) (BOND_AMOUNTS st) + stake) by lia.
    pose proof (map_sum_change (λ _ n, n) (λ _ n, n) (BOND_AMOUNTS st) (BOND_AMOUNTS st') u) as Hs.
    rewrite !bond_contrib in Hs.
    rewrite (bond_of_resettled _ _ _ _ _ _ _ u HR), decide_True in Hs by done. apply Hs; [|done].
    destruct rs_bonds0 as [->|[[_ ->]|[_ ->]]]; [by rewrite delete_insert_eq|by rewrite delete_delete_eq|done].
  - unfold weights in *.
    enough (map_sum (λ _ i, boost_weight i) (REWARD_INFO st') + boost_weight (stored st u) =
      map_sum (λ _ i, boost_weight i) (REWARD_INFO st) + N.sqrt (stake * boost)) by lia.
    pose proof (map_sum_change (λ _ i, boost_weight i) (λ _ i, boost_weight i) (REWARD_INFO st) (REWARD_INFO st') u)
      as Hs. rewrite weight_contrib in Hs. 
    destruct rs_rewards0 as [(-> & _ & Hr)|[_ Hr]]; rewrite Hr in *.
    + rewrite (contrib_None _ (delete u _)) in Hs by apply lookup_delete_eq. rewrite N.mul_0_l.
      apply Hs; [by rewrite delete_delete_eq|done].
    + rewrite (contrib_Some _ (<[u:=_]> _) u _ (lookup_insert_eq _ _ _)) in Hs.
      apply Hs; [by rewrite delete_insert_eq|done].
  - intros v i Hv. rewrite Hbi, Hoi.
    destruct (rewards_resettled _ _ _ _ _ _ _ _ _ HR Hv) as [[_ Hi]|[_ ->]]; [by eapply bk_index0|done].
  - intros v i Hv. rewrite (bond_of_resettled _ _ _ _ _ _ _ v HR).
    destruct (rewards_resettled _ _ _ _ _ _ _ _ _ HR Hv) as [[Hne Hi]|[-> ->]].
    + rewrite decide_False by done. by apply bk_idle0.
    + rewrite decide_True by done. simpl. intros ->. done.
  - intros v. rewrite (bond_of_resettled _ _ _ _ _ _ _ v HR). destruct (decide (v = u)) as [->|Hne].
    + intros Hst. destruct rs_rewards0 as [(-> & _)|[_ ->]]; [done|]. rewrite lookup_insert_eq. by eexists.
    + intros [i Hi]%bk_known0. 
      destruct rs_rewards0 as [(_ & _ & ->)|[_ ->]]; [rewrite lookup_delete_ne|rewrite lookup_insert_ne]; eauto.
Qed.

(** The parts of the state [Books] is about. *)
Lemma Books_frame st st' :
  is_Some (CONFIG st') → BASE_DISTRIBUTION_STATUS st' = BASE_DISTRIBUTION_STATUS st →
  BOOST_DISTRIBUTION_STATUS st' = BOOST_DISTRIBUTION_STATUS st → BOND_AMOUNTS st' = BOND_AMOUNTS st →
  REWARD_INFO st' = REWARD_INFO st → Books st → Books st'.
Proof.
  intros Hc Hb Ho Hbd Hr []. split; unfold bonds, weights, base_of, boost_of, bond_of in *;
    rewrite ?Hb, ?Ho, ?Hbd, ?Hr; done.
Qed.

Lemma indexes_spec st env c st1 :
  update_reward_indexes st env c = Ok st1 →
  ∃ base boost, st1 = set_statuses base boost st ∧ advances (base_of st) base ∧ advances (boost_of st) boost.
Proof.
  intros (base & boost & _ & _ & _ & Hb & Ho & ->)%update_indexes_spec. exists base, boost.
  split_and!; [done|by eapply update_index_advances..].
Qed.

Lemma Books_indexes st env c st1 : update_reward_indexes st env c = Ok st1 → Books st → Books st1.
Proof.
  intros (base & boost & -> & Hb & Ho)%indexes_spec []. destruct Hb, Ho. split; try done.
  - by rewrite <-adv_weight0 in bk_bonds0.
  - by rewrite <-adv_weight1 in bk_weights0.
  - intros u i Hu. destruct (bk_index0 u i Hu). simpl. unfold base_of, boost_of. simpl. lia.
Qed.

Lemma Books_withdrawn st st' env c u n : withdrawn st st' env c u n → Books st → Books st'.
Proof.
  intros [] HB. pose proof HB as [].
  assert (∀ v, bond_of st' v = bond_of st v) as Hbd by (intros v; unfold bond_of; by rewrite wd_bonds0).
  assert (base_of st' = base_of st) as Hb by (unfold base_of; by rewrite wd_base0).
  assert (boost_of st' = boost_of st) as Ho by (unfold boost_of; by rewrite wd_boost0).
  assert (∀ v i, REWARD_INFO st' !! v = Some i → (∃ j, REWARD_INFO st !! v = Some j ∧ i = j) ∨
    v = u ∧ bond_of st u ≠ 0 ∧ i = mkRewardInfo (reward_index (base_of st)) (reward_index (boost_of st))
      (active_boost (stored st u)) (boost_weight (stored st u)) 0) as Hr.
  { intros v i. rewrite wd_rewards0. destruct (N.eqb_spec (bond_of st u) 0).
    - rewrite lookup_delete_Some. intros [_ ?]. left. eauto.
    - rewrite lookup_insert_Some. intros [[<- <-]|[_ ?]]; [by right|left; eauto]. }
  split; [by rewrite wd_config0|by rewrite wd_base0|by rewrite wd_boost0|..].
  - unfold bonds in *. by rewrite wd_bonds0, Hb.
  - unfold weights in *. rewrite Ho, <-bk_weights0.
    pose proof (map_sum_change (λ _ i, boost_weight i) (λ _ i, boost_weight i) (REWARD_INFO st) (REWARD_INFO st') u)
      as Hs. rewrite weight_contrib in Hs.
    rewrite wd_rewards0 in *. destruct (N.eqb_spec (bond_of st u) 0) as [Hz|Hz].
    + rewrite (contrib_None _ (delete u _)) in Hs by apply lookup_delete_eq.
      assert (boost_weight (stored st u) = 0) as Hw.
      { unfold stored. destruct (REWARD_INFO st !! u) as [i|] eqn:Hi; [|done]. by eapply bk_idle0. }
      rewrite Hw, !N.add_0_r in Hs. apply Hs; [by rewrite delete_delete_eq|done].
    + rewrite (contrib_Some _ (<[u:=_]> _) u _ (lookup_insert_eq _ _ _)) in Hs. simpl in Hs.
      eapply N.add_cancel_r, Hs; [by rewrite delete_insert_eq|done].
  - intros v i Hv. rewrite Hb, Ho. destruct (Hr v i Hv) as [(j & Hj & ->)|(_ & _ & ->)]; [by eapply bk_index0|done].
  - intros v i Hv. rewrite Hbd. destruct (Hr v i Hv) as [(j & Hj & ->)|(-> & Hz & ->)]; [by apply bk_idle0|done].
  - intros v. rewrite Hbd, wd_rewards0. intros Hv. destruct (N.eqb_spec (bond_of st u) 0).
    + rewrite lookup_delete_ne by congruence. by apply bk_known0.
    + destruct (decide (v = u)) as [->|]; [rewrite lookup_insert_eq; by eexists|].
      rewrite lookup_insert_ne by done. by apply bk_known0.
Qed.

Lemma Books_restarted st st' env c c' r : restarted st st' env c c' r → Books st → Books st'.
Proof.
  intros (_ & _ & _ & _ & H) HB. destruct (distribution_schedule c) as [[start stop] amount].
  destruct H as [(_ & _ & _ & ->)|(_ & _ & ->)]; [|done]. destruct HB. split; try done; by eexists.
Qed.
End books.

(** ** What is promised

    The potential of a state counts, in atomics, the rewards recorded and
    earned by the accounts, those vesting and claimable, and those kept until
    somebody bonds. *)
Definition worth (st : Storage) (u : Addr) (i : RewardInfo) : N :=
  DECIMAL_UNIT * pending_reward i + bond_of st u * (reward_index (base_of st) - base_index i) +
  boost_weight i * (reward_index (boost_of st) - boost_index i).
Definition kept (st : Storage) : N := ds_pending_reward (base_of st) + ds_pending_reward (boost_of st).
Definition potential (st : Storage) : N :=
  map_sum (worth st) (REWARD_INFO st) + DECIMAL_UNIT * (vesting st + claimable st + kept st).
(** What the two pools have distributed under the current schedule. *)
Definition distributed (st : Storage) : N :=
  total_distributed (base_of st) + total_distributed (boost_of st).

Section potential.
Context {P : Cosmwasm} {L : CosmwasmLaws P}.

(** What an account has pulled is what it was worth, up to the rounding of two
    products. *)
Lemma pulled_worth st u :
  Books st → DECIMAL_UNIT * pending_reward (pulled st u) ≤
             contrib (worth st) (REWARD_INFO st) u + 2 * DECIMAL_UNIT.
Proof.
  intros []. unfold pulled, earned, contrib, stored, worth. simpl.
  destruct (REWARD_INFO st !! u) as [i|] eqn:Hi; simpl.
  - destruct (bk_index0 _ _ Hi) as [Hb Ho].
    pose proof (growth_bound (bond_of st u) _ _ Hb). pose proof (growth_bound (boost_weight i) _ _ Ho).
    rewrite !N.mul_add_distr_l. lia.
  - rewrite !growth_refl. lia.
Qed.

(** A state that differs at account [u], whose record is up to date. *)
Lemma potential_account st st' u :
  reward_index (base_of st') = reward_index (base_of st) →
  reward_index (boost_of st') = reward_index (boost_of st) →
  delete u (REWARD_INFO st') = delete u (REWARD_INFO st) →
  (∀ v, v ≠ u → bond_of st' v = bond_of st v) →
  map_sum (worth st') (REWARD_INFO st') + contrib (worth st) (REWARD_INFO st) u =
  map_sum (worth st) (REWARD_INFO st) + contrib (worth st') (REWARD_INFO st') u.
Proof.
  intros Hb Ho Hr Hbd. apply map_sum_change; [done|]. intros v i Hv. unfold worth. by rewrite Hb, Ho, Hbd.
Qed.

Lemma potential_resettled st st' c peers u stake boost :
  Books st → resettled st st' c peers u stake boost →
  potential st' ≤ potential st + 2 * DECIMAL_UNIT ∧ distributed st' = distributed st.
Proof.
  intros HB HR. pose proof (pulled_worth st u HB) as Hp.
  pose proof (λ v Hv, eq_trans (bond_of_resettled _ _ _ _ _ _ _ v HR) (decide_False _ _ Hv)) as Hbd.
  destruct HR. destruct rs_base0 as (_ & Hbt & Hbp & Hbi), rs_boost0 as (_ & Hot & Hop & Hoi).
  assert (contrib (worth st') (REWARD_INFO st') u ≤ DECIMAL_UNIT * pending_reward (pulled st u)) as Hc.
  { destruct rs_rewards0 as [(_ & _ & ->)|[_ ->]].
    - rewrite contrib_None by apply lookup_delete_eq. lia.
    - rewrite (contrib_Some _ _ _ _ (lookup_insert_eq _ _ _)). unfold worth. simpl. rewrite Hbi, Hoi. lia. }
  pose proof (potential_account st st' u Hbi Hoi) as Ha. unfold potential, distributed, kept, vesting, claimable in *.
  rewrite Hbp, Hop, Hbt, Hot, rs_vests0, rs_withdraws0. split; [|done].
  enough (delete u (REWARD_INFO st') = delete u (REWARD_INFO st)) as Hd by (specialize (Ha Hd Hbd); lia).
  destruct rs_rewards0 as [(_ & _ & ->)|[_ ->]]; [by rewrite delete_delete_eq|by rewrite delete_insert_eq].
Qed.

Lemma potential_withdrawn st st' env c u n :
  Books st → withdrawn st st' env c u n →
  potential st' ≤ potential st + 2 * DECIMAL_UNIT ∧ distributed st' = distributed st.
Proof.
  intros HB HW. pose proof (pulled_worth st u HB) as Hp. pose proof (withdrawn_sums _ _ _ _ _ _ HW) as Hs.
  destruct HW.
  assert (base_of st' = base_of st) as Hb by (unfold base_of; by rewrite wd_base0).
  assert (boost_of st' = boost_of st) as Ho by (unfold boost_of; by rewrite wd_boost0).
  assert (contrib (worth st') (REWARD_INFO st') u = 0) as Hc.
  { rewrite wd_rewards0. destruct (_ =? 0).
    - by rewrite contrib_None by apply lookup_delete_eq.
    - rewrite (contrib_Some _ _ _ _ (lookup_insert_eq _ _ _)). unfold worth. simpl. rewrite Hb, Ho. lia. }
  unfold potential, distributed, kept. rewrite Hb, Ho. split; [|done].
  enough (map_sum (worth st') (REWARD_INFO st') + contrib (worth st) (REWARD_INFO st) u =
    map_sum (worth st) (REWARD_INFO st)) by lia.
  rewrite (potential_account st st' u); [by rewrite Hc, N.add_0_r|by rewrite Hb|by rewrite Ho| |].
  - rewrite wd_rewards0. destruct (_ =? 0); [by rewrite delete_delete_eq|by rewrite delete_insert_eq].
  - intros v _. unfold bond_of. by rewrite wd_bonds0.
Qed.

(** The growth of the indexes is paid for by what was distributed. *)
Lemma potential_indexes st env c st1 :
  Books st → update_reward_indexes st env c = Ok st1 →
  distributed st ≤ distributed st1 ∧
  potential st1 ≤ potential st + DECIMAL_UNIT * (distributed st1 - distributed st).
Proof.
  intros [] (base & boost & -> & Hb & Ho)%indexes_spec. destruct Hb, Ho.
  unfold distributed, potential, kept, vesting, claimable.
  change (base_of (set_statuses base boost st)) with base.
  change (boost_of (set_statuses base boost st)) with boost. simpl.
  split; [lia|].
  set (dI := reward_index base - reward_index (base_of st)) in *.
  set (dJ := reward_index boost - reward_index (boost_of st)) in *.
  assert (map_sum (worth (set_statuses base boost st)) (REWARD_INFO st) ≤
    map_sum (worth st) (REWARD_INFO st) + bonds st * dI + weights st * dJ) as Hw.
  { rewrite (map_sum_ext _ (λ u i, worth st u i + bond_of st u * dI + boost_weight i * dJ)).
    - rewrite !map_sum_add. apply N.add_le_mono; [apply N.add_le_mono_l|].
      + rewrite map_sum_mul. apply N.mul_le_mono_r. unfold bonds. apply map_sum_le. intros u.
        rewrite bond_contrib. unfold contrib. destruct (REWARD_INFO st !! u); simpl; lia.
      + by rewrite map_sum_mul.
    - intros u i Hi. destruct (bk_index0 _ _ Hi). unfold worth, base_of at 1, boost_of at 1. simpl.
      change (bond_of (set_statuses base boost st) u) with (bond_of st u).
      assert (reward_index base - base_index i = reward_index (base_of st) - base_index i + dI) as -> by (unfold dI; lia).
      assert (reward_index boost - boost_index i = reward_index (boost_of st) - boost_index i + dJ) as -> by (unfold dJ; lia).
      lia. }
  rewrite bk_bonds0, bk_weights0 in Hw. change DECIMAL_UNIT with 1000000000000000000 in *. lia.
Qed.

(** ** The budget *)
Definition budget (c : Config) : N := (distribution_schedule c).2.

Lemma due_le schedule t : due schedule t ≤ schedule.2.
Proof.
  destruct schedule as [[start stop] amount]. simpl. destruct (decide (stop - start = 0)) as [->|Hd].
  - rewrite N.div_0_r. lia.
  - apply N.div_le_upper_bound; [done|]. rewrite N.mul_comm. apply N.mul_le_mono_r. lia.
Qed.

Lemma due_split d r : r ≤ DECIMAL_UNIT → d * r / DECIMAL_UNIT + d * (DECIMAL_UNIT - r) / DECIMAL_UNIT ≤ d.
Proof.
  intros Hr. pose proof (N.Div0.mul_div_le (d * r) DECIMAL_UNIT).
  pose proof (N.Div0.mul_div_le (d * (DECIMAL_UNIT - r)) DECIMAL_UNIT).
  assert (d * r + d * (DECIMAL_UNIT - r) = d * DECIMAL_UNIT) by (rewrite <-N.mul_add_distr_l; f_equal; lia).
  change DECIMAL_UNIT with 1000000000000000000 in *. lia_div.
Qed.

Lemma distributed_indexes st env c st1 :
  update_reward_indexes st env c = Ok st1 → distributed st ≤ budget c → distributed st1 ≤ budget c.
Proof.
  intros (base & boost & _ & _ & Hr & Hb & Ho & ->)%update_indexes_spec Hd. unfold distributed, budget in *.
  change (base_of (set_statuses base boost st)) with base.
  change (boost_of (set_statuses base boost st)) with boost.
  destruct (distribution_schedule c) as [[start stop] amount].
  apply update_index_spec in Hb as [[Hn ->]|(Hn & _ & _ & ->)];
    apply update_index_spec in Ho as [[Hn' ->]|(Hn' & _ & _ & ->)]; [done|lia|lia|].
  etrans; [apply due_split, Hr|]. apply due_le.
Qed.

(** The promises of a state: within the budget [A] of the schedules so far,
    the amount [paid], and two units of rounding per settlement, [k] of them. *)
Definition Promise (st : Storage) (A paid k : N) : Prop :=
  ∃ c spent, CONFIG st = Some c ∧ Books st ∧ spent + budget c = A ∧ distributed st ≤ budget c ∧
    potential st + DECIMAL_UNIT * paid ≤ DECIMAL_UNIT * (spent + distributed st + 2 * k).

Lemma indexes_config st env c st1 : update_reward_indexes st env c = Ok st1 → CONFIG st1 = CONFIG st.
Proof. by intros (base & boost & -> & _)%indexes_spec. Qed.

Lemma Promise_indexes st env c c' st1 A paid k :
  update_reward_indexes st env c = Ok st1 → CONFIG st = Some c' → budget c' = budget c →
  Promise st A paid k → Promise st1 A paid k.
Proof.
  intros Hu Hc Hbud (c2 & spent & Hc2 & HB & HA & Hd & Hp).
  assert (c2 = c') as -> by congruence. rewrite Hbud in *.
  destruct (potential_indexes _ _ _ _ HB Hu) as [Hd1 Hp1]. exists c', spent. rewrite Hbud.
  split_and!; [by rewrite (indexes_config _ _ _ _ Hu)|by eapply Books_indexes|done|by eapply distributed_indexes|].
  change DECIMAL_UNIT with 1000000000000000000 in *. lia.
Qed.

Lemma Promise_settled st st' A paid k :
  Promise st A paid k → CONFIG st' = CONFIG st → Books st' →
  potential st' ≤ potential st + 2 * DECIMAL_UNIT ∧ distributed st' = distributed st →
  Promise st' A paid (k + 1).
Proof.
  intros (c & spent & Hc & HB & HA & Hd & Hp) Hc' HB' [Hp' Hd'].
  exists c, spent. rewrite Hc', Hd'. split_and!; try done.
  change DECIMAL_UNIT with 1000000000000000000 in *. lia.
Qed.

Lemma Promise_resettled st st' c peers u stake boost A paid k :
  resettled st st' c peers u stake boost → Promise st A paid k → Promise st' A paid (k + 1).
Proof.
  intros HR HP. pose proof HP as (? & ? & _ & HB & _). eapply Promise_settled; [done| | |].
  - by apply (rs_config _ _ _ _ _ _ _ HR).
  - by eapply Books_resettled.
  - by eapply potential_resettled.
Qed.

Lemma Promise_withdrawn st st' env c u n A paid k :
  withdrawn st st' env c u n → Promise st A paid k → Promise st' A paid (k + 1).
Proof.
  intros HR HP. pose proof HP as (? & ? & _ & HB & _). eapply Promise_settled; [done| | |].
  - by apply (wd_config _ _ _ _ _ _ HR).
  - by eapply Books_withdrawn.
  - by eapply potential_withdrawn.
Qed.

Lemma Promise_frame st st' A paid k n :
  Promise st A paid k → CONFIG st' = CONFIG st → BASE_DISTRIBUTION_STATUS st' = BASE_DISTRIBUTION_STATUS st →
  BOOST_DISTRIBUTION_STATUS st' = BOOST_DISTRIBUTION_STATUS st → BOND_AMOUNTS st' = BOND_AMOUNTS st →
  REWARD_INFO st' = REWARD_INFO st → vesting st' + claimable st' + n = vesting st + claimable st →
  Promise st' A (paid + n) k.
Proof.
  intros (c & spent & Hc & HB & HA & Hd & Hp) Hc' Hb Ho Hbd Hr Hv. exists c, spent. rewrite Hc'.
  assert (base_of st' = base_of st) as Hbs by (unfold base_of; by rewrite Hb).
  assert (boost_of st' = boost_of st) as Hos by (unfold boost_of; by rewrite Ho).
  unfold distributed, potential, kept in *. rewrite Hbs, Hos, Hr. split_and!; try done.
  - eapply Books_frame; eauto. rewrite Hc'. by eexists.
  - rewrite (map_sum_ext (worth st') (worth st)).
    + change DECIMAL_UNIT with 1000000000000000000 in *. lia.
    + intros u i _. unfold worth, bond_of. by rewrite Hbs, Hos, Hbd.
Qed.

Lemma Promise_restarted st st' env c0 c c' r A paid k :
  restarted st st' env c c' r → CONFIG st = Some c0 → distribution_schedule c = distribution_schedule c0 →
  Promise st A paid k → Promise (set_config c' st') A paid k.
Proof.
  intros HR Hc Hs (c2 & spent & Hc2 & HB & HA & Hd & Hp). assert (c2 = c0) as -> by congruence.
  pose proof (Books_restarted _ _ _ _ _ _ HR HB) as HB'.
  destruct HR as (_ & _ & _ & _ & HR). unfold budget in *. rewrite <-Hs in *.
  destruct (distribution_schedule c) as [[start stop] amount]. simpl in *.
  assert (Books (set_config c' st')) as HB2 by (apply (Books_frame st'); [by eexists|done..]).
  destruct HR as [(_ & Hle & Hs' & ->)|(_ & Hs' & ->)].
  - fold (distributed st) in *. exists c', (spent + distributed st). unfold budget. rewrite Hs'. simpl.
    set (st' := set_statuses _ _ st) in *.
    assert (distributed (set_config c' st') = 0) as Hd0 by done.
    assert (potential (set_config c' st') = potential st) as Hp0 by done.
    rewrite Hd0, Hp0. split_and!; [done|done|lia|lia|]. by rewrite N.add_0_r.
  - exists c', spent. unfold budget. rewrite Hs'. done.
Qed.
End potential.

(** ** Vests are worth something *)
Definition Positive (st : Storage) : Prop :=
  (∀ k n, SCHEDULED_VEST st !! k = Some n → n ≠ 0) ∧ (∀ u n, PENDING_WITHDRAW st !! u = Some n → n ≠ 0).

(** The queue of an account: how many entries, and what they are worth. *)
Definition queue (st : Storage) (u : Addr) : gmap N N := prefix (SCHEDULED_VEST st) u.
Definition queued (st : Storage) (u : Addr) : N := map_sum (λ _ n, n) (queue st u).
Definition queue_length (st : Storage) (u : Addr) : N := map_sum (λ _ _, 1) (queue st u).

Section vests.
Context {P : Cosmwasm} {L : CosmwasmLaws P}.

Lemma Positive_frame st st' :
  SCHEDULED_VEST st' = SCHEDULED_VEST st → PENDING_WITHDRAW st' = PENDING_WITHDRAW st → Positive st → Positive st'.
Proof. unfold Positive. by intros -> ->. Qed.

Lemma Positive_vested st t u : Positive st → Positive (vested st t u).
Proof.
  intros [Hs Hp]. split; simpl.
  - intros k n. rewrite lookup_remove_keys. case_decide; [done|apply Hs].
  - intros v n. destruct (N.eqb_spec (withdrawable st t u) 0).
    + rewrite lookup_delete_Some. intros [_ ?]. by eapply Hp.
    + rewrite lookup_insert_Some. intros [[_ <-]|[_ ?]]; [done|by eapply Hp].
Qed.

Lemma Positive_withdrawn st st' env c u n : withdrawn st st' env c u n → Positive st → Positive st'.
Proof.
  intros [] HP. destruct (Positive_vested st (now env) u HP) as [Hs Hp]. split.
  - intros k m. destruct wd_vests0 as [[_ ->]|(Hn & e & _ & ->)]; [apply Hs|].
    rewrite lookup_insert_Some. intros [[_ <-]|[_ ?]]; [lia|by eapply Hs].
  - rewrite wd_withdraws0. apply Hp.
Qed.

(** When all entries have matured, the first fifty are due. *)
Lemma due_vests_all st t u :
  (∀ e n, SCHEDULED_VEST st !! (u, e) = Some n → e ≤ t) →
  due_vests st t u = take MAX_UPDATE_VEST_PER_TX (range_u64 (queue st u)).
Proof.
  intros Hall. apply matured_all. apply Forall_take, Forall_forall. intros [e n] He. simpl.
  apply elem_of_range_u64 in He. unfold queue in He. rewrite lookup_prefix in He. by eapply Hall.
Qed.

Lemma queue_split (g : N → N) st t u :
  map_sum (λ _ n, g n) (queue st u) =
  sum_N (g <$> (due_vests st t u).*2) + map_sum (λ _ n, g n) (queue (vested st t u) u).
Proof.
  unfold queue, due_vests. rewrite <-!(map_sum_prefix (λ _ n, g n)).
  rewrite (first_matured_split _ (SCHEDULED_VEST st) u MAX_UPDATE_VEST_PER_TX t). f_equal.
  rewrite <-!list_fmap_compose. f_equal. apply list_fmap_ext. intros i e _. simpl. by rewrite decide_True.
Qed.

Lemma queue_length_zero st u : queue_length st u = 0 → queue st u = ∅.
Proof.
  intros Hz. apply map_empty. intros e. destruct (queue st u !! e) as [n|] eqn:He; [|done].
  pose proof (contrib_le (λ _ _, 1) (queue st u) e) as Hc. rewrite (contrib_Some _ _ _ _ He) in Hc.
  change (1 ≤ queue_length st u) in Hc. lia.
Qed.

(** A claim on a queue that has matured takes its first fifty entries. *)
Lemma queue_due st t u :
  (∀ e n, SCHEDULED_VEST st !! (u, e) = Some n → e ≤ t) →
  queue_length (vested st t u) u = queue_length st u - 50 ∧
  queued (vested st t u) u + sum_N (due_vests st t u).*2 = queued st u.
Proof.
  intros Hall. split.
  - pose proof (queue_split (λ _, 1) st t u) as Hs. change (queue_length st u =
      sum_N ((λ _, 1) <$> (due_vests st t u).*2) + queue_length (vested st t u) u) in Hs.
    rewrite (due_vests_all _ _ _ Hall) in Hs.
    assert (∀ l : list N, sum_N ((λ _, 1) <$> l) = N.of_nat (length l)) as Hl.
    { induction l as [|x l IH]; csimpl; [done|]. rewrite IH. lia. }
    rewrite Hl, length_fmap, length_take in Hs. 
    assert (queue_length st u = N.of_nat (length (range_u64 (queue st u)))) as Hq.
    { unfold queue_length. rewrite map_sum_range_u64.
      rewrite <-(length_fmap snd (range_u64 (queue st u))), <-Hl, <-list_fmap_compose. done. }
    unfold MAX_UPDATE_VEST_PER_TX in Hs. lia.
  - pose proof (queue_split (λ n, n) st t u) as Hs. rewrite list_fmap_id in Hs. unfold queued. lia.
Qed.

Lemma queued_vesting st u : queued st u ≤ vesting st.
Proof.
  unfold queued, queue, vesting. rewrite <-(map_sum_prefix (λ _ n, n)). apply map_sum_le. intros k.
  unfold contrib. destruct (SCHEDULED_VEST st !! k); simpl; [|lia]. case_decide; lia.
Qed.
End vests.
End LaunchPoolProofs.
