(* ===== verification/LaunchPoolSpec.v ===== *)
(** * What the launch pool promises

    The runs of the contract, its properties, and concrete runs on the
    reference platform that witness them. *)
From S2P Require Import Prelude Cosmwasm Protocol LaunchPool LaunchPoolProofs.
Import LaunchPoolMsg LaunchPool LaunchPoolProofs Tokens.

Module LaunchPoolSpec.

Section runs.
Context {P : Cosmwasm} {CA : CwAsset}.
Variable from_binary : Binary → outcome StdError Cw20HookMsg.

(** The PRISM a claim pays out, read off its messages. *)
Definition claimed (st : Storage) (msg : ExecuteMsg Binary) (resp : Response) : N :=
  match msg, CONFIG st with
  | ClaimWithdrawnRewards _, Some c => cw20_spent (prism_token c) resp
  | _, _ => 0
  end.

(** The accounts a message settles. *)
Definition settlements (st : Storage) (msg : ExecuteMsg Binary) : N :=
  match msg with
  | Receive _ | Unbond _ | ActivateBoost | PrivilegedRefreshBoost _ | WithdrawRewards => 1
  | WithdrawRewardsBulk limit start => N.of_nat (length (bulk_addresses st limit start))
  | _ => 0
  end.

(** The states of the contract, with the amount [A] of its schedule, what has
    been paid, and the number of settlements so far. *)
Inductive run : Storage → N → N → N → Prop :=
  | run_init msg st resp :
      instantiate msg = Ok (st, resp) → run st (im_distribution_schedule msg).2 0 0
  | run_step st A paid k q peers env info msg st' resp :
      run st A paid k → execute from_binary st q peers env info msg = Ok (st', resp) →
      run st' A (paid + claimed st msg resp) (k + settlements st msg).
End runs.

Section properties.
Context {P : Cosmwasm} {L : CosmwasmLaws P} {CA : CwAsset} {CL : CwAssetLaws CA}.
Variable fb : Binary → outcome StdError Cw20HookMsg.

Lemma claim_messages_spent q env c u n ty msgs :
  claim_messages q env c u n ty = Ok msgs →
  sum_N ((λ s, cw20_leaves (prism_token c) (sub_msg s)) <$> (sub_new <$> msgs)) = n.
Proof.
  intros H. destruct ty; simpl in H.
  - rewrite asset_transfer_cw20 in H. simpl in H. injection H as <-. simpl.
    rewrite bool_decide_eq_true_2 by done. lia.
  - injection H as <-. simpl. rewrite bool_decide_eq_true_2 by done. lia.
  - inv_ok H. subst. simpl. rewrite bool_decide_eq_true_2 by done. lia.
Qed.

Lemma bulk_addresses_frame st st' limit start :
  REWARD_INFO st' = REWARD_INFO st → bulk_addresses st' limit start = bulk_addresses st limit start.
Proof. unfold bulk_addresses. by intros ->. Qed.

Lemma Promise_bulk env c l st st' A paid k :
  ofold (λ st address, let? '(st, _) := _withdraw_rewards_single st env c address in Ok st) st l = Ok st' →
  Promise st A paid k → Promise st' A paid (k + N.of_nat (length l)).
Proof.
  revert st k. induction l as [|u l IH]; intros st k H HP; simpl in H.
  - injection H as <-. by rewrite N.add_0_r.
  - inv_ok H. inv_ok Ha. subst. eapply withdraw_single_spec, (Promise_withdrawn _ _ _ _ _ _ A paid k) in Ha0; [|done].
    eapply IH in H; [|exact Ha0]. replace (k + N.of_nat (length (u :: l))) with (k + 1 + N.of_nat (length l)); [done|].
    simpl. lia.
Qed.

Lemma Promise_update_config st env info m r st' resp A paid k :
  update_config st env info m r = Ok (st', resp) → Promise st A paid k → Promise st' A paid k.
Proof.
  intros (_ & c & Hc & _ & H)%pool_update_config_spec HP.
  assert (distribution_schedule (from_option (λ n, with_min_bond n c) c m) = distribution_schedule c) as Hs
    by (by destruct m).
  destruct r as [r|].
  - destruct H as (_ & st1 & st2 & c' & Hu & Hr & ->).
    eapply (Promise_restarted st1 st2 env c); [exact Hr|by rewrite (indexes_config _ _ _ _ Hu)|done|].
    eapply Promise_indexes; [exact Hu|exact Hc|unfold budget; by rewrite Hs|done].
  - simpl in H. subst st'. destruct HP as (c2 & spent & Hc2 & HB & HA & Hd & Hp). assert (c2 = c) as -> by congruence.
    eexists _, spent. unfold budget. simpl. rewrite Hs. split_and!; [done| |done..].
    apply (Books_frame st); [by eexists|done..].
Qed.

Lemma execute_promise st q peers env info msg st' resp A paid k :
  execute fb st q peers env info msg = Ok (st', resp) →
  Promise st A paid k → Promise st' A (paid + claimed st msg resp) (k + settlements st msg).
Proof.
  intros H HP. destruct msg; simpl in H; unfold claimed; simpl;
    rewrite ?N.add_0_r;
    try (unfold admin_withdraw_rewards, admin_send_withdrawn_rewards, bond_with_boost_contract_hook in H;
         inv_ok H; by subst).
  - unfold receive_cw20 in H. inv_ok H. apply pool_bond_spec in H as (c & st1 & boost & Hc & _ & Hu & Hr & _).
    eapply Promise_resettled, Promise_indexes; [exact Hr|exact Hu|exact Hc|done|done].
  - apply pool_unbond_spec in H as (c & st1 & boost & Hc & Hu & _ & _ & _ & Hr & _).
    eapply Promise_resettled, Promise_indexes; [exact Hr|exact Hu|exact Hc|done|done].
  - unfold activate_boost in H. inv_ok H. subst. apply refresh_spec in Ha as (c & st1 & Hc & Hu & _ & Hr).
    eapply Promise_resettled, Promise_indexes; [exact Hr|exact Hu|exact Hc|done|done].
  - unfold privileged_refresh_boost in H. inv_ok H. inv_ok H. subst.
    apply refresh_spec in Ha1 as (c & st1 & Hc & Hu & _ & Hr).
    eapply Promise_resettled, Promise_indexes; [exact Hr|exact Hu|exact Hc|done|done].
  - unfold withdraw_rewards, load_config in H. inv_ok H. subst. platform_facts.
    apply withdraw_single_spec in Ha1.
    eapply Promise_withdrawn, Promise_indexes; [exact Ha1|exact Ha0|exact Ha|done|done].
  - unfold withdraw_rewards_bulk, load_config in H. inv_ok H. subst. platform_facts.
    pose proof Ha0 as Hu. apply indexes_spec in Hu as (b & o & -> & _).
    erewrite <-(bulk_addresses_frame st); [eapply Promise_bulk; [exact Ha2|]|done].
    eapply Promise_indexes; [exact Ha0|exact Ha|done|done].
  - apply claim_spec in H as (c & msgs & Hc & Hn & Hm & Hr & ->). rewrite Hc. unfold cw20_spent. rewrite Hr.
    rewrite (claim_messages_spent _ _ _ _ _ _ _ Hm).
    eapply (Promise_frame st); [done..|].
    destruct (vested_sums st (now env) (info_sender info)) as [Hv Hcl].
    unfold vesting, claimable in *. simpl in *.
    pose proof (map_sum_delete_contrib (λ _ n, n) (PENDING_WITHDRAW st) (info_sender info)) as Hs.
    unfold withdrawable, contrib in *. destruct (PENDING_WITHDRAW st !! info_sender info); simpl in *; lia.
  - by eapply Promise_update_config.
Qed.

Lemma run_promise st A paid k : run fb st A paid k → Promise st A paid k.
Proof.
  induction 1 as [msg st resp Hi|st A paid k q peers env info msg st' resp _ IH H]; [|by eapply execute_promise].
  unfold instantiate in Hi. inv_ok Hi. subst. eexists _, 0. unfold budget, distributed. simpl.
  split_and!; [done| |done|apply N.le_0_l|done]. split; try done; by eexists.
Qed.

Lemma execute_positive st q peers env info msg st' resp :
  execute fb st q peers env info msg = Ok (st', resp) → Positive st → Positive st'.
Proof.
  assert (∀ st env c st1, update_reward_indexes st env c = Ok st1 → Positive st → Positive st1) as Hix.
  { intros s e c s1 (b & o & -> & _)%indexes_spec. by apply Positive_frame. }
  assert (∀ s s' c u stake boost, resettled s s' c peers u stake boost → Positive s → Positive s') as Hrs.
  { intros s s' c u stake boost []. by apply Positive_frame. }
  intros H HP. destruct msg; simpl in H;
    try (unfold admin_withdraw_rewards, admin_send_withdrawn_rewards, bond_with_boost_contract_hook in H;
         inv_ok H; by subst).
  - unfold receive_cw20 in H. inv_ok H. apply pool_bond_spec in H as (c & st1 & boost & _ & _ & Hu & Hr & _). eauto.
  - apply pool_unbond_spec in H as (c & st1 & boost & _ & Hu & _ & _ & _ & Hr & _). eauto.
  - unfold activate_boost in H. inv_ok H. subst. apply refresh_spec in Ha as (c & st1 & _ & Hu & _ & Hr). eauto.
  - unfold privileged_refresh_boost in H. inv_ok H. inv_ok H. subst.
    apply refresh_spec in Ha1 as (c & st1 & _ & Hu & _ & Hr). eauto.
  - unfold withdraw_rewards in H. inv_ok H. subst. apply withdraw_single_spec in Ha1.
    eapply Positive_withdrawn; [exact Ha1|eauto].
  - unfold withdraw_rewards_bulk in H. inv_ok H. subst. revert Ha2. apply ofold_ind; [eauto|].
    intros s u s' _ Hs Hw. inv_ok Hw. subst. apply withdraw_single_spec in Ha2. by eapply Positive_withdrawn.
  - apply claim_spec in H as (c & msgs & _ & _ & _ & _ & ->).
    destruct (Positive_vested st (now env) (info_sender info) HP) as [Hs Hp]. split; [exact Hs|]. simpl.
    intros u n. rewrite lookup_delete_Some. intros [_ Hu]. destruct HP as [_ HP]. by eapply HP.
  - apply pool_update_config_spec in H as (_ & c & _ & _ & H).
    match type of H with context [match ?o with Some _ => _ | None => _ end] => destruct o as [r|] end.
    + destruct H as (_ & st1 & st2 & c' & Hu & (_ & _ & _ & _ & Hr) & ->). apply Hix in Hu; [|done].
      destruct (distribution_schedule _) as [[start stop] amount].
      destruct Hr as [(_ & _ & _ & ->)|(_ & _ & ->)]; done.
    + simpl in H. by subst.
Qed.

Lemma run_positive st A paid k : run fb st A paid k → Positive st.
Proof.
  induction 1 as [msg st resp Hi|st A paid k q peers env info msg st' resp _ IH H]; [|by eapply execute_positive].
  unfold instantiate in Hi. inv_ok Hi. by subst.
Qed.

(** C14: Bookkeeping invariant of the launch pool. In every reachable state the
    total weight of the base pool is the sum of the bonds and that of the boost
    pool the sum of the boost weights; no account's index is ahead of its
    pool's; an account without a bond has no boost weight; and every account
    with a bond has a reward record, so that nothing it earns is lost. *)
Theorem pool_books st A paid k :
  run fb st A paid k → ∃ base boost,
    BASE_DISTRIBUTION_STATUS st = Some base ∧ BOOST_DISTRIBUTION_STATUS st = Some boost ∧
    map_sum (λ _ n, n) (BOND_AMOUNTS st) = total_weight base ∧
    map_sum (λ _ i, boost_weight i) (REWARD_INFO st) = total_weight boost ∧
    (∀ u i, REWARD_INFO st !! u = Some i →
      base_index i ≤ reward_index base ∧ boost_index i ≤ reward_index boost ∧
      (default 0 (BOND_AMOUNTS st !! u) = 0 → boost_weight i = 0)) ∧
    (∀ u n, BOND_AMOUNTS st !! u = Some n → n ≠ 0 → is_Some (REWARD_INFO st !! u)).
Proof.
  intros (_ & _ & _ & HB & _)%run_promise. destruct HB.
  assert (BASE_DISTRIBUTION_STATUS st = Some (base_of st)) as Hb
    by (unfold base_of; destruct bk_base0 as [b ->]; done).
  assert (BOOST_DISTRIBUTION_STATUS st = Some (boost_of st)) as Ho
    by (unfold boost_of; destruct bk_boost0 as [b ->]; done).
  exists (base_of st), (boost_of st). split_and!; [done..| |].
  - intros u i Hi. destruct (bk_index0 u i Hi). split_and!; [done..|]. by apply bk_idle0.
  - intros u n Hu Hn. apply bk_known0. unfold bond_of. by rewrite Hu.
Qed.

(** C6: The launch pool never promises more than its schedule. On every run,
    in atomics: what the accounts have pulled and earned since (each stake times
    the growth of its index), what is vesting or claimable, and what has been
    paid in any form, stays within the amount of the schedule and two units per
    settlement of an account, whatever the sequence of bonds, boosts, bulk
    withdrawals, claims and changes of the pool ratio. *)
Theorem pool_promises_bounded st A paid k :
  run fb st A paid k → ∃ base boost,
    BASE_DISTRIBUTION_STATUS st = Some base ∧ BOOST_DISTRIBUTION_STATUS st = Some boost ∧
    map_sum (λ u i, DECIMAL_UNIT * pending_reward i +
        default 0 (BOND_AMOUNTS st !! u) * (reward_index base - base_index i) +
        boost_weight i * (reward_index boost - boost_index i)) (REWARD_INFO st) +
      DECIMAL_UNIT * (map_sum (λ _ n, n) (SCHEDULED_VEST st) + map_sum (λ _ n, n) (PENDING_WITHDRAW st) + paid) ≤
    DECIMAL_UNIT * (A + 2 * k).
Proof.
  intros (c & spent & Hc & HB & HA & Hd & Hp)%run_promise. destruct HB.
  exists (base_of st), (boost_of st). split_and!; [unfold base_of; by destruct bk_base0 as [? ->]
    |unfold boost_of; by destruct bk_boost0 as [? ->]|].
  change (map_sum (worth st) (REWARD_INFO st) + DECIMAL_UNIT * (vesting st + claimable st + paid) ≤
    DECIMAL_UNIT * (A + 2 * k)).
  unfold potential in Hp. change DECIMAL_UNIT with 1000000000000000000 in *. lia.
Qed.

(** What can be claimed fits a [u128] when the budget does. *)
Lemma run_claimable st A paid k u :
  run fb st A paid k → default 0 (PENDING_WITHDRAW st !! u) + queued st u + paid ≤ A + 2 * k.
Proof.
  intros (c & spent & Hc & HB & HA & Hd & Hp)%run_promise.
  pose proof (queued_vesting st u). 
  pose proof (contrib_le (λ _ n, n) (PENDING_WITHDRAW st) u) as Hcl. fold (claimable st) in Hcl.
  assert (contrib (λ _ n, n) (PENDING_WITHDRAW st) u = default 0 (PENDING_WITHDRAW st !! u)) as Hd2
    by (unfold contrib; by destruct (PENDING_WITHDRAW st !! u)).
  unfold potential in Hp. change DECIMAL_UNIT with 1000000000000000000 in *. lia.
Qed.

(** Claims as PRISM, one after the other while there is something to claim. *)
Fixpoint claims (j : nat) (q : Querier) (env : Env) (info : MessageInfo) (st : Storage) : option (Storage * N) :=
  match j with
  | O => Some (st, 0)
  | S j =>
      if withdrawable st (now env) (info_sender info) =? 0 then Some (st, 0) else
      match execute fb st q (mkPeers (λ _ _, Panic) (λ _, Panic)) env info (ClaimWithdrawnRewards Prism) with
      | Ok (st', resp) =>
          '(st'', n) ← claims j q env info st';
          Some (st'', claimed st (ClaimWithdrawnRewards Prism) resp + n)
      | _ => None
      end
  end.

Lemma claim_succeeds st q peers env info c :
  CONFIG st = Some c → let u := info_sender info in let n := withdrawable st (now env) u in
  n ≠ 0 → n < u128_limit → ∃ resp,
    execute fb st q peers env info (ClaimWithdrawnRewards Prism) =
      Ok (set_withdraws (delete u (PENDING_WITHDRAW st)) (vested st (now env) u), resp) ∧
    messages resp = [sub_new (exec_msg (prism_token c) (BinCw20 (Cw20.Transfer u n)))].
Proof.
  intros Hc u n Hn Hlt. simpl. unfold claim_withdrawn_rewards, load_config. rewrite Hc. simpl.
  fold u. rewrite update_vest_total by done. simpl. fold n.
  rewrite (proj2 (N.eqb_neq n 0)) by done. rewrite lookup_insert_eq. simpl.
  rewrite (proj2 (N.eqb_neq n 0)) by done. rewrite asset_transfer_cw20. simpl.
  rewrite delete_insert_eq. eexists. split; reflexivity.
Qed.

Lemma claims_total j q env info st c :
  (0 < j)%nat → CONFIG st = Some c → Positive st →
  let u := info_sender info in
  (∀ e n, SCHEDULED_VEST st !! (u, e) = Some n → e ≤ now env) →
  queue_length st u ≤ 50 * N.of_nat j →
  default 0 (PENDING_WITHDRAW st !! u) + queued st u < u128_limit →
  ∃ st', claims j q env info st = Some (st', default 0 (PENDING_WITHDRAW st !! u) + queued st u) ∧
    queue st' u = ∅ ∧ PENDING_WITHDRAW st' !! u = None.
Proof.
  revert st. induction j as [|j IH]; [lia|]. intros st _ Hc HP u Hall Hlen Hlt. simpl.
  destruct (queue_due st (now env) u Hall) as [Hlen' Hq].
  assert (withdrawable st (now env) u = default 0 (PENDING_WITHDRAW st !! u) + sum_N (due_vests st (now env) u).*2)
    as Hw by done.
  fold u. destruct (N.eqb_spec (withdrawable st (now env) u) 0) as [Hz|Hz].
  - assert (PENDING_WITHDRAW st !! u = None) as Hnone.
    { destruct (PENDING_WITHDRAW st !! u) as [n|] eqn:Hn; [|done]. apply HP in Hn. simpl in *. lia. }
    assert (queue st u = ∅) as Hempty.
    { apply map_eq. intros e. rewrite lookup_empty. destruct (queue st u !! e) as [n|] eqn:He; [|done]. exfalso.
      assert (due_vests st (now env) u = []) as Hnil.
      { destruct (due_vests st (now env) u) as [|[e' n'] l] eqn:Hdue; [done|]. exfalso.
        assert (n' = 0) as -> by (simpl in Hw; lia).
        assert ((e', 0) ∈ due_vests st (now env) u) as Hin by (rewrite Hdue; by left).
        apply elem_of_first_matured in Hin. rewrite lookup_prefix in Hin. by apply HP in Hin. }
      rewrite due_vests_all in Hnil by done. unfold MAX_UPDATE_VEST_PER_TX in Hnil.
      destruct (range_u64 (queue st u)) as [|x l] eqn:Hr; [|done].
      by apply elem_of_range_u64 in He; rewrite Hr in He; apply not_elem_of_nil in He. }
    exists st. split_and!; [|done|done]. rewrite Hnone. unfold queued. by rewrite Hempty, map_sum_empty.
  - destruct (claim_succeeds st q (mkPeers (λ _ _, Panic) (λ _, Panic)) env info c Hc Hz) as (resp & Hex & Hm).
    { fold u. rewrite Hw. lia. }
    simpl in Hex. rewrite Hex. fold u in Hm |- *. unfold claimed. rewrite Hc. unfold cw20_spent. rewrite Hm. simpl.
    rewrite bool_decide_eq_true_2 by done.
    set (st1 := set_withdraws (delete u (PENDING_WITHDRAW st)) (vested st (now env) u)) in *.
    assert (PENDING_WITHDRAW st1 !! u = None) as Hnone by apply lookup_delete_eq.
    assert (queue_length st1 u = queue_length st u - 50) as Hlen1 by exact Hlen'.
    assert (queued st1 u + sum_N (due_vests st (now env) u).*2 = queued st u) as Hq1 by exact Hq.
    destruct j as [|j].
    + exists st1. simpl. assert (queue st1 u = ∅) as He by (apply queue_length_zero; lia).
      assert (queued st1 u = 0) by (unfold queued; by rewrite He, map_sum_empty).
      split_and!; [|done|done]. f_equal. f_equal. lia.
    + destruct (IH st1) as (st' & Hcl & He & Hn); [lia|done| | | | |].
      * destruct (Positive_vested st (now env) u HP) as [Hs _]. split; [exact Hs|]. simpl.
        intros v n. rewrite lookup_delete_Some. intros [_ Hv]. by apply HP in Hv.
      * fold u. intros e n. simpl. rewrite lookup_remove_keys. case_decide; [done|apply Hall].
      * fold u. rewrite Hlen1. lia.
      * fold u. rewrite Hnone. cbn [default from_option]. lia.
      * rewrite Hcl. fold u. rewrite Hnone. simpl. exists st'. split_and!; [|done|done].
        f_equal. f_equal. lia.
Qed.

(** C22: Vested rewards are paid. On every run whose budget fits the width of
    the numbers, once all the vests of an account have matured, claiming as
    often as there are fifty entries (at least once) succeeds every time, pays
    exactly what waited and what was vesting, and leaves nothing behind. *)
Theorem pool_vests_paid st A paid k j q env info :
  run fb st A paid k → A + 2 * k < u128_limit → (0 < j)%nat →
  let u := info_sender info in
  (∀ e n, SCHEDULED_VEST st !! (u, e) = Some n → e ≤ now env) →
  map_sum (λ _ _, 1) (prefix (SCHEDULED_VEST st) u) ≤ 50 * N.of_nat j →
  ∃ st', claims j q env info st =
      Some (st', default 0 (PENDING_WITHDRAW st !! u) + map_sum (λ _ n, n) (prefix (SCHEDULED_VEST st) u)) ∧
    prefix (SCHEDULED_VEST st') u = ∅ ∧ PENDING_WITHDRAW st' !! u = None.
Proof.
  intros Hr HA Hj u Hall Hlen. pose proof (run_claimable _ _ _ _ u Hr) as Hcl.
  destruct (run_promise _ _ _ _ Hr) as (c & _ & Hc & _). 
  eapply claims_total; [done|exact Hc|by eapply run_positive|exact Hall|exact Hlen|].
  fold u. lia.
Qed.

(** C29: Withdrawing starts a vesting period. A successful withdrawal moves
    exactly the rewards the account has pulled into an entry that ends on a day
    boundary, at most the vesting period from now and less than a day earlier;
    what has matured becomes claimable; no tokens move and no other account is
    touched. *)
Theorem pool_withdraw_vests st q peers env info st' resp c :
  CONFIG st = Some c → execute fb st q peers env info WithdrawRewards = Ok (st', resp) →
  let u := info_sender info in
  ∃ st1, update_reward_indexes st env c = Ok st1 ∧
    let n := pending_reward (pulled st1 u) in
    messages resp = [] ∧
    vesting st' + claimable st' = vesting st + claimable st + n ∧
    default 0 (PENDING_WITHDRAW st' !! u) =
      default 0 (PENDING_WITHDRAW st !! u) + sum_N (due_vests st (now env) u).*2 ∧
    from_option pending_reward 0 (REWARD_INFO st' !! u) = 0 ∧
    (n ≠ 0 → ∃ e m, SCHEDULED_VEST st' !! (u, e) = Some m ∧ n ≤ m ∧ e mod TIME_UNIT = 0 ∧
       e ≤ now env + vesting_period c < e + TIME_UNIT) ∧
    (∀ v, v ≠ u → REWARD_INFO st' !! v = REWARD_INFO st !! v ∧
       PENDING_WITHDRAW st' !! v = PENDING_WITHDRAW st !! v ∧
       ∀ e, SCHEDULED_VEST st' !! (v, e) = SCHEDULED_VEST st !! (v, e)).
Proof.
  intros Hc H u. subst u. simpl in H. unfold withdraw_rewards, load_config in H. inv_ok H. subst. platform_facts.
  assert (a = c) as -> by congruence. apply withdraw_single_spec in Ha1 as HW.
  pose proof Ha0 as Hu. apply indexes_spec in Hu as (b & o & -> & _).
  set (st1 := set_statuses b o st) in *. exists st1. split; [done|].
  pose proof (withdrawn_sums _ _ _ _ _ _ HW) as Hs. destruct HW. subst.
  split_and!; [done|exact Hs| | | |].
  - rewrite wd_withdraws0. unfold vested. cbn [PENDING_WITHDRAW set_withdraws].
    change (due_vests st (now env) (info_sender info)) with (due_vests st1 (now env) (info_sender info)).
    change (PENDING_WITHDRAW st !! (info_sender info)) with (PENDING_WITHDRAW st1 !! (info_sender info)).
    destruct (N.eqb_spec (withdrawable st1 (now env) (info_sender info)) 0) as [Hz|Hz].
    + rewrite lookup_delete_eq. by unfold withdrawable in Hz.
    + by rewrite lookup_insert_eq.
  - rewrite wd_rewards0. destruct (_ =? 0); [by rewrite lookup_delete_eq|by rewrite lookup_insert_eq].
  - intros Hn. destruct wd_vests0 as [[? _]|(_ & e & He & ->)]; [done|].
    unfold vest_end in He. simplify_option_eq. platform_facts. subst.
    eexists _, _. rewrite lookup_insert_eq. split_and!; [done|apply N.le_add_l| |apply N.le_sub_l|].
    + set (t := now env + vesting_period c). 
      rewrite (N.Div0.div_mod t TIME_UNIT) at 1. rewrite N.add_sub, N.mul_comm. apply N.Div0.mod_mul.
    + pose proof (N.mod_lt (now env + vesting_period c) TIME_UNIT ltac:(done)). lia.
  - intros v Hv. split_and!.
    + rewrite wd_rewards0. destruct (_ =? 0); [by rewrite lookup_delete_ne|by rewrite lookup_insert_ne].
    + rewrite wd_withdraws0. simpl. destruct (withdrawable _ _ _ =? 0); [by rewrite lookup_delete_ne|by rewrite lookup_insert_ne].
    + assert (∀ e, SCHEDULED_VEST (vested st1 (now env) (info_sender info)) !! (v, e) = SCHEDULED_VEST st !! (v, e)) as Hold.
      { intros e. simpl. rewrite lookup_remove_keys, decide_False; [done|]. by intros [? _]. }
      intros e. destruct wd_vests0 as [[_ ->]|(_ & e' & _ & ->)]; [done|].
      rewrite lookup_insert_ne; [done|congruence].
Qed.

(** ** A change of ratio after the schedule *)

(** One pool has already been given more than its present share. *)
Definition overspent (st : Storage) (t : N) : Prop :=
  ∃ c start stop amount, CONFIG st = Some c ∧ distribution_schedule c = (start, stop, amount) ∧
    start < stop ≤ t ∧
    (amount * base_pool_ratio c / DECIMAL_UNIT < total_distributed (base_of st) ∨
     amount * (DECIMAL_UNIT - base_pool_ratio c) / DECIMAL_UNIT < total_distributed (boost_of st)).

(** The messages that bring the indexes up to date first. *)
Definition needs_indexes (msg : ExecuteMsg Binary) : bool :=
  match msg with
  | Receive _ | Unbond _ | ActivateBoost | PrivilegedRefreshBoost _ | WithdrawRewards
  | WithdrawRewardsBulk _ _ | UpdateConfig _ (Some _) => true
  | _ => false
  end.

(** The states the contract goes through after time [t]. *)
Inductive later : Storage → N → Storage → N → Prop :=
  | later_now st t : later st t st t
  | later_step st t q peers env info msg st1 resp st' t' :
      t ≤ now env → execute fb st q peers env info msg = Ok (st1, resp) →
      later st1 (now env) st' t' → later st t st' t'.

Lemma overspent_indexes st t env c c' :
  overspent st t → t ≤ now env → CONFIG st = Some c →
  distribution_schedule c' = distribution_schedule c → base_pool_ratio c' = base_pool_ratio c →
  ∀ st', update_reward_indexes st env c' ≠ Ok st'.
Proof.
  intros (c2 & start & stop & amount & Hc & Hs & Ht & Hover) Hle Hc' Hs' Hr st' H.
  assert (c2 = c) as -> by congruence. apply update_indexes_spec in H as (b & o & _ & _ & _ & Hb & Ho & _).
  rewrite Hs', Hs, Hr in *.
  assert (due (start, stop, amount) (now env) = amount) as Hdue.
  { simpl. replace (N.min (now env - start) (stop - start)) with (stop - start) by lia. by rewrite N.div_mul by lia. }
  apply update_index_spec in Hb as [[? _]|(_ & _ & [] & Hb)]; [lia|].
  apply update_index_spec in Ho as [[? _]|(_ & _ & [] & Ho)]; [lia|].
  rewrite Hdue in *. lia.
Qed.

Lemma overspent_frame st st' t :
  CONFIG st' = CONFIG st → BASE_DISTRIBUTION_STATUS st' = BASE_DISTRIBUTION_STATUS st →
  BOOST_DISTRIBUTION_STATUS st' = BOOST_DISTRIBUTION_STATUS st → overspent st t → overspent st' t.
Proof. unfold overspent, base_of, boost_of. by intros -> -> ->. Qed.

Lemma overspent_later st t t' : t ≤ t' → overspent st t → overspent st t'.
Proof.
  intros Ht (c & start & stop & amount & Hc & Hs & ? & Ho). exists c, start, stop, amount. split_and!; try done; lia.
Qed.

Lemma overspent_blocks st t q peers env info msg r :
  overspent st t → t ≤ now env → needs_indexes msg = true → execute fb st q peers env info msg ≠ Ok r.
Proof.
  intros HO Ht Hm H. destruct r as [st' resp].
  pose proof (λ c c', overspent_indexes st t env c c' HO Ht) as Hno.
  destruct msg as [m|amount| |a| |lim start|ty| |bal|m r|rc b]; try done; simpl in H.
  - unfold receive_cw20 in H. inv_ok H. apply pool_bond_spec in H as (c & st1 & ? & Hc & _ & Hu & _). by eapply Hno in Hu.
  - apply pool_unbond_spec in H as (c & st1 & ? & Hc & Hu & _). by eapply Hno in Hu.
  - unfold activate_boost in H. inv_ok H. apply refresh_spec in Ha as (c & st1 & Hc & Hu & _). by eapply Hno in Hu.
  - unfold privileged_refresh_boost in H. inv_ok H. inv_ok H.
    apply refresh_spec in Ha1 as (c & st1 & Hc & Hu & _). by eapply Hno in Hu.
  - unfold withdraw_rewards, load_config in H. inv_ok H. platform_facts. by eapply Hno in Ha0.
  - unfold withdraw_rewards_bulk, load_config in H. inv_ok H. platform_facts. by eapply Hno in Ha0.
  - destruct r as [r|]; [|done].
    apply pool_update_config_spec in H as (_ & c & Hc & _ & _ & st1 & _ & _ & Hu & _).
    eapply Hno in Hu; [done|exact Hc|by destruct m|by destruct m].
Qed.

Lemma overspent_step st t q peers env info msg st' resp :
  overspent st t → t ≤ now env → execute fb st q peers env info msg = Ok (st', resp) → overspent st' (now env).
Proof.
  intros HO Ht H. destruct (needs_indexes msg) eqn:Hm; [by eapply overspent_blocks in H|].
  pose proof (overspent_later _ _ _ Ht HO) as HO'.
  destruct msg as [m|amount| |a| |lim start|ty| |bal|m r|rc b]; try done; simpl in H;
    try (unfold admin_withdraw_rewards, admin_send_withdrawn_rewards, bond_with_boost_contract_hook in H;
         inv_ok H; by subst).
  - apply claim_spec in H as (c & msgs & _ & _ & _ & _ & ->). by eapply overspent_frame; [..|exact HO'].
  - destruct r; [done|]. apply pool_update_config_spec in H as (_ & c & Hc & _ & H). simpl in H. subst st'.
    destruct HO' as (c2 & start & stop & amount & Hc2 & Hs & Hlt & Ho). assert (c2 = c) as -> by congruence.
    eexists _, start, stop, amount. split_and!; [done|by destruct m|lia|lia|]. by destruct m.
Qed.

Lemma overspent_steps st t st' t' : later st t st' t' → overspent st t → overspent st' t'.
Proof.
  induction 1 as [|s t q1 p1 e1 i1 m1 s1 r1 s' t1 Hle Hex _ IH]; [done|].
  intros HO. apply IH. by eapply overspent_step.
Qed.

(** C35: A change of ratio after the schedule has ended blocks the contract. When
    the schedule is over, the owner can still change the share of the base
    pool; if the change takes at least one unit from either pool, then in every
    later state bonding, unbonding, refreshing a boost, withdrawing rewards and
    setting another ratio all fail: the next update of the indexes subtracts
    what was distributed from the smaller new share. Bonded yLuna cannot be
    taken out any more. *)
Theorem pool_late_ratio_change_blocks st q peers env info m r st1 resp c start stop amount st' t' :
  CONFIG st = Some c → distribution_schedule c = (start, stop, amount) → start ≤ stop ≤ now env →
  execute fb st q peers env info (UpdateConfig m (Some r)) = Ok (st1, resp) →
  amount * r / DECIMAL_UNIT < amount * base_pool_ratio c / DECIMAL_UNIT ∨
  amount * (DECIMAL_UNIT - r) / DECIMAL_UNIT < amount * (DECIMAL_UNIT - base_pool_ratio c) / DECIMAL_UNIT →
  later st1 (now env) st' t' →
  ∀ q' peers' env' info' msg, t' ≤ now env' → needs_indexes msg = true →
    is_ok (execute fb st' q' peers' env' info' msg) = false.
Proof.
  intros Hc Hs Ht H Hlow Hl q' peers' env' info' msg Ht' Hm.
  assert (overspent st1 (now env)) as HO.
  { simpl in H. apply pool_update_config_spec in H as (_ & c0 & Hc0 & _ & _ & s1 & s2 & c' & Hu & Hr & ->).
    assert (c0 = c) as -> by congruence. destruct Hr as (Hrat & _ & _ & _ & Hr).
    assert (distribution_schedule (from_option (λ n, with_min_bond n c) c m) = distribution_schedule c ∧
      base_pool_ratio (from_option (λ n, with_min_bond n c) c m) = base_pool_ratio c) as [Hs1 Hr1] by by destruct m.
    rewrite Hs1, Hs in Hr. destruct Hr as [(? & _)|(_ & Hs' & ->)]; [lia|].
    apply update_indexes_spec in Hu as (b & o & _ & _ & _ & Hb & Ho & ->). rewrite Hs1, Hs, Hr1 in *.
    assert (start ≤ stop → start < stop → due (start, stop, amount) (now env) = amount) as Hdue.
    { intros _ ?. simpl. replace (N.min (now env - start) (stop - start)) with (stop - start) by lia.
      by rewrite N.div_mul by lia. }
    apply update_index_spec in Hb as [[? _]|(_ & Hlt & _ & Hb)]; [lia|].
    apply update_index_spec in Ho as [[? _]|(_ & _ & _ & Ho)]; [lia|]. rewrite Hdue in Hb, Ho by lia.
    exists c', start, stop, amount. split_and!; [done|done|lia|lia|].
    unfold base_of, boost_of. simpl. rewrite Hrat, Hb, Ho. exact Hlow. }
  destruct (execute fb st' q' peers' env' info' msg) eqn:Hex; try done. exfalso.
  by eapply overspent_blocks in Hex; [|by eapply overspent_steps|..].
Qed.

(** A schedule that starts when it ends is accepted, and blocks the contract
    from then on. *)
Lemma pool_empty_schedule_blocks st env c amount start st' :
  distribution_schedule c = (start, start, amount) → start ≤ now env →
  update_reward_indexes st env c ≠ Ok st'.
Proof.
  intros Hs Ht H. apply update_indexes_spec in H as (b & o & _ & _ & _ & Hb & _). rewrite Hs in Hb.
  apply update_index_spec in Hb as [[? _]|(_ & ? & _)]; lia.
Qed.
End properties.

(** ** Concrete runs *)
Section calls.
Context {P : Cosmwasm} {CA : CwAsset}.
Variable fb : Binary → outcome StdError Cw20HookMsg.

Record call : Type := mkCall {
  c_querier : Querier; c_peers : Peers; c_env : Env; c_info : MessageInfo; c_msg : ExecuteMsg Binary }.
Definition run_call (st : Storage) (c : call) :=
  execute fb st (c_querier c) (c_peers c) (c_env c) (c_info c) (c_msg c).
Definition next (s : Storage * N * N) (c : call) : option (Storage * N * N) :=
  let '(st, paid, k) := s in
  match run_call st c with
  | Ok (st', resp) => Some (st', paid + claimed st (c_msg c) resp, k + settlements st (c_msg c))
  | _ => None
  end.

Lemma calls_run A cs st paid k st' paid' k' :
  run fb st A paid k → optfold next (st, paid, k) cs = Some (st', paid', k') → run fb st' A paid' k'.
Proof.
  revert st paid k. induction cs as [|c cs IH]; intros st paid k Hr; simpl; [by intros [= <- <- <-]|].
  destruct (run_call st c) as [[st1 resp]| |] eqn:Hc; simpl; [|done..].
  intros H. eapply IH; [|exact H]. by eapply run_step.
Qed.
End calls.

Section witnesses.
Import Reference ReferenceAsset.
#[local] Existing Instance Reference.platform.
#[local] Existing Instance ReferenceAsset.cw_asset.

Definition parse_hook (b : Binary) : outcome StdError Cw20HookMsg :=
  match b with BinLaunchPoolHook m => Ok m | _ => Err ParseErr end.
Definition at_second (s : N) : Env := mkEnv 1 (s * 10 ^ 9) "pool".
Definition by_sender (a : Addr) : MessageInfo := mkInfo a [].
Definition chain : Querier :=
  mkQuerier (λ _, Ok []) (λ _ _, Ok None) (λ _, Ok None) (Ok []) (λ _ _, Ok 0) (λ _ _, Ok 0) (λ _, Ok 0).
(** Alice has a boost of 400, nobody else has any. *)
Definition boosts : Peers :=
  mkPeers (λ _ u, Ok (XprismBoostMsg.mkUserInfo 0 (if decide (u = "alice"%string) then 400 else 0) 0 0)) (λ _, Ok []).

Definition empty_storage : Storage := mkStorage None None None ∅ ∅ ∅ ∅.
Definition new_state (r : outcome ContractError (Storage * Response)) : Storage :=
  match r with Ok (st, _) => st | _ => empty_storage end.
Definition response_of (r : outcome ContractError (Storage * Response)) : Response :=
  match r with Ok (_, resp) => resp | _ => mkResponse [] [] end.
Lemma pool_run_Ok r : is_ok r = true → r = Ok (new_state r, response_of r).
Proof. by destruct r as [[? ?]| |]. Qed.

(** A million PRISM between the seconds 1000 and 2000, half of it to the base
    pool, vesting for thirty days. *)
Definition init_msg : InstantiateMsg :=
  mkInstantiateMsg "owner" "operator" "prism" "xprism" "staking" "yluna" "gov" 2592000 "boost"
    (1000, 2000, 1000000) (5 * 10 ^ 17) 10.
Definition run_instantiate := instantiate init_msg.
Lemma prun_init_Ok : run_instantiate = Ok (new_state run_instantiate, response_of run_instantiate).
Proof. apply pool_run_Ok. vm_compute. reflexivity. Qed.

Definition bond_call (u : Addr) (n s : N) : call :=
  mkCall chain boosts (at_second s) (by_sender "yluna") (Receive (mkCw20Receive u n (BinLaunchPoolHook Bond))).
Definition pool_calls : list call :=
  [bond_call "alice" 100 500; bond_call "bob" 300 600;
   mkCall chain boosts (at_second 1500) (by_sender "alice") WithdrawRewards;
   mkCall chain boosts (at_second 1600) (by_sender "bob") (Unbond (Some 100))].
Definition final (s : option (Storage * N * N)) : Storage * N * N := default (empty_storage, 0, 0) s.
Definition pool_state : Storage := (final (optfold (next parse_hook) (new_state run_instantiate, 0, 0) pool_calls)).1.1.
Lemma pool_calls_Ok :
  optfold (next parse_hook) (new_state run_instantiate, 0, 0) pool_calls = Some (pool_state, 0, 4).
Proof. vm_compute. reflexivity. Qed.
Lemma pool_run : run parse_hook pool_state 1000000 0 4.
Proof.
  exact (calls_run parse_hook 1000000 pool_calls _ 0 0 _ 0 4
    (run_init parse_hook init_msg _ _ prun_init_Ok) pool_calls_Ok).
Qed.

Lemma pool_books_witness :
  ∃ base, BASE_DISTRIBUTION_STATUS pool_state = Some base ∧
    map_sum (λ _ n, n) (BOND_AMOUNTS pool_state) = total_weight base ∧ total_weight base = 300.
Proof.
  destruct (pool_books (P:=platform) parse_hook _ _ _ _ pool_run) as (base & boost & Hb & _ & Hs & _).
  exists base. split; [exact Hb|]. split; [exact Hs|]. rewrite <-Hs. vm_compute. reflexivity.
Defined.

Lemma pool_promises_bounded_witness :
  ∃ base, BASE_DISTRIBUTION_STATUS pool_state = Some base ∧
    DECIMAL_UNIT * map_sum (λ _ n, n) (SCHEDULED_VEST pool_state) ≤ DECIMAL_UNIT * (1000000 + 2 * 4) ∧
    map_sum (λ _ n, n) (SCHEDULED_VEST pool_state) = 312500.
Proof.
  destruct (pool_promises_bounded (P:=platform) parse_hook _ _ _ _ pool_run) as (base & boost & Hb & _ & Hle).
  exists base. split; [exact Hb|]. split; [|vm_compute; reflexivity].
  refine (N.le_trans _ _ _ _ Hle). refine (N.le_trans _ _ _ _ (N.le_add_l _ _)).
  apply N.mul_le_mono_l. rewrite N.add_0_r. apply N.le_add_r.
Defined.

Definition run_vest :=
  execute parse_hook pool_state chain boosts (at_second 1700) (by_sender "bob") WithdrawRewards.
Lemma prun_vest_Ok :
  execute parse_hook pool_state chain boosts (at_second 1700) (by_sender "bob") WithdrawRewards =
    Ok (new_state run_vest, response_of run_vest).
Proof. apply (pool_run_Ok run_vest). vm_compute. reflexivity. Qed.
Definition pool_config : Config :=
  mkConfig "owner" "operator" "prism" "xprism" "gov" "staking" "yluna" 2592000 "boost"
    (1000, 2000, 1000000) (5 * 10 ^ 17) 10.
Lemma pool_state_config : CONFIG pool_state = Some pool_config.
Proof. vm_compute. reflexivity. Qed.
Lemma pool_withdraw_vests_witness :
  vesting (new_state run_vest) + claimable (new_state run_vest) = 312500 + 258333 ∧
  ∃ st1, update_reward_indexes pool_state (at_second 1700) pool_config = Ok st1 ∧
    vesting (new_state run_vest) + claimable (new_state run_vest) =
    vesting pool_state + claimable pool_state + pending_reward (pulled st1 "bob").
Proof.
  split; [vm_compute; reflexivity|].
  destruct (pool_withdraw_vests (P:=platform) parse_hook pool_state chain boosts (at_second 1700) (by_sender "bob")
    (new_state run_vest) (response_of run_vest) pool_config pool_state_config prun_vest_Ok) as (st1 & Hu & _ & Hs & _).
  exists st1. split; [exact Hu|exact Hs].
Defined.

Lemma pool_alice_vests e n : SCHEDULED_VEST pool_state !! ("alice"%string, e) = Some n → e ≤ 2700000.
Proof.
  assert (SCHEDULED_VEST pool_state = {[ ("alice"%string, 2592000) := 312500 ]}) as -> by (vm_compute; reflexivity).
  intros [[= <-] _]%lookup_singleton_Some. done.
Qed.
Lemma pool_vests_paid_witness :
  ∃ st', claims parse_hook 1 chain (at_second 2700000) (by_sender "alice") pool_state = Some (st', 312500) ∧
    PENDING_WITHDRAW st' !! ("alice"%string : Addr) = None.
Proof.
  destruct (pool_vests_paid (P:=platform) parse_hook pool_state _ _ _ 1 chain (at_second 2700000) (by_sender "alice")
    pool_run) as (st' & Hc & _ & Hn);
    [vm_compute; reflexivity|apply le_n|exact pool_alice_vests|vm_compute; discriminate|].
  exists st'. split; [|exact Hn]. refine (eq_trans Hc _). f_equal.
Defined.

(** The owner lowers the base share from 50% to 30% after the schedule. *)
Definition run_late :=
  execute parse_hook pool_state chain boosts (at_second 3000) (by_sender "owner")
    (UpdateConfig None (Some (3 * 10 ^ 17))).
Lemma prun_late_Ok :
  execute parse_hook pool_state chain boosts (at_second 3000) (by_sender "owner")
    (UpdateConfig None (Some (3 * 10 ^ 17))) = Ok (new_state run_late, response_of run_late).
Proof. apply (pool_run_Ok run_late). vm_compute. reflexivity. Qed.
Lemma pool_late_ratio_change_blocks_witness :
  is_ok (execute parse_hook (new_state run_late) chain boosts (at_second 4000) (by_sender "alice") (Unbond None))
    = false ∧
  is_ok (execute parse_hook pool_state chain boosts (at_second 4000) (by_sender "alice") (Unbond None)) = true.
Proof.
  split; [|vm_compute; reflexivity].
  apply (pool_late_ratio_change_blocks (P:=platform) parse_hook pool_state chain boosts (at_second 3000)
    (by_sender "owner") None (3 * 10 ^ 17) (new_state run_late) (response_of run_late) pool_config 1000 2000 1000000
    (new_state run_late) (now (at_second 3000)) pool_state_config eq_refl);
    [split; vm_compute; discriminate|exact prun_late_Ok|left; vm_compute; reflexivity|apply later_now
    |vm_compute; discriminate|reflexivity].
Defined.
End witnesses.
End LaunchPoolSpec.
