(* ===== verification/PoolBoost.v ===== *)
(** * The launch pool and the boost contract together

    The boost contract ([XprismBoost]) and the launch pool ([LaunchPool]) call
    each other: the pool asks for an account's boost whenever it settles the
    account, and the boost contract tells the pool when an account has unbonded
    xPRISM (contracts/prism-xprism-boost/src/contract.rs, [unbond];
    contracts/prism-launch-pool/src/contract.rs, [privileged_refresh_boost]).

    The pool is verified against the interface [BoostService]; [XprismBoost]
    implements it; [happens] delivers the messages of a transaction in order,
    depth first, with arbitrary activity of the other contracts in between. *)
From S2P Require Import Prelude Cosmwasm Protocol XprismBoost XprismBoostProofs LaunchPool LaunchPoolProofs.
From S2P Require Import XprismBoostSpec LaunchPoolSpec.

Module PoolBoost.

(** ** What the pool relies on *)

(** A boost service in state [s]: what it answers, and the boost it stands for
    at a time.  Boost only grows with time. *)
Class BoostService (Svc : Type) : Type := {
  service_ok : Svc → N → Prop;
  service_answer : Svc → Env → Addr → outcome StdError XprismBoostMsg.UserInfo;
  service_level : Svc → N → Addr → N }.

Class BoostServiceLaws {P : Cosmwasm} {Svc : Type} (B : BoostService Svc) : Prop := {
  service_answers s env u i :
    service_ok s (LaunchPool.now env) → service_answer s env u = Ok i →
    XprismBoostMsg.total_boost i = service_level s (LaunchPool.now env) u;
  service_grows s t t' u : service_ok s t → t ≤ t' → service_level s t u ≤ service_level s t' u }.

(** No account but the exempt ones has more weight in the boost pool than its
    bond and its present boost justify. *)
Definition justified {Svc} `{BoostService Svc} (s : Svc) (st : LaunchPool.Storage) (t : N) (exempt : Addr → Prop) : Prop :=
  ∀ u i, LaunchPool.REWARD_INFO st !! u = Some i →
    exempt u ∨ LaunchPool.boost_weight i ≤ N.sqrt (LaunchPoolProofs.bond_of st u * service_level s t u).

(** ** The pool as a client of the service *)
Section client.
Import LaunchPoolMsg LaunchPool LaunchPoolProofs.
Context {P : Cosmwasm} {L : CosmwasmLaws P} {CA : CwAsset} {Svc : Type} {B : BoostService Svc} {BL : BoostServiceLaws (P:=P) B}.
Variable fb : Binary → outcome StdError Cw20HookMsg.

Lemma justified_weaken (s : Svc) st t (E E' : Addr → Prop) :
  (∀ u, E u → E' u) → justified s st t E → justified s st t E'.
Proof. intros HE HJ u i Hi. destruct (HJ u i Hi); auto. Qed.

Lemma sqrt_level_mono n a b : a ≤ b → N.sqrt (n * a) ≤ N.sqrt (n * b).
Proof. intros. by apply N.sqrt_le_mono, N.mul_le_mono_l. Qed.

(** A service that has no less to give. *)
Lemma justified_grow (s s' : Svc) st t t' (E E' : Addr → Prop) :
  (∀ u, E u → E' u) → (∀ u, E' u ∨ service_level s t u ≤ service_level s' t' u) →
  justified s st t E → justified s' st t' E'.
Proof.
  intros HE Hs HJ u i Hi. destruct (HJ u i Hi) as [?|Hw]; [by auto|].
  destruct (Hs u) as [?|Hu]; [by left|right]. etrans; [exact Hw|]. by apply sqrt_level_mono.
Qed.

Lemma justified_frame (s : Svc) st st' t E :
  BOND_AMOUNTS st' = BOND_AMOUNTS st → REWARD_INFO st' = REWARD_INFO st →
  justified s st t E → justified s st' t E.
Proof. unfold justified, bond_of. by intros -> ->. Qed.

Lemma justified_indexes (s : Svc) st env c st1 t E :
  update_reward_indexes st env c = Ok st1 → justified s st t E → justified s st1 t E.
Proof. intros (b & o & -> & _)%indexes_spec. by apply justified_frame. Qed.

Lemma justified_resettled (s : Svc) st st' c peers u stake boost t E :
  resettled st st' c peers u stake boost → boost = service_level s t u →
  justified s st t E → justified s st' t (λ v, E v ∧ v ≠ u).
Proof.
  intros HR -> HJ v i Hv. rewrite (bond_of_resettled _ _ _ _ _ _ _ v HR).
  destruct (rewards_resettled _ _ _ _ _ _ _ _ _ HR Hv) as [[Hne Hi]|[-> ->]].
  - rewrite decide_False by done. destruct (HJ v i Hi); auto.
  - rewrite decide_True by done. by right.
Qed.

Lemma justified_withdrawn (s : Svc) st st' env c u n t E :
  withdrawn st st' env c u n → justified s st t E → justified s st' t E.
Proof.
  intros [] HJ v i. unfold bond_of. rewrite wd_bonds0, wd_rewards0. fold (bond_of st v).
  destruct (bond_of st u =? 0).
  - rewrite lookup_delete_Some. intros [_ Hi]. by apply HJ.
  - rewrite lookup_insert_Some. intros [[<- <-]|[_ Hi]]; [|by apply HJ]. simpl. unfold stored.
    destruct (REWARD_INFO st !! u) as [i|] eqn:Hi; [by apply HJ|]. right. apply N.le_0_l.
Qed.

(** The account whose weight a message of the pool computes anew. *)
Definition settled_account (info : MessageInfo) (m : ExecuteMsg Binary) : option Addr :=
  match m with
  | Receive msg => Some (cw20_sender msg)
  | Unbond _ | ActivateBoost => Some (info_sender info)
  | PrivilegedRefreshBoost a => Some a
  | _ => None
  end.

(** Every message of the pool keeps the weights justified, and makes that of the
    account it settles justified. *)
Lemma execute_justified (s : Svc) st q peers env info m st' resp c E :
  service_ok s (now env) → CONFIG st = Some c →
  (∀ u, query_get_boost peers (boost_contract c) u = service_answer s env u) →
  execute fb st q peers env info m = Ok (st', resp) →
  justified s st (now env) E → justified s st' (now env) (λ u, E u ∧ settled_account info m ≠ Some u).
Proof.
  intros Hok Hc Hq H HJ.
  assert (∀ st1 c' st2 u stake boost, update_reward_indexes st env c' = Ok st1 → CONFIG st = Some c' →
    resettled st1 st2 c' peers u stake boost → justified s st2 (now env) (λ v, E v ∧ Some u ≠ Some v)) as Hset.
  { intros st1 c' st2 u stake boost Hu Hc' HR. assert (c' = c) as -> by congruence.
    eapply (justified_weaken s _ _ (λ v, E v ∧ v ≠ u)); [intros v [? ?]; split; congruence|].
    eapply justified_resettled; [exact HR| |by eapply justified_indexes].
    destruct HR. unfold query_boost_amount in rs_query0. inv_ok rs_query0. rewrite Hq in Ha.
    rewrite <-rs_query0. by eapply service_answers. }
  destruct m; simpl in H;
    try (unfold admin_withdraw_rewards, admin_send_withdrawn_rewards, bond_with_boost_contract_hook in H;
         inv_ok H; subst; eapply justified_weaken; [|exact HJ]; auto).
  - unfold receive_cw20 in H. inv_ok H. apply addr_validate_law in Ha as ->.
    apply pool_bond_spec in H as (c' & st1 & boost & Hc' & _ & Hu & HR & _). by eapply Hset.
  - apply pool_unbond_spec in H as (c' & st1 & boost & Hc' & Hu & _ & _ & _ & HR & _). by eapply Hset.
  - unfold activate_boost in H. inv_ok H. subst. apply refresh_spec in Ha as (c' & st1 & Hc' & Hu & _ & HR).
    by eapply Hset.
  - unfold privileged_refresh_boost in H. inv_ok H. inv_ok H. subst. apply addr_validate_law in Ha as ->.
    apply refresh_spec in Ha1 as (c' & st1 & Hc' & Hu & _ & HR). by eapply Hset.
  - unfold withdraw_rewards in H. inv_ok H. subst. apply withdraw_single_spec in Ha1.
    eapply justified_weaken, justified_withdrawn, justified_indexes; [|exact Ha1|exact Ha0|exact HJ]. auto.
  - unfold withdraw_rewards_bulk in H. inv_ok H. subst.
    eapply justified_weaken; [|revert Ha2; apply (ofold_ind (λ st, justified s st (now env) E))]; [auto| |].
    + by eapply justified_indexes.
    + intros st1 u st2 _ Hs Hw. inv_ok Hw. subst. apply withdraw_single_spec in Ha2. by eapply justified_withdrawn.
  - apply claim_spec in H as (c' & msgs & _ & _ & _ & _ & ->).
    eapply justified_weaken; [|eapply (justified_frame s st); [done..|exact HJ]]. auto.
  - apply pool_update_config_spec in H as (_ & c' & _ & _ & H).
    eapply (justified_weaken s st' (now env) E); [simpl; auto|].
    match type of H with context [match ?o with Some _ => _ | None => _ end] => destruct o as [r|] end.
    + destruct H as (_ & st1 & st2 & c2 & Hu & (_ & _ & _ & _ & Hr) & ->). eapply justified_indexes in HJ; [|exact Hu].
      destruct (distribution_schedule _) as [[start stop] amount].
      destruct Hr as [(_ & _ & _ & ->)|(_ & _ & ->)]; (eapply justified_frame; [..|exact HJ]); done.
    + simpl in H. subst. eapply justified_frame; [..|exact HJ]; done.
Qed.

(** The pool never forgets its boost contract. *)
Lemma execute_boost_contract st q peers env info m st' resp :
  execute fb st q peers env info m = Ok (st', resp) →
  boost_contract <$> CONFIG st' = boost_contract <$> CONFIG st.
Proof.
  assert (∀ st env c st1, update_reward_indexes st env c = Ok st1 → CONFIG st1 = CONFIG st) as Hix
    by apply indexes_config.
  intros H. destruct m; simpl in H;
    try (unfold admin_withdraw_rewards, admin_send_withdrawn_rewards, bond_with_boost_contract_hook in H;
         inv_ok H; by subst).
  - unfold receive_cw20 in H. inv_ok H. apply pool_bond_spec in H as (c' & st1 & boost & _ & _ & Hu & [] & _).
    by rewrite rs_config0, (Hix _ _ _ _ Hu).
  - apply pool_unbond_spec in H as (c' & st1 & boost & _ & Hu & _ & _ & _ & [] & _).
    by rewrite rs_config0, (Hix _ _ _ _ Hu).
  - unfold activate_boost in H. inv_ok H. subst. apply refresh_spec in Ha as (c' & st1 & _ & Hu & _ & []).
    by rewrite rs_config0, (Hix _ _ _ _ Hu).
  - unfold privileged_refresh_boost in H. inv_ok H. inv_ok H. subst.
    apply refresh_spec in Ha1 as (c' & st1 & _ & Hu & _ & []). by rewrite rs_config0, (Hix _ _ _ _ Hu).
  - unfold withdraw_rewards in H. inv_ok H. subst. apply withdraw_single_spec in Ha1 as [].
    by rewrite wd_config0, (Hix _ _ _ _ Ha0).
  - unfold withdraw_rewards_bulk in H. inv_ok H. subst.
    rewrite <-(Hix _ _ _ _ Ha0). revert Ha2.
    apply (ofold_ind (λ s, boost_contract <$> CONFIG s = boost_contract <$> CONFIG a0)); [done|].
    intros s u s' _ Hs Hw. inv_ok Hw. subst. apply withdraw_single_spec in Ha2 as []. by rewrite wd_config0.
  - apply claim_spec in H as (c' & msgs & _ & _ & _ & _ & ->). done.
  - apply pool_update_config_spec in H as (_ & c' & Hc' & _ & H). rewrite Hc'.
    match type of H with context [match ?o with Some _ => _ | None => _ end] => destruct o as [r|] end.
    + destruct H as (_ & st1 & st2 & c2 & _ & (_ & _ & Hb & _) & ->). simpl. rewrite Hb. match goal with |- context [from_option _ _ ?m] => by destruct m end.
    + simpl in H. subst. simpl. match goal with |- context [from_option _ _ ?m] => by destruct m end.
Qed.
End client.

(** ** The boost contract implements the service *)
Section service.
Import XprismBoostMsg XprismBoost XprismBoostProofs.
Context {P : Cosmwasm} {L : CosmwasmLaws P}.
Variable fb : Binary → outcome StdError Cw20HookMsg.

(** The boost of [u] at time [t]: what is recorded and what has accrued since,
    within the cap. *)
Definition level (st : Storage) (t : N) (u : Addr) : N :=
  match CONFIG st, USER_INFO st !! u with
  | Some c, Some i =>
      if last_updated i <? t then N.min (total_boost i + accrued c i (t - last_updated i)) (cap c i)
      else total_boost i
  | _, _ => 0
  end.

#[global] Instance boost_service : BoostService Storage := {
  service_ok := Inv; service_answer := get_boost; service_level := level }.

Lemma level_stored st t u c i :
  CONFIG st = Some c → user_ok c t i → USER_INFO st !! u = Some i →
  level st t u = N.min (total_boost i + accrued c i (t - last_updated i)) (cap c i).
Proof.
  intros Hc (_ & Hb & _ & Hl) Hi. unfold level. rewrite Hc, Hi. destruct (N.ltb_spec (last_updated i) t); [done|].
  unfold accrued. replace (t - last_updated i) with 0 by lia. rewrite N.mul_0_l, N.div_0_l, N.mul_0_r, N.div_0_l by done.
  lia.
Qed.

#[global] Instance boost_service_laws : BoostServiceLaws (P:=P) boost_service.
Proof.
  split.
  - intros st env u i (c & Hc & Hok) H. simpl in H. simpl. unfold get_boost in H.
    destruct (USER_INFO st !! u) as [j|] eqn:Hu; simpl in H.
    + change (LaunchPool.now env) with (now env) in *. rewrite (level_stored _ _ _ _ _ Hc (Hok _ _ Hu) Hu).
      pose proof (Hok _ _ Hu) as (? & Hb & _ & Hl).
      apply accumulate_spec in H as [[-> [?|?]]|(_ & _ & c' & Hc' & ->)]; [done| |by simplify_eq].
      unfold accrued. replace (now env - last_updated j) with 0 by lia.
      rewrite N.mul_0_l, N.div_0_l, N.mul_0_r, N.div_0_l by done. lia.
    + unfold level. rewrite Hu. injection H as <-. by destruct (CONFIG st).
  - intros st t t' u (c & Hc & Hok) Ht. simpl. destruct (USER_INFO st !! u) as [i|] eqn:Hu.
    + pose proof (Hok _ _ Hu) as Hi.
      rewrite (level_stored _ _ _ _ _ Hc Hi Hu), (level_stored st t' u c i Hc); [|by eapply user_ok_weaken|done].
      pose proof (accrued_mono c i (t - last_updated i) (t' - last_updated i)). lia.
    + unfold level. rewrite Hu. by destruct (CONFIG st).
Qed.

(** The accounts from which a message takes boost without telling the pool at
    [pool]: everybody when the owner lowers the rate, since what has accrued and
    is not recorded is computed with the new rate; an account that unbonds while
    the contract notifies no pool, or another one. *)
Definition takes_silently (pool : Addr) (st : Storage) (info : MessageInfo) (msg : ExecuteMsg Binary) (u : Addr) : bool :=
  match msg with
  | UpdateConfig _ rate _ _ =>
      match rate, CONFIG st with Some r, Some c => r <? cfg_boost_per_hour c | _, _ => false end
  | Unbond _ => bool_decide (u = info_sender info) &&
      negb (bool_decide (cfg_launch_pool_contract <$> CONFIG st = Some (Some pool)))
  | _ => false
  end.

(** The account a message unbonds, with the messages that go out. *)
Definition unbonds (info : MessageInfo) (msg : ExecuteMsg Binary) (u : Addr) : Prop :=
  match msg with Unbond _ => u = info_sender info | _ => False end.

Lemma bond_level st env u n st' resp t c v :
  Inv st t → t ≤ now env → CONFIG st = Some c →
  bond st env u n = Ok (st', resp) → level st (now env) v ≤ level st' (now env) v.
Proof.
  intros (c0 & Hc0 & Hok) Ht Hc H. assert (c0 = c) as -> by congruence. clear Hc0.
  apply boost_bond_spec in H as (Hn & Hm & i & Hi & ->). destruct (decide (v = u)) as [->|Hne].
  - destruct (USER_INFO st !! u) as [j|] eqn:Hu; [|unfold level at 1; rewrite Hu, Hc; apply N.le_0_l].
    rewrite (level_stored st (now env) u c j Hc); [|eapply user_ok_weaken; [by apply (Hok u)|done|done]|done].
    simpl in Hi. assert (total_boost i = N.min (total_boost j + accrued c j (now env - last_updated j)) (cap c j)
      ∧ now env ≤ last_updated i) as [Hb Hl].
    { destruct (Hok _ _ Hu) as (? & ? & _ & ?).
      apply accumulate_spec in Hi as [[-> [?|?]]|(_ & _ & c' & Hc' & ->)]; [done| |by simplify_eq].
      split; [|done]. unfold accrued. replace (now env - last_updated j) with 0 by lia.
      rewrite N.mul_0_l, N.div_0_l, N.mul_0_r, N.div_0_l by done. lia. }
    unfold level. simpl. rewrite Hc, lookup_insert_eq. simpl. rewrite (proj2 (N.ltb_ge _ _)) by done. by rewrite Hb.
  - unfold level. simpl. rewrite Hc, lookup_insert_ne by done. done.
Qed.

Lemma config_level st c c' t u :
  CONFIG st = Some c → cfg_boost_per_hour c ≤ cfg_boost_per_hour c' →
  cfg_max_boost_per_xprism c ≤ cfg_max_boost_per_xprism c' → level st t u ≤ level (save_config c' st) t u.
Proof.
  intros Hc Hrate Hmax. unfold level. simpl. rewrite Hc.
  destruct (USER_INFO st !! u) as [i|]; [|done]. destruct (_ <? _); [|done].
  assert (cap c i ≤ cap c' i) by by apply N.mul_le_mono_l.
  assert (hourly c i ≤ hourly c' i) as Hh by (apply N.Div0.div_le_mono; by apply N.mul_le_mono_l).
  assert (accrued c i (t - last_updated i) ≤ accrued c' i (t - last_updated i))
    by (unfold accrued; apply N.Div0.div_le_mono; by apply N.mul_le_mono_r).
  lia.
Qed.

(** A message leaves an account at least its boost, or takes it silently, or
    unbonds and orders the notice. *)
Lemma execute_level st env info msg st' resp t pool u :
  execute fb st env info msg = Ok (st', resp) → Inv st t → t ≤ now env →
  takes_silently pool st info msg u = true ∨ level st t u ≤ level st' (now env) u ∨
  unbonds info msg u ∧ ∃ token n, messages resp = sub_new <$> [transfer_msg token u n; refresh_msg pool u].
Proof.
  intros H HI Ht. pose proof HI as (c & Hc & Hok).
  pose proof (service_grows st t (now env) u HI Ht) as Hg. simpl in Hg.
  destruct msg as [m|o r mb lp|amount]; simpl in H.
  - right. left. etrans; [exact Hg|]. inv_ok H. unfold receive_cw20 in H. inv_ok H. by eapply bond_level.
  - inv_ok H. apply boost_update_config_spec in H as (Hm & c1 & c' & Hc1 & -> & _ & Hr & _ & Hmax & _).
    assert (c1 = c) as -> by congruence. simpl. rewrite Hc.
    destruct (decide (cfg_boost_per_hour c ≤ cfg_boost_per_hour c')) as [Hle|Hgt].
    + right. left. etrans; [exact Hg|]. by apply (config_level _ c).
    + left. destruct r as [r|]; simpl in Hr; [apply N.ltb_lt|]; lia.
  - apply boost_unbond_spec in H as (c1 & i & Hc1 & Hi & _ & -> & Hm). assert (c1 = c) as -> by congruence.
    simpl. rewrite Hc. simpl. destruct (decide (u = info_sender info)) as [->|Hne].
    + rewrite bool_decide_eq_true_2 by done. simpl. destruct (decide (cfg_launch_pool_contract c = Some pool)) as [Hp|Hp].
      * right. right. split; [done|]. eexists _, _. rewrite Hm. unfold notices. by rewrite Hp.
      * left. by rewrite bool_decide_eq_false_2 by congruence.
    + right. left. etrans; [exact Hg|]. unfold level, unbonded. destruct (_ =? 0); simpl;
        [rewrite lookup_delete_ne by done|rewrite lookup_insert_ne by done]; done.
Qed.
End service.

(** ** The two contracts on one chain *)

(** [late] is not stored anywhere: it marks the accounts that have lost boost
    without a notice to the pool and that the pool has not settled since. *)
Record System : Type := mkSystem {
  boost_state : XprismBoost.Storage;
  pool_state : LaunchPool.Storage;
  late : Addr → bool }.

Definition with_boost (st : XprismBoost.Storage) (s : System) : System := mkSystem st (pool_state s) (late s).
Definition with_pool (st : LaunchPool.Storage) (s : System) : System := mkSystem (boost_state s) st (late s).
Definition with_late (f : Addr → bool) (s : System) : System := mkSystem (boost_state s) (pool_state s) f.
Definition at_contract (env : Env) (a : Addr) : Env := mkEnv (block_height env) (block_time env) a.

(** What goes on inside a transaction: a message is executed by one of the two
    contracts, the messages a contract has ordered are delivered, and the other
    contracts and accounts do whatever they can. *)
Inductive activity : Type :=
  | InvokePool (sender : Addr) (msg : LaunchPoolMsg.ExecuteMsg Binary)
  | InvokeBoost (sender : Addr) (msg : XprismBoostMsg.ExecuteMsg Binary)
  | Deliver (from : Addr) (msgs : list SubMsg)
  | Outside.

Section system.
Context {P : Cosmwasm} {L : CosmwasmLaws P} {CA : CwAsset}.
Variable boost_parser : Binary → outcome StdError XprismBoostMsg.Cw20HookMsg.
Variable pool_parser : Binary → outcome StdError LaunchPoolMsg.Cw20HookMsg.
Variables boost_addr pool_addr : Addr.

(** The pool's queries are answered by the boost contract as it is now. *)
Definition peers (s : System) (env : Env) (whitelist : Addr → outcome StdError (list AssetInfo))
    : LaunchPool.Peers :=
  LaunchPool.mkPeers
    (λ c u, if decide (c = boost_addr)
            then XprismBoost.get_boost (boost_state s) (at_contract env boost_addr) u else Err ParseErr)
    whitelist.

Definition for_pool (m : CosmosMsg) : bool :=
  match m with WasmExecute c _ _ => bool_decide (c = pool_addr) | _ => false end.

(** The system after one message to a contract, with the accounts that become
    late, or are settled. *)
Definition after_pool (info : MessageInfo) (msg : LaunchPoolMsg.ExecuteMsg Binary) (st' : LaunchPool.Storage)
    (s : System) : System :=
  with_late (λ u, late s u && negb (bool_decide (settled_account info msg = Some u))) (with_pool st' s).
Definition after_boost (info : MessageInfo) (msg : XprismBoostMsg.ExecuteMsg Binary) (st' : XprismBoost.Storage)
    (s : System) : System :=
  with_late (λ u, late s u || takes_silently pool_addr (boost_state s) info msg u) (with_boost st' s).

(** Everything in a transaction happens in one block, [env]; it succeeds only
    if every message does. *)
Inductive happens (env : Env) : activity → System → System → Prop :=
  | invoke_pool sender funds q whitelist msg s st' resp s' :
      LaunchPool.execute pool_parser (pool_state s) q (peers s env whitelist) (at_contract env pool_addr)
        (mkInfo sender funds) msg = Ok (st', resp) →
      happens env (Deliver pool_addr (messages resp)) (after_pool (mkInfo sender funds) msg st' s) s' →
      happens env (InvokePool sender msg) s s'
  | invoke_boost sender funds msg s st' resp s' :
      XprismBoost.execute boost_parser (boost_state s) (at_contract env boost_addr)
        (mkInfo sender funds) msg = Ok (st', resp) →
      happens env (Deliver boost_addr (messages resp)) (after_boost (mkInfo sender funds) msg st' s) s' →
      happens env (InvokeBoost sender msg) s s'
  | deliver_nil from s :
      happens env (Deliver from []) s s
  | deliver_pool from sm msg funds rest s s1 s' :
      sub_msg sm = WasmExecute pool_addr (BinLaunchPool msg) funds →
      happens env (InvokePool from msg) s s1 → happens env (Deliver from rest) s1 s' →
      happens env (Deliver from (sm :: rest)) s s'
  | deliver_other from sm rest s s1 s' :
      for_pool (sub_msg sm) = false →
      happens env Outside s s1 → happens env (Deliver from rest) s1 s' →
      happens env (Deliver from (sm :: rest)) s s'
  | outside_nothing s : happens env Outside s s
  | outside_pool sender msg s s1 s' :
      sender ≠ pool_addr → sender ≠ boost_addr →
      happens env (InvokePool sender msg) s s1 → happens env Outside s1 s' → happens env Outside s s'
  | outside_boost sender msg s s1 s' :
      sender ≠ pool_addr → sender ≠ boost_addr →
      happens env (InvokeBoost sender msg) s s1 → happens env Outside s1 s' → happens env Outside s s'.

(** The states between transactions, with the time: the pool is given the boost
    contract when nobody has boost weight in the pool yet; then time passes and
    transactions are executed. *)
Inductive system_run : System → N → Prop :=
  | system_init s t ledger A paid k :
      XprismBoostSpec.run boost_parser (boost_state s) t ledger →
      LaunchPoolSpec.run pool_parser (pool_state s) A paid k →
      LaunchPool.boost_contract <$> LaunchPool.CONFIG (pool_state s) = Some boost_addr →
      (∀ u i, LaunchPool.REWARD_INFO (pool_state s) !! u = Some i → LaunchPool.boost_weight i = 0) →
      (∀ u, late s u = false) → system_run s t
  | system_wait s t t' : system_run s t → t ≤ t' → system_run s t'
  | system_transactions s t env s' :
      system_run s t → t ≤ XprismBoost.now env → happens env Outside s s' →
      system_run s' (XprismBoost.now env).

(** The invariant, with the accounts whose notice is on its way: they and the late
    ones are exempt. *)
Record Coupled (t : N) (s : System) (exempt : Addr → Prop) : Prop := {
  cp_boost : XprismBoostProofs.Inv (boost_state s) t;
  cp_contract : LaunchPool.boost_contract <$> LaunchPool.CONFIG (pool_state s) = Some boost_addr;
  cp_justified : justified (boost_state s) (pool_state s) t (λ u, late s u = true ∨ exempt u) }.

Lemma Coupled_weaken t s (E E' : Addr → Prop) : (∀ u, E u → E' u) → Coupled t s E → Coupled t s E'.
Proof. intros HE []. split; try done. eapply justified_weaken; [|done]. intros u [?|?]; auto. Qed.

Lemma Coupled_later t t' s E : t ≤ t' → Coupled t s E → Coupled t' s E.
Proof.
  intros Ht []. split; [by eapply XprismBoostProofs.Inv_later|done..|]. eapply justified_grow; [..|exact cp_justified0]; [done|].
  intros u. right. by apply (service_grows (boost_state s)).
Qed.

(** The accounts an activity refreshes for sure. *)
Definition refreshes (a : activity) (u : Addr) : Prop :=
  match a with
  | InvokePool _ msg => msg = LaunchPoolMsg.PrivilegedRefreshBoost u
  | Deliver _ msgs =>
      ∃ sm funds, sm ∈ msgs ∧
        sub_msg sm = WasmExecute pool_addr (BinLaunchPool (LaunchPoolMsg.PrivilegedRefreshBoost u)) funds
  | _ => False
  end.

(** [a] takes the exempt accounts it refreshes off the list and adds none. *)
Lemma happens_coupled env a s s' :
  happens env a s s' → ∀ E, Coupled (XprismBoost.now env) s E →
  Coupled (XprismBoost.now env) s' (λ u, E u ∧ ¬ refreshes a u).
Proof.
  induction 1 as [sender funds q wl msg s st' resp s' Hex _ IH|sender funds msg s st' resp s' Hex _ IH|from s
    |from sm msg funds rest s s1 s' Hm _ IH1 _ IH2|from sm rest s s1 s' Hm _ IH1 _ IH2|s
    |sender msg s s1 s' _ _ _ IH1 _ IH2|sender msg s s1 s' _ _ _ IH1 _ IH2]; intros E HC.
  - destruct HC. destruct (LaunchPool.CONFIG (pool_state s)) as [c|] eqn:Hc; [|done].
    injection cp_contract0 as Hb. eapply Coupled_weaken; [|apply (IH (λ u, E u ∧ ¬ refreshes (InvokePool sender msg) u))].
    { by intros u [? _]. }
    split; [done| |].
    + simpl. by rewrite (execute_boost_contract _ _ _ _ _ _ _ _ _ Hex), Hc, <-Hb.
    + eapply justified_weaken; [|eapply (execute_justified pool_parser (boost_state s) (pool_state s) q (peers s env wl)
        (at_contract env pool_addr) (mkInfo sender funds) msg st' resp c);
        [exact cp_boost0|exact Hc| |exact Hex|exact cp_justified0]].
      * simpl. intros u [[Hl|HE] Hno]; [left; by rewrite Hl, bool_decide_eq_false_2|right]. split; [done|].
        by intros ->.
      * intros u. simpl. by rewrite decide_True.
  - destruct HC. set (info := mkInfo sender funds) in *.
    pose proof (λ u, execute_level _ _ _ _ _ _ _ _ pool_addr u Hex cp_boost0 ltac:(apply N.le_refl)) as Hlevel.
    set (silent := takes_silently pool_addr (boost_state s) info msg) in *.
    eapply Coupled_weaken; [|apply (IH (λ u, E u ∨ ∃ token n, messages resp =
      sub_new <$> [XprismBoost.transfer_msg token u n; XprismBoost.refresh_msg pool_addr u]))].
    + intros u [[?|(token & n & Hm)] Hno]; [by split; [|intros Hf; exact Hf]|exfalso]. apply Hno. rewrite Hm.
      exists (sub_new (XprismBoost.refresh_msg pool_addr u)), []. split; [right; left|reflexivity].
    + split; [by eapply XprismBoostProofs.boost_execute_inv|done|]. simpl.
      eapply justified_grow; [..|exact cp_justified0].
      * intros u [Hl|?]; [left; by rewrite Hl|by right; left].
      * intros u. simpl. fold silent. destruct (Hlevel u) as [->|[Hl|[_ Hm]]]; [|by right|by left; right; right].
        left. left. by rewrite orb_true_r.
  - eapply Coupled_weaken; [|exact HC]. intros u Hu. split; [done|]. intros (sm & funds & Hin & _). by apply not_elem_of_nil in Hin.
  - apply IH1, IH2 in HC. eapply Coupled_weaken; [|exact HC]. intros u [[HE Hno1] Hno2]. split; [done|].
    intros (sm' & funds' & [->|Hin]%elem_of_cons & Hm').
    + apply Hno1. simpl. congruence.
    + apply Hno2. by exists sm', funds'.
  - apply IH1, IH2 in HC. eapply Coupled_weaken; [|exact HC]. intros u [[HE _] Hno2]. split; [done|].
    intros (sm' & funds' & [->|Hin]%elem_of_cons & Hm').
    + rewrite Hm' in Hm. simpl in Hm. by apply bool_decide_eq_false in Hm.
    + apply Hno2. by exists sm', funds'.
  - eapply Coupled_weaken; [|exact HC]. intros u Hu. by split; [|intros Hf; exact Hf].
  - apply IH1, IH2 in HC. eapply Coupled_weaken; [|exact HC]. intros u [[HE _] _]. by split; [|intros Hf; exact Hf].
  - apply IH1, IH2 in HC. eapply Coupled_weaken; [|exact HC]. intros u [[HE _] _]. by split; [|intros Hf; exact Hf].
Qed.

Lemma run_coupled s t : system_run s t → Coupled t s (λ _, False).
Proof.
  induction 1 as [s t ledger A paid k Hb Hp Hbc Hz _|s t t' _ IH Ht|s t env s' _ IH Ht Hh].
  - split; [by eapply XprismBoostSpec.run_inv|done|]. intros u i Hi. right. rewrite (Hz u i Hi). apply N.le_0_l.
  - by eapply Coupled_later.
  - apply (Coupled_weaken _ _ (λ u, False ∧ ¬ refreshes Outside u)); [by intros u [? _]|].
    eapply happens_coupled; [exact Hh|]. by eapply Coupled_later.
Qed.

(** A transaction in which the other contracts do nothing, executed. *)
Definition pool_message (sm : SubMsg) : option (LaunchPoolMsg.ExecuteMsg Binary) :=
  match sub_msg sm with
  | WasmExecute c (BinLaunchPool m) _ => if bool_decide (c = pool_addr) then Some m else None
  | _ => None
  end.
Fixpoint perform (fuel : nat) (q : Querier) (env : Env) (a : activity) (s : System) : option System :=
  match fuel with
  | O => None
  | S fuel =>
      match a with
      | InvokePool sender msg =>
          match LaunchPool.execute pool_parser (pool_state s) q (peers s env (λ _, Ok []))
                  (at_contract env pool_addr) (mkInfo sender []) msg with
          | Ok (st', resp) =>
              perform fuel q env (Deliver pool_addr (messages resp)) (after_pool (mkInfo sender []) msg st' s)
          | _ => None
          end
      | InvokeBoost sender msg =>
          match XprismBoost.execute boost_parser (boost_state s) (at_contract env boost_addr)
                  (mkInfo sender []) msg with
          | Ok (st', resp) =>
              perform fuel q env (Deliver boost_addr (messages resp)) (after_boost (mkInfo sender []) msg st' s)
          | _ => None
          end
      | Deliver from [] => Some s
      | Deliver from (sm :: rest) =>
          match pool_message sm with
          | Some msg => s1 ← perform fuel q env (InvokePool from msg) s; perform fuel q env (Deliver from rest) s1
          | None => if for_pool (sub_msg sm) then None else perform fuel q env (Deliver from rest) s
          end
      | Outside => Some s
      end
  end.

Lemma perform_happens fuel q env a s s' : perform fuel q env a s = Some s' → happens env a s s'.
Proof.
  revert a s s'. induction fuel as [|fuel IH]; intros a s s' H; [done|]. simpl in H.
  destruct a as [sender msg|sender msg|from [|sm rest]|].
  - destruct (LaunchPool.execute _ _ _ _ _ _ _) as [[st' resp]| |] eqn:He; [|done..].
    eapply invoke_pool; [exact He|by apply IH].
  - destruct (XprismBoost.execute _ _ _ _ _) as [[st' resp]| |] eqn:He; [|done..].
    eapply invoke_boost; [exact He|by apply IH].
  - injection H as <-. apply deliver_nil.
  - destruct (pool_message sm) as [msg|] eqn:Hm.
    + destruct (perform fuel q env (InvokePool from msg) s) as [s1|] eqn:H1; simpl in H; [|done].
      unfold pool_message in Hm. destruct (sub_msg sm) as [c b funds| | | | | | | |] eqn:Hs; try done.
      destruct b; try done. case_bool_decide; [|done]. simplify_eq.
      eapply deliver_pool; [exact Hs|by apply IH|by apply IH].
    + destruct (for_pool _) eqn:Hf; [done|]. eapply deliver_other; [exact Hf|apply outside_nothing|by apply IH].
  - injection H as <-. apply outside_nothing.
Qed.

(** C5: No stale boost. Whatever the two contracts and everybody else do, in
    every state between transactions an account has more weight in the boosted
    pool than the square root of its bond times its present boost only if it is
    late: since the pool last settled it, the owner has lowered the rate of the
    boost, which also applies to what has accrued, or the account has unbonded
    xPRISM while the boost contract notified no pool or another one. Nobody else
    is: in particular, as soon as somebody unbonds xPRISM with the pool notified,
    the rewards that the lost boost would earn stop, and an account with no
    xPRISM bonded has no boosted rewards. *)
Theorem pool_no_stale_boost s t u i :
  system_run s t → LaunchPool.REWARD_INFO (pool_state s) !! u = Some i → late s u = false →
  LaunchPool.boost_weight i ≤
    N.sqrt (default 0 (LaunchPool.BOND_AMOUNTS (pool_state s) !! u) * level (boost_state s) t u) ∧
  (XprismBoost.USER_INFO (boost_state s) !! u = None → LaunchPool.boost_weight i = 0).
Proof.
  intros Hr Hi Hl. destruct (run_coupled _ _ Hr). destruct (cp_justified0 u i Hi) as [[?|[]]|Hw]; [congruence|].
  split; [exact Hw|]. intros Hu. simpl in Hw. unfold level in Hw. rewrite Hu, N.mul_comm in Hw.
  destruct (XprismBoost.CONFIG (boost_state s)); simpl in Hw; lia.
Qed.

(** ** A blocked pool blocks the boost contract *)
Lemma happens_overspent env a s s' :
  happens env a s s' →
  LaunchPoolSpec.overspent (pool_state s) (XprismBoost.now env) →
  LaunchPoolSpec.overspent (pool_state s') (XprismBoost.now env).
Proof.
  induction 1; auto. intros HO. apply IHhappens. simpl.
  exact (LaunchPoolSpec.overspent_step pool_parser _ _ _ _ (at_contract env pool_addr) _ _ _ _ HO (N.le_refl _) H).
Qed.

(** C34: A blocked launch pool locks up xPRISM. Once the pool has been overspent
    (see [LaunchPoolSpec.pool_late_ratio_change_blocks]), no transaction that
    unbonds xPRISM succeeds as long as the boost contract notifies the pool:
    the notice fails, and with it the unbonding. *)
Theorem pool_blocks_unbond env s s' u amount c :
  XprismBoost.CONFIG (boost_state s) = Some c → XprismBoostMsg.cfg_launch_pool_contract c = Some pool_addr →
  LaunchPoolSpec.overspent (pool_state s) (XprismBoost.now env) →
  ¬ happens env (InvokeBoost u (XprismBoostMsg.Unbond amount)) s s'.
Proof.
  intros Hc Hlp HO H. inversion H as [|? ? ? ? st' resp ? Hex Hd| | | | | |]; subst. clear H.
  apply XprismBoostProofs.boost_unbond_spec in Hex as (c' & i & Hc' & _ & _ & _ & Hm).
  assert (c' = c) as -> by congruence. unfold XprismBoostProofs.notices in Hm. rewrite Hlp in Hm. rewrite Hm in Hd. clear Hm Hc'.
  set (s0 := after_boost _ _ st' s) in *. change (pool_state s) with (pool_state s0) in HO. clearbody s0.
  assert (∀ x s1 s2, happens env (Deliver boost_addr [sub_new (XprismBoost.refresh_msg pool_addr x)]) s1 s2 →
    LaunchPoolSpec.overspent (pool_state s1) (XprismBoost.now env) → False) as Hno.
  { intros x s1 s2 Hd1 HO1. inversion Hd1 as [| | |? ? msg ? ? ? ? ? Hs Hp _|? ? ? ? ? ? Hs| | |]; subst.
    - simpl in Hs. injection Hs as <- _. inversion Hp as [? ? q wl ? ? st1 r1 ? Hx _| | | | | | |]; subst.
      by eapply LaunchPoolSpec.overspent_blocks in Hx; [|exact HO1|apply N.le_refl|done].
    - simpl in Hs. by apply bool_decide_eq_false in Hs. }
  simpl in Hd. inversion Hd as [| | |? ? msg ? ? ? s1 ? Hs _ Hrest|? ? ? ? s1 ? _ Ho Hrest| | |]; subst; [done|].
  eapply Hno; [exact Hrest|]. by eapply happens_overspent.
Qed.
End system.

(** ** Concrete runs *)
Section witnesses.
Import Reference ReferenceAsset.
#[local] Existing Instance Reference.platform.
#[local] Existing Instance ReferenceAsset.cw_asset.
Notation boost_hook := XprismBoostSpec.parse_hook.
Notation pool_hook := LaunchPoolSpec.parse_hook.
Notation alice := ("alice"%string : Addr).

(** Alice has bonded 1000 xPRISM at second 7200; nobody uses the pool yet. *)
Definition start : System :=
  mkSystem XprismBoostSpec.boost_state (LaunchPoolSpec.new_state LaunchPoolSpec.run_instantiate) (λ _, false).
Lemma start_run : system_run boost_hook pool_hook "boost" "pool" start 7200.
Proof.
  eapply system_init.
  - exact XprismBoostSpec.bonded_run.
  - exact (LaunchPoolSpec.run_init pool_hook LaunchPoolSpec.init_msg _ _ LaunchPoolSpec.prun_init_Ok).
  - vm_compute. reflexivity.
  - intros u i Hi. assert (LaunchPool.REWARD_INFO (pool_state start) = ∅) as He by (vm_compute; reflexivity).
    exfalso. rewrite He, lookup_empty in Hi. discriminate Hi.
  - reflexivity.
Qed.

Definition run_from (s : System) (env : Env) (a : activity) : System :=
  default s (perform boost_hook pool_hook "boost" "pool" 9 LaunchPoolSpec.chain env a s).

(** An hour later she bonds 100 yLuna, and after another hour unbonds 400
    xPRISM. *)
Definition bonds_yluna : activity :=
  InvokePool "yluna" (LaunchPoolMsg.Receive (mkCw20Receive "alice" 100 (BinLaunchPoolHook LaunchPoolMsg.Bond))).
Definition staked : System := run_from start (LaunchPoolSpec.at_second 10800) bonds_yluna.
Lemma staked_happens :
  happens boost_hook pool_hook "boost" "pool" (LaunchPoolSpec.at_second 10800) bonds_yluna start staked.
Proof. apply (perform_happens boost_hook pool_hook "boost" "pool" 9 LaunchPoolSpec.chain). vm_compute. reflexivity. Qed.
Definition unbonds_xprism : activity := InvokeBoost "alice" (XprismBoostMsg.Unbond (Some 400)).
Definition unstaked : System := run_from staked (LaunchPoolSpec.at_second 14400) unbonds_xprism.
Lemma unstaked_happens :
  happens boost_hook pool_hook "boost" "pool" (LaunchPoolSpec.at_second 14400) unbonds_xprism staked unstaked.
Proof. apply (perform_happens boost_hook pool_hook "boost" "pool" 9 LaunchPoolSpec.chain). vm_compute. reflexivity. Qed.

Lemma staked_run : system_run boost_hook pool_hook "boost" "pool" staked 10800.
Proof.
  refine (system_transactions _ _ _ _ start 7200 (LaunchPoolSpec.at_second 10800) staked start_run _ _).
  - vm_compute. discriminate.
  - eapply outside_pool; [| |exact staked_happens|apply outside_nothing]; discriminate.
Qed.
Lemma unstaked_run : system_run boost_hook pool_hook "boost" "pool" unstaked 14400.
Proof.
  refine (system_transactions _ _ _ _ staked 10800 (LaunchPoolSpec.at_second 14400) unstaked staked_run _ _).
  - vm_compute. discriminate.
  - eapply outside_boost; [| |exact unstaked_happens|apply outside_nothing]; discriminate.
Qed.

(** Her weight was the root of 100 times 1000; now it is zero. *)
Definition alice_reward (s : System) : LaunchPool.RewardInfo :=
  default (LaunchPool.mkRewardInfo 0 0 0 1 0) (LaunchPool.REWARD_INFO (pool_state s) !! alice).
Lemma alice_staked : LaunchPool.REWARD_INFO (pool_state staked) !! alice = Some (alice_reward staked).
Proof. vm_compute. reflexivity. Qed.
Lemma alice_unstaked : LaunchPool.REWARD_INFO (pool_state unstaked) !! alice = Some (alice_reward unstaked).
Proof. vm_compute. reflexivity. Qed.

Lemma pool_no_stale_boost_witness :
  LaunchPool.boost_weight (alice_reward staked) = 316 ∧ LaunchPool.boost_weight (alice_reward unstaked) <= 0.
Proof.
  split; [vm_compute; reflexivity|].
  refine (N.le_trans _ _ _ (proj1 (pool_no_stale_boost (P:=platform) _ _ _ _ _ _ _ _ unstaked_run alice_unstaked eq_refl)) _).
  vm_compute. discriminate.
Defined.

(** The boost contract beside the pool that was blocked by a change of ratio. *)
Definition blocked : System := mkSystem XprismBoostSpec.boost_state (LaunchPoolSpec.new_state LaunchPoolSpec.run_late)
  (λ _, false).
Lemma blocked_overspent :
  LaunchPoolSpec.overspent (pool_state blocked) (XprismBoost.now (LaunchPoolSpec.at_second 10800)).
Proof.
  eexists _, 1000, 2000, 1000000. split; [vm_compute; reflexivity|]. split; [vm_compute; reflexivity|].
  split; [split; vm_compute; [reflexivity|discriminate]|]. left. vm_compute. reflexivity.
Qed.
Lemma pool_blocks_unbond_witness :
  (∀ s', ¬ happens boost_hook pool_hook "boost" "pool" (LaunchPoolSpec.at_second 10800)
             (InvokeBoost "alice" (XprismBoostMsg.Unbond (Some 400))) blocked s') ∧
  is_Some (perform boost_hook pool_hook "boost" "pool" 9 LaunchPoolSpec.chain (LaunchPoolSpec.at_second 14400)
             unbonds_xprism staked).
Proof.
  split; [|vm_compute; by eexists]. intros s'.
  exact (pool_blocks_unbond (P:=platform) boost_hook pool_hook "boost" "pool" _ blocked s' "alice" (Some 400)
    XprismBoostSpec.boost_config XprismBoostSpec.boost_state_config eq_refl blocked_overspent).
Defined.
End witnesses.
End PoolBoost.
