(* ===== verification/Prismswap.v ===== *)
(** * Helpers of packages/prismswap

    The methods that asset.rs, factory.rs, router.rs and token.rs add to the
    assets and messages of [Protocol], with what the validation of a token
    accepts, and the queries of querier.rs. *)
From stdpp Require Import pretty.
From Stdlib Require Import Ascii.
From S2P Require Import Prelude Cosmwasm Protocol.

Module Prismswap.

(** ** Assets (src/asset.rs) *)
Section asset.
Context `{Cosmwasm}.

(** [impl PrismSwapAssetInfo for AssetInfo] *)
Definition is_native_token (i : AssetInfo) : bool :=
  match i with Cw20Asset _ => false | NativeAsset _ => true end.

Definition query_pool (q : Querier) (i : AssetInfo) (pool_addr : Addr) : outcome StdError Uint128 :=
  match i with
  | Cw20Asset contract_addr => query_token_balance q contract_addr pool_addr
  | NativeAsset denom => query_native_balance q pool_addr denom
  end.

(** The bytes an asset is stored under, as the string they are. *)
Definition as_bytes (i : AssetInfo) : string :=
  match i with NativeAsset denom => denom | Cw20Asset contract_addr => contract_addr end.
Definition to_string_legacy (i : AssetInfo) : string :=
  match i with Cw20Asset contract_addr => contract_addr | NativeAsset denom => denom end.

Definition check (i : AssetInfo) : outcome StdError unit :=
  match i with
  | Cw20Asset addr => let? _ := addr_validate addr in Ok tt
  | NativeAsset _ => Ok tt
  end.
(** The loop of the contracts' entry points over the assets of a message. *)
Definition check_all (l : list AssetInfo) : outcome StdError unit :=
  let? _ := omapM check l in Ok tt.

(** [impl PairInfo] *)
Definition query_pools (q : Querier) (p : PairInfo) (contract_addr : Addr) : outcome StdError (Asset * Asset) :=
  let '(info0, info1) := pair_asset_infos p in
  let? amount0 := query_pool q info0 contract_addr in
  let? amount1 := query_pool q info1 contract_addr in
  Ok (mkAsset info0 amount0, mkAsset info1 amount1).

(** [impl PrismSwapAsset for Asset] *)
Definition into_swap_msg (a : Asset) (pair_contract : Addr) (max_spread : option Decimal) (to : option string)
    : outcome StdError CosmosMsg :=
  let swap := BinPair (PairMsg.Swap a None max_spread to) in
  match asset_info a with
  | NativeAsset denom => Ok (WasmExecute pair_contract swap [mkCoin denom (asset_amount a)])
  | Cw20Asset contract_addr =>
      Ok (WasmExecute contract_addr (BinCw20 (Cw20.Send pair_contract (asset_amount a) swap)) [])
  end.

Definition assert_sent_native_token_balance (a : Asset) (info : MessageInfo) : outcome StdError unit :=
  let mismatch :=
    GenericErr "Native token balance mismatch between the argument and the transferred" in
  match asset_info a with
  | NativeAsset denom =>
      match List.find (λ c, bool_decide (coin_denom c = denom)) (info_funds info) with
      | Some coin => if asset_amount a =? coin_amount coin then Ok tt else Err mismatch
      | None => if asset_amount a =? 0 then Ok tt else Err mismatch
      end
  | Cw20Asset _ => Ok tt
  end.

Definition asset_to_string_legacy (a : Asset) : string :=
  String.append (to_string_legacy (asset_info a)) (String.append ":" (pretty (asset_amount a))).
End asset.

(** ** Queries (src/querier.rs) *)
Section querier.
Context `{Cosmwasm}.

(** What another account is asked, and what comes back. A smart query carries
    its message as the type the called contract reads, an answer is tagged
    with the type it is written as. *)
Inductive Cw20QueryMsg : Type := Cw20Balance (address : Addr) | Cw20TokenInfo.
Inductive SmartMsg : Type :=
  | AskCw20 (m : Cw20QueryMsg)
  | AskFactory (m : FactoryMsg.QueryMsg)
  | AskPair (m : PairMsg.QueryMsg).
Inductive QueryRequest : Type :=
  | BankBalance (address : Addr) (denom : string)
  | BankAllBalances (address : Addr)
  | WasmSmart (contract_addr : Addr) (msg : SmartMsg).

Record TokenInfoResponse : Type := mkTokenInfoResponse {
  ti_name : string; ti_symbol : string; ti_decimals : N; ti_total_supply : Uint128 }.
Inductive QueryAnswer : Type :=
  | CoinAnswer (amount : Coin)
  | CoinsAnswer (amount : list Coin)
  | Cw20BalanceAnswer (balance : Uint128)
  | TokenInfoAnswer (r : TokenInfoResponse)
  | FactoryConfigAnswer (r : FactoryMsg.ConfigResponse)
  | FeeInfoAnswer (r : FactoryMsg.FeeInfoResponse)
  | PairInfoAnswer (r : PairInfo)
  | PairsAnswer (r : FactoryMsg.PairsResponse)
  | SimulationAnswer (r : PairMsg.SimulationResponse)
  | ReverseSimulationAnswer (r : PairMsg.ReverseSimulationResponse).

(** [QuerierWrapper], as the function from a request to its answer, and its
    method [query], which reads the answer at the type the caller expects. *)
Definition QuerierWrapper : Type := QueryRequest → outcome StdError QueryAnswer.
Definition ask {A} (read : QueryAnswer → option A) (querier : QuerierWrapper) (r : QueryRequest)
    : outcome StdError A :=
  let? answer := querier r in ok_or (read answer) ParseErr.

Definition read_coin (a : QueryAnswer) : option Coin := match a with CoinAnswer c => Some c | _ => None end.
Definition read_coins (a : QueryAnswer) : option (list Coin) := match a with CoinsAnswer l => Some l | _ => None end.
Definition read_cw20_balance (a : QueryAnswer) : option Uint128 :=
  match a with Cw20BalanceAnswer b => Some b | _ => None end.
Definition read_token_info (a : QueryAnswer) : option TokenInfoResponse :=
  match a with TokenInfoAnswer r => Some r | _ => None end.
Definition read_factory_config (a : QueryAnswer) : option FactoryMsg.ConfigResponse :=
  match a with FactoryConfigAnswer r => Some r | _ => None end.
Definition read_fee_info (a : QueryAnswer) : option FactoryMsg.FeeInfoResponse :=
  match a with FeeInfoAnswer r => Some r | _ => None end.
Definition read_pair_info (a : QueryAnswer) : option PairInfo :=
  match a with PairInfoAnswer r => Some r | _ => None end.
Definition read_pairs (a : QueryAnswer) : option FactoryMsg.PairsResponse :=
  match a with PairsAnswer r => Some r | _ => None end.
Definition read_simulation (a : QueryAnswer) : option PairMsg.SimulationResponse :=
  match a with SimulationAnswer r => Some r | _ => None end.
Definition read_reverse_simulation (a : QueryAnswer) : option PairMsg.ReverseSimulationResponse :=
  match a with ReverseSimulationAnswer r => Some r | _ => None end.

Definition wrapper_balance (querier : QuerierWrapper) (account_addr : Addr) (denom : string)
    : outcome StdError Uint128 :=
  let? balance := ask read_coin querier (BankBalance account_addr denom) in Ok (coin_amount balance).

Definition query_all_balances (querier : QuerierWrapper) (account_addr : Addr) : outcome StdError (list Coin) :=
  ask read_coins querier (BankAllBalances account_addr).

(** [unwrap_or_else]: a failed query counts as a zero balance. *)
Definition wrapper_token_balance (querier : QuerierWrapper) (contract_addr account_addr : Addr)
    : outcome StdError Uint128 :=
  match ask read_cw20_balance querier (WasmSmart contract_addr (AskCw20 (Cw20Balance account_addr))) with
  | Ok balance => Ok balance
  | Err _ => Ok 0
  | Panic => Panic
  end.

Definition query_token_symbol (querier : QuerierWrapper) (contract_addr : Addr) : outcome StdError string :=
  let? res := ask read_token_info querier (WasmSmart contract_addr (AskCw20 Cw20TokenInfo)) in Ok (ti_symbol res).

Definition wrapper_supply (querier : QuerierWrapper) (contract_addr : Addr) : outcome StdError Uint128 :=
  let? res := ask read_token_info querier (WasmSmart contract_addr (AskCw20 Cw20TokenInfo)) in
  Ok (ti_total_supply res).

Definition query_factory_config (querier : QuerierWrapper) (factory_contract : Addr)
    : outcome StdError FactoryMsg.ConfigResponse :=
  ask read_factory_config querier (WasmSmart factory_contract (AskFactory FactoryMsg.QConfig)).

Definition query_fee_info (querier : QuerierWrapper) (factory_contract : Addr) (asset_infos : AssetInfo * AssetInfo)
    : outcome StdError FactoryMsg.FeeInfoResponse :=
  ask read_fee_info querier (WasmSmart factory_contract (AskFactory (FactoryMsg.QFeeInfo asset_infos))).

Definition query_pair_info (querier : QuerierWrapper) (factory_contract : Addr) (asset_infos : AssetInfo * AssetInfo)
    : outcome StdError PairInfo :=
  ask read_pair_info querier (WasmSmart factory_contract (AskFactory (FactoryMsg.QPair asset_infos))).

Definition query_pairs_info (querier : QuerierWrapper) (factory_contract : Addr)
    (start_after : option (AssetInfo * AssetInfo)) (limit : option N) : outcome StdError FactoryMsg.PairsResponse :=
  ask read_pairs querier (WasmSmart factory_contract (AskFactory (FactoryMsg.QPairs start_after limit))).

Definition simulate (querier : QuerierWrapper) (pair_contract : Addr) (offer_asset : Asset)
    : outcome StdError PairMsg.SimulationResponse :=
  ask read_simulation querier (WasmSmart pair_contract (AskPair (PairMsg.QSimulation offer_asset))).

Definition reverse_simulate (querier : QuerierWrapper) (pair_contract : Addr) (ask_asset : Asset)
    : outcome StdError PairMsg.ReverseSimulationResponse :=
  ask read_reverse_simulation querier (WasmSmart pair_contract (AskPair (PairMsg.QReverseSimulation ask_asset))).
End querier.

(** The record of typed answers the contracts of this development are run
    with, as the requests that ask for them, over the staking answers of [q]. *)
Definition typed_querier (q : Querier) (querier : QuerierWrapper) : Querier :=
  mkQuerier (query_all_delegations q) (query_delegation q) (query_validator q) (query_all_validators q)
    (wrapper_balance querier)
    (λ c a, ask read_cw20_balance querier (WasmSmart c (AskCw20 (Cw20Balance a)))) (wrapper_supply querier).

Lemma typed_token_balance q querier c a :
  query_token_balance (typed_querier q querier) c a = wrapper_token_balance querier c a.
Proof. done. Qed.
Lemma typed_pool q querier i pool_addr :
  query_pool (typed_querier q querier) i pool_addr =
  match i with
  | Cw20Asset c => wrapper_token_balance querier c pool_addr
  | NativeAsset d => wrapper_balance querier pool_addr d
  end.
Proof. by destruct i. Qed.

(** ** Fees (src/factory.rs) and routes (src/router.rs) *)
Section fees.
Context `{Cosmwasm}.
Import FactoryMsg RouterMsg.

(** [impl FeeConfig]; the limits are parsed with [unwrap]. *)
Definition is_valid (c : FeeConfig) : option bool :=
  max_total ← dec_from_str MAX_TOTAL_FEE;
  if total_fee c <=? max_total then
    max_protocol ← dec_from_str MAX_PROTOCOL_FEE;
    Some (protocol_fee c <=? max_protocol)
  else Some false.
Definition FeeConfig_default : option FeeConfig :=
  total ← dec_from_str DEFAULT_TOTAL_FEE;
  protocol ← dec_from_str DEFAULT_PROTOCOL_FEE;
  Some (mkFeeConfig total protocol).

(** [impl SwapOperation] *)
Definition get_target_asset_info (o : SwapOperation) : AssetInfo :=
  match o with
  | NativeSwap _ ask_denom => NativeAsset ask_denom
  | PrismSwap _ ask_asset_info => ask_asset_info
  end.
End fees.

(** ** Tokens (src/token.rs) *)
Section token.
Import TokenMsg.

Definition get_cap (m : InstantiateMsg) : option Uint128 := v ← mint m; cap v.

Definition byte_of (c : Ascii.ascii) : N := Ascii.N_of_ascii c.
Definition byte_length (s : string) : N := N.of_nat (String.length s).

Definition is_valid_name (name : string) : bool :=
  if (byte_length name <? 3) || (50 <? byte_length name) then false else true.

(** A byte the loop of [is_valid_symbol] rejects. *)
Definition bad_byte (b : N) : bool :=
  negb (b =? 45) && ((b <? 65) || (90 <? b)) && ((b <? 97) || (122 <? b)).
Definition is_valid_symbol (symbol : string) : bool :=
  if (byte_length symbol <? 3) || (12 <? byte_length symbol) then false
  else negb (existsb (λ c, bad_byte (byte_of c)) (String.list_ascii_of_string symbol)).

Definition validate (m : InstantiateMsg) : outcome StdError unit :=
  if negb (is_valid_name (name m)) then
    Err (GenericErr "Name is not in the expected format (3-50 UTF-8 bytes)")
  else if negb (is_valid_symbol (symbol m)) then
    Err (GenericErr "Ticker symbol is not in expected format [a-zA-Z\-]{3,12}")
  else if 18 <? decimals m then Err (GenericErr "Decimals must not exceed 18")
  else Ok tt.

(** The characters of a ticker symbol. *)
Definition ticker_char (c : Ascii.ascii) : Prop :=
  c = "-"%char ∨ 65 ≤ byte_of c ≤ 90 ∨ 97 ≤ byte_of c ≤ 122.

Lemma bad_byte_spec c : bad_byte (byte_of c) = false ↔ ticker_char c.
Proof.
  unfold bad_byte, ticker_char. assert (byte_of c = 45 ↔ c = "-"%char) as Hdash.
  { split; [|by intros ->]. intros Hc. rewrite <-(Ascii.ascii_N_embedding c). unfold byte_of in Hc. by rewrite Hc. }
  rewrite <-Hdash. destruct (N.eqb_spec (byte_of c) 45), (N.ltb_spec (byte_of c) 65), (N.ltb_spec 90 (byte_of c)),
    (N.ltb_spec (byte_of c) 97), (N.ltb_spec 122 (byte_of c)); simpl; split; (done || lia).
Qed.

Lemma is_valid_symbol_spec s :
  is_valid_symbol s = true ↔
  3 ≤ byte_length s ≤ 12 ∧ Forall ticker_char (String.list_ascii_of_string s).
Proof.
  unfold is_valid_symbol. destruct (N.ltb_spec (byte_length s) 3), (N.ltb_spec 12 (byte_length s)); simpl;
    [split; [done|lia]..|]. rewrite negb_true_iff, Forall_forall. split.
  - intros Hb. split; [lia|]. intros c Hc. apply bad_byte_spec. destruct (bad_byte (byte_of c)) eqn:Hbad; [|done].
    rewrite <-Hb. symmetry. apply existsb_exists. exists c. by apply list_elem_of_In in Hc.
  - intros [_ Hall]. apply not_true_iff_false. rewrite existsb_exists. intros (c & Hc & Hbad).
    apply list_elem_of_In in Hc. apply Hall, bad_byte_spec in Hc. by rewrite Hc in Hbad.
Qed.

(** What a token instantiation message may be. [validate] accepts exactly the
    messages with a name of 3 to 50 bytes, a symbol of 3 to 12 letters and
    dashes, and at most 18 decimals; it never panics. *)
Theorem token_validate_spec (m : InstantiateMsg) :
  (validate m = Ok tt ↔
   3 ≤ N.of_nat (String.length (name m)) ≤ 50 ∧
   (3 ≤ N.of_nat (String.length (symbol m)) ≤ 12 ∧
    Forall (λ c, c = "-"%char ∨ 65 ≤ Ascii.N_of_ascii c ≤ 90 ∨ 97 ≤ Ascii.N_of_ascii c ≤ 122)
      (String.list_ascii_of_string (symbol m))) ∧
   decimals m ≤ 18) ∧
  validate m ≠ Panic.
Proof.
  change (Forall _ _) with (Forall ticker_char (String.list_ascii_of_string (symbol m))).
  change (N.of_nat (String.length (symbol m))) with (byte_length (symbol m)).
  rewrite <-is_valid_symbol_spec. unfold validate, is_valid_name, byte_length.
  destruct (N.ltb_spec (N.of_nat (String.length (name m))) 3), (N.ltb_spec 50 (N.of_nat (String.length (name m))));
    simpl; [split; [split; [done|lia]|done]..|].
  destruct (is_valid_symbol (symbol m)); simpl; [|split; [split; [done|by intros (_ & ? & _)]|done]].
  destruct (N.ltb_spec 18 (decimals m)); simpl; (split; [split; (done || lia)|done]).
Qed.
End token.
End Prismswap.
