(* ===== verification/AirdropRegistry.v ===== *)
(** * The airdrop registry (contracts/prism-airdrop-registry)

    State ([src/state.rs]) and entry points ([src/contract.rs]): which airdrop
    contract belongs to which token, and the claims the registry has the vault
    make.  The end of the file states what the registry keeps. *)
From S2P Require Import Prelude Cosmwasm Protocol.
Import AirdropRegistryMsg.

Module AirdropRegistry.

(** ** State (src/state.rs) *)
Record Config : Type := mkConfig {
  owner : Addr;
  vault_contract : Addr;
  airdrop_tokens : list Addr }.
Record Storage : Type := mkStorage {
  CONFIG : option Config;
  AIRDROP_INFO : gmap Addr AirdropInfo }.

Definition store_config (c : Config) (st : Storage) : Storage := mkStorage (Some c) (AIRDROP_INFO st).
Definition store_airdrop_info (a : Addr) (i : AirdropInfo) (st : Storage) : Storage :=
  mkStorage (CONFIG st) (<[a := i]> (AIRDROP_INFO st)).
(** [AIRDROP_INFO.update] with a function that ignores the old value. *)
Definition update_airdrop_info (a : Addr) (i : AirdropInfo) (st : Storage) : Storage :=
  mkStorage (CONFIG st) (<[a := i]> (AIRDROP_INFO st)).
Definition remove_airdrop_info (a : Addr) (st : Storage) : Storage :=
  mkStorage (CONFIG st) (delete a (AIRDROP_INFO st)).
Definition with_tokens (l : list Addr) (c : Config) : Config := mkConfig (owner c) (vault_contract c) l.

Definition MAX_LIMIT : N := 30.
Definition DEFAULT_LIMIT : N := 10.

(** What a query answers. *)
Inductive Answer : Type :=
  | AnswerConfig (r : ConfigResponse)
  | AnswerAirdropInfo (r : AirdropInfoResponse).

Section contract.
Context `{Cosmwasm}.
Notation Result := (outcome StdError).

Definition read_config (st : Storage) : Result Config := load "Config" (CONFIG st).
Definition read_airdrop_info (st : Storage) (airdrop_token : Addr) : Result AirdropInfo :=
  load "AirdropInfo" (AIRDROP_INFO st !! airdrop_token).
Definition read_all_airdrop_infos (st : Storage) (start_after : option Addr) (limit : option N)
    : list AirdropInfoElem :=
  let limit := N.to_nat (N.min (default DEFAULT_LIMIT limit) MAX_LIMIT) in
  (λ e : string * AirdropInfo, mkAirdropInfoElem e.1 e.2) <$>
    take limit (after String.ltb start_after (range_addr (AIRDROP_INFO st))).

(** ** Entry points (src/contract.rs) *)
Definition instantiate (info : MessageInfo) (msg : InstantiateMsg) : Result (Storage * Response) :=
  let? vault := addr_validate (im_vault_contract msg) in
  Ok (mkStorage (Some (mkConfig (info_sender info) vault [])) ∅, respond [] []).

Definition execute_fabricate_claim (st : Storage) (airdrop_token : string) (stage : N) (amount : Uint128)
    (proof : list string) : Result (Storage * Response) :=
  let? config := read_config st in
  let? airdrop_token_addr := addr_validate airdrop_token in
  let? airdrop_info := map_err (λ _, GenericErr "no info registered for this airdrop token")
    (read_airdrop_info st airdrop_token_addr) in
  let claim_msg := match claim_type airdrop_info with Generic => BinAirdrop (Claim stage amount proof) end in
  Ok (st, respond
    [WasmExecute (vault_contract config)
       (BinVault (VaultMsg.ClaimAirdrop airdrop_token (airdrop_contract airdrop_info) claim_msg)) []]
    [("action", AStr "fabricate_generic_claim")]).

Definition validate_or (current : Addr) (o : option string) : Result Addr :=
  match o with Some s => addr_validate s | None => Ok current end.

Definition execute_update_config (st : Storage) (info : MessageInfo) (new_owner new_vault : option string)
    : Result (Storage * Response) :=
  let? config := read_config st in
  if bool_decide (info_sender info ≠ owner config) then Err (GenericErr "unauthorized") else
  let? o := validate_or (owner config) new_owner in
  let? v := validate_or (vault_contract config) new_vault in
  Ok (store_config (mkConfig o v (airdrop_tokens config)) st, respond [] [("action", AStr "update_config")]).

Definition execute_add_airdrop (st : Storage) (info : MessageInfo) (airdrop_token : string)
    (airdrop_info : AirdropInfo) : Result (Storage * Response) :=
  let? config := read_config st in
  if bool_decide (info_sender info ≠ owner config) then Err (GenericErr "unauthorized") else
  let? addr := addr_validate airdrop_token in
  if is_ok (read_airdrop_info st addr) then Err (GenericErr "There is a token info with this {}") else
  let? addr := addr_validate airdrop_token in
  let? conf := read_config st in
  let st := store_config (with_tokens (airdrop_tokens conf ++ [addr]) conf) st in
  Ok (store_airdrop_info addr airdrop_info st,
      respond [] [("action", AStr "add_airdrop_info"); ("airdrop_token", AStr airdrop_token)]).

Definition execute_update_airdrop (st : Storage) (info : MessageInfo) (airdrop_token : string)
    (airdrop_info : AirdropInfo) : Result (Storage * Response) :=
  let? config := read_config st in
  if bool_decide (info_sender info ≠ owner config) then Err (GenericErr "unauthorized") else
  let? addr := addr_validate airdrop_token in
  if negb (is_ok (read_airdrop_info st addr)) then Err (GenericErr "There is no token info with this {}") else
  Ok (update_airdrop_info addr airdrop_info st,
      respond [] [("action", AStr "update_airdrop_info"); ("airdrop_token", AStr airdrop_token)]).

Definition execute_remove_airdrop (st : Storage) (info : MessageInfo) (airdrop_token : string)
    : Result (Storage * Response) :=
  let? config := read_config st in
  if bool_decide (info_sender info ≠ owner config) then Err (GenericErr "unauthorized") else
  let? addr := addr_validate airdrop_token in
  if negb (is_ok (read_airdrop_info st addr)) then Err (GenericErr "There is no token info with this {}") else
  let? conf := read_config st in
  let st := store_config
    (with_tokens (List.filter (λ item, bool_decide (item ≠ addr)) (airdrop_tokens conf)) conf) st in
  Ok (remove_airdrop_info addr st,
      respond [] [("action", AStr "remove_airdrop_info"); ("airdrop_token", AStr airdrop_token)]).

Definition execute (st : Storage) (info : MessageInfo) (msg : ExecuteMsg) : Result (Storage * Response) :=
  match msg with
  | FabricateClaim airdrop_token stage amount proof => execute_fabricate_claim st airdrop_token stage amount proof
  | UpdateConfig owner vault_contract => execute_update_config st info owner vault_contract
  | AddAirdropInfo airdrop_token airdrop_info => execute_add_airdrop st info airdrop_token airdrop_info
  | RemoveAirdropInfo airdrop_token => execute_remove_airdrop st info airdrop_token
  | UpdateAirdropInfo airdrop_token airdrop_info => execute_update_airdrop st info airdrop_token airdrop_info
  end.

(** ** Queries *)
Definition query_config (st : Storage) : Result ConfigResponse :=
  let? c := read_config st in Ok (mkConfigResponse (owner c) (vault_contract c) (airdrop_tokens c)).

(** An address to start after that is not valid panics ([unwrap]). *)
Definition query_airdrop_infos (st : Storage) (airdrop_token start_after : option string) (limit : option N)
    : Result AirdropInfoResponse :=
  match airdrop_token with
  | Some air_token =>
      let? addr := addr_validate air_token in
      let? info := read_airdrop_info st addr in
      Ok (mkAirdropInfoResponse [mkAirdropInfoElem air_token info])
  | None =>
      let! start :=
        match start_after with
        | Some item => a ← unwrap (addr_validate item); Some (Some a)
        | None => Some None
        end in
      Ok (mkAirdropInfoResponse (read_all_airdrop_infos st start limit))
  end.

Definition query (st : Storage) (msg : QueryMsg) : Result Answer :=
  match msg with
  | QConfig => let? r := query_config st in Ok (AnswerConfig r)
  | QAirdropInfo airdrop_token start_after limit =>
      let? r := query_airdrop_infos st airdrop_token start_after limit in Ok (AnswerAirdropInfo r)
  end.
End contract.

(** ** The list and the records agree *)
Section registry.
Context {P : Cosmwasm} {L : CosmwasmLaws P}.

(** The states the registry can reach. *)
Inductive run : Storage → Prop :=
  | run_init info msg st resp : instantiate info msg = Ok (st, resp) → run st
  | run_step st info msg st' resp : run st → execute st info msg = Ok (st', resp) → run st'.

Record Agree (st : Storage) (c : Config) : Prop := {
  ag_config : CONFIG st = Some c;
  ag_NoDup : NoDup (airdrop_tokens c);
  ag_tokens t : t ∈ airdrop_tokens c ↔ is_Some (AIRDROP_INFO st !! t) }.

Lemma elem_of_retain (a t : Addr) l : t ∈ List.filter (λ item, bool_decide (item ≠ a)) l ↔ t ∈ l ∧ t ≠ a.
Proof. by rewrite list_elem_of_In, filter_In, <-list_elem_of_In, bool_decide_eq_true. Qed.

Lemma execute_agree st c info msg st' resp :
  Agree st c → execute st info msg = Ok (st', resp) → ∃ c', Agree st' c'.
Proof.
  intros [Hc Hnd Ht] H.
  assert (∀ c2, read_config st = Ok c2 → c2 = c) as Hrc by (intros c2 H2%load_Ok; congruence).
  destruct msg; simpl in H.
  - unfold execute_fabricate_claim in H. inv_ok H. subst. by exists c.
  - unfold execute_update_config in H. inv_ok H. subst. apply Hrc in Ha as ->. eexists. split; simpl; eauto.
  - unfold execute_add_airdrop in H. inv_ok H. subst.
    apply addr_validate_law in Ha0 as ->. apply addr_validate_law in Ha1 as ->. apply Hrc in Ha2 as ->.
    assert (AIRDROP_INFO st !! airdrop_token = None) as Hnone.
    { unfold read_airdrop_info, load in *. by destruct (AIRDROP_INFO st !! airdrop_token). }
    eexists. split; [reflexivity|..]; simpl.
    + apply NoDup_app. split_and!; [done| |apply NoDup_singleton].
      intros t Hin ->%list_elem_of_singleton. apply Ht in Hin. rewrite Hnone in Hin. by destruct Hin.
    + intros t. rewrite elem_of_app, list_elem_of_singleton, Ht, lookup_insert_is_Some. 
      destruct (decide (airdrop_token = t)); naive_solver.
  - unfold execute_remove_airdrop in H. inv_ok H. subst. apply addr_validate_law in Ha0 as ->. apply Hrc in Ha1 as ->.
    eexists. split; [reflexivity|..]; simpl.
    + by apply NoDup_ListNoDup, List.NoDup_filter, NoDup_ListNoDup.
    + intros t. rewrite elem_of_retain, Ht, lookup_delete_is_Some. naive_solver.
  - unfold execute_update_airdrop in H. inv_ok H. subst. apply addr_validate_law in Ha0 as ->. 
    exists c. split; [done..|]. simpl. intros t. rewrite Ht, lookup_insert_is_Some.
    unfold read_airdrop_info, load in *. destruct (AIRDROP_INFO st !! airdrop_token) as [i|] eqn:Hi; [|done].
    destruct (decide (airdrop_token = t)) as [<-|]; naive_solver.
Qed.

(** The registry keeps its list and its records together. In every state the
    registry can reach there is a configuration, its list of airdrop tokens has
    no duplicates, and a token is in the list exactly when there is a record
    for it. *)
Theorem registry_agrees st :
  run st → ∃ c, CONFIG st = Some c ∧ NoDup (airdrop_tokens c) ∧
    ∀ t, t ∈ airdrop_tokens c ↔ is_Some (AIRDROP_INFO st !! t).
Proof.
  intros Hr. enough (∃ c, Agree st c) as (c & []) by eauto.
  induction Hr as [info msg st resp H|st info msg st' resp _ [c HA] H]; [|by eapply execute_agree].
  unfold instantiate in H. inv_ok H. subst. eexists. split; [reflexivity|constructor|]. simpl.
  intros t. rewrite lookup_empty. split; [by intros ?%not_elem_of_nil|by intros []].
Qed.
End registry.

(** ** A concrete run *)
Section witnesses.
Import Reference.
#[local] Existing Instance Reference.platform.

Definition by_sender (a : Addr) : MessageInfo := mkInfo a [].
Definition empty_storage : Storage := mkStorage None ∅.
Definition after_messages : list ExecuteMsg → outcome StdError Storage :=
  ofold (λ st msg, let? '(st, _) := execute st (by_sender "owner") msg in Ok st)
    (match instantiate (by_sender "owner") (mkInstantiateMsg "vault") with Ok (st, _) => st | _ => empty_storage end).
Lemma after_run l st : after_messages l = Ok st → run st.
Proof.
  unfold after_messages. apply ofold_ind.
  - refine (run_init (by_sender "owner") (mkInstantiateMsg "vault") _ (respond [] []) _). reflexivity.
  - intros s m s' _ Hs H. inv_ok H. subst. by eapply run_step.
Qed.

Definition registry_messages : list ExecuteMsg :=
  [AddAirdropInfo "anc" (mkAirdropInfo "anc_airdrop" Generic);
   AddAirdropInfo "mir" (mkAirdropInfo "mir_airdrop" Generic);
   RemoveAirdropInfo "anc"].
Definition registry_state : Storage := match after_messages registry_messages with Ok st => st | _ => empty_storage end.
Lemma registry_messages_Ok : after_messages registry_messages = Ok registry_state.
Proof. vm_compute. reflexivity. Qed.
Lemma registry_agrees_witness :
  airdrop_tokens <$> CONFIG registry_state = Some ["mir"%string] ∧
  ∃ c, CONFIG registry_state = Some c ∧ NoDup (airdrop_tokens c).
Proof.
  split; [vm_compute; reflexivity|].
  destruct (registry_agrees (P:=platform) registry_state (after_run _ _ registry_messages_Ok)) as (c & Hc & Hnd & _).
  exists c. split; [exact Hc|exact Hnd].
Defined.
End witnesses.
End AirdropRegistry.
