(* ===== verification/YassetStaking.v ===== *)
(** * The yLuna staking contract (contracts/prism-yasset-staking)

    State ([src/state.rs]), staking ([src/staking.rs]), rewards
    ([src/rewards.rs]), the conversion of delegator rewards ([src/swaps.rs]),
    queries of the vault ([src/querier.rs]) and entry points
    ([src/contract.rs]).  Every reward asset has an index, the rewards per
    staked yLuna since it was first deposited. *)
From S2P Require Import Prelude Cosmwasm Protocol Prismswap.
Import YassetStakingMsg Prismswap.

Module YassetStaking.

(** ** State (src/state.rs) *)
Record Config : Type := mkConfig {
  owner : Addr;
  vault : Addr;
  gov : Addr;
  collector : Addr;
  protocol_fee : Decimal;
  cluna_token : Addr;
  yluna_token : Addr;
  pluna_token : Addr;
  prism_token : Addr;
  xprism_token : Addr }.

Record BondInfo : Type := mkBondInfo { bond_amount : Uint128 }.
Record PoolInfo : Type := mkPoolInfo { reward_index : Decimal }.
Record RewardInfo : Type := mkRewardInfo { index : Decimal; pending_reward : Uint128 }.
(** [#[derive(Default)]] *)
Definition BondInfo_default : BondInfo := mkBondInfo 0.
Definition PoolInfo_default : PoolInfo := mkPoolInfo 0.
Definition RewardInfo_default : RewardInfo := mkRewardInfo 0 0.

(** [POOL_INFO] is keyed by the bytes of an asset, [REWARDS] by those of a
    staker and of an asset. *)
Record Storage : Type := mkStorage {
  CONFIG : option Config;
  WHITELISTED_ASSETS : option (list AssetInfo);
  TOTAL_BOND_AMOUNT : option Uint128;
  POOL_INFO : gmap string PoolInfo;
  REWARDS : gmap (string * string) RewardInfo;
  BOND_AMOUNTS : gmap string BondInfo }.

Definition save_config (c : Config) (st : Storage) : Storage :=
  mkStorage (Some c) (WHITELISTED_ASSETS st) (TOTAL_BOND_AMOUNT st) (POOL_INFO st) (REWARDS st) (BOND_AMOUNTS st).
Definition save_whitelist (l : list AssetInfo) (st : Storage) : Storage :=
  mkStorage (CONFIG st) (Some l) (TOTAL_BOND_AMOUNT st) (POOL_INFO st) (REWARDS st) (BOND_AMOUNTS st).
Definition save_bond (total : Uint128) (staker : string) (b : BondInfo) (st : Storage) : Storage :=
  mkStorage (CONFIG st) (WHITELISTED_ASSETS st) (Some total) (POOL_INFO st) (REWARDS st)
    (<[staker := b]> (BOND_AMOUNTS st)).
Definition save_pool (asset : string) (p : PoolInfo) (st : Storage) : Storage :=
  mkStorage (CONFIG st) (WHITELISTED_ASSETS st) (TOTAL_BOND_AMOUNT st) (<[asset := p]> (POOL_INFO st)) (REWARDS st)
    (BOND_AMOUNTS st).
Definition save_reward (staker asset : string) (i : RewardInfo) (st : Storage) : Storage :=
  mkStorage (CONFIG st) (WHITELISTED_ASSETS st) (TOTAL_BOND_AMOUNT st) (POOL_INFO st)
    (<[(staker, asset) := i]> (REWARDS st)) (BOND_AMOUNTS st).

(** What the vault answers to [State], the native coins of an account, and the
    denominations the oracle of the chain quotes among those asked for. *)
Record Peers : Type := mkPeers {
  query_vault_state : Addr → outcome StdError VaultMsg.StateResponse;
  query_all_balances : Addr → outcome StdError (list Coin);
  query_exchange_rates : string → list string → outcome StdError (list string) }.

(** The crate terra-cosmwasm: the message that swaps a coin on the chain. *)
Class Terra : Type := { create_swap_msg : Coin → string → CosmosMsg }.
Class TerraLaws (T : Terra) : Prop := {
  create_swap_custom c denom : ∃ payload, create_swap_msg c denom = Custom payload }.

Definition REWARD_DENOM : string := "uluna".

(** What a query answers. *)
Inductive Answer : Type :=
  | AnswerConfig (r : ConfigResponse)
  | AnswerPoolInfo (r : PoolInfoResponse)
  | AnswerWhitelist (r : RewardAssetWhitelistResponse)
  | AnswerRewardInfo (r : RewardInfoResponse)
  | AnswerBondAmount (n : Uint128).

Section contract.
Context `{Cosmwasm} `{CwAsset} `{Terra}.
Variable from_binary : Binary → outcome StdError Cw20HookMsg.
Notation Result := (outcome StdError).
Notation unauthorized := (Err (GenericErr "unauthorized")).

Definition load_config (st : Storage) : Result Config := load "Config" (CONFIG st).
Definition load_total (st : Storage) : Result Uint128 := load "Uint128" (TOTAL_BOND_AMOUNT st).
Definition load_whitelist (st : Storage) : Result (list AssetInfo) := load "Vec" (WHITELISTED_ASSETS st).
Definition load_bond (st : Storage) (staker : string) (message : string) : Result BondInfo :=
  ok_or (BOND_AMOUNTS st !! staker) (GenericErr message).
Definition pool_info (st : Storage) (asset : AssetInfo) : PoolInfo :=
  default PoolInfo_default (POOL_INFO st !! as_bytes asset).
Definition cw20_msg_to (token : Addr) (m : Cw20.ExecuteMsg Binary) : CosmosMsg := WasmExecute token (BinCw20 m) [].
Definition to_self (env : Env) (m : ExecuteMsg Binary) : CosmosMsg :=
  WasmExecute (contract_address env) (BinYassetStaking m) [].

(** ** Querying the vault (src/querier.rs) *)
Definition query_vault_bond_amount (peers : Peers) (vault : Addr) : Result Uint128 :=
  let? res := query_vault_state peers vault in Ok (VaultMsg.sr_total_bond_amount res).

(** ** Rewards (src/rewards.rs) *)
Definition compute_asset_rewards (st : Storage) (staker : string) (bond_amount : Uint128) (asset_info : AssetInfo)
    : Result RewardInfo :=
  let pool := pool_info st asset_info in
  let? reward_info :=
    match REWARDS st !! (staker, as_bytes asset_info) with
    | Some info =>
        let! now_worth := uint_mul_dec bond_amount (reward_index pool) in
        let! then_worth := uint_mul_dec bond_amount (index info) in
        let? pending := checked_sub now_worth then_worth in
        let! total := uint_add (pending_reward info) pending in
        Ok (mkRewardInfo (index info) total)
    | None => Ok RewardInfo_default
    end in
  Ok (mkRewardInfo (reward_index pool) (pending_reward reward_info)).

Definition compute_all_rewards (st : Storage) (staker : string) (bond_amount : Uint128)
    (whitelisted_assets : list AssetInfo) : Result Storage :=
  ofold (λ st asset,
    let? reward_info := compute_asset_rewards st staker bond_amount asset in
    Ok (save_reward staker (as_bytes asset) reward_info st)) st whitelisted_assets.

(** The share of a deposit that goes to the stakers. *)
Definition stakers_portion (total_bond_amount vault_bond_amount : Uint128) : option Decimal :=
  if total_bond_amount =? 0 then Some 0 else
  ratio ← dec_from_ratio total_bond_amount vault_bond_amount; Some (N.min ratio dec_one).

(** One asset of a deposit: the state, and the messages so far. *)
Definition deposit_step (cfg : Config) (total_bond_amount : Uint128) (whitelisted_assets : list AssetInfo)
    (portion : Decimal) (env : Env) (info : MessageInfo) (acc : Storage * list CosmosMsg) (asset : Asset)
    : Result (Storage * list CosmosMsg) :=
  let '(st, messages) := acc in
  if bool_decide (asset_info asset ∉ whitelisted_assets) then Err (GenericErr "asset {} is not whitelisted") else
  match asset_info asset with
  | Cw20Asset token_addr =>
      let amount := asset_amount asset in
      let messages :=
        if bool_decide (contract_address env ≠ info_sender info) then
          messages ++ [cw20_msg_to token_addr
                         (Cw20.TransferFrom (info_sender info) (contract_address env) amount)]
        else messages in
      let pool := pool_info st (asset_info asset) in
      let! stakers_portion_amount := uint_mul_dec amount portion in
      let! protocol_fee_amount := uint_mul_dec stakers_portion_amount (protocol_fee cfg) in
      let? reward_amount := checked_sub stakers_portion_amount protocol_fee_amount in
      let? rest := checked_sub amount reward_amount in
      let messages := messages ++ [cw20_msg_to token_addr (Cw20.Transfer (collector cfg) rest)] in
      if total_bond_amount =? 0 then Ok (st, messages) else
      let! normal_reward_per_bond := dec_from_ratio reward_amount total_bond_amount in
      let! new_index := dec_add (reward_index pool) normal_reward_per_bond in
      Ok (save_pool (as_bytes (asset_info asset)) (mkPoolInfo new_index) st, messages)
  | NativeAsset _ => Ok (st, messages)
  end.

Definition deposit_rewards (st : Storage) (peers : Peers) (env : Env) (info : MessageInfo) (assets : list Asset)
    : Result (Storage * Response) :=
  let? cfg := load_config st in
  let? total_bond_amount := load_total st in
  let? whitelisted_assets := load_whitelist st in
  let? vault_bond_amount := query_vault_bond_amount peers (vault cfg) in
  let! portion := stakers_portion total_bond_amount vault_bond_amount in
  let? '(st, messages) :=
    ofold (deposit_step cfg total_bond_amount whitelisted_assets portion env info) (st, []) assets in
  Ok (st, respond messages [("action", AStr "deposit_rewards")]).

(** One whitelisted asset of a claim. *)
Definition claim_step (staker : Addr) (bond_amount : Uint128)
    (acc : Storage * list CosmosMsg * list Asset) (asset_info : AssetInfo)
    : Result (Storage * list CosmosMsg * list Asset) :=
  let '(st, messages, claimed) := acc in
  let? reward_info := compute_asset_rewards st staker bond_amount asset_info in
  let amount := pending_reward reward_info in
  let st := save_reward staker (as_bytes asset_info) (mkRewardInfo (index reward_info) 0) st in
  if amount =? 0 then Ok (st, messages, claimed) else
  match asset_info with
  | Cw20Asset contract_addr =>
      Ok (st, messages ++ [cw20_msg_to contract_addr (Cw20.Transfer staker amount)],
          claimed ++ [mkAsset asset_info amount])
  | NativeAsset _ => Err (GenericErr "Native reward assets not supported")
  end.

Definition claimed_attribute (a : Asset) : string * AttrValue := ("claimed_asset", AStr (asset_to_string a)).

Definition claim_rewards (st : Storage) (info : MessageInfo) : Result (Storage * Response) :=
  let? whitelisted_assets := load_whitelist st in
  let? bond_info := load_bond st (info_sender info) "no tokens bonded" in
  let? '(st, messages, claimed) :=
    ofold (claim_step (info_sender info) (bond_amount bond_info)) (st, [], []) whitelisted_assets in
  Ok (st, respond messages (("action", AStr "claim_rewards") :: (claimed_attribute <$> claimed))).

(** The tokens rewards can be converted to. *)
Definition verify_claim_asset (cfg : Config) (claim_asset_info : AssetInfo) : Result Addr :=
  match claim_asset_info with
  | Cw20Asset claim_addr =>
      if bool_decide (claim_addr = prism_token cfg) || bool_decide (claim_addr = xprism_token cfg) ||
         bool_decide (claim_addr = cluna_token cfg) || bool_decide (claim_addr = yluna_token cfg) ||
         bool_decide (claim_addr = pluna_token cfg)
      then Ok claim_addr else Err (GenericErr "Claim asset not supported")
  | NativeAsset _ => Err (GenericErr "Native claim assets not supported")
  end.

(** One whitelisted asset of a converting claim; the last component collects
    the assets the collector swaps. *)
Definition convert_step (cfg : Config) (staker : Addr) (bond_amount : Uint128)
    (claim_asset_info : AssetInfo) (claim_token : Addr) (swap_dest : AssetInfo)
    (acc : Storage * list CosmosMsg * list Asset * list Asset) (asset_info : AssetInfo)
    : Result (Storage * list CosmosMsg * list Asset * list Asset) :=
  let '(st, messages, claimed, swap_assets) := acc in
  let? reward_info := compute_asset_rewards st staker bond_amount asset_info in
  let amount := pending_reward reward_info in
  if amount =? 0 then Ok acc else
  let st := save_reward staker (as_bytes asset_info) (mkRewardInfo (index reward_info) 0) st in
  let claimed := claimed ++ [mkAsset asset_info amount] in
  if bool_decide (asset_info = claim_asset_info) then
    Ok (st, messages ++ [cw20_msg_to claim_token (Cw20.Transfer staker amount)], claimed, swap_assets)
  else if bool_decide (asset_info = swap_dest) then Ok (st, messages, claimed, swap_assets)
  else
    match asset_info with
    | Cw20Asset contract_addr =>
        Ok (st, messages ++ [cw20_msg_to contract_addr (Cw20.IncreaseAllowance (collector cfg) amount)], claimed,
            swap_assets ++ [mkAsset asset_info amount])
    | NativeAsset _ => Err (GenericErr "Native reward assets not supported")
    end.

(** The destination of the swaps and who receives them: xPRISM is minted from
    PRISM by this contract. *)
Definition swap_destination (cfg : Config) (env : Env) (staker claim_token : Addr) : AssetInfo * Addr :=
  if bool_decide (claim_token = xprism_token cfg) then (Cw20Asset (prism_token cfg), contract_address env)
  else (Cw20Asset claim_token, staker).

(** The swap by the collector, and the mint that follows when this contract
    receives what was swapped. *)
Definition swap_messages (q : Querier) (env : Env) (cfg : Config) (staker : Addr) (swap_dest : AssetInfo)
    (swap_receiver : Addr) (swap_assets : list Asset) : Result (list CosmosMsg) :=
  if bool_decide (swap_assets = []) then Ok [] else
  let convert := WasmExecute (collector cfg)
    (BinCollector (CollectorMsg.ConvertAndSend swap_assets (Some swap_receiver) swap_dest)) [] in
  if bool_decide (swap_receiver = contract_address env) then
    let? prism_balance := query_token_balance q (prism_token cfg) (contract_address env) in
    Ok [convert; to_self env (MintXprismClaimHook staker prism_balance)]
  else Ok [convert].

Definition convert_and_claim_rewards (st : Storage) (q : Querier) (env : Env) (info : MessageInfo)
    (claim_asset_info : AssetInfo) : Result (Storage * Response) :=
  let staker := info_sender info in
  let? cfg := load_config st in
  let? whitelisted_assets := load_whitelist st in
  let? bond_info := load_bond st staker "no tokens bonded" in
  let? claim_token := verify_claim_asset cfg claim_asset_info in
  let '(swap_dest, swap_receiver) := swap_destination cfg env staker claim_token in
  let? '(st, messages, claimed, swap_assets) :=
    ofold (convert_step cfg staker (bond_amount bond_info) claim_asset_info claim_token swap_dest)
      (st, [], [], []) whitelisted_assets in
  let? swaps := swap_messages q env cfg staker swap_dest swap_receiver swap_assets in
  Ok (st, respond (messages ++ swaps) (("action", AStr "claim_rewards") :: (claimed_attribute <$> claimed))).

Definition mint_xprism_claim_hook (st : Storage) (q : Querier) (env : Env) (info : MessageInfo) (receiver : Addr)
    (prev_balance : Uint128) : Result (Storage * Response) :=
  let? cfg := load_config st in
  if bool_decide (info_sender info ≠ contract_address env) then unauthorized else
  let? prism_balance := query_token_balance q (prism_token cfg) (contract_address env) in
  let? mint_amount := checked_sub prism_balance prev_balance in
  Ok (st, respond
    [cw20_msg_to (prism_token cfg)
       (Cw20.Send (gov cfg) mint_amount (BinGovHook (GovMsg.MintXprism (Some receiver))))]
    [("action", AStr "mint_xprism_claim_hook"); ("prism_amount_to_mint_xprism", ANum mint_amount)]).

Definition whitelist_reward_asset (st : Storage) (info : MessageInfo) (asset : AssetInfo)
    : Result (Storage * Response) :=
  let? cfg := load_config st in
  if bool_decide (info_sender info ≠ owner cfg) then unauthorized else
  if is_native_token asset then Err (GenericErr "only token assets can be whitelisted") else
  let? whitelist := load_whitelist st in
  Ok (save_whitelist (whitelist ++ [asset]) st, respond []
    [("action", AStr "whitelist_reward_asset"); ("whitelisted_asset", AStr (asset_info_to_string asset))]).

(** [whitelist.remove(position)] of the first occurrence. *)
Fixpoint remove_first (asset : AssetInfo) (l : list AssetInfo) : option (list AssetInfo) :=
  match l with
  | [] => None
  | x :: l => if bool_decide (x = asset) then Some l else l' ← remove_first asset l; Some (x :: l')
  end.

Definition remove_whitelisted_reward_asset (st : Storage) (info : MessageInfo) (asset : AssetInfo)
    : Result (Storage * Response) :=
  let? cfg := load_config st in
  if bool_decide (info_sender info ≠ owner cfg) then unauthorized else
  let? whitelist := load_whitelist st in
  let? whitelist := ok_or (remove_first asset whitelist) (GenericErr "this asset is not whitelisted") in
  Ok (save_whitelist whitelist st, respond []
    [("action", AStr "remove_whitelisted_reward_asset"); ("removed_asset", AStr (asset_info_to_string asset))]).

Definition query_reward_info (st : Storage) (staker_addr : string) : Result RewardInfoResponse :=
  let? whitelisted_assets := load_whitelist st in
  let? bond_info := load_bond st staker_addr "there is no reward info for this address" in
  let? rewards := omapM (λ wlasset,
    let? reward_info := compute_asset_rewards st staker_addr (bond_amount bond_info) wlasset in
    Ok (mkAsset wlasset (pending_reward reward_info))) whitelisted_assets in
  Ok (mkRewardInfoResponse staker_addr (bond_amount bond_info) rewards).

(** ** Staking (src/staking.rs) *)
Definition bond (st : Storage) (staker_addr : string) (amount : Uint128) : Result (Storage * Response) :=
  let? bond_total := load_total st in
  let? whitelisted_assets := load_whitelist st in
  let bond_info := default BondInfo_default (BOND_AMOUNTS st !! staker_addr) in
  let? st := compute_all_rewards st staker_addr (bond_amount bond_info) whitelisted_assets in
  let! bonded := uint_add (bond_amount bond_info) amount in
  let! total := uint_add bond_total amount in
  Ok (save_bond total staker_addr (mkBondInfo bonded) st, respond []
    [("action", AStr "bond"); ("staker_addr", AStr staker_addr); ("amount", ANum amount)]).

(** The amount to unbond, by default everything. *)
Definition unbond_amount (bonded : Uint128) (amount : option Uint128) : Result Uint128 :=
  match amount with
  | Some amount =>
      if bonded <? amount then Err (GenericErr "can not unbond more than the bonded amount") else Ok amount
  | None => Ok bonded
  end.

Definition unbond (st : Storage) (info : MessageInfo) (amount : option Uint128) : Result (Storage * Response) :=
  let staker_addr := info_sender info in
  let? cfg := load_config st in
  let? bond_total := load_total st in
  let? whitelisted_assets := load_whitelist st in
  let? bond_info := load_bond st staker_addr "no tokens bonded" in
  let? st := compute_all_rewards st staker_addr (bond_amount bond_info) whitelisted_assets in
  let? unbonded_amt := unbond_amount (bond_amount bond_info) amount in
  if bond_total <? unbonded_amt then Err (GenericErr "can not unbond more than total bonded amount") else
  let! rest := uint_sub (bond_amount bond_info) unbonded_amt in
  let! total := uint_sub bond_total unbonded_amt in
  Ok (save_bond total staker_addr (mkBondInfo rest) st, respond
    [cw20_msg_to (yluna_token cfg) (Cw20.Transfer staker_addr unbonded_amt)]
    [("action", AStr "unbond"); ("staker_addr", AStr staker_addr); ("amount", ANum unbonded_amt)]).

(** ** Delegator rewards (src/swaps.rs) *)

(** The swaps of the coins that are not luna and that the oracle quotes. *)
Definition swap_coins (rates : list string) (balances : list Coin) : list CosmosMsg :=
  (λ coin, create_swap_msg coin REWARD_DENOM) <$>
    List.filter (λ coin, negb (bool_decide (coin_denom coin = REWARD_DENOM) ||
                               negb (existsb (λ quote, bool_decide (quote = coin_denom coin)) rates))) balances.

Definition process_delegator_rewards (st : Storage) (peers : Peers) (env : Env) : Result (Storage * Response) :=
  let? balances := query_all_balances peers (contract_address env) in
  let? rates := query_exchange_rates peers REWARD_DENOM (coin_denom <$> balances) in
  Ok (st, respond (swap_coins rates balances ++ [to_self env LunaToPylunaHook])
    [("action", AStr "process_delegator_rewards")]).

Definition luna_to_pyluna_hook (st : Storage) (q : Querier) (env : Env) : Result (Storage * Response) :=
  let? cfg := load_config st in
  let? luna_amt := query_native_balance q (contract_address env) REWARD_DENOM in
  let? prev_pluna_balance := query_token_balance q (pluna_token cfg) (contract_address env) in
  let? prev_yluna_balance := query_token_balance q (yluna_token cfg) (contract_address env) in
  Ok (st, respond
    [WasmExecute (vault cfg) (BinVault (VaultMsg.BondSplit None)) [mkCoin REWARD_DENOM luna_amt];
     to_self env (DepositMintedPylunaHook prev_pluna_balance prev_yluna_balance)]
    [("action", AStr "luna_to_pyluna_hook")]).

Definition deposit_minted_pyluna_hook (st : Storage) (q : Querier) (env : Env) (info : MessageInfo)
    (prev_pluna_balance prev_yluna_balance : Uint128) : Result (Storage * Response) :=
  let? cfg := load_config st in
  if bool_decide (info_sender info ≠ contract_address env) then unauthorized else
  let? curr_pluna_balance := query_token_balance q (pluna_token cfg) (contract_address env) in
  let? curr_yluna_balance := query_token_balance q (yluna_token cfg) (contract_address env) in
  let? reward_pluna := checked_sub curr_pluna_balance prev_pluna_balance in
  let? reward_yluna := checked_sub curr_yluna_balance prev_yluna_balance in
  Ok (st, respond
    [to_self env (DepositRewards [mkAsset (Cw20Asset (yluna_token cfg)) reward_yluna;
                                  mkAsset (Cw20Asset (pluna_token cfg)) reward_pluna])]
    [("action", AStr "deposit_minted_pyluna_hook")]).

(** ** Entry points (src/contract.rs) *)
Definition validate_protocol_fee (fee : Decimal) : Result Decimal :=
  let? limit := ok_or (dec_from_str MAX_PROTOCOL_FEE) (GenericErr "Error parsing") in
  if limit <? fee then Err (GenericErr "fee can not be greater than {}") else Ok fee.

Definition instantiate (msg : InstantiateMsg) : Result (Storage * Response) :=
  let? _ := validate_protocol_fee (im_protocol_fee msg) in
  let? owner := addr_validate (im_owner msg) in
  let? vault := addr_validate (im_vault msg) in
  let? gov := addr_validate (im_gov msg) in
  let? collector := addr_validate (im_collector msg) in
  let? cluna_token := addr_validate (im_cluna_token msg) in
  let? yluna_token := addr_validate (im_yluna_token msg) in
  let? pluna_token := addr_validate (im_pluna_token msg) in
  let? prism_token := addr_validate (im_prism_token msg) in
  let? xprism_token := addr_validate (im_xprism_token msg) in
  Ok (mkStorage
        (Some (mkConfig owner vault gov collector (im_protocol_fee msg) cluna_token yluna_token pluna_token
                 prism_token xprism_token))
        (Some [Cw20Asset pluna_token; Cw20Asset yluna_token]) (Some 0) ∅ ∅ ∅, respond [] []).

(** yLuna is bonded by sending it to this contract. *)
Definition receive_cw20 (st : Storage) (info : MessageInfo) (msg : Cw20ReceiveMsg Binary)
    : Result (Storage * Response) :=
  let? hook := from_binary (cw20_msg msg) in
  match hook with
  | Bond =>
      let? cfg := load_config st in
      if bool_decide (yluna_token cfg ≠ info_sender info) then unauthorized
      else bond st (cw20_sender msg) (cw20_amount msg)
  end.

Definition validate_or (current : Addr) (o : option string) : Result Addr :=
  match o with Some s => addr_validate s | None => Ok current end.

Definition update_config (st : Storage) (info : MessageInfo) (new_owner new_collector : option string)
    (new_fee : option Decimal) : Result (Storage * Response) :=
  let? cfg := load_config st in
  if bool_decide (info_sender info ≠ owner cfg) then unauthorized else
  let? o := validate_or (owner cfg) new_owner in
  let? c := validate_or (collector cfg) new_collector in
  let? fee := match new_fee with Some f => validate_protocol_fee f | None => Ok (protocol_fee cfg) end in
  Ok (save_config (mkConfig o (vault cfg) (gov cfg) c fee (cluna_token cfg) (yluna_token cfg) (pluna_token cfg)
                     (prism_token cfg) (xprism_token cfg)) st,
      respond [] [("action", AStr "update_config")]).

Definition execute (st : Storage) (q : Querier) (peers : Peers) (env : Env) (info : MessageInfo)
    (msg : ExecuteMsg Binary) : Result (Storage * Response) :=
  match msg with
  | Receive msg => receive_cw20 st info msg
  | Unbond amount => unbond st info amount
  | ClaimRewards => claim_rewards st info
  | ConvertAndClaimRewards claim_asset =>
      let? _ := check claim_asset in convert_and_claim_rewards st q env info claim_asset
  | MintXprismClaimHook receiver prev_balance => mint_xprism_claim_hook st q env info receiver prev_balance
  | DepositRewards assets =>
      let? _ := check_all (asset_info <$> assets) in deposit_rewards st peers env info assets
  | ProcessDelegatorRewards => process_delegator_rewards st peers env
  | LunaToPylunaHook => luna_to_pyluna_hook st q env
  | DepositMintedPylunaHook prev_pluna_balance prev_yluna_balance =>
      deposit_minted_pyluna_hook st q env info prev_pluna_balance prev_yluna_balance
  | WhitelistRewardAsset asset => let? _ := check asset in whitelist_reward_asset st info asset
  | RemoveRewardAsset asset => let? _ := check asset in remove_whitelisted_reward_asset st info asset
  | UpdateConfig owner collector protocol_fee => update_config st info owner collector protocol_fee
  end.

(** ** Queries *)
Definition query_config (st : Storage) : Result ConfigResponse :=
  let? c := load_config st in
  Ok (mkConfigResponse (owner c) (vault c) (gov c) (collector c) (protocol_fee c) (cluna_token c) (yluna_token c)
        (pluna_token c) (prism_token c) (xprism_token c)).
Definition query_pool_info (st : Storage) (asset_token : string) : Result PoolInfoResponse :=
  let? p := load "PoolInfo" (POOL_INFO st !! asset_token) in Ok (mkPoolInfoResponse asset_token (reward_index p)).
Definition query_whitelist (st : Storage) : Result RewardAssetWhitelistResponse :=
  let? l := load_whitelist st in Ok (mkRewardAssetWhitelistResponse l).
Definition query_bond_amount (st : Storage) : Result Uint128 := load_total st.

Definition query (st : Storage) (msg : QueryMsg) : Result Answer :=
  match msg with
  | QConfig => let? r := query_config st in Ok (AnswerConfig r)
  | QPoolInfo asset_token => let? r := query_pool_info st asset_token in Ok (AnswerPoolInfo r)
  | QRewardAssetWhitelist => let? r := query_whitelist st in Ok (AnswerWhitelist r)
  | QRewardInfo staker_addr => let? r := query_reward_info st staker_addr in Ok (AnswerRewardInfo r)
  | QBondAmount => let? n := query_bond_amount st in Ok (AnswerBondAmount n)
  end.
End contract.
End YassetStaking.
