(* ===== verification/YassetProofs.v ===== *)
(** * Lemmas on the yLuna staking contract

    What settling an account, a deposit and a claim do to the rewards that are
    promised, and the invariants every operation preserves. *)
From S2P Require Import Prelude Cosmwasm Protocol Prismswap YassetStaking.
Import YassetStakingMsg Prismswap YassetStaking.

Module YassetProofs.

Definition pool_index (st : Storage) (a : string) : N := reward_index (default PoolInfo_default (POOL_INFO st !! a)).
Definition bonded (st : Storage) (u : string) : N := bond_amount (default BondInfo_default (BOND_AMOUNTS st !! u)).
Definition total (st : Storage) : N := default 0 (TOTAL_BOND_AMOUNT st).
Definition whitelist (st : Storage) : list AssetInfo := default [] (WHITELISTED_ASSETS st).
Definition bonds (st : Storage) : N := map_sum (λ _, bond_amount) (BOND_AMOUNTS st).

(** In atomics: the rewards of record [i] in asset [a] of account [u], recorded
    and earned since, and those of all accounts. *)
Definition worth (st : Storage) (u a : string) (i : RewardInfo) : N :=
  DECIMAL_UNIT * pending_reward i + bonded st u * (pool_index st a - index i).
Definition promised (st : Storage) (a : string) : N :=
  map_sum (λ k i, if decide (k.2 = a) then worth st k.1 a i else 0) (REWARDS st).

(** The record of [u] in [a] after settling. *)
Definition settled_reward (st : Storage) (u a : string) : RewardInfo :=
  match REWARDS st !! (u, a) with
  | Some i => mkRewardInfo (pool_index st a) (pending_reward i + growth (bonded st u) (pool_index st a) (index i))
  | None => mkRewardInfo (pool_index st a) 0
  end.

(** No record is ahead of its asset. *)
Definition Behind (st : Storage) : Prop :=
  ∀ u a i, REWARDS st !! (u, a) = Some i → index i ≤ pool_index st a.

(** Nothing of [u] in [a] remains to be settled. *)
Definition settled (st : Storage) (u a : string) : Prop :=
  ∀ i, REWARDS st !! (u, a) = Some i → index i = pool_index st a.
#[global] Instance settled_dec st u a : Decision (settled st u a).
Proof.
  destruct (REWARDS st !! (u, a)) as [i|] eqn:Hi.
  - destruct (decide (index i = pool_index st a)) as [He|He]; [left|right].
    + intros j Hj. by simplify_eq.
    + intros Hs. by apply He, Hs.
  - left. intros i. by rewrite Hi.
Defined.

(** ** Settling an account *)
Section settling.
Context {P : Cosmwasm} {L : CosmwasmLaws P}.

Lemma compute_spec st u a i :
  compute_asset_rewards st u (bonded st u) a = Ok i → i = settled_reward st u (as_bytes a).
Proof.
  unfold compute_asset_rewards, settled_reward, pool_info, pool_index, growth. intros H.
  destruct (REWARDS st !! (u, as_bytes a)) as [j|]; inv_ok H; inv_body Ha; done.
Qed.

(** What a record is worth, if there is one. *)
Definition worth_of (st : Storage) (u a : string) : N := from_option (worth st u a) 0 (REWARDS st !! (u, a)).

Lemma promised_save st u a i b :
  promised (save_reward u a i st) b + (if decide (a = b) then worth_of st u a else 0) =
  promised st b + (if decide (a = b) then worth st u a i else 0).
Proof.
  unfold promised, worth_of. simpl.
  pose proof (map_sum_insert (λ k i, if decide (k.2 = b) then worth st k.1 b i else 0) (REWARDS st) (u, a) i) as Hs.
  unfold contrib in Hs. simpl in Hs. destruct (decide (a = b)) as [->|]; [exact Hs|].
  by destruct (REWARDS st !! (u, a)).
Qed.

(** Settling promises at most one unit more, and nothing if there is nothing to
    settle. *)
Lemma settled_worth st u a :
  Behind st →
  DECIMAL_UNIT * pending_reward (settled_reward st u a) ≤
  worth_of st u a + (if decide (settled st u a) then 0 else DECIMAL_UNIT).
Proof.
  intros HB. unfold settled_reward, worth_of. destruct (REWARDS st !! (u, a)) as [i|] eqn:Hi; simpl; [|lia].
  unfold worth. rewrite N.mul_add_distr_l. case_decide as Hs.
  - rewrite (Hs _ Hi), growth_refl. lia.
  - pose proof (growth_bound (bonded st u) _ _ (HB _ _ _ Hi)). lia.
Qed.

Lemma settled_reward_index st u a : index (settled_reward st u a) = pool_index st a.
Proof. unfold settled_reward. by destruct (REWARDS st !! (u, a)). Qed.

(** Between [st] and [st'] some of the rewards of [u] have been settled, and
    [paid] of each asset has been taken out. *)
Record settles (u : string) (st st' : Storage) (paid : string → N) : Prop := {
  se_config : CONFIG st' = CONFIG st;
  se_whitelist : WHITELISTED_ASSETS st' = WHITELISTED_ASSETS st;
  se_total : TOTAL_BOND_AMOUNT st' = TOTAL_BOND_AMOUNT st;
  se_pool : POOL_INFO st' = POOL_INFO st;
  se_bonds : BOND_AMOUNTS st' = BOND_AMOUNTS st;
  se_others v a : v ≠ u → REWARDS st' !! (v, a) = REWARDS st !! (v, a);
  se_behind : Behind st → Behind st';
  se_settled a : settled st u a → settled st' u a;
  se_promise a : Behind st →
    promised st' a + DECIMAL_UNIT * paid a ≤
    promised st a + (if decide (settled st' u a ∧ ¬ settled st u a) then DECIMAL_UNIT else 0) }.

Lemma settles_refl u st : settles u st st (λ _, 0).
Proof. split; try done. intros a _. rewrite decide_False by naive_solver. lia. Qed.

Lemma settles_trans u st1 st2 st3 p1 p2 p :
  settles u st1 st2 p1 → settles u st2 st3 p2 → (∀ a, p a ≤ p1 a + p2 a) → settles u st1 st3 p.
Proof.
  intros [] [] Hp. split; [congruence..| | | |].
  - intros v a Hv. by rewrite se_others1, se_others0.
  - auto.
  - auto.
  - intros a HB. specialize (se_promise0 a HB). specialize (se_promise1 a (se_behind0 HB)). specialize (Hp a).
    assert (DECIMAL_UNIT * p a ≤ DECIMAL_UNIT * p1 a + DECIMAL_UNIT * p2 a)
      by (rewrite <-N.mul_add_distr_l; by apply N.mul_le_mono_l).
    specialize (se_settled0 a). specialize (se_settled1 a).
    destruct (decide (settled st2 u a ∧ ¬ settled st1 u a)), (decide (settled st3 u a ∧ ¬ settled st2 u a)),
      (decide (settled st3 u a ∧ ¬ settled st1 u a)); (lia || naive_solver).
Qed.

Lemma settles_save u a st paid n :
  let i := settled_reward st u a in
  n + paid a = pending_reward i → (∀ b, b ≠ a → paid b = 0) →
  settles u st (save_reward u a (mkRewardInfo (index i) n) st) paid.
Proof.
  intros i Hn Hp.
  assert (∀ v b j, REWARDS (save_reward u a (mkRewardInfo (index i) n) st) !! (v, b) = Some j →
    (v = u ∧ b = a ∧ j = mkRewardInfo (pool_index st a) n) ∨ ((v, b) ≠ (u, a) ∧ REWARDS st !! (v, b) = Some j)) as Hl.
  { intros v b j. simpl. rewrite lookup_insert_Some. intros [[[= <- <-] <-]|[Hne ?]]; [left|by right].
    unfold i. by rewrite settled_reward_index. }
  split; try done.
  - intros v b Hv. simpl. rewrite lookup_insert_ne; [done|congruence].
  - intros HB v b j [(-> & -> & ->)|[_ Hj]]%Hl; [apply N.le_refl|by eapply HB].
  - intros b Hs j [(_ & -> & ->)|[_ Hj]]%Hl; [done|by apply Hs].
  - intros b HB. pose proof (promised_save st u a (mkRewardInfo (index i) n) b) as Hps.
    destruct (decide (a = b)) as [<-|Hne].
    + assert (settled (save_reward u a (mkRewardInfo (index i) n) st) u a) as Hset.
      { intros j [(_ & _ & ->)|[Hc _]]%Hl; [done|by destruct Hc]. }
      pose proof (settled_worth st u a HB) as Hw. fold i in Hw.
      assert (worth st u a (mkRewardInfo (index i) n) = DECIMAL_UNIT * n) as Hwi.
      { unfold worth, i. rewrite settled_reward_index. simpl. lia. }
      rewrite Hwi in Hps. rewrite <-Hn in Hw. rewrite N.mul_add_distr_l in Hw.
      destruct (decide (settled st u a)); [rewrite decide_False by naive_solver|rewrite decide_True by done]; lia.
    + rewrite Hp by congruence. lia.
Qed.

(** All assets of a list. *)
Lemma compute_all_spec st u l st' :
  compute_all_rewards st u (bonded st u) l = Ok st' →
  settles u st st' (λ _, 0) ∧ (∀ a, a ∈ l → settled st' u (as_bytes a)) ∧
  (∀ a i, REWARDS st' !! (u, a) = Some i → is_Some (REWARDS st !! (u, a)) ∨ ∃ x, x ∈ l ∧ as_bytes x = a).
Proof.
  unfold compute_all_rewards. assert (bonded st u = bonded st u) as Hb by done. revert Hb.
  generalize (bonded st u) at 1 3. revert st. induction l as [|x l IH]; intros st b Hb H; simpl in H.
  { injection H as <-. split_and!; [apply settles_refl| |]; [by intros a ?%not_elem_of_nil|intros a i Hi; left; eauto]. }
  inv_ok H. inv_ok Ha. subst. apply compute_spec in Ha0 as ->.
  pose proof (settles_save u (as_bytes x) st (λ _, 0) (pending_reward (settled_reward st u (as_bytes x))) ltac:(simpl; lia) ltac:(done)) as Hs.
  simpl in Hs. destruct (settled_reward st u (as_bytes x)) as [ix n] eqn:Hr. simpl in Hs.
  apply IH in H as (Hs2 & Hall & Hnew); [|done].
  split_and!; [by eapply settles_trans|..].
  - intros a [->|Ha]%elem_of_cons; [|by apply Hall]. apply Hs2. intros j. simpl. rewrite lookup_insert_eq.
    intros [= <-]. simpl. pose proof (settled_reward_index st u (as_bytes x)) as Hix. by rewrite Hr in Hix.
  - intros a i Hi. destruct (Hnew a i Hi) as [[j Hj]|(y & Hy & <-)]; [|right; exists y; split; [by right|done]].
    simpl in Hj. apply lookup_insert_Some in Hj as [[[= <-] _]|[_ Hj]]; [right; exists x; split; [by left|done]|left; eauto].
Qed.

(** A new bond of an account whose rewards are settled promises nothing. *)
Lemma promised_bond st t u n a :
  (∀ b, settled st u b) → promised (save_bond t u (mkBondInfo n) st) a = promised st a.
Proof.
  intros Hs. apply map_sum_ext. intros [v b] i Hi. simpl in *. case_decide as Hb; [subst b|done].
  unfold worth, bonded. simpl. rewrite lookup_insert. case_decide as Hv; [subst v|done].
  change (pool_index (save_bond _ _ _ _) a) with (pool_index st a). by rewrite (Hs _ _ Hi), N.sub_diag, !N.mul_0_r.
Qed.
End settling.

(** ** Claims *)

(** What a message takes out of the contract in token [a]: a transfer, or an
    allowance the collector uses up. *)
Definition released (a : string) (m : CosmosMsg) : N :=
  match m with
  | WasmExecute c (BinCw20 (Cw20.Transfer _ n)) _ | WasmExecute c (BinCw20 (Cw20.IncreaseAllowance _ n)) _ =>
      if bool_decide (c = a) then n else 0
  | _ => 0
  end.
Definition releases (a : string) (l : list CosmosMsg) : N := sum_N (released a <$> l).

Lemma releases_app a l l' : releases a (l ++ l') = releases a l + releases a l'.
Proof. unfold releases. by rewrite fmap_app, sum_N_app. Qed.

Definition only_tokens (l : list AssetInfo) : Prop := ∀ x, x ∈ l → ∃ c, x = Cw20Asset c.

Section claims.
Context {P : Cosmwasm} {L : CosmwasmLaws P} {CA : CwAsset} {T : Terra} {TL : TerraLaws T}.

Lemma bonded_settles u st st' p v : settles u st st' p → bonded st' v = bonded st v.
Proof. intros []. unfold bonded. by rewrite se_bonds0. Qed.

(** One asset of a claim: its rewards are settled and paid out. *)
Lemma claim_step_spec u st msgs cl x st' msgs' cl' :
  claim_step u (bonded st u) (st, msgs, cl) x = Ok (st', msgs', cl') →
  let n := pending_reward (settled_reward st u (as_bytes x)) in
  settles u st st' (λ a, if decide (a = as_bytes x) then n else 0) ∧
  REWARDS st' = <[(u, as_bytes x) := mkRewardInfo (pool_index st (as_bytes x)) 0]> (REWARDS st) ∧
  (n = 0 ∧ msgs' = msgs ∨
   ∃ c, x = Cw20Asset c ∧ n ≠ 0 ∧ msgs' = msgs ++ [cw20_msg_to c (Cw20.Transfer u n)]).
Proof.
  intros H n. unfold claim_step in H. apply qbind_Ok in H as (i & Hi & H). apply compute_spec in Hi as ->.
  assert (settles u st
    (save_reward u (as_bytes x) (mkRewardInfo (index (settled_reward st u (as_bytes x))) 0) st)
    (λ a, if decide (a = as_bytes x) then n else 0)) as Hs.
  { apply settles_save; [|intros b Hb; by rewrite decide_False]. rewrite decide_True by done. fold n. lia. }
  rewrite (settled_reward_index st u (as_bytes x)) in *. fold n in H.
  destruct (N.eqb_spec n 0) as [Hz|Hz]; [|destruct x as [c|]; [|done]]; injection H as <- <- <-.
  - split_and!; [exact Hs|done|by left].
  - split_and!; [exact Hs|done|right; by exists c].
Qed.

Lemma claim_loop u l : ∀ b st msgs cl st' msgs' cl', b = bonded st u →
  ofold (claim_step u b) (st, msgs, cl) l = Ok (st', msgs', cl') →
  ∃ out, msgs' = msgs ++ out ∧ settles u st st' (λ a, releases a out) ∧
    (∀ a i, REWARDS st' !! (u, a) = Some i → is_Some (REWARDS st !! (u, a)) ∨ ∃ x, x ∈ l ∧ as_bytes x = a).
Proof.
  induction l as [|x l IH]; intros b st msgs cl st' msgs' cl' -> H; simpl ofold in H.
  { injection H as <- <- _. exists []. rewrite app_nil_r. split_and!; [done|apply settles_refl|eauto]. }
  apply qbind_Ok in H as ([[st1 msgs1] cl1] & H1 & H).
  apply claim_step_spec in H1 as (Hs & Hr & Hm).
  apply IH in H as (out & -> & Hs2 & Hnew); [|symmetry; by eapply bonded_settles].
  assert (∀ a i, REWARDS st' !! (u, a) = Some i → is_Some (REWARDS st !! (u, a)) ∨ ∃ y, y ∈ x :: l ∧ as_bytes y = a) as Hn.
  { intros a i Hi. destruct (Hnew a i Hi) as [[j Hj]|(y & Hy & <-)]; [|right; exists y; split; [by right|done]].
    rewrite Hr, lookup_insert_Some in Hj. destruct Hj as [[[= <-] _]|[_ Hj]]; [right; exists x; split; [by left|done]|left; eauto]. }
  destruct Hm as [[Hz ->]|(c & -> & Hz & ->)].
  - exists out. split_and!; [done| |done]. eapply settles_trans; [exact Hs|exact Hs2|].
    intros a. rewrite Hz. by case_decide.
  - eexists. rewrite <-app_assoc. split_and!; [done| |done]. eapply settles_trans; [exact Hs|exact Hs2|].
    intros a. rewrite releases_app. apply N.add_le_mono_r. unfold releases. simpl.
    case_bool_decide; [rewrite decide_True by done|rewrite decide_False by congruence]; lia.
Qed.

Lemma convert_step_spec cfg u claim tok dest st msgs cl sw x st' msgs' cl' sw' :
  verify_claim_asset cfg claim = Ok tok →
  convert_step cfg u (bonded st u) claim tok dest (st, msgs, cl, sw) x = Ok (st', msgs', cl', sw') →
  ∃ out, msgs' = msgs ++ out ∧ settles u st st' (λ a, releases a out) ∧
    (st' = st ∨ ∃ i, REWARDS st' = <[(u, as_bytes x) := i]> (REWARDS st)).
Proof.
  intros Hv H. unfold convert_step in H. apply qbind_Ok in H as (i & Hi & H). apply compute_spec in Hi as ->.
  set (n := pending_reward (settled_reward st u (as_bytes x))) in *.
  destruct (N.eqb_spec n 0) as [Hz|Hz].
  { injection H as <- <- <- <-. exists []. rewrite app_nil_r. split_and!; [done|apply settles_refl|by left]. }
  assert (∀ out, releases (as_bytes x) out ≤ n → (∀ a, a ≠ as_bytes x → releases a out = 0) →
    settles u st (save_reward u (as_bytes x) (mkRewardInfo (index (settled_reward st u (as_bytes x))) 0) st)
      (λ a, releases a out)) as Hs.
  { intros out Hle Ho.
    eapply settles_trans; [apply (settles_save u (as_bytes x) st (λ a, if decide (a = as_bytes x) then n else 0) 0)
      |apply settles_refl|].
    - rewrite decide_True by done. fold n. lia.
    - intros b Hb. by rewrite decide_False.
    - intros a. cbv beta. destruct (decide (a = as_bytes x)) as [Ha|Ha]; [rewrite Ha|rewrite Ho by done]; lia. }
  case_bool_decide as Hc; [|case_bool_decide as Hd].
  - injection H as <- <- <- <-. subst x. unfold verify_claim_asset in Hv. destruct claim as [c|]; [|done].
    assert (tok = c) as -> by (destruct (_ || _)%bool; [by simplify_eq|done]).
    eexists. split_and!; [done| |right; eexists; done]. apply Hs.
    + unfold releases. simpl. rewrite bool_decide_eq_true_2 by done. lia.
    + intros a Ha. unfold releases. simpl in *. by rewrite bool_decide_eq_false_2 by congruence.
  - injection H as <- <- <- <-. exists []. rewrite app_nil_r. split_and!; [done| |right; eexists; done].
    apply Hs; [apply N.le_0_l|done].
  - destruct x as [c|]; [|done]. injection H as <- <- <- <-. eexists.
    split_and!; [done| |right; eexists; done]. apply Hs.
    + unfold releases. simpl. rewrite bool_decide_eq_true_2 by done. lia.
    + intros a Ha. unfold releases. simpl in *. by rewrite bool_decide_eq_false_2 by congruence.
Qed.

Lemma convert_loop cfg u claim tok dest l :
  verify_claim_asset cfg claim = Ok tok →
  ∀ b st msgs cl sw st' msgs' cl' sw', b = bonded st u →
  ofold (convert_step cfg u b claim tok dest) (st, msgs, cl, sw) l = Ok (st', msgs', cl', sw') →
  ∃ out, msgs' = msgs ++ out ∧ settles u st st' (λ a, releases a out) ∧
    (∀ a i, REWARDS st' !! (u, a) = Some i → is_Some (REWARDS st !! (u, a)) ∨ ∃ x, x ∈ l ∧ as_bytes x = a).
Proof.
  intros Hv. induction l as [|x l IH]; intros b st msgs cl sw st' msgs' cl' sw' -> H; simpl ofold in H.
  { injection H as <- <- _ _. exists []. rewrite app_nil_r. split_and!; [done|apply settles_refl|eauto]. }
  apply qbind_Ok in H as ([[[st1 msgs1] cl1] sw1] & H1 & H).
  apply convert_step_spec in H1 as (out1 & -> & Hs & Hr); [|done].
  apply IH in H as (out & -> & Hs2 & Hnew); [|symmetry; by eapply bonded_settles].
  exists (out1 ++ out). rewrite app_assoc. split_and!; [done| |].
  - eapply settles_trans; [exact Hs|exact Hs2|]. intros a. by rewrite releases_app.
  - intros a i Hi. destruct (Hnew a i Hi) as [[j Hj]|(y & Hy & <-)]; [|right; exists y; split; [by right|done]].
    destruct Hr as [->|[k Hr]]; [left; eauto|]. rewrite Hr, lookup_insert_Some in Hj.
    destruct Hj as [[[= <-] _]|[_ Hj]]; [right; exists x; split; [by left|done]|left; eauto].
Qed.
End claims.

(** ** Books *)
Record Books (st : Storage) : Prop := {
  bk_config : is_Some (CONFIG st);
  bk_whitelist : is_Some (WHITELISTED_ASSETS st);
  bk_total : is_Some (TOTAL_BOND_AMOUNT st);
  (** the total is the sum of the bonds *)
  bk_bonds : bonds st = total st;
  (** no account is ahead of an index *)
  bk_behind : Behind st;
  (** only tokens are whitelisted, and there are records for these only *)
  bk_tokens : only_tokens (whitelist st);
  bk_known u a i : REWARDS st !! (u, a) = Some i → ∃ x, x ∈ whitelist st ∧ as_bytes x = a }.

Section books.
Context {P : Cosmwasm} {L : CosmwasmLaws P} {CA : CwAsset} {T : Terra} {TL : TerraLaws T}.

Lemma load_whitelist_Ok st l : load_whitelist st = Ok l → l = whitelist st.
Proof. unfold load_whitelist, whitelist. by intros ->%load_Ok. Qed.
Lemma load_total_Ok st n : load_total st = Ok n → n = total st.
Proof. unfold load_total, total. by intros ->%load_Ok. Qed.

Lemma Books_settles u st st' p :
  settles u st st' p →
  (∀ a i, REWARDS st' !! (u, a) = Some i →
    is_Some (REWARDS st !! (u, a)) ∨ ∃ x, x ∈ whitelist st ∧ as_bytes x = a) →
  Books st → Books st'.
Proof.
  intros [] Hnew []. split; unfold bonds, total, whitelist in *.
  - by rewrite se_config0.
  - by rewrite se_whitelist0.
  - by rewrite se_total0.
  - by rewrite se_bonds0, se_total0.
  - auto.
  - by rewrite se_whitelist0.
  - intros v a i Hi. rewrite se_whitelist0. destruct (decide (v = u)) as [->|Hv].
    + destruct (Hnew _ _ Hi) as [[j Hj]|?]; [by eapply bk_known0|done].
    + rewrite se_others0 in Hi by done. by eapply bk_known0.
Qed.

Lemma settled_all st u : Books st → (∀ x, x ∈ whitelist st → settled st u (as_bytes x)) → ∀ a, settled st u a.
Proof. intros [] Hs a i Hi. destruct (bk_known0 _ _ _ Hi) as (x & Hx & <-). by apply Hs. Qed.

Lemma Books_bond st u n :
  Books st → Books (save_bond (total st + n - bonded st u) u (mkBondInfo n) st).
Proof.
  intros []. split; try done. unfold bonds, total in *. simpl.
  pose proof (map_sum_insert (λ _, bond_amount) (BOND_AMOUNTS st) u (mkBondInfo n)) as Hs. simpl in Hs.
  assert (contrib (λ _, bond_amount) (BOND_AMOUNTS st) u = bonded st u) as Hc
    by (unfold contrib, bonded; by destruct (BOND_AMOUNTS st !! u)).
  rewrite Hc in Hs. lia.
Qed.

(** ** Deposits *)

(** What a deposit adds to the index of one token, and what the collector gets. *)
Record deposited (st st' : Storage) (a : string) (n rest : N) : Prop := {
  dp_config : CONFIG st' = CONFIG st;
  dp_whitelist : WHITELISTED_ASSETS st' = WHITELISTED_ASSETS st;
  dp_total : TOTAL_BOND_AMOUNT st' = TOTAL_BOND_AMOUNT st;
  dp_rewards : REWARDS st' = REWARDS st;
  dp_bonds : BOND_AMOUNTS st' = BOND_AMOUNTS st;
  dp_others b : b ≠ a → pool_index st' b = pool_index st b;
  dp_rest : rest ≤ n;
  dp_index : pool_index st' a = pool_index st a + (n - rest) * DECIMAL_UNIT / total st;
  dp_none : total st = 0 → rest = n ∧ POOL_INFO st' = POOL_INFO st }.

(** Nobody is staked when the total is zero; a share is at most everything. *)
Lemma stakers_portion_spec t v r :
  stakers_portion t v = Some r → r ≤ DECIMAL_UNIT ∧ (t = 0 → r = 0).
Proof.
  unfold stakers_portion. destruct (N.eqb_spec t 0) as [Hz|Hz]; intros H; [injection H as <-; done|].
  simplify_option_eq. rewrite dec_one_law. split; [lia|done].
Qed.

(** The reward of a deposit of [n]: the stakers' portion less the fee. *)
Definition reward_of (cfg : Config) (portion n : N) : N :=
  n * portion / DECIMAL_UNIT - n * portion / DECIMAL_UNIT * protocol_fee cfg / DECIMAL_UNIT.

Lemma deposit_step_spec cfg portion env info st msgs x st' msgs' :
  Books st → portion ≤ DECIMAL_UNIT → (total st = 0 → portion = 0) →
  deposit_step cfg (total st) (whitelist st) portion env info (st, msgs) x = Ok (st', msgs') →
  asset_info x ∈ whitelist st ∧ ∃ a, asset_info x = Cw20Asset a ∧
    let n := asset_amount x in let rest := n - reward_of cfg portion n in
    deposited st st' a n rest ∧
    msgs' = msgs ++
      (if bool_decide (contract_address env ≠ info_sender info)
       then [cw20_msg_to a (Cw20.TransferFrom (info_sender info) (contract_address env) n)] else []) ++
      [cw20_msg_to a (Cw20.Transfer (collector cfg) rest)].
Proof.
  intros HB Hp Hz H. unfold deposit_step in H. case_bool_decide as Hw; [done|].
  split; [done|]. destruct HB. destruct (bk_tokens0 _ Hw) as [a Ha]. exists a. split; [done|]. intros n rest.
  rewrite Ha in H. simpl as_bytes in H. unfold pool_info in H. simpl as_bytes in H. fold n in H.
  inv_ok H; subst; platform_facts; simplify_eq.
  all: assert (n * portion / DECIMAL_UNIT ≤ n) as Hle
    by (apply N.div_le_upper_bound; [done|]; rewrite N.mul_comm; by apply N.mul_le_mono_r).
  all: fold (reward_of cfg portion n) in *.
  all: assert (reward_of cfg portion n ≤ n) as Hrn by (unfold reward_of; etrans; [apply N.le_sub_l|exact Hle]).
  - split.
    + split; try done; [unfold rest; lia| |].
      * rewrite E, N.div_0_r. lia.
      * intros _. split; [|done]. unfold rest, reward_of. rewrite (Hz E), N.mul_0_r, N.div_0_l by done. by rewrite N.sub_0_l, N.sub_0_r.
    + destruct (bool_decide _); simpl; [by rewrite <-app_assoc|done].
  - split.
    + split; try done; [|unfold rest; lia|].
      * intros b Hb. unfold pool_index. simpl. by rewrite lookup_insert_ne by congruence.
      * unfold pool_index at 1. simpl. rewrite lookup_insert_eq. simpl. fold (pool_index st a).
        replace (n - rest) with (reward_of cfg portion n) by (unfold rest; lia). done.
    + destruct (bool_decide _); simpl; [by rewrite <-app_assoc|done].
Qed.

Lemma Books_deposited st st' a n rest : deposited st st' a n rest → Books st → Books st'.
Proof.
  intros [] []. split; unfold bonds, total, whitelist, Behind in *.
  - by rewrite dp_config0.
  - by rewrite dp_whitelist0.
  - by rewrite dp_total0.
  - by rewrite dp_bonds0, dp_total0.
  - intros u b i. rewrite dp_rewards0. intros Hi%bk_behind0. etrans; [exact Hi|].
    destruct (decide (b = a)) as [->|Hb]; [rewrite dp_index0; apply N.le_add_r|by rewrite dp_others0].
  - by rewrite dp_whitelist0.
  - rewrite dp_rewards0, dp_whitelist0. apply bk_known0.
Qed.

(** What the growth of the index promises is what was not sent on. *)
Lemma promised_deposited st st' a n rest b :
  Books st → deposited st st' a n rest →
  promised st' b + DECIMAL_UNIT * (if decide (b = a) then rest else 0) ≤
  promised st b + DECIMAL_UNIT * (if decide (b = a) then n else 0).
Proof.
  intros HB HD. destruct HB, HD.
  assert (∀ u, bonded st' u = bonded st u) as Hbd by (intros; unfold bonded; by rewrite dp_bonds0).
  destruct (decide (b = a)) as [->|Hne].
  2: { rewrite !N.mul_0_r, !N.add_0_r. apply N.eq_le_incl. unfold promised. rewrite dp_rewards0.
       apply map_sum_ext. intros [u c] i Hi. simpl. case_decide; [|done]. subst c. unfold worth.
       by rewrite Hbd, dp_others0. }
  set (d := (n - rest) * DECIMAL_UNIT / total st) in *.
  assert (promised st' a = promised st a +
    map_sum (λ k _, if decide (k.2 = a) then bonded st k.1 else 0) (REWARDS st) * d) as ->.
  { unfold promised. rewrite dp_rewards0, <-map_sum_mul, <-map_sum_add. apply map_sum_ext.
    intros [u c] i Hi. simpl. case_decide; [|done]. subst c. unfold worth. rewrite Hbd, dp_index0.
    specialize (bk_behind0 _ _ _ Hi). 
    replace (pool_index st a + d - index i) with (pool_index st a - index i + d) by lia. lia. }
  assert (map_sum (λ k _, if decide (k.2 = a) then bonded st k.1 else 0) (REWARDS st) ≤ total st) as Hle.
  { rewrite <-bk_bonds0. unfold bonds.
    pose proof (map_sum_second (REWARDS st) a (bond_amount <$> BOND_AMOUNTS st)) as Hs.
    rewrite (map_sum_ext _ (λ k _, if decide (k.2 = a) then bonded st k.1 else 0)) in Hs.
    - etrans; [exact Hs|]. apply map_sum_le. intros u. unfold contrib. rewrite lookup_fmap.
      by destruct (BOND_AMOUNTS st !! u).
    - intros [u c] i _. simpl. case_decide; [|done]. unfold bonded. rewrite lookup_fmap.
      by destruct (BOND_AMOUNTS st !! u). }
  assert (total st * d ≤ (n - rest) * DECIMAL_UNIT) as Hd by apply N.Div0.mul_div_le.
  assert (map_sum (λ k _, if decide (k.2 = a) then bonded st k.1 else 0) (REWARDS st) * d ≤ total st * d)
    by by apply N.mul_le_mono_r.
  change DECIMAL_UNIT with 1000000000000000000 in *. lia.
Qed.
End books.
End YassetProofs.
