(* ===== verification/YassetSpec.v ===== *)
(** * What the yLuna staking contract promises

    The runs of the contract, its properties, and concrete runs on the
    reference platform that witness them. *)
From S2P Require Import Prelude Cosmwasm Protocol Prismswap YassetStaking YassetProofs.
Import YassetStakingMsg Prismswap YassetStaking YassetProofs.

Module YassetSpec.

Section runs.
Context {P : Cosmwasm} {CA : CwAsset} {T : Terra}.
Variable from_binary : Binary → outcome StdError Cw20HookMsg.

(** What a message brings in of token [a]: yLuna to bond, or rewards. *)
Definition received (info : MessageInfo) (msg : ExecuteMsg Binary) (a : Addr) : N :=
  match msg with
  | Receive m => if decide (info_sender info = a) then cw20_amount m else 0
  | DepositRewards assets =>
      sum_N ((λ x, if decide (asset_info x = Cw20Asset a) then asset_amount x else 0) <$> assets)
  | _ => 0
  end.
(** What its response takes out of it. *)
Definition taken (resp : Response) (a : Addr) : N := releases a (sub_msg <$> messages resp).

(** The messages that settle an account. *)
Definition settlements (msg : ExecuteMsg Binary) : N :=
  match msg with Receive _ | Unbond _ | ClaimRewards | ConvertAndClaimRewards _ => 1 | _ => 0 end.
Definition removes_asset (msg : ExecuteMsg Binary) : bool :=
  match msg with RemoveRewardAsset _ => true | _ => false end.

(** The states of the contract when no reward asset is removed, with what has
    been received and taken out of every token, and the settlements so far. *)
Inductive run : Storage → (Addr → N) → (Addr → N) → N → Prop :=
  | run_init msg st resp : instantiate msg = Ok (st, resp) → run st (λ _, 0) (λ _, 0) 0
  | run_step st recv sent k q peers env info msg st' resp :
      run st recv sent k → removes_asset msg = false →
      execute from_binary st q peers env info msg = Ok (st', resp) →
      run st' (λ a, recv a + received info msg a) (λ a, sent a + taken resp a) (k + settlements msg).
End runs.

Section properties.
Context {P : Cosmwasm} {L : CosmwasmLaws P} {CA : CwAsset} {T : Terra} {TL : TerraLaws T}.
Variable fb : Binary → outcome StdError Cw20HookMsg.

Definition yluna (st : Storage) : option Addr := yluna_token <$> CONFIG st.
Definition at_stake (st : Storage) (a : Addr) : N := if decide (yluna st = Some a) then total st else 0.

(** Everything promised is covered by what came in and did not go out. *)
Definition Cover (st : Storage) (recv sent : Addr → N) (k : N) : Prop :=
  Books st ∧ ∀ a, promised st a + DECIMAL_UNIT * (sent a + at_stake st a) ≤ DECIMAL_UNIT * (recv a + k).

Lemma Cover_frame st st' recv sent recv' sent' k k' :
  Books st' → (∀ a, promised st' a = promised st a) → (∀ a, at_stake st' a = at_stake st a) →
  (∀ a, sent' a + recv a + k ≤ sent a + recv' a + k') →
  Cover st recv sent k → Cover st' recv' sent' k'.
Proof.
  intros HB Hp Hs Hle [_ HC]. split; [done|]. intros a. specialize (HC a). specialize (Hle a). rewrite Hp, Hs.
  change DECIMAL_UNIT with 1000000000000000000 in *. lia.
Qed.

Lemma Cover_settles u st st' p recv sent k :
  settles u st st' p →
  (∀ a i, REWARDS st' !! (u, a) = Some i →
    is_Some (REWARDS st !! (u, a)) ∨ ∃ x, x ∈ whitelist st ∧ as_bytes x = a) →
  Cover st recv sent k → Cover st' recv (λ a, sent a + p a) (k + 1).
Proof.
  intros HS Hn [HB HC]. split; [by eapply Books_settles|]. intros a. specialize (HC a).
  pose proof HS as []. specialize (se_promise0 a (bk_behind _ HB)).
  assert (at_stake st' a = at_stake st a) as -> by (unfold at_stake, yluna, total; by rewrite se_config0, se_total0).
  assert ((if decide (settled st' u a ∧ ¬ settled st u a) then DECIMAL_UNIT else 0) ≤ DECIMAL_UNIT)
    by (case_decide; lia).
  change DECIMAL_UNIT with 1000000000000000000 in *. lia.
Qed.

Lemma Cover_bond st u n m recv sent recv' sent' k :
  (∀ a, settled st u a) → bonded st u + n = bonded st u + n - m + m →
  (∀ a, recv' a = recv a + (if decide (yluna st = Some a) then n else 0)) →
  (∀ a, sent' a = sent a + (if decide (yluna st = Some a) then m else 0)) →
  Cover st recv sent k →
  Cover (save_bond (total st + n - m) u (mkBondInfo (bonded st u + n - m)) st) recv' sent' k.
Proof.
  intros Hs Hm Hr Ht [HB HC].
  assert (bonded st u ≤ total st) as Hle.
  { rewrite <-(bk_bonds _ HB). pose proof (contrib_le (λ _, bond_amount) (BOND_AMOUNTS st) u) as Hc.
    unfold bonds, bonded, contrib in *. by destruct (BOND_AMOUNTS st !! u). }
  split.
  - replace (total st + n - m) with (total st + (bonded st u + n - m) - bonded st u) by lia. by apply Books_bond.
  - intros a. rewrite (promised_bond _ _ _ _ _ Hs), Hr, Ht. specialize (HC a). unfold at_stake in *.
    change (yluna (save_bond _ _ _ st)) with (yluna st).
    change (total (save_bond (total st + n - m) _ _ st)) with (total st + n - m).
    destruct (decide (yluna st = Some a)); change DECIMAL_UNIT with 1000000000000000000 in *; lia.
Qed.

Lemma deposit_loop cfg portion env info recv sent k l : portion ≤ DECIMAL_UNIT → ∀ t w st msgs st' msgs',
  t = total st → w = whitelist st → (t = 0 → portion = 0) →
  ofold (deposit_step cfg t w portion env info) (st, msgs) l = Ok (st', msgs') →
  Cover st recv (λ a, sent a + releases a msgs) k →
  Cover st' (λ a, recv a + sum_N ((λ x, if decide (asset_info x = Cw20Asset a) then asset_amount x else 0) <$> l))
    (λ a, sent a + releases a msgs') k.
Proof.
  intros Hp. revert recv. induction l as [|x l IH]; intros recv t w st msgs st' msgs' -> -> Hz H HC; simpl ofold in H.
  { injection H as <- <-. eapply Cover_frame; [apply HC|done..| |exact HC]. intros a. simpl. lia. }
  apply qbind_Ok in H as ([st1 msgs1] & H1 & H). pose proof HC as [HB HC'].
  apply deposit_step_spec in H1 as (Hw & a & Ha & HD & Hm); [|done..]. 
  set (rest := asset_amount x - reward_of cfg portion (asset_amount x)) in *.
  assert (∀ b, releases b msgs1 = releases b msgs + (if decide (b = a) then rest else 0)) as Hrel.
  { intros b. rewrite Hm, !releases_app. f_equal. unfold releases.
    destruct (bool_decide _); simpl; case_bool_decide; subst; try (rewrite decide_True by done);
      try (rewrite decide_False by congruence); lia. }
  eapply (IH (λ b, recv b + (if decide (b = a) then asset_amount x else 0))) in H.
  - eapply Cover_frame; [apply H|done..| |exact H]. intros b. rewrite fmap_cons. cbn [sum_N]. rewrite Ha.
    destruct (decide (b = a)) as [->|]; [rewrite decide_True by done|rewrite decide_False by congruence]; lia.
  - destruct HD. unfold total. by rewrite dp_total0.
  - destruct HD. unfold whitelist. by rewrite dp_whitelist0.
  - done.
  - split; [by eapply Books_deposited|]. intros b. specialize (HC' b). rewrite Hrel.
    pose proof (promised_deposited _ _ _ _ _ b HB HD) as Hpd.
    assert (at_stake st1 b = at_stake st b) as ->.
    { destruct HD. unfold at_stake, yluna, total. by rewrite dp_config0, dp_total0. }
    destruct (decide (b = a)); change DECIMAL_UNIT with 1000000000000000000 in *; lia.
Qed.

Lemma releases_respond a l at' : taken (respond l at') a = releases a l.
Proof. unfold taken, respond. simpl. by rewrite <-list_fmap_compose, list_fmap_id. Qed.

Lemma releases_swaps a rates coins : releases a (swap_coins rates coins) = 0.
Proof.
  unfold swap_coins, releases. induction (List.filter _ coins) as [|c l IH]; csimpl; [done|].
  destruct (create_swap_custom c REWARD_DENOM) as [p ->]. simpl. exact IH.
Qed.

Lemma bond_cover st u n st' resp recv sent k :
  bond st u n = Ok (st', resp) → Cover st recv sent k →
  Cover st' (λ a, recv a + (if decide (yluna st = Some a) then n else 0)) (λ a, sent a + taken resp a) (k + 1).
Proof.
  intros H HC. unfold bond in H. inv_ok H. subst.
  apply load_total_Ok in Ha as ->. apply load_whitelist_Ok in Ha0 as ->. platform_facts.
  fold (bonded st u) in *. apply compute_all_spec in Ha1 as (HS & Hall & Hnew).
  pose proof (Cover_settles _ _ _ _ _ _ _ HS Hnew HC) as HC1. pose proof HS as [].
  assert (bonded a1 u = bonded st u) as Hb by (unfold bonded; by rewrite se_bonds0).
  assert (total a1 = total st) as Ht by (unfold total; by rewrite se_total0).
  assert (yluna a1 = yluna st) as Hy by (unfold yluna; by rewrite se_config0).
  rewrite <-Hb, <-Ht. replace (total a1 + n) with (total a1 + n - 0) by lia.
  replace (bonded a1 u + n) with (bonded a1 u + n - 0) by lia.
  eapply Cover_bond; [| | | |exact HC1].
  - apply settled_all; [apply HC1|]. intros x Hx. apply Hall. unfold whitelist in *. by rewrite <-se_whitelist0.
  - lia.
  - intros a. by rewrite Hy.
  - intros a. rewrite releases_respond. unfold releases. simpl. case_decide; lia.
Qed.

Lemma unbond_cover st info amount st' resp recv sent k :
  unbond st info amount = Ok (st', resp) → Cover st recv sent k →
  Cover st' recv (λ a, sent a + taken resp a) (k + 1).
Proof.
  intros H HC. unfold unbond, load_config in H. inv_ok H. subst.
  apply load_total_Ok in Ha0 as ->. apply load_whitelist_Ok in Ha1 as ->. unfold load_bond in *. platform_facts.
  set (u := info_sender info) in *.
  assert (bond_amount a2 = bonded st u) as Hbd by (unfold bonded; by rewrite Ha2). rewrite Hbd in *.
  apply compute_all_spec in Ha3 as (HS & Hall & Hnew).
  pose proof (Cover_settles _ _ _ _ _ _ _ HS Hnew HC) as HC1. pose proof HS as [].
  assert (bonded a3 u = bonded st u) as Hb by (unfold bonded; by rewrite se_bonds0).
  assert (total a3 = total st) as Ht by (unfold total; by rewrite se_total0).
  assert (yluna a3 = Some (yluna_token a)) as Hy by (unfold yluna; rewrite se_config0, Ha; done).
  rewrite <-Hb, <-Ht in *. replace (total a3 - a4) with (total a3 + 0 - a4) by lia.
  replace (bonded a3 u - a4) with (bonded a3 u + 0 - a4) by lia.
  eapply Cover_bond; [| | | |exact HC1].
  - apply settled_all; [apply HC1|]. intros x Hx. apply Hall. unfold whitelist in *. by rewrite <-se_whitelist0.
  - lia.
  - intros b. case_decide; lia.
  - intros b. rewrite releases_respond, Hy. unfold releases. simpl.
    case_bool_decide; [rewrite decide_True by congruence|rewrite decide_False by congruence]; lia.
Qed.

Lemma claim_cover st info st' resp recv sent k :
  claim_rewards st info = Ok (st', resp) → Cover st recv sent k →
  Cover st' recv (λ a, sent a + taken resp a) (k + 1).
Proof.
  intros H HC. unfold claim_rewards, load_bond in H. inv_ok H. subst. apply load_whitelist_Ok in Ha as ->. platform_facts.
  apply claim_loop in Ha1 as (out & -> & HS & Hnew); [|unfold bonded; by rewrite Ha0].
  eapply Cover_settles in HC; [|exact HS|exact Hnew].
  eapply Cover_frame; [apply HC|done|done| |exact HC]. intros b. rewrite releases_respond. simpl. lia.
Qed.

Lemma convert_cover st q env info claim st' resp recv sent k :
  convert_and_claim_rewards st q env info claim = Ok (st', resp) → Cover st recv sent k →
  Cover st' recv (λ a, sent a + taken resp a) (k + 1).
Proof.
  intros H HC. unfold convert_and_claim_rewards, load_config, load_bond in H. inv_ok H. subst.
  apply load_whitelist_Ok in Ha0 as ->. platform_facts.
  eapply convert_loop in Ha3 as (out & -> & HS & Hnew); [|exact Ha2|unfold bonded; by rewrite Ha1].
  eapply Cover_settles in HC; [|exact HS|exact Hnew].
  eapply Cover_frame; [apply HC|done|done| |exact HC]. intros b. rewrite releases_respond, releases_app. simpl.
  match goal with Hs : swap_messages _ _ _ _ _ _ _ = Ok ?l |- _ =>
    enough (releases b l = 0) by lia; unfold swap_messages in Hs; inv_ok Hs; by subst end.
Qed.

Lemma Books_whitelist st x :
  is_native_token x = false → Books st → Books (save_whitelist (whitelist st ++ [x]) st).
Proof.
  intros Hx []. split; try done; unfold whitelist; simpl.
  - intros y [Hy| ->%list_elem_of_singleton]%elem_of_app; [by apply bk_tokens0|]. destruct x; [by eexists|done].
  - intros u b i Hi. destruct (bk_known0 _ _ _ Hi) as (y & Hy & <-). exists y. split; [|done].
    apply elem_of_app. by left.
Qed.

Lemma execute_cover st q peers env info msg st' resp recv sent k :
  execute fb st q peers env info msg = Ok (st', resp) → removes_asset msg = false → Cover st recv sent k →
  Cover st' (λ a, recv a + received info msg a) (λ a, sent a + taken resp a) (k + settlements msg).
Proof.
  intros H Hrm HC. pose proof HC as [HB _]. 
  assert (∀ s, s = st → ∀ r : Response, (∀ a, taken r a = 0) → received info msg = (λ _, 0) → settlements msg = 0 →
    Cover s (λ a, recv a + received info msg a) (λ a, sent a + taken r a) (k + settlements msg)) as Hno.
  { intros s -> r Hr Hrv Hse. eapply Cover_frame; [done|done|done| |exact HC]. intros a. rewrite Hr, Hrv, Hse. lia. }
  destruct msg as [m|amount| |claim|receiver prev| | |pp py|assets|o c f|x|x]; simpl in H, Hrm; try done.
  - unfold receive_cw20 in H. inv_ok H. ok_facts. apply dec_stable in E0.
    eapply bond_cover in H; [|exact HC]. simpl settlements. eapply Cover_frame; [apply H|done|done| |exact H].
    intros b. simpl. unfold yluna. apply load_Ok in Ha0. rewrite Ha0. simpl. rewrite E0.
    destruct (decide (info_sender info = b)); [rewrite decide_True by congruence|rewrite decide_False by congruence]; lia.
  - eapply unbond_cover in H; [|exact HC]. eapply Cover_frame; [apply H|done|done| |exact H]. intros b. simpl. lia.
  - eapply claim_cover in H; [|exact HC]. eapply Cover_frame; [apply H|done|done| |exact H]. intros b. simpl. lia.
  - inv_ok H. eapply convert_cover in H; [|exact HC].
    eapply Cover_frame; [apply H|done|done| |exact H]. intros b. simpl. lia.
  - unfold mint_xprism_claim_hook in H. inv_ok H. subst. by apply Hno.
  - unfold process_delegator_rewards in H. inv_ok H. subst. apply Hno; [done| |done..].
    intros b. by rewrite releases_respond, releases_app, releases_swaps.
  - unfold luna_to_pyluna_hook in H. inv_ok H. subst. by apply Hno.
  - unfold deposit_minted_pyluna_hook in H. inv_ok H. subst. by apply Hno.
  - inv_ok H. unfold deposit_rewards in H. inv_ok H. subst.
    apply load_total_Ok in Ha1 as ->. apply load_whitelist_Ok in Ha2 as ->. platform_facts.
    apply stakers_portion_spec in Ha4 as [Hp Hz].
    eapply (deposit_loop _ _ _ _ recv sent k) in Ha5; [|done..|].
    + eapply Cover_frame; [apply Ha5|done|done| |exact Ha5]. intros b. rewrite releases_respond. simpl. lia.
    + eapply Cover_frame; [done|done|done| |exact HC]. intros b. unfold releases. simpl. lia.
  - unfold update_config, load_config in H. inv_ok H. subst. platform_facts.
    eapply (Cover_frame st); [|done| | |exact HC].
    + destruct HB. by split; try done; eexists.
    + intros b. unfold at_stake, yluna. simpl. by rewrite Ha.
    + intros b. unfold taken, releases. simpl. lia.
  - inv_ok H. unfold whitelist_reward_asset in H. inv_ok H. subst. apply load_whitelist_Ok in Ha1 as ->.
    eapply (Cover_frame st); [|done|done| |exact HC].
    + by apply Books_whitelist.
    + intros b. unfold taken, releases. simpl. lia.
Qed.

Lemma run_cover st recv sent k : run fb st recv sent k → Cover st recv sent k.
Proof.
  induction 1 as [msg st resp H|st recv sent k q peers env info msg st' resp _ IH Hr H]; [|by eapply execute_cover].
  unfold instantiate in H. inv_ok H. subst. split.
  - split; try done; try (by eexists).
    intros x [->|[->|Hx%not_elem_of_nil]%elem_of_cons]%elem_of_cons; [by eexists..|done].
  - intros b. unfold promised, at_stake, total. simpl. rewrite map_sum_empty. case_decide; lia.
Qed.

(** C7: Rewards are covered. As long as no reward asset is removed from the
    whitelist, on every run and for every token: the rewards recorded for all
    stakers, what they have earned since they were last settled, what has left
    the contract (payments, fees and allowances of the collector) and, for
    yLuna, the stakes are within what came in, up to one unit per settlement
    of an account. *)
Theorem yasset_rewards_covered st recv sent k a :
  run fb st recv sent k →
  map_sum (λ key i, if decide (key.2 = a) then
      DECIMAL_UNIT * pending_reward i +
      bond_amount (default BondInfo_default (BOND_AMOUNTS st !! key.1)) *
        (reward_index (default PoolInfo_default (POOL_INFO st !! a)) - index i)
    else 0) (REWARDS st) +
  DECIMAL_UNIT * (sent a + if decide (yluna_token <$> CONFIG st = Some a)
                           then map_sum (λ _, bond_amount) (BOND_AMOUNTS st) else 0) ≤
  DECIMAL_UNIT * (recv a + k).
Proof.
  intros [HB HC]%run_cover. specialize (HC a). unfold at_stake in HC. rewrite <-(bk_bonds _ HB) in HC. exact HC.
Qed.

(** ** Deposits *)

(** The messages of a deposit of [n] of token [a] of which [reward] stays. *)
Definition deposit_messages (cfg : Config) (env : Env) (info : MessageInfo) (a : Addr) (n reward : N) : list CosmosMsg :=
  (if decide (contract_address env = info_sender info) then []
   else [cw20_msg_to a (Cw20.TransferFrom (info_sender info) (contract_address env) n)]) ++
  [cw20_msg_to a (Cw20.Transfer (collector cfg) (n - reward))].

Lemma deposit_list cfg portion env info l : portion ≤ DECIMAL_UNIT → ∀ t w st msgs st' msgs',
  Books st → t = total st → w = whitelist st → (t = 0 → portion = 0) →
  ofold (deposit_step cfg t w portion env info) (st, msgs) l = Ok (st', msgs') →
  (∀ x, x ∈ l → ∃ a, asset_info x = Cw20Asset a ∧ Cw20Asset a ∈ w) ∧
  msgs' = msgs ++ mjoin ((λ x, deposit_messages cfg env info (as_bytes (asset_info x)) (asset_amount x)
                                 (reward_of cfg portion (asset_amount x))) <$> l) ∧
  (REWARDS st' = REWARDS st ∧ BOND_AMOUNTS st' = BOND_AMOUNTS st ∧ total st' = total st) ∧
  ∀ a, pool_index st' a = pool_index st a +
    sum_N ((λ x, if decide (as_bytes (asset_info x) = a)
                 then reward_of cfg portion (asset_amount x) * DECIMAL_UNIT / t else 0) <$> l).
Proof.
  intros Hp. induction l as [|x l IH]; intros t w st msgs st' msgs' HB -> -> Hz H; simpl ofold in H.
  { injection H as <- <-. simpl. rewrite app_nil_r. split_and!; [by intros x ?%not_elem_of_nil|done..|]. 
    intros a. simpl. lia. }
  apply qbind_Ok in H as ([st1 msgs1] & H1 & H).
  apply deposit_step_spec in H1 as (Hw & a & Ha & HD & Hm); [|done..].
  pose proof (Books_deposited _ _ _ _ _ HD HB) as HB1. pose proof HD as [].
  assert (total st1 = total st) as Ht by (unfold total; by rewrite dp_total0).
  eapply IH in H as (Hall & -> & (Hr & Hb & Ht') & Hi); [|done|by rewrite Ht|unfold whitelist; by rewrite dp_whitelist0|done].
  assert (reward_of cfg portion (asset_amount x) ≤ asset_amount x) as Hle.
  { unfold reward_of. etrans; [apply N.le_sub_l|]. apply N.div_le_upper_bound; [done|]. rewrite N.mul_comm.
    by apply N.mul_le_mono_r. }
  split_and!.
  - intros y [->|Hy]%elem_of_cons; [exists a; by rewrite <-Ha|by apply Hall].
  - rewrite fmap_cons. cbn [mjoin list_join]. rewrite Hm, <-app_assoc. f_equal. f_equal. rewrite Ha.
    unfold deposit_messages. simpl as_bytes. 
    destruct (decide (contract_address env = info_sender info));
      [rewrite bool_decide_eq_false_2 by tauto|rewrite bool_decide_eq_true_2 by done]; done.
  - congruence.
  - congruence.
  - congruence.
  - intros b. rewrite Hi, fmap_cons. cbn [sum_N]. rewrite Ha. simpl as_bytes. destruct (decide (a = b)) as [<-|Hne].
    + rewrite dp_index0. replace (asset_amount x - (asset_amount x - reward_of cfg portion (asset_amount x)))
        with (reward_of cfg portion (asset_amount x)) by lia. lia.
    + rewrite dp_others0 by congruence. lia.
Qed.

(** The portion of a deposit for the stakers, and what of [n] becomes reward. *)
Definition portion_for (staked vault_bonded : N) : N :=
  if decide (staked = 0) then 0 else N.min (staked * DECIMAL_UNIT / vault_bonded) DECIMAL_UNIT.

Lemma deposit_execute st q peers env info assets st' resp cfg vault_state :
  Books st → CONFIG st = Some cfg → query_vault_state peers (vault cfg) = Ok vault_state →
  execute fb st q peers env info (DepositRewards assets) = Ok (st', resp) →
  let reward := reward_of cfg (portion_for (total st) (VaultMsg.sr_total_bond_amount vault_state)) in
  (∀ x, x ∈ assets → ∃ a, asset_info x = Cw20Asset a ∧ Cw20Asset a ∈ whitelist st) ∧
  sub_msg <$> messages resp = mjoin ((λ x,
    deposit_messages cfg env info (as_bytes (asset_info x)) (asset_amount x) (reward (asset_amount x))) <$> assets) ∧
  (REWARDS st' = REWARDS st ∧ BOND_AMOUNTS st' = BOND_AMOUNTS st ∧ total st' = total st) ∧
  ∀ a, pool_index st' a = pool_index st a +
    sum_N ((λ x, if decide (as_bytes (asset_info x) = a)
                 then reward (asset_amount x) * DECIMAL_UNIT / total st else 0) <$> assets).
Proof.
  intros HB Hc Hv H reward. simpl in H. inv_ok H. unfold deposit_rewards, load_config in H.
  inv_ok H. subst. apply load_total_Ok in Ha1 as ->. apply load_whitelist_Ok in Ha2 as ->. platform_facts.
  assert (a0 = cfg) as -> by congruence.
  unfold query_vault_bond_amount in Ha3. rewrite Hv in Ha3. simpl in Ha3. injection Ha3 as <-.
  pose proof Ha4 as Hpz. apply stakers_portion_spec in Hpz as [Hp Hz].
  assert (a4 = portion_for (total st) (VaultMsg.sr_total_bond_amount vault_state)) as ->.
  { unfold stakers_portion in Ha4. unfold portion_for.
    destruct (N.eqb_spec (total st) 0) as [->|Hne]; [by injection Ha4 as <-|]. rewrite decide_False by done.
    simplify_option_eq. platform_facts. by rewrite dec_one_law. }
  apply deposit_list in Ha5 as (Hall & -> & Hf & Hi); [|done..].
  split_and!; [done| |apply Hf..|done]. simpl. rewrite <-list_fmap_compose. apply list_fmap_id.
Qed.

(** C30: How a deposit is split. A deposit of rewards by the contract's callers is
    accepted only for whitelisted tokens. Of each asset the stakers get the
    portion [min(1, staked here / bonded in the vault)] (nothing when nobody is
    staked) less the protocol fee: its index grows by that reward per staked
    yLuna, and the collector is sent exactly the rest, after the tokens have
    been taken from the sender unless the contract itself deposits. No
    account's records, bonds or the total change. *)
Theorem yasset_deposit_splits st recv sent k q peers env info assets st' resp cfg vault_state :
  run fb st recv sent k →
  CONFIG st = Some cfg → query_vault_state peers (vault cfg) = Ok vault_state →
  execute fb st q peers env info (DepositRewards assets) = Ok (st', resp) →
  let staked := default 0 (TOTAL_BOND_AMOUNT st) in
  let portion := if decide (staked = 0) then 0
    else N.min (staked * DECIMAL_UNIT / VaultMsg.sr_total_bond_amount vault_state) DECIMAL_UNIT in
  let reward n := n * portion / DECIMAL_UNIT - n * portion / DECIMAL_UNIT * protocol_fee cfg / DECIMAL_UNIT in
  (∀ x, x ∈ assets → ∃ a, asset_info x = Cw20Asset a ∧ Cw20Asset a ∈ default [] (WHITELISTED_ASSETS st)) ∧
  sub_msg <$> messages resp = mjoin ((λ x,
    deposit_messages cfg env info (as_bytes (asset_info x)) (asset_amount x) (reward (asset_amount x))) <$> assets) ∧
  (REWARDS st' = REWARDS st ∧ BOND_AMOUNTS st' = BOND_AMOUNTS st ∧ total st' = total st) ∧
  ∀ a, pool_index st' a = pool_index st a +
    sum_N ((λ x, if decide (as_bytes (asset_info x) = a)
                 then reward (asset_amount x) * DECIMAL_UNIT / staked else 0) <$> assets).
Proof.
  intros [HB _]%run_cover Hc Hv H. exact (deposit_execute st q peers env info assets st' resp cfg vault_state HB Hc Hv H).
Qed.

(** ** Claims *)

(** What [u] is owed in [a] and its worth fit in 128 bits. *)
Definition fits (st : Storage) (u a : Addr) : Prop :=
  bonded st u * pool_index st a / DECIMAL_UNIT < u128_limit ∧ pending_reward (settled_reward st u a) < u128_limit.

Lemma compute_total st u x :
  Behind st → fits st u (as_bytes x) →
  compute_asset_rewards st u (bonded st u) x = Ok (settled_reward st u (as_bytes x)).
Proof.
  intros HB [Hw Hp]. unfold compute_asset_rewards, settled_reward, pool_info in *. fold (pool_index st (as_bytes x)) in *.
  destruct (REWARDS st !! (u, as_bytes x)) as [i|] eqn:Hi; [|done]. specialize (HB _ _ _ Hi).
  assert (bonded st u * index i / DECIMAL_UNIT ≤ bonded st u * pool_index st (as_bytes x) / DECIMAL_UNIT) as Hle
    by (apply N.Div0.div_le_mono; by apply N.mul_le_mono_l).
  simpl in Hp. unfold growth in *.
  rewrite !uint_mul_dec_law. rewrite !checked_width_intro by lia. simpl.
  unfold checked_sub. rewrite uint_checked_sub_law. apply N.leb_le in Hle as ->. simpl.
  by rewrite uint_add_law, checked_width_intro by lia.
Qed.

(** One whitelisted token: the record is reset, and what it held is paid. *)
Definition reset (st : Storage) (u a : Addr) : Storage := save_reward u a (mkRewardInfo (pool_index st a) 0) st.

Lemma settled_reset st u c a :
  settled_reward (reset st u c) u a =
  if decide (a = c) then mkRewardInfo (pool_index st c) 0 else settled_reward st u a.
Proof.
  unfold settled_reward, reset. simpl. rewrite lookup_insert.
  change (pool_index (save_reward u c _ st) a) with (pool_index st a).
  change (bonded (save_reward u c _ st) u) with (bonded st u).
  destruct (decide (a = c)) as [->|Hne]; [rewrite decide_True by done|rewrite decide_False by congruence; done].
  simpl. by rewrite growth_refl.
Qed.

Lemma Behind_reset st u c : Behind st → Behind (reset st u c).
Proof.
  intros HB v b j. unfold reset. simpl. rewrite lookup_insert_Some. intros [[[= <- <-] <-]|[_ Hj]]; [done|by eapply HB].
Qed.

Lemma claim_step_pays u c st msgs cl :
  Behind st → fits st u c →
  ∃ out cl', claim_step u (bonded st u) (st, msgs, cl) (Cw20Asset c) = Ok (reset st u c, msgs ++ out, cl') ∧
    (∀ m, m ∈ out → ∃ c n, m = cw20_msg_to c (Cw20.Transfer u n)) ∧
    (∀ a, releases a out = if decide (a = c) then pending_reward (settled_reward st u c) else 0).
Proof.
  intros HB Hf. unfold claim_step. rewrite compute_total by done. cbn [qbind]. simpl as_bytes.
  rewrite settled_reward_index. fold (reset st u c). set (n := pending_reward (settled_reward st u c)).
  destruct (N.eqb_spec n 0) as [Hz|Hz]; [exists [], cl|eexists _, _]; split_and!; try done.
  - by rewrite app_nil_r.
  - by intros m ?%not_elem_of_nil.
  - intros a. unfold releases. simpl. by destruct (decide (a = c)).
  - intros m ->%list_elem_of_singleton. eauto.
  - intros a. unfold releases. simpl. destruct (decide (a = c)) as [->|];
      [rewrite bool_decide_eq_true_2 by done|rewrite bool_decide_eq_false_2 by congruence]; lia.
Qed.

Lemma claim_loop_pays u l : only_tokens l → ∀ b st msgs cl,
  b = bonded st u → Behind st → (∀ x, x ∈ l → fits st u (as_bytes x)) →
  ∃ st' out cl', ofold (claim_step u b) (st, msgs, cl) l = Ok (st', msgs ++ out, cl') ∧
    (∀ m, m ∈ out → ∃ c n, m = cw20_msg_to c (Cw20.Transfer u n)) ∧
    (∀ a, releases a out = if decide (Cw20Asset a ∈ l) then pending_reward (settled_reward st u a) else 0) ∧
    (∀ v a, REWARDS st' !! (v, a) = if decide (v = u ∧ Cw20Asset a ∈ l) then Some (mkRewardInfo (pool_index st a) 0)
                                    else REWARDS st !! (v, a)) ∧
    BOND_AMOUNTS st' = BOND_AMOUNTS st.
Proof.
  induction l as [|x l IH]; intros Htok b st msgs cl -> HB Hf.
  { exists st, [], cl. rewrite app_nil_r. split_and!; [done|by intros m ?%not_elem_of_nil|..|done].
    - intros a. by rewrite decide_False by apply not_elem_of_nil.
    - intros v a. by rewrite decide_False by (intros [_ []%not_elem_of_nil]). }
  destruct (Htok x ltac:(by left)) as [c ->]. cbn [ofold]. set (st1 := reset st u c).
  destruct (claim_step_pays u c st msgs cl) as (out1 & cl1 & -> & Hm1 & Hr1); [done|by apply (Hf (Cw20Asset c)); left|].
  cbn [qbind]. fold st1. set (n := pending_reward (settled_reward st u c)) in *.
  assert (∀ a, settled_reward st1 u a = if decide (a = c) then mkRewardInfo (pool_index st c) 0
                                        else settled_reward st u a) as Hsr by (intros a; apply settled_reset).
  destruct (IH ltac:(intros y Hy; apply Htok; by right) (bonded st u) st1 (msgs ++ out1) cl1) as
    (st' & out & cl' & -> & Hm & Hr & HR & Hb); [done|by apply Behind_reset| |].
  { intros y Hy. destruct (Hf y ltac:(by right)) as [Hw Hp]. split; [exact Hw|]. rewrite Hsr. by case_decide. }
  exists st', (out1 ++ out), cl'. rewrite app_assoc. split_and!; [done|..].
  - intros m [?|?]%elem_of_app; auto.
  - intros a. rewrite releases_app, Hr1, Hr, Hsr. destruct (decide (a = c)) as [->|Hne].
    + rewrite (decide_True (P:=Cw20Asset c ∈ Cw20Asset c :: l)) by by left. fold n. case_decide; simpl; lia.
    + destruct (decide (Cw20Asset a ∈ l)); [rewrite decide_True by by right|rewrite decide_False]; [lia|lia|].
      intros [[=]|?]%elem_of_cons; done.
  - intros v a. rewrite HR. change (pool_index st1 a) with (pool_index st a). 
    destruct (decide (v = u ∧ Cw20Asset a ∈ l)) as [[-> Hin]|Hnin].
    { rewrite decide_True; [done|]. split; [done|by right]. }
    unfold st1. simpl. rewrite lookup_insert. destruct (decide ((u, c) = (v, a))) as [[= <- <-]|Hne].
    + rewrite decide_True; [done|]. split; [done|by left].
    + rewrite decide_False; [done|]. intros [-> [[= ->]|?]%elem_of_cons]; naive_solver.
  - exact Hb.
Qed.

(** C16: Every staker can claim. In every state the contract reaches while no
    reward asset is removed, a staker whose rewards fit in 128 bits can claim:
    the call succeeds whatever the other contracts answer, the response orders
    nothing but transfers to the staker, of every whitelisted token it pays
    exactly what was recorded and what the index has earned the staker since,
    and it leaves the staker a record of zero at the current index; no other
    account's record and no bond changes. *)
Theorem yasset_claim_pays st recv sent k q peers env info b :
  run fb st recv sent k →
  BOND_AMOUNTS st !! info_sender info = Some b →
  (∀ a, Cw20Asset a ∈ default [] (WHITELISTED_ASSETS st) → fits st (info_sender info) a) →
  ∃ st' resp, execute fb st q peers env info ClaimRewards = Ok (st', resp) ∧
    (∀ m, m ∈ sub_msg <$> messages resp → ∃ c n, m = cw20_msg_to c (Cw20.Transfer (info_sender info) n)) ∧
    (∀ a, taken resp a = if decide (Cw20Asset a ∈ default [] (WHITELISTED_ASSETS st)) then
        match REWARDS st !! (info_sender info, a) with
        | Some i => pending_reward i + growth (bond_amount b) (pool_index st a) (index i)
        | None => 0
        end else 0) ∧
    (∀ v a, REWARDS st' !! (v, a) =
       if decide (v = info_sender info ∧ Cw20Asset a ∈ default [] (WHITELISTED_ASSETS st))
       then Some (mkRewardInfo (pool_index st a) 0) else REWARDS st !! (v, a)) ∧
    BOND_AMOUNTS st' = BOND_AMOUNTS st.
Proof.
  intros [HB _]%run_cover Hb Hf. pose proof HB as []. destruct bk_whitelist0 as [l Hl].
  unfold whitelist in *. rewrite Hl in *. simpl in *.
  assert (bonded st (info_sender info) = bond_amount b) as Hbd by (unfold bonded; by rewrite Hb).
  destruct (claim_loop_pays (info_sender info) l bk_tokens0 (bond_amount b) st [] []) as
    (st' & out & cl & Hex & Hm & Hr & HR & Hbs); [done|done| |].
  { intros x Hx. destruct (bk_tokens0 x Hx) as [c ->]. by apply Hf. }
  exists st', (respond out (("action", AStr "claim_rewards") :: (claimed_attribute <$> cl))). split_and!.
  - unfold claim_rewards, load_whitelist, load_bond, load. rewrite Hl, Hb. simpl. rewrite Hex. done.
  - intros m. simpl. rewrite <-list_fmap_compose, list_fmap_id. apply Hm.
  - intros a. rewrite releases_respond, Hr. case_decide; [|done]. unfold settled_reward. rewrite Hbd.
    by destruct (REWARDS st !! (info_sender info, a)).
  - exact HR.
  - exact Hbs.
Qed.
End properties.

(** ** Concrete runs *)
Section calls.
Context {P : Cosmwasm} {CA : CwAsset} {T : Terra}.
Variable fb : Binary → outcome StdError Cw20HookMsg.

(** Calls that follow one another, with what comes in and goes out of token [a]. *)
Definition next (q : Querier) (peers : Peers) (env : Env) (a : Addr) (s : Storage * N * N)
    (c : Addr * ExecuteMsg Binary) : option (Storage * N * N) :=
  let '(st, recv, sent) := s in
  match execute fb st q peers env (mkInfo c.1 []) c.2 with
  | Ok (st', resp) => Some (st', recv + received (mkInfo c.1 []) c.2 a, sent + taken resp a)
  | _ => None
  end.

Lemma ycalls_run q peers env a cs st recv sent k st' r s :
  run fb st recv sent k → forallb (λ c, negb (removes_asset c.2)) cs = true →
  optfold (next q peers env a) (st, recv a, sent a) cs = Some (st', r, s) →
  ∃ recv' sent', run fb st' recv' sent' (k + sum_N ((λ c, settlements c.2) <$> cs)) ∧ recv' a = r ∧ sent' a = s.
Proof.
  revert st recv sent k. induction cs as [|c cs IH]; intros st recv sent k Hr Hrm H; simpl in *.
  { injection H as <- <- <-. exists recv, sent. by rewrite N.add_0_r. }
  apply andb_true_iff in Hrm as [Hrm%negb_true_iff Hrms].
  destruct (execute fb st q peers env (mkInfo c.1 []) c.2) as [[st1 resp]| |] eqn:Hc; simpl in H; [|done..].
  rewrite N.add_assoc. eapply (IH _ (λ a, recv a + received (mkInfo c.1 []) c.2 a) (λ a, sent a + taken resp a));
    [by eapply run_step|exact Hrms|exact H].
Qed.
End calls.

Section witnesses.
Import Reference ReferenceAsset.
#[local] Existing Instance Reference.platform.
#[local] Existing Instance ReferenceAsset.cw_asset.

#[local] Instance reference_terra : Terra := { create_swap_msg c denom := Custom (RawBinary (coin_denom c)) }.
#[local] Instance reference_terra_laws : TerraLaws reference_terra.
Proof. split. by eexists. Qed.

Definition parse_hook (b : Binary) : outcome StdError Cw20HookMsg :=
  match b with BinYassetHook m => Ok m | _ => Err ParseErr end.
Definition here : Env := mkEnv 1 0 "staking".
Definition chain : Querier :=
  mkQuerier (λ _, Ok []) (λ _ _, Ok None) (λ _, Ok None) (Ok []) (λ _ _, Ok 0) (λ _ _, Ok 0) (λ _, Ok 0).
(** 200 Luna are bonded in the vault. *)
Definition vault_state : VaultMsg.StateResponse := VaultMsg.mkStateResponse DECIMAL_UNIT 200 0 0 0 0 0.
Definition vault_of_200 : Peers := mkPeers (λ _, Ok vault_state) (λ _, Ok []) (λ _ _, Ok []).

Definition empty_storage : Storage := mkStorage None None None ∅ ∅ ∅.
Definition new_state (r : outcome StdError (Storage * Response)) : Storage :=
  match r with Ok (st, _) => st | _ => empty_storage end.
Definition response_of (r : outcome StdError (Storage * Response)) : Response :=
  match r with Ok (_, resp) => resp | _ => mkResponse [] [] end.
Lemma yasset_run_Ok r : is_ok r = true → r = Ok (new_state r, response_of r).
Proof. by destruct r as [[? ?]| |]. Qed.

(** A fee of 10%. *)
Definition init_msg : InstantiateMsg :=
  mkInstantiateMsg "owner" "vault" "gov" "collector" (10 ^ 17) "cluna" "yluna" "pluna" "prism" "xprism".
Definition run_instantiate := instantiate init_msg.
Lemma yasset_init_run : run parse_hook (new_state run_instantiate) (λ _, 0) (λ _, 0) 0.
Proof. apply (run_init parse_hook init_msg _ (response_of run_instantiate)). apply yasset_run_Ok. by vm_compute. Qed.

Definition bond_call (u : Addr) (n : N) : Addr * ExecuteMsg Binary :=
  ("yluna"%string, Receive (mkCw20Receive u n (BinYassetHook Bond))).
Definition anc (n : N) : Asset := mkAsset (Cw20Asset "anc") n.

(** Alice and Bob stake 100 yLuna between them; 1000 ANC are deposited. Half
    goes to the stakers, 450 after the fee. *)
Definition staking_calls : list (Addr * ExecuteMsg Binary) :=
  [bond_call "alice" 60; bond_call "bob" 40;
   ("owner"%string, WhitelistRewardAsset (Cw20Asset "anc"));
   bond_call "alice" 0; bond_call "bob" 0;
   ("registry"%string, DepositRewards [anc 1000])].
Definition final (s : option (Storage * N * N)) : Storage * N * N := default (empty_storage, 0, 0) s.
Definition play (cs : list (Addr * ExecuteMsg Binary)) :=
  optfold (next parse_hook chain vault_of_200 here "anc") (new_state run_instantiate, 0, 0) cs.
Definition staking_state : Storage := (final (play staking_calls)).1.1.
Lemma staking_calls_Ok : play staking_calls = Some (staking_state, 1000, 550).
Proof. vm_compute. reflexivity. Qed.
Lemma staking_run : ∃ recv sent, run parse_hook staking_state recv sent 4 ∧ recv "anc"%string = 1000 ∧ sent "anc"%string = 550.
Proof.
  exact (ycalls_run parse_hook chain vault_of_200 here "anc" staking_calls _ (λ _, 0) (λ _, 0) 0 _ 1000 550
    yasset_init_run eq_refl staking_calls_Ok).
Qed.

Lemma yasset_rewards_covered_witness :
  ∃ recv sent, recv "anc"%string = 1000 ∧ sent "anc"%string = 550 ∧
    promised staking_state "anc" + DECIMAL_UNIT * (sent "anc"%string + 0) ≤ DECIMAL_UNIT * (recv "anc"%string + 4) ∧
    promised staking_state "anc" = DECIMAL_UNIT * 450.
Proof.
  destruct staking_run as (recv & sent & Hr & H1 & H2). exists recv, sent.
  split; [exact H1|]. split; [exact H2|]. split; [|vm_compute; reflexivity].
  exact (yasset_rewards_covered (P:=platform) parse_hook staking_state recv sent 4 "anc" Hr).
Defined.

Definition run_deposit :=
  execute parse_hook staking_state chain vault_of_200 here (mkInfo "registry" []) (DepositRewards [anc 200]).
Lemma yasset_deposit_Ok :
  execute parse_hook staking_state chain vault_of_200 here (mkInfo "registry" []) (DepositRewards [anc 200]) =
    Ok (new_state run_deposit, response_of run_deposit).
Proof. apply (yasset_run_Ok run_deposit). vm_compute. reflexivity. Qed.
Definition staking_config : Config :=
  mkConfig "owner" "vault" "gov" "collector" (10 ^ 17) "cluna" "yluna" "pluna" "prism" "xprism".
Lemma staking_state_config : CONFIG staking_state = Some staking_config.
Proof. vm_compute. reflexivity. Qed.
Lemma yasset_deposit_splits_witness :
  sub_msg <$> messages (response_of run_deposit) =
    [cw20_msg_to "anc" (Cw20.TransferFrom "registry" "staking" 200); cw20_msg_to "anc" (Cw20.Transfer "collector" 110)].
Proof.
  destruct staking_run as (recv & sent & Hr & _).
  destruct (yasset_deposit_splits (P:=platform) parse_hook staking_state recv sent 4 chain vault_of_200 here
    (mkInfo "registry" []) [anc 200] _ _ staking_config vault_state Hr staking_state_config eq_refl yasset_deposit_Ok)
    as (_ & Hm & _).
  refine (eq_trans Hm _). vm_compute. reflexivity.
Defined.

Lemma staking_fits a :
  Cw20Asset a ∈ default [] (WHITELISTED_ASSETS staking_state) → fits staking_state "alice" a.
Proof.
  assert (default [] (WHITELISTED_ASSETS staking_state) =
    [Cw20Asset "pluna"; Cw20Asset "yluna"; Cw20Asset "anc"]) as -> by (vm_compute; reflexivity).
  rewrite !elem_of_cons. intros [[= ->]|[[= ->]|[[= ->]|[]%not_elem_of_nil]]]; split; vm_compute; reflexivity.
Qed.
Lemma yasset_claim_pays_witness :
  ∃ st' resp, execute parse_hook staking_state chain vault_of_200 here (mkInfo "alice" []) ClaimRewards = Ok (st', resp) ∧
    taken resp "anc" = 270.
Proof.
  destruct staking_run as (recv & sent & Hr & _).
  destruct (yasset_claim_pays (P:=platform) parse_hook staking_state recv sent 4 chain vault_of_200 here
    (mkInfo "alice" []) (mkBondInfo 60) Hr) as (st' & resp & Hex & _ & Ht & _);
    [vm_compute; reflexivity|exact staking_fits|].
  exists st', resp. split; [exact Hex|]. rewrite Ht. vm_compute. reflexivity.
Defined.

(** The bound needs that no asset is removed: a stake made while an asset is
    not whitelisted is not settled in it, and earns from its record's index once
    the asset is back.  450 of 1000 ANC stay in the contract, and then 540 are
    paid to Alice alone. *)
Definition removal_calls : list (Addr * ExecuteMsg Binary) :=
  staking_calls ++
  [("owner"%string, RemoveRewardAsset (Cw20Asset "anc")); bond_call "alice" 60;
   ("owner"%string, WhitelistRewardAsset (Cw20Asset "anc")); ("alice"%string, ClaimRewards)].

(** Removing a reward asset and whitelisting it again can overpay. On the
    reference platform Alice and Bob stake 60 and 40 yLuna, 1000 ANC come in, of
    which 450 stay for the stakers; the owner removes ANC, Alice stakes another
    60, the owner whitelists ANC again, and Alice's claim pays her 540 ANC:
    1090 of 1000 ANC leave the contract. *)
Theorem yasset_rewhitelisting_overpays :
  ∃ st, optfold (next parse_hook chain vault_of_200 here "anc") (new_state (instantiate init_msg), 0, 0) removal_calls =
    Some (st, 1000, 1090).
Proof. eexists. vm_compute. reflexivity. Qed.

(** An account that staked before an asset was whitelisted has no record in it,
    and gets nothing of the first deposit: its share stays in the contract. *)
Example late_whitelisting_loses :
  ∃ st, play [bond_call "alice" 60; bond_call "bob" 40; ("owner"%string, WhitelistRewardAsset (Cw20Asset "anc"));
              ("registry"%string, DepositRewards [anc 1000]);
              ("alice"%string, ClaimRewards); ("bob"%string, ClaimRewards)] = Some (st, 1000, 550).
Proof. eexists. vm_compute. reflexivity. Qed.

(** A reward in PRISM is zeroed without payment when rewards are converted to
    xPRISM and nothing else is swapped. *)
Example prism_rewards_dropped :
  ∃ st, optfold (next parse_hook chain vault_of_200 here "prism") (new_state run_instantiate, 0, 0)
    [("owner"%string, WhitelistRewardAsset (Cw20Asset "prism")); bond_call "alice" 100;
     ("registry"%string, DepositRewards [mkAsset (Cw20Asset "prism") 1000]);
     ("alice"%string, ConvertAndClaimRewards (Cw20Asset "xprism"));
     ("alice"%string, ClaimRewards)] = Some (st, 1000, 550).
Proof. eexists. vm_compute. reflexivity. Qed.
End witnesses.
End YassetSpec.
