(* ===== verification/Collector.v ===== *)
(** * The collector (contracts/prism-collector)

    Configuration and its migration ([src/state.rs], [src/migration.rs],
    [src/error.rs]) and entry points ([src/contract.rs]): what is paid in is
    swapped for the destination asset, through a prismswap pair, through the
    prismswap router with PRISM in between, or through astroport into the base
    denomination and from there by a hook. *)
From S2P Require Import Prelude Cosmwasm Protocol Prismswap.
Import CollectorMsg Prismswap.

Module Collector.

(** ** State (src/state.rs, src/migration.rs) *)
Record Config : Type := mkConfig {
  distribution_contract : Addr;
  astroport_factory : Addr;
  prismswap_factory : Addr;
  prismswap_router : Addr;
  prism_token : Addr;
  base_denom : string }.
Record LegacyConfig : Type := mkLegacyConfig {
  l_distribution_contract : Addr;
  l_astroport_factory : Addr;
  l_prismswap_factory : Addr;
  l_prism_token : Addr;
  l_base_denom : string }.

(** Both are stored under the key "config". *)
Inductive Stored : Type := Current (c : Config) | Legacy (c : LegacyConfig).
Definition Storage : Type := option Stored.

(** ** Errors (src/error.rs) *)
Inductive ContractError : Type :=
  | Std (e : StdError)
  | Unauthorized
  | MissingRoute (asset dest_asset : AssetInfo)
  | DuplicateAssets
  | LogicError (msg : string).

Inductive SwapRoute : Type :=
  | PrismSwapDirect (pair : Addr)
  | PrismSwapRouter (pair1 pair2 : Addr)
  | AstroportToBase (pair : Addr).

(** The crate astroport: the limit of the slippage, and the messages of a pair
    that swap, to be sent with tokens or with native coins; their arguments
    are the belief price, the maximal spread and the receiver. *)
Class Astroport : Type := {
  astro_MAX_ALLOWED_SLIPPAGE : string;
  astro_hook_swap : option Decimal → option Decimal → option string → Binary;
  astro_swap : Asset → option Decimal → option Decimal → option string → Binary }.

(** What the two factories answer when asked for a pair. *)
Record Peers : Type := mkPeers {
  prismswap_pair_info : Addr → AssetInfo * AssetInfo → outcome StdError PairInfo;
  astroport_pair_addr : Addr → AssetInfo * AssetInfo → outcome StdError Addr }.

(** The prismswap answers come through [query_pair_info]; [astroport] is the
    query of the crate of that name. *)
Definition peers_of (querier : QuerierWrapper) (astroport : Addr → AssetInfo * AssetInfo → outcome StdError Addr)
    : Peers :=
  mkPeers (query_pair_info querier) astroport.

Section contract.
Context `{Cosmwasm} `{CwAsset} `{Astroport}.
Notation Result := (outcome ContractError).
Notation std := (map_err Std).

Definition load_config (st : Storage) : outcome StdError Config :=
  let? stored := load "Config" st in
  match stored with Current c => Ok c | Legacy _ => Err ParseErr end.
(** A current configuration reads as a legacy one: unknown fields are ignored. *)
Definition load_legacy (st : Storage) : outcome StdError LegacyConfig :=
  let? stored := load "LegacyConfig" st in
  match stored with
  | Legacy c => Ok c
  | Current c => Ok (mkLegacyConfig (distribution_contract c) (astroport_factory c) (prismswap_factory c)
                       (prism_token c) (base_denom c))
  end.

Definition migrate_config (st : Storage) (router : Addr) : outcome StdError Storage :=
  let? c := load_legacy st in
  Ok (Some (Current (mkConfig (l_distribution_contract c) (l_astroport_factory c) (l_prismswap_factory c) router
                       (l_prism_token c) (l_base_denom c)))).

Definition as_res (c : Config) : ConfigResponse :=
  mkConfigResponse (distribution_contract c) (astroport_factory c) (prismswap_factory c) (prismswap_router c)
    (prism_token c) (base_denom c).

Definition instantiate (msg : InstantiateMsg) : outcome StdError (Storage * Response) :=
  let? distribution := addr_validate (im_distribution_contract msg) in
  let? astroport := addr_validate (im_astroport_factory msg) in
  let? prismswap := addr_validate (im_prismswap_factory msg) in
  let? router := addr_validate (im_prismswap_router msg) in
  let? prism := addr_validate (im_prism_token msg) in
  Ok (Some (Current (mkConfig distribution astroport prismswap router prism (im_base_denom msg))), respond [] []).

(** ** Routes *)

(** [.ok().map(|x| x.contract_addr)] *)
Definition query_prismswap_pair (peers : Peers) (cfg : Config) (asset_infos : AssetInfo * AssetInfo) : option Addr :=
  match prismswap_pair_info peers (prismswap_factory cfg) asset_infos with
  | Ok p => Some (pair_contract_addr p)
  | _ => None
  end.
Definition query_astroport_pair (peers : Peers) (cfg : Config) (asset_infos : AssetInfo * AssetInfo) : option Addr :=
  match astroport_pair_addr peers (astroport_factory cfg) asset_infos with
  | Ok a => Some a
  | _ => None
  end.

Definition get_swap_route (peers : Peers) (cfg : Config) (offer_asset_info dest_asset_info : AssetInfo)
    : option SwapRoute :=
  match query_prismswap_pair peers cfg (offer_asset_info, dest_asset_info) with
  | Some pair_addr => Some (PrismSwapDirect pair_addr)
  | None =>
      let prism_asset_info := Cw20Asset (prism_token cfg) in
      match query_prismswap_pair peers cfg (offer_asset_info, prism_asset_info) with
      | Some pair1_addr =>
          match query_prismswap_pair peers cfg (dest_asset_info, prism_asset_info) with
          | Some pair2_addr => Some (PrismSwapRouter pair1_addr pair2_addr)
          | None => None
          end
      | None =>
          match query_astroport_pair peers cfg (offer_asset_info, NativeAsset (base_denom cfg)) with
          | Some pair_addr => Some (AstroportToBase pair_addr)
          | None => None
          end
      end
  end.

(** ** Swap messages *)
Definition send_msg_with_native_funds (asset : Asset) (contract_addr : Addr) (msg : Binary) : Result CosmosMsg :=
  match asset_info asset with
  | NativeAsset denom => Ok (WasmExecute contract_addr msg [mkCoin denom (asset_amount asset)])
  | Cw20Asset _ => Err (LogicError "send_msg_with_native_funds on non-native asset: {}")
  end.

Definition get_prism_direct_swap_msg (pair_addr : Addr) (offer_asset : Asset) (receiver : Addr) : Result CosmosMsg :=
  match asset_info offer_asset with
  | Cw20Asset _ =>
      std (asset_send_msg offer_asset pair_addr (BinPairHook (PairMsg.HookSwap None None (Some receiver))))
  | NativeAsset _ =>
      send_msg_with_native_funds offer_asset pair_addr
        (BinPair (PairMsg.Swap offer_asset None None (Some receiver)))
  end.

Definition router_operations (offer base ask : AssetInfo) : list RouterMsg.SwapOperation :=
  [RouterMsg.PrismSwap offer base; RouterMsg.PrismSwap base ask].
Definition get_prism_router_swap_msg (cfg : Config) (offer_asset : Asset) (ask_asset_info base_asset_info : AssetInfo)
    (receiver : Addr) : Result CosmosMsg :=
  let operations := router_operations (asset_info offer_asset) base_asset_info ask_asset_info in
  match asset_info offer_asset with
  | Cw20Asset _ =>
      std (asset_send_msg offer_asset (prismswap_router cfg)
             (BinRouterHook (RouterMsg.HookExecuteSwapOperations operations None (Some receiver))))
  | NativeAsset _ =>
      send_msg_with_native_funds offer_asset (prismswap_router cfg)
        (BinRouter (RouterMsg.ExecuteSwapOperations operations None (Some receiver)))
  end.

Definition get_astro_direct_swap_msg (pair_addr : Addr) (offer_asset : Asset) (receiver : Addr) : Result CosmosMsg :=
  let? max_spread := ok_or (dec_from_str astro_MAX_ALLOWED_SLIPPAGE) (Std (GenericErr "Error parsing")) in
  match asset_info offer_asset with
  | Cw20Asset _ =>
      std (asset_send_msg offer_asset pair_addr (astro_hook_swap None (Some max_spread) (Some receiver)))
  | NativeAsset _ =>
      send_msg_with_native_funds offer_asset pair_addr
        (astro_swap offer_asset None (Some max_spread) (Some receiver))
  end.

(** One asset: its message, and whether the base hook is needed. *)
Definition swap_step (peers : Peers) (env : Env) (cfg : Config) (receiver : Addr) (dest_asset_info : AssetInfo)
    (acc : list CosmosMsg * bool) (asset : Asset) : Result (list CosmosMsg * bool) :=
  let '(msgs, need_hook) := acc in
  if asset_amount asset =? 0 then Ok (msgs, need_hook) else
  if bool_decide (asset_info asset = dest_asset_info) then
    let? transfer_msg := std (asset_transfer_msg asset receiver) in
    Ok (msgs ++ [transfer_msg], need_hook)
  else
    match get_swap_route peers cfg (asset_info asset) dest_asset_info with
    | Some (PrismSwapDirect pair_addr) =>
        let? swap_msg := get_prism_direct_swap_msg pair_addr asset receiver in Ok (msgs ++ [swap_msg], need_hook)
    | Some (PrismSwapRouter _ _) =>
        let? swap_msg := get_prism_router_swap_msg cfg asset dest_asset_info (Cw20Asset (prism_token cfg)) receiver in
        Ok (msgs ++ [swap_msg], need_hook)
    | Some (AstroportToBase pair_addr) =>
        let? swap_msg := get_astro_direct_swap_msg pair_addr asset (contract_address env) in
        Ok (msgs ++ [swap_msg], true)
    | None => Err (MissingRoute (asset_info asset) dest_asset_info)
    end.

(** Duplicates are found by the number of different names of the assets. *)
Definition get_swap_msgs (peers : Peers) (env : Env) (cfg : Config) (assets : list Asset) (receiver : Addr)
    (dest_asset_info : AssetInfo) : Result (list CosmosMsg * bool) :=
  let asset_set : gset string := list_to_set ((λ asset, asset_info_to_string (asset_info asset)) <$> assets) in
  if bool_decide (size asset_set ≠ length assets) then Err DuplicateAssets else
  ofold (swap_step peers env cfg receiver dest_asset_info) ([], false) assets.

(** ** Entry points *)
Definition hook_msg (env : Env) (receiver : Addr) (prev_base_balance : Uint128) (dest : AssetInfo) : CosmosMsg :=
  WasmExecute (contract_address env) (BinCollector (BaseSwapHook receiver prev_base_balance dest)) [].

(** One asset paid in: the messages so far, and the base coins among the funds. *)
Definition pay_step (cfg : Config) (env : Env) (info : MessageInfo) (acc : list CosmosMsg * Uint128) (asset : Asset)
    : Result (list CosmosMsg * Uint128) :=
  let '(messages, base_asset_input_amt) := acc in
  if asset_amount asset =? 0 then Ok acc else
  match asset_info asset with
  | Cw20Asset _ =>
      let? m := std (asset_transfer_from_msg asset (info_sender info) (contract_address env)) in
      Ok (messages ++ [m], base_asset_input_amt)
  | NativeAsset denom =>
      let? _ := std (assert_sent_native_token_balance asset info) in
      Ok (messages, if bool_decide (denom = base_denom cfg) then asset_amount asset else base_asset_input_amt)
  end.

Definition convert_and_send (st : Storage) (q : Querier) (peers : Peers) (env : Env) (info : MessageInfo)
    (assets : list Asset) (receiver : option string) (dest_asset_info : AssetInfo) : Result Response :=
  let? cfg := std (load_config st) in
  let? '(messages, base_asset_input_amt) := ofold (pay_step cfg env info) ([], 0) assets in
  let? receiver :=
    match receiver with Some addr_str => std (addr_validate addr_str) | None => Ok (info_sender info) end in
  let? '(swap_msgs, need_hook) := get_swap_msgs peers env cfg assets receiver dest_asset_info in
  let messages := messages ++ swap_msgs in
  let? messages :=
    if need_hook then
      let? balance := std (asset_query_balance q (NativeAsset (base_denom cfg)) (contract_address env)) in
      let? original_base_balance := std (checked_sub balance base_asset_input_amt) in
      Ok (messages ++ [hook_msg env receiver original_base_balance dest_asset_info])
    else Ok messages in
  Ok (respond messages [("action", AStr "convert_and_send")]).

(** The whole balance of an asset. *)
Definition balance_asset (q : Querier) (env : Env) (i : AssetInfo) : Result Asset :=
  let? asset_balance := std (asset_query_balance q i (contract_address env)) in
  Ok (mkAsset i asset_balance).

Definition distribute (st : Storage) (q : Querier) (peers : Peers) (env : Env) (asset_infos : list AssetInfo)
    : Result Response :=
  let? cfg := std (load_config st) in
  let? assets := omapM (balance_asset q env) asset_infos in
  let receiver := distribution_contract cfg in
  let dest_asset_info := Cw20Asset (prism_token cfg) in
  let? '(messages, need_hook) := get_swap_msgs peers env cfg assets receiver dest_asset_info in
  Ok (respond (if need_hook then messages ++ [hook_msg env receiver 0 dest_asset_info] else messages)
        [("action", AStr "distribute")]).

Definition base_swap_hook (st : Storage) (q : Querier) (peers : Peers) (env : Env) (info : MessageInfo)
    (receiver : Addr) (prev_base_balance : Uint128) (dest_asset_info : AssetInfo) : Result Response :=
  let? cfg := std (load_config st) in
  if bool_decide (info_sender info ≠ contract_address env) then Err Unauthorized else
  let base_asset_info := NativeAsset (base_denom cfg) in
  let? base_balance := std (asset_query_balance q base_asset_info (contract_address env)) in
  let? swap_amount := std (checked_sub base_balance prev_base_balance) in
  if swap_amount =? 0 then Ok (respond [] []) else
  let? '(swap_msgs, need_hook) :=
    get_swap_msgs peers env cfg [mkAsset base_asset_info swap_amount] receiver dest_asset_info in
  if (need_hook : bool) then Err (LogicError "need_hook set inside base_swap_hook, should not happen") else
  Ok (respond swap_msgs [("action", AStr "base_swap_hook")]).

Definition execute (st : Storage) (q : Querier) (peers : Peers) (env : Env) (info : MessageInfo) (msg : ExecuteMsg)
    : Result Response :=
  match msg with
  | ConvertAndSend assets receiver dest_asset_info =>
      let? _ := std (check_all (asset_info <$> assets)) in
      let? _ := std (check dest_asset_info) in
      convert_and_send st q peers env info assets receiver dest_asset_info
  | Distribute asset_infos =>
      let? _ := std (check_all asset_infos) in
      distribute st q peers env asset_infos
  | BaseSwapHook receiver prev_base_balance dest_asset_info =>
      base_swap_hook st q peers env info receiver prev_base_balance dest_asset_info
  end.

Definition query_config (st : Storage) : outcome StdError ConfigResponse :=
  let? config := load_config st in Ok (as_res config).
Definition query (st : Storage) (msg : QueryMsg) : outcome StdError ConfigResponse :=
  match msg with QConfig => query_config st end.

Definition migrate (st : Storage) (msg : MigrateMsg) : outcome StdError (Storage * Response) :=
  let? router := addr_validate (mm_prismswap_router msg) in
  let? st := migrate_config st router in
  Ok (st, respond [] []).
End contract.
End Collector.
