(* ===== verification/CollectorSpec.v ===== *)
(** * What the collector promises

    Everything that is paid in leaves again, once and in full, towards the
    receiver; what has to be swapped through the base denomination comes back
    to the hook, which passes on exactly what astroport paid. *)
From S2P Require Import Prelude Cosmwasm Protocol Prismswap Collector.
Import CollectorMsg Prismswap Collector.

Module CollectorSpec.

(** The asset a message moves out of the contract. *)
Definition moves (m : CosmosMsg) : option Asset :=
  match m with
  | WasmExecute c msg funds =>
      match funds, msg with
      | [c], _ => Some (mkAsset (NativeAsset (coin_denom c)) (coin_amount c))
      | [], BinCw20 (Cw20.Transfer _ n) | [], BinCw20 (Cw20.Send _ n _) => Some (mkAsset (Cw20Asset c) n)
      | _, _ => None
      end
  | BankSend _ [c] => Some (mkAsset (NativeAsset (coin_denom c)) (coin_amount c))
  | _ => None
  end.
(** Who a transfer or a swap on prismswap pays. *)
Definition pays (m : CosmosMsg) : option Addr :=
  match m with
  | BankSend to _ | WasmExecute _ (BinCw20 (Cw20.Transfer to _)) _ => Some to
  | WasmExecute _ (BinCw20 (Cw20.Send _ _ (BinPairHook (PairMsg.HookSwap _ _ to)))) _
  | WasmExecute _ (BinPair (PairMsg.Swap _ _ _ to)) _ => to
  | WasmExecute _ (BinCw20 (Cw20.Send _ _ (BinRouterHook (RouterMsg.HookExecuteSwapOperations _ _ to)))) _
  | WasmExecute _ (BinRouter (RouterMsg.ExecuteSwapOperations _ _ to)) _ => to
  | _ => None
  end.
Definition nonzero (l : list Asset) : list Asset := List.filter (λ a, negb (asset_amount a =? 0)) l.

Section properties.
Context {P : Cosmwasm} {L : CosmwasmLaws P} {CA : CwAsset} {AL : CwAssetLaws CA} {AP : Astroport}.

(** [m] moves asset [a] towards [r]: directly, or through astroport to this
    contract, which is possible only if it is followed by the hook. *)
Definition towards (env : Env) (r : Addr) (hook : bool) (a : Asset) (m : CosmosMsg) : Prop :=
  moves m = Some a ∧
  (pays m = Some r ∨
   hook = true ∧ ∃ pair, get_astro_direct_swap_msg pair a (contract_address env) = Ok m).

Lemma towards_mono env r h h' a m : (h = true → h' = true) → towards env r h a m → towards env r h' a m.
Proof. intros Hh [? [?|[??]]]; split; auto. Qed.

Lemma astro_moves pair a r m : get_astro_direct_swap_msg pair a r = Ok m → moves m = Some a.
Proof.
  destruct a as [[c|d] n]; unfold get_astro_direct_swap_msg, send_msg_with_native_funds; simpl; intros H; inv_ok H.
  - apply map_err_Ok in H. rewrite asset_send_cw20 in H. by simplify_eq.
  - by simplify_eq.
Qed.

(** One of the messages sends an asset other than the destination through
    astroport, which is the route found for it. *)
Definition via_astroport (peers : Peers) (env : Env) (cfg : Config) (dest : AssetInfo) (l : list Asset)
    (outs : list CosmosMsg) : Prop :=
  ∃ a m pair, (a, m) ∈ zip (nonzero l) outs ∧ asset_info a ≠ dest ∧
    get_swap_route peers cfg (asset_info a) dest = Some (AstroportToBase pair) ∧
    get_astro_direct_swap_msg pair a (contract_address env) = Ok m.

(** The assets that have to go through astroport. *)
Definition needs_astroport (peers : Peers) (cfg : Config) (dest : AssetInfo) (l : list Asset) : Prop :=
  ∃ a pair, a ∈ nonzero l ∧ asset_info a ≠ dest ∧
    get_swap_route peers cfg (asset_info a) dest = Some (AstroportToBase pair).

Lemma via_needs peers env cfg dest l outs : via_astroport peers env cfg dest l outs → needs_astroport peers cfg dest l.
Proof. intros (a & m & pair & Hin & Hne & Hr & _). exists a, pair. split_and!; [by apply elem_of_zip_l in Hin|done..]. Qed.

(** One asset. *)
Lemma swap_step_spec peers env cfg r dest msgs need a msgs' need' :
  swap_step peers env cfg r dest (msgs, need) a = Ok (msgs', need') →
  ∃ outs, msgs' = msgs ++ outs ∧ Forall2 (towards env r need') (nonzero [a]) outs ∧ (need = true → need' = true) ∧
    (need' = true → need = true ∨ via_astroport peers env cfg dest [a] outs) ∧
    (needs_astroport peers cfg dest [a] → need' = true).
Proof.
  unfold swap_step, via_astroport, needs_astroport, nonzero. simpl. destruct (asset_amount a =? 0) eqn:Hz; simpl; intros H.
  { injection H as <- <-. exists []. rewrite app_nil_r. split_and!; auto. by intros (? & ? & ?%not_elem_of_nil & _). }
  case_bool_decide as Hd.
  { inv_ok H. apply map_err_Ok in Ha. simplify_eq. eexists. split; [done|].
    split_and!; [|done|eauto|by intros (? & ? & ->%list_elem_of_singleton & ? & _)]. constructor; [|done]. destruct a as [[c|d] n]; [rewrite asset_transfer_cw20 in Ha|rewrite asset_transfer_native in Ha];
      simplify_eq; (split; [done|by left]). }
  destruct (get_swap_route peers cfg (asset_info a) dest) as [[pair|pair1 pair2|pair]|] eqn:Hroute; [..|done];
    inv_ok H; simplify_eq; eexists; (split; [done|]); (split; [constructor; [|done]|]);
    [|split_and!; auto; intros (? & ? & ->%list_elem_of_singleton & _ & ?); congruence|
     |split_and!; auto; intros (? & ? & ->%list_elem_of_singleton & _ & ?); congruence|..].
  - unfold get_prism_direct_swap_msg, send_msg_with_native_funds in Ha. destruct a as [[c|d] n]; simpl in Ha.
    + apply map_err_Ok in Ha. rewrite asset_send_cw20 in Ha. simplify_eq. split; [done|by left].
    + simplify_eq. split; [done|by left].
  - unfold get_prism_router_swap_msg, send_msg_with_native_funds in Ha. destruct a as [[c|d] n]; simpl in Ha.
    + apply map_err_Ok in Ha. rewrite asset_send_cw20 in Ha. simplify_eq. split; [done|by left].
    + simplify_eq. split; [done|by left].
  - split; [by eapply astro_moves|]. right. eauto.
  - split_and!; [done| |done]. intros _. right. eexists _, _, pair. split; [by left|]. by split_and!.
Qed.

Lemma nonzero_cons a l : nonzero (a :: l) = nonzero [a] ++ nonzero l.
Proof. unfold nonzero. simpl. by destruct (asset_amount a =? 0). Qed.

Lemma swap_loop peers env cfg r dest l : ∀ msgs need msgs' need',
  ofold (swap_step peers env cfg r dest) (msgs, need) l = Ok (msgs', need') →
  ∃ outs, msgs' = msgs ++ outs ∧ Forall2 (towards env r need') (nonzero l) outs ∧ (need = true → need' = true) ∧
    (need' = true → need = true ∨ via_astroport peers env cfg dest l outs) ∧
    (needs_astroport peers cfg dest l → need' = true).
Proof.
  induction l as [|a l IH]; intros msgs need msgs' need' H; cbn [ofold] in H.
  { injection H as <- <-. exists []. rewrite app_nil_r. split_and!; auto. by intros (? & ? & ?%not_elem_of_nil & _). }
  apply qbind_Ok in H as ([msgs1 need1] & H1 & H). apply swap_step_spec in H1 as (out1 & -> & Hf1 & Hn1 & Hr1 & Hs1).
  apply IH in H as (out & -> & Hf & Hn & Hr & Hs). exists (out1 ++ out). rewrite app_assoc, nonzero_cons.
  split_and!; [done| |auto| |].
  - apply Forall2_app; [|done]. eapply Forall2_impl; [exact Hf1|]. intros x m. by apply towards_mono.
  - assert (zip (nonzero (a :: l)) (out1 ++ out) = zip (nonzero [a]) out1 ++ zip (nonzero l) out) as Hzip
      by (rewrite nonzero_cons; apply zip_with_app, (Forall2_length _ _ _ Hf1)).
    unfold via_astroport in *. rewrite Hzip.
    intros [Hne|(x & m & pair & Hx & Hp)]%Hr; [destruct (Hr1 Hne) as [?|(x & m & pair & Hx & Hp)]; [by left|]|];
      right; exists x, m, pair; rewrite elem_of_app; auto.
  - intros (x & pair & Hx & Hp). rewrite nonzero_cons in Hx. apply elem_of_app in Hx as [Hx|Hx].
    + apply Hn, Hs1. by exists x, pair.
    + apply Hs. by exists x, pair.
Qed.

(** Different names only if the assets are different. *)
Lemma size_list_to_set (l : list string) : size (list_to_set l : gset string) = length l → NoDup l.
Proof.
  induction l as [|x l IH]; simpl; [constructor|]. intros Hs.
  assert (size (list_to_set l : gset string) ≤ length l)%nat as Hle.
  { clear. induction l as [|x l IH]; simpl; [done|]. rewrite size_union_alt, size_singleton.
    pose proof (subseteq_size (list_to_set l ∖ {[x]} : gset string) (list_to_set l) ltac:(set_solver)). lia. }
  destruct (decide (x ∈ l)) as [Hin|Hnin].
  - rewrite subseteq_union_1_L in Hs by set_solver. lia.
  - rewrite size_union, size_singleton in Hs by set_solver. constructor; [done|]. apply IH. lia.
Qed.

Lemma get_swap_msgs_spec peers env cfg l r dest msgs need :
  get_swap_msgs peers env cfg l r dest = Ok (msgs, need) →
  NoDup (asset_info <$> l) ∧ Forall2 (towards env r need) (nonzero l) msgs ∧
  (need = true → via_astroport peers env cfg dest l msgs) ∧ (needs_astroport peers cfg dest l → need = true).
Proof.
  unfold get_swap_msgs. case_bool_decide as Hs; [done|]. intros H.
  apply swap_loop in H as (outs & -> & Hf & _ & Hr & Hn). split_and!; [|exact Hf| |exact Hn].
  - rewrite <-(length_fmap (λ a, asset_info_to_string (asset_info a))) in Hs. apply size_list_to_set in Hs.
    apply (NoDup_fmap_1 asset_info_to_string). by rewrite <-list_fmap_compose.
  - intros Ht. by destruct (Hr Ht).
Qed.

(** ** Paying in *)
Definition pulls (env : Env) (info : MessageInfo) (l : list Asset) : list CosmosMsg :=
  omap (λ a, match asset_info a with
             | Cw20Asset c => Some (WasmExecute c
                 (BinCw20 (Cw20.TransferFrom (info_sender info) (contract_address env) (asset_amount a))) [])
             | NativeAsset _ => None end) (nonzero l).
Definition base_input (cfg : Config) (l : list Asset) : N :=
  sum_N ((λ a, if decide (asset_info a = NativeAsset (base_denom cfg)) then asset_amount a else 0) <$> l).

(** A native asset is as many coins as were sent of its denomination. *)
Definition sent_with (info : MessageInfo) (a : Asset) : Prop :=
  match asset_info a with
  | NativeAsset d => ∃ c, c ∈ info_funds info ∧ coin_denom c = d ∧ coin_amount c = asset_amount a
  | Cw20Asset _ => True
  end.

Lemma base_input_none cfg l : NativeAsset (base_denom cfg) ∉ asset_info <$> l → base_input cfg l = 0.
Proof.
  unfold base_input. induction l as [|a l IH]; [done|]. rewrite !fmap_cons, not_elem_of_cons. intros [Hne Hnin].
  cbn [sum_N]. rewrite (IH Hnin). by rewrite decide_False by congruence.
Qed.

Lemma pay_loop cfg env info l : ∀ msgs base msgs' base',
  NoDup (asset_info <$> l) → (base = 0 ∨ NativeAsset (base_denom cfg) ∉ asset_info <$> l) →
  ofold (pay_step cfg env info) (msgs, base) l = Ok (msgs', base') →
  msgs' = msgs ++ pulls env info l ∧ base' = base + base_input cfg l ∧ Forall (sent_with info) (nonzero l).
Proof.
  unfold pulls. induction l as [|a l IH]; intros msgs base msgs' base' Hnd Hb H; cbn [ofold] in H.
  { injection H as <- <-. simpl. rewrite app_nil_r. split_and!; [done| |constructor]. unfold base_input. simpl. lia. }
  apply qbind_Ok in H as ([msgs1 base1] & H1 & H). rewrite fmap_cons in Hnd, Hb. apply NoDup_cons in Hnd as [Hnin Hnd].
  rewrite nonzero_cons. change (base_input cfg (a :: l)) with
    ((if decide (asset_info a = NativeAsset (base_denom cfg)) then asset_amount a else 0) + base_input cfg l).
  unfold pay_step in H1. unfold nonzero at 1 3. simpl.
  destruct (N.eqb_spec (asset_amount a) 0) as [Hz|Hz]; simpl.
  { injection H1 as <- <-. apply IH in H as (-> & -> & Hs); [|done|set_solver]. split_and!; [done| |done].
    rewrite Hz. case_decide; lia. }
  destruct (asset_info a) as [c|d] eqn:Hi.
  - inv_ok H1. apply map_err_Ok in Ha. simplify_eq. destruct a as [i n]. simpl in Hi. subst i.
    rewrite asset_transfer_from_cw20 in Ha. injection Ha as <-.
    apply IH in H as (-> & -> & Hs); [|done|set_solver]. rewrite <-app_assoc.
    split_and!; [done|by rewrite decide_False by done|by constructor].
  - inv_ok H1. apply map_err_Ok in Ha. simplify_eq.
    assert (sent_with info a) as Hsent.
    { unfold sent_with, assert_sent_native_token_balance in *. rewrite Hi in *.
      destruct (List.find _ (info_funds info)) as [c|] eqn:Hf; [|by destruct (N.eqb_spec (asset_amount a) 0)].
      apply List.find_some in Hf as [Hin Hd]. apply bool_decide_eq_true in Hd.
      destruct (N.eqb_spec (asset_amount a) (coin_amount c)); [|done]. exists c. by rewrite list_elem_of_In. }
    destruct (decide (d = base_denom cfg)) as [->|Hd].
    + rewrite bool_decide_eq_true_2 in H by done. rewrite decide_True by done.
      destruct Hb as [->|Hb]; [|set_solver].
      apply IH in H as (-> & -> & Hs); [|done|by right]. rewrite (base_input_none _ _ Hnin).
      split_and!; [done|lia|by constructor].
    + rewrite bool_decide_eq_false_2 in H by done. rewrite decide_False by congruence.
      apply IH in H as (-> & -> & Hs); [|done|set_solver]. split_and!; [done|lia|by constructor].
Qed.

(** What is left of the receiver and of the hook in [convert_and_send]. *)
Lemma convert_spec cfg q peers env info assets receiver dest resp :
  convert_and_send (Some (Current cfg)) q peers env info assets receiver dest = Ok resp →
  let r := default (info_sender info) receiver in
  ∃ outs need, sub_msg <$> messages resp = pulls env info assets ++ outs ++
      (if need : bool then
         match query_balance q (contract_address env) (base_denom cfg) with
         | Ok n => [hook_msg env r (n - base_input cfg assets) dest] | _ => [] end
       else []) ∧
    NoDup (asset_info <$> assets) ∧ Forall (sent_with info) (nonzero assets) ∧
    Forall2 (towards env r need) (nonzero assets) outs ∧
    (need = true → via_astroport peers env cfg dest assets outs ∧
       ∃ n, query_balance q (contract_address env) (base_denom cfg) = Ok n ∧ base_input cfg assets ≤ n) ∧
    (needs_astroport peers cfg dest assets → need = true).
Proof.
  intros H r. unfold convert_and_send in H. simpl in H. 
  apply qbind_Ok in H as ([msgs base] & Hp & H). apply qbind_Ok in H as (r' & Hr & H).
  assert (r' = r) as ->.
  { destruct receiver; simpl in *; [by apply map_err_Ok, addr_validate_law in Hr as ->|by injection Hr as <-]. }
  apply qbind_Ok in H as ([outs need] & Hs & H). apply get_swap_msgs_spec in Hs as (Hnd & Hf & Hv & Hn).
  apply pay_loop in Hp as (-> & -> & Hsent); [|done|by left]. simpl in H. exists outs, need.
  destruct need.
  - inv_ok H. inv_ok Ha. ok_facts. rewrite asset_query_native in Ha0. apply checked_sub_Ok in Ha1 as [? ->]. subst.
    rewrite Ha0. split_and!; try done; [|by intros _; split; [apply Hv|exists a0]]. simpl. rewrite <-list_fmap_compose, list_fmap_id.
    by rewrite <-app_assoc.
  - inv_ok H. injection Ha as <-. subst. split_and!; try done. simpl. rewrite <-list_fmap_compose, list_fmap_id.
    by rewrite app_nil_r.
Qed.

(** C9: What is paid in leaves once and in full. When [ConvertAndSend] succeeds,
    no asset occurs twice; every non-zero token amount is first taken from the
    sender with [TransferFrom], every non-zero native amount is among the funds;
    then every asset, in order, is moved out again by one message, with its
    whole amount, to the receiver (by default the sender) or into a swap that
    pays the receiver, or through astroport to this contract. One more message
    follows if and only if some asset that is not yet the destination has to go
    through astroport: the hook for the receiver, with the balance in the base
    denomination less what was paid in of it. *)
Theorem collector_passes_through cfg q peers env info assets receiver dest resp :
  execute (Some (Current cfg)) q peers env info (ConvertAndSend assets receiver dest) = Ok resp →
  let r := default (info_sender info) receiver in
  ∃ outs hook, sub_msg <$> messages resp = pulls env info assets ++ outs ++ hook ∧
    NoDup (asset_info <$> assets) ∧
    (∀ a d, a ∈ nonzero assets → asset_info a = NativeAsset d →
       ∃ c, c ∈ info_funds info ∧ coin_denom c = d ∧ coin_amount c = asset_amount a) ∧
    Forall2 (λ a m, moves m = Some a ∧
      (pays m = Some r ∨ hook ≠ [] ∧ ∃ pair, get_astro_direct_swap_msg pair a (contract_address env) = Ok m))
      (nonzero assets) outs ∧
    (hook = [] ∨ ∃ n, query_balance q (contract_address env) (base_denom cfg) = Ok n ∧ base_input cfg assets ≤ n ∧
       hook = [hook_msg env r (n - base_input cfg assets) dest]) ∧
    (hook ≠ [] ↔ ∃ a pair, a ∈ nonzero assets ∧ asset_info a ≠ dest ∧
       get_swap_route peers cfg (asset_info a) dest = Some (AstroportToBase pair)).
Proof.
  intros H r. simpl in H. apply qbind_Ok in H as (? & _ & H). apply qbind_Ok in H as (? & _ & H).
  apply convert_spec in H as (outs & need & Hm & Hnd & Hs & Hf & Hb & Hneed). fold r in Hm, Hf.
  assert (∀ a d, a ∈ nonzero assets → asset_info a = NativeAsset d →
    ∃ c, c ∈ info_funds info ∧ coin_denom c = d ∧ coin_amount c = asset_amount a) as Hn.
  { intros a d Hin Hi. rewrite Forall_forall in Hs. specialize (Hs a Hin). unfold sent_with in Hs. by rewrite Hi in Hs. }
  destruct need.
  - destruct (Hb eq_refl) as ((a & m & pair & Hin & Ha) & n & Hq & Hle). rewrite Hq in Hm.
    eexists _, _. split; [exact Hm|]. split_and!; [done|done| |right; eauto|].
    + eapply Forall2_impl; [exact Hf|]. intros ? ? [Hmv [Hp|[_ Hp]]]; auto.
    + split; [intros _|done]. eapply via_needs. by exists a, m, pair.
  - eexists _, []. split; [exact Hm|]. split_and!; [done|done| |by left|].
    + eapply Forall2_impl; [exact Hf|]. intros a m [Hmv [Hp|[[=] _]]]; auto.
    + split; [done|]. by intros Hr%Hneed.
Qed.

(** The hook, when it succeeds, moves what the balance has grown by. *)
Lemma hook_spec cfg q peers env info r prev dest resp :
  execute (Some (Current cfg)) q peers env info (BaseSwapHook r prev dest) = Ok resp →
  info_sender info = contract_address env ∧
  ∃ n, query_balance q (contract_address env) (base_denom cfg) = Ok n ∧ prev ≤ n ∧
    Forall2 (λ a m, moves m = Some a ∧ pays m = Some r)
      (nonzero [mkAsset (NativeAsset (base_denom cfg)) (n - prev)]) (sub_msg <$> messages resp).
Proof.
  intros H. simpl in H. unfold base_swap_hook in H. simpl in H. case_bool_decide as Hi; [done|].
  split; [done|]. inv_ok H. all: ok_facts. all: rewrite asset_query_native in Ha. all: apply checked_sub_Ok in Ha0 as [? ->]; subst.
  all: exists a; split; [done|]; split; [done|]; unfold nonzero; simpl.
  - rewrite E. constructor.
  - apply get_swap_msgs_spec in Ha1 as (_ & Hf & _). rewrite <-list_fmap_compose, list_fmap_id.
    unfold nonzero in Hf. simpl in Hf. eapply Forall2_impl; [exact Hf|]. intros x m [Hm [Hp|[[=] _]]]. done.
Qed.

(** C8: The hook passes on what astroport paid, and nothing else. Let
    [ConvertAndSend] register the hook, and let the base balance at the time
    of the hook be what it was, less the base coins the conversion itself
    swapped, plus what the swaps paid.  Then the hook, if it succeeds, moves
    exactly that gain, to the receiver or into a swap that pays the receiver,
    and the coins the contract held before stay; and only the contract itself
    can run it.  The contract's README says that the hook converts the entire
    UST balance; the code (contract.rs, [base_swap_hook]) takes the balance at
    registration off, and this is what the theorem states. *)
Theorem collector_hook_swaps_gain cfg q peers env info assets receiver dest resp bal gain q' peers' info' resp' r prev :
  execute (Some (Current cfg)) q peers env info (ConvertAndSend assets receiver dest) = Ok resp →
  hook_msg env r prev dest ∈ sub_msg <$> messages resp →
  query_balance q (contract_address env) (base_denom cfg) = Ok bal →
  query_balance q' (contract_address env) (base_denom cfg) = Ok (bal - base_input cfg assets + gain) →
  execute (Some (Current cfg)) q' peers' env info' (BaseSwapHook r prev dest) = Ok resp' →
  r = default (info_sender info) receiver ∧ info_sender info' = contract_address env ∧
  if decide (gain = 0) then messages resp' = [] else
    ∃ m, sub_msg <$> messages resp' = [m] ∧ moves m = Some (mkAsset (NativeAsset (base_denom cfg)) gain) ∧
      pays m = Some r.
Proof.
  intros H Hin Hbal Hbal' H'. simpl in H. apply qbind_Ok in H as (? & _ & H). apply qbind_Ok in H as (? & _ & H).
  apply convert_spec in H as (outs & need & Hm & Hnd & Hs & Hf & Hb & _).
  assert (∀ a m, moves m = Some a → m ≠ hook_msg env r prev dest) as Hne by by intros a m Hmv ->.
  assert (r = default (info_sender info) receiver ∧ prev = bal - base_input cfg assets) as [-> ->].
  { rewrite Hm, !elem_of_app in Hin. destruct Hin as [Hin|[Hin|Hin]].
    - exfalso. unfold pulls in Hin. apply list_elem_of_omap in Hin as (a & _ & Ha). by destruct (asset_info a).
    - exfalso. apply list_elem_of_lookup in Hin as [i Hi].
      destruct (Forall2_lookup_r _ _ _ _ _ Hf Hi) as (a & _ & Hmv & _). by eapply Hne.
    - destruct need; [|by apply not_elem_of_nil in Hin]. rewrite Hbal in Hin.
      apply list_elem_of_singleton in Hin. by injection Hin as -> ->. }
  split; [done|]. apply hook_spec in H' as (Hi & n & Hn & Hle & Hf'). split; [done|].
  assert (n = bal - base_input cfg assets + gain) as -> by congruence.
  replace (bal - base_input cfg assets + gain - (bal - base_input cfg assets)) with gain in Hf' by lia.
  unfold nonzero in Hf'. simpl in Hf'. destruct (N.eqb_spec gain 0) as [->|Hg]; simpl in Hf'.
  - apply Forall2_nil_inv_l in Hf'. by apply fmap_nil_inv in Hf'.
  - rewrite decide_False by done. apply Forall2_cons_inv_l in Hf' as (m & l & [??] & Hl & Heq).
    apply Forall2_nil_inv_l in Hl as ->. by exists m.
Qed.

(** Fees are distributed whole. [Distribute] moves the contract's whole
    balance of every given asset, in order and once, to the distribution
    contract or into a swap that pays it, or through astroport to the
    collector itself, in which case the hook follows that passes the whole
    base balance on. *)
Theorem collector_distributes cfg q peers env info infos resp :
  execute (Some (Current cfg)) q peers env info (Distribute infos) = Ok resp →
  ∃ amounts outs hook,
    Forall2 (λ i n, asset_query_balance q i (contract_address env) = Ok n) infos amounts ∧ NoDup infos ∧
    sub_msg <$> messages resp = outs ++ hook ∧
    Forall2 (λ a m, moves m = Some a ∧
      (pays m = Some (distribution_contract cfg) ∨
       hook ≠ [] ∧ ∃ pair, get_astro_direct_swap_msg pair a (contract_address env) = Ok m))
      (nonzero (zip_with mkAsset infos amounts)) outs ∧
    (hook = [] ∨ hook = [hook_msg env (distribution_contract cfg) 0 (Cw20Asset (prism_token cfg))]).
Proof.
  intros H. simpl in H. apply qbind_Ok in H as (? & _ & H). unfold distribute in H. simpl in H.
  apply qbind_Ok in H as (assets & Ha & H). apply qbind_Ok in H as ([msgs need] & Hs & H). simpl in H.
  injection H as <-. apply get_swap_msgs_spec in Hs as (Hnd & Hf & _).
  assert (assets = zip_with mkAsset infos (asset_amount <$> assets) ∧ asset_info <$> assets = infos ∧
    Forall2 (λ i n, asset_query_balance q i (contract_address env) = Ok n) infos (asset_amount <$> assets))
    as (Hz & Hi & Hq).
  { clear -Ha. revert assets Ha. induction infos as [|i l IH]; intros assets Ha; simpl in Ha.
    - by injection Ha as <-.
    - apply qbind_Ok in Ha as (x & Hx & Ha). apply qbind_Ok in Ha as (xs & Hxs & Ha). injection Ha as <-.
      unfold balance_asset in Hx. apply qbind_Ok in Hx as (n & Hn%map_err_Ok & Hx). injection Hx as <-.
      apply IH in Hxs as (Hz & Hi & Hq). rewrite !fmap_cons. simpl.
      split_and!; [by rewrite <-Hz|by rewrite Hi|by constructor]. }
  rewrite Hi in Hnd. rewrite Hz in Hf.
  exists (asset_amount <$> assets), msgs,
    (if need then [hook_msg env (distribution_contract cfg) 0 (Cw20Asset (prism_token cfg))] else []).
  split_and!; [done|done| | |].
  - simpl. rewrite <-list_fmap_compose, list_fmap_id. destruct need; [done|by rewrite app_nil_r].
  - eapply Forall2_impl; [exact Hf|]. intros a m [Hm [Hp|[-> Hp]]]; auto.
  - destruct need; auto.
Qed.
End properties.

(** ** A concrete conversion *)
Section witnesses.
Import Reference ReferenceAsset.
#[local] Existing Instance Reference.platform.
#[local] Existing Instance ReferenceAsset.cw_asset.
#[local] Instance reference_astroport : Astroport := {
  astro_MAX_ALLOWED_SLIPPAGE := "0.5";
  astro_hook_swap _ _ _ := RawBinary "swap";
  astro_swap _ _ _ _ := RawBinary "swap" }.

Definition config : Config := mkConfig "gov" "astro_factory" "factory" "router" "prism" "uusd".
(** There is a prismswap pair of uusd and PRISM, and an astroport pair for ANC. *)
Definition pairs : Peers :=
  mkPeers
    (λ _ p, if decide (p = (NativeAsset "uusd", Cw20Asset "prism")) then Ok (mkPairInfo p "pair" "lp")
            else Err (GenericErr "no pair"))
    (λ _ p, if decide (p.1 = Cw20Asset "anc") then Ok "astro_pair"%string else Err (GenericErr "no pair")).
Definition chain (uusd : N) : Querier :=
  mkQuerier (λ _, Ok []) (λ _ _, Ok None) (λ _, Ok None) (Ok []) (λ _ _, Ok uusd)
    (λ c _, Ok (if decide (c = "anc"%string) then 40 else 0)) (λ _, Ok 0).
Definition here : Env := mkEnv 1 0 "collector".
Definition alice : MessageInfo := mkInfo "alice" [mkCoin "uusd" 300].
Definition paid : list Asset :=
  [mkAsset (Cw20Asset "anc") 500; mkAsset (NativeAsset "uusd") 300; mkAsset (Cw20Asset "mir") 0].

Definition result (r : outcome ContractError Response) : Response := match r with Ok r => r | _ => mkResponse [] [] end.
Lemma collector_run_Ok r : is_ok r = true → r = Ok (result r).
Proof. by destruct r. Qed.
Definition run_convert :=
  execute (Some (Current config)) (chain 1300) pairs here alice (ConvertAndSend paid None (Cw20Asset "prism")).
Lemma run_convert_Ok :
  execute (Some (Current config)) (chain 1300) pairs here alice (ConvertAndSend paid None (Cw20Asset "prism")) =
    Ok (result run_convert).
Proof. apply (collector_run_Ok run_convert). vm_compute. reflexivity. Qed.

(** The 300 uusd are swapped at once, the 500 ANC through astroport, and the
    hook leaves the 1000 uusd the collector had. *)
Lemma collector_passes_through_witness :
  sub_msg <$> messages (result run_convert) =
    [WasmExecute "anc" (BinCw20 (Cw20.TransferFrom "alice" "collector" 500)) [];
     WasmExecute "anc" (BinCw20 (Cw20.Send "astro_pair" 500 (RawBinary "swap"))) [];
     WasmExecute "pair" (BinPair (PairMsg.Swap (mkAsset (NativeAsset "uusd") 300) None None (Some "alice")))
       [mkCoin "uusd" 300];
     hook_msg here "alice" 1000 (Cw20Asset "prism")] ∧
  NoDup (asset_info <$> paid).
Proof.
  split; [vm_compute; reflexivity|].
  destruct (collector_passes_through (P:=platform) config (chain 1300) pairs here alice paid None (Cw20Asset "prism")
    (result run_convert) run_convert_Ok) as (outs & hook & _ & Hnd & _).
  exact Hnd.
Defined.

(** Astroport paid 70 uusd. *)
Definition run_hook :=
  execute (Some (Current config)) (chain 1070) pairs here (mkInfo "collector" [])
    (BaseSwapHook "alice" 1000 (Cw20Asset "prism")).
Lemma collector_hook_Ok :
  execute (Some (Current config)) (chain 1070) pairs here (mkInfo "collector" [])
    (BaseSwapHook "alice" 1000 (Cw20Asset "prism")) = Ok (result run_hook).
Proof. apply (collector_run_Ok run_hook). vm_compute. reflexivity. Qed.
Lemma run_convert_hook :
  hook_msg here "alice" 1000 (Cw20Asset "prism") ∈ sub_msg <$> messages (result run_convert).
Proof.
  assert (list_find (λ m, moves m = None ∧ pays m = None) (drop 3 (sub_msg <$> messages (result run_convert))) =
    Some (0%nat, hook_msg here "alice" 1000 (Cw20Asset "prism"))) as (Hf & _)%list_find_Some by (vm_compute; reflexivity).
  apply list_elem_of_lookup. exists 3%nat. by rewrite lookup_drop in Hf.
Qed.
Lemma collector_hook_swaps_gain_witness :
  ∃ m, sub_msg <$> messages (result run_hook) = [m] ∧ moves m = Some (mkAsset (NativeAsset "uusd") 70) ∧
    pays m = Some "alice"%string.
Proof.
  destruct (collector_hook_swaps_gain (P:=platform) config (chain 1300) pairs here alice paid None (Cw20Asset "prism")
    (result run_convert) 1300 70 (chain 1070) pairs (mkInfo "collector" []) (result run_hook) "alice" 1000
    run_convert_Ok run_convert_hook eq_refl eq_refl collector_hook_Ok) as (_ & _ & Hm).
  exact Hm.
Defined.

Definition run_distribute :=
  execute (Some (Current config)) (chain 1300) pairs here alice (Distribute [Cw20Asset "anc"; Cw20Asset "prism"]).
Lemma run_distribute_Ok :
  execute (Some (Current config)) (chain 1300) pairs here alice (Distribute [Cw20Asset "anc"; Cw20Asset "prism"]) =
    Ok (result run_distribute).
Proof. apply (collector_run_Ok run_distribute). vm_compute. reflexivity. Qed.
Lemma collector_distributes_witness :
  sub_msg <$> messages (result run_distribute) =
    [WasmExecute "anc" (BinCw20 (Cw20.Send "astro_pair" 40 (RawBinary "swap"))) [];
     hook_msg here "gov" 0 (Cw20Asset "prism")] ∧
  NoDup [Cw20Asset "anc"; Cw20Asset "prism"].
Proof.
  split; [vm_compute; reflexivity|].
  destruct (collector_distributes (P:=platform) config (chain 1300) pairs here alice
    [Cw20Asset "anc"; Cw20Asset "prism"] (result run_distribute) run_distribute_Ok) as (amounts & outs & hook & _ & Hnd & _).
  exact Hnd.
Defined.
End witnesses.
End CollectorSpec.
