(* ===== verification/AirdropFlow.v ===== *)
(** * An airdrop on its way to the stakers

    Three contracts carry an airdrop: the registry makes the claim
    (contracts/prism-airdrop-registry/src/contract.rs, [execute_fabricate_claim]),
    the vault runs it and deposits what arrived (contracts/prism-vault/src/contract.rs,
    [claim_airdrop] and [deposit_airdrop_rewards]), and the yLuna staking
    contract splits the deposit (contracts/prism-yasset-staking/src/rewards.rs,
    [deposit_rewards]), asking the vault how much is bonded. *)
From S2P Require Import Prelude Cosmwasm Protocol Prismswap AirdropRegistry Vault YassetStaking YassetProofs YassetSpec.
From S2P Require VaultSpec.

Module AirdropFlow.
Import YassetProofs.

Section flow.
Context {P : Cosmwasm} {L : CosmwasmLaws P} {CA : CwAsset} {T : YassetStaking.Terra} {TL : YassetStaking.TerraLaws T}.
Variable fb : Binary → outcome StdError YassetStakingMsg.Cw20HookMsg.
Variable fbv : Binary → outcome StdError VaultMsg.Cw20HookMsg.

(** The staking contract's view of the chain: the vault answers for itself. *)
Definition answers_of (vs : Vault.Storage) (coins : Addr → outcome StdError (list Coin))
    (rates : string → list string → outcome StdError (list string)) : YassetStaking.Peers :=
  YassetStaking.mkPeers (λ _, Vault.query_state vs) coins rates.

(** The vault carries out the claim of its registry: it calls the airdrop
    contract, then itself. *)
Lemma vault_claims vs q env info c token airdrop_contract claim :
  Vault.CONFIG vs = Some c → Vault.initialized c = true → info_sender info = Vault.airdrop_registry_contract c →
  Vault.execute fbv vs q env info (VaultMsg.ClaimAirdrop token airdrop_contract claim) =
    Ok (vs, respond [WasmExecute airdrop_contract claim [];
                     WasmExecute (contract_address env) (BinVault (VaultMsg.DepositAirdropReward token)) []] []).
Proof.
  intros Hc Hi Hs. simpl. unfold Vault.claim_airdrop, Vault.load_initialized, Vault.load_config, load.
  rewrite Hc. simpl. unfold Vault.assert_initialized. rewrite Hi. simpl. by rewrite bool_decide_eq_false_2 by tauto.
Qed.

(** Its own call deposits the whole balance of the token. *)
Lemma vault_deposits vs q env info c token n :
  Vault.CONFIG vs = Some c → Vault.initialized c = true → info_sender info = contract_address env →
  addr_validate token = Ok token → token ≠ Vault.cluna_contract c →
  query_token_balance q token (contract_address env) = Ok n →
  Vault.execute fbv vs q env info (VaultMsg.DepositAirdropReward token) =
    Ok (vs, respond
      [WasmExecute token (BinCw20 (Cw20.IncreaseAllowance (Vault.yluna_staking c) n)) [];
       WasmExecute (Vault.yluna_staking c)
         (BinYassetStaking (YassetStakingMsg.DepositRewards [mkAsset (Cw20Asset token) n])) []] []).
Proof.
  intros Hc Hi Hs Hv Ht Hq. simpl. unfold Vault.deposit_airdrop_rewards, Vault.load_initialized, Vault.load_config, load.
  rewrite Hc. simpl. unfold Vault.assert_initialized. rewrite Hi. simpl. rewrite Hv. simpl.
  rewrite bool_decide_eq_false_2 by tauto. rewrite bool_decide_eq_false_2 by done. by rewrite Hq.
Qed.

(** It refuses to give its own token away. *)
Lemma vault_refuses_cluna vs q env info c :
  Vault.CONFIG vs = Some c → Vault.initialized c = true → info_sender info = contract_address env →
  addr_validate (Vault.cluna_contract c) = Ok (Vault.cluna_contract c) →
  Vault.execute fbv vs q env info (VaultMsg.DepositAirdropReward (Vault.cluna_contract c)) =
    Err (GenericErr "the airdrop_token_contract can not be cLuna").
Proof.
  intros Hc Hi Hs Hv. simpl. unfold Vault.deposit_airdrop_rewards, Vault.load_initialized, Vault.load_config, load.
  rewrite Hc. simpl. unfold Vault.assert_initialized. rewrite Hi. simpl. rewrite Hv. simpl.
  rewrite bool_decide_eq_false_2 by tauto. by rewrite bool_decide_eq_true_2.
Qed.

(** The deposit by the vault. *)
Lemma staking_deposits vs vstate ys recv sent k yc env_s owner q coins rates token n ys' r :
  Vault.STATE vs = Some vstate → YassetSpec.run fb ys recv sent k → YassetStaking.CONFIG ys = Some yc →
  owner ≠ contract_address env_s →
  YassetStaking.execute fb ys q (answers_of vs coins rates) env_s (mkInfo owner [])
    (YassetStakingMsg.DepositRewards [mkAsset (Cw20Asset token) n]) = Ok (ys', r) →
  let staked := map_sum (λ _, YassetStaking.bond_amount) (YassetStaking.BOND_AMOUNTS ys) in
  let reward := reward_of yc (YassetSpec.portion_for staked (Vault.total_bond_amount vstate)) n in
  sub_msg <$> messages r =
    [WasmExecute token (BinCw20 (Cw20.TransferFrom owner (contract_address env_s) n)) [];
     WasmExecute token (BinCw20 (Cw20.Transfer (YassetStaking.collector yc) (n - reward))) []] ∧
  pool_index ys' token = pool_index ys token + reward * DECIMAL_UNIT / staked ∧
  YassetStaking.REWARDS ys' = YassetStaking.REWARDS ys ∧
  YassetStaking.BOND_AMOUNTS ys' = YassetStaking.BOND_AMOUNTS ys.
Proof.
  intros Hvs Hrun Hyc Hne H staked reward. apply YassetSpec.run_cover in Hrun as [HB _]; [|done..].
  assert (staked = total ys) as Hst by apply HB.
  eapply YassetSpec.deposit_execute in H as (_ & Hm & (HR & Hbs & _) & Hi);
    [|exact HB|exact Hyc|simpl; unfold Vault.query_state, Vault.load_state, load; by rewrite Hvs].
  rewrite <-Hst in Hm, Hi. split_and!; [|rewrite Hi|done|done].
  - rewrite Hm. simpl. unfold YassetSpec.deposit_messages. simpl. by rewrite decide_False by congruence.
  - simpl. rewrite decide_True by done. f_equal. by rewrite N.add_0_r.
Qed.

(** C17: An airdrop reaches the stakers. When anyone has the registry make a
    claim for a token it knows, its one message is for the vault it is
    configured with; that vault, once initialized, accepts it from its registry,
    calls the airdrop contract registered for the token with the claim as given,
    and then itself.  If the token is cLuna, that call is refused, and with it
    the whole claim.  For any other token it allows the staking contract to take
    the vault's whole balance of the token and deposits it; and if the deposit
    succeeds, the staking contract, another contract than the vault, takes
    exactly the allowed amount from the vault; the index of the token grows by
    the stakers' reward per staked yLuna, computed with what the vault itself
    reports as bonded, the collector gets the rest, and no account's record or
    bond changes.  The registry's README says that admin users submit the
    claims; its [FabricateClaim] handler does not look at the sender, and the
    theorem holds for every sender. *)
Theorem airdrop_reaches_stakers rs rc ai vs vc vstate ys recv sent k yc info token stage amount proof
    env_v env_s q1 q2 q3 coins rates n :
  AirdropRegistry.CONFIG rs = Some rc → AirdropRegistry.AIRDROP_INFO rs !! token = Some ai →
  addr_validate token = Ok token →
  Vault.CONFIG vs = Some vc → Vault.initialized vc = true → Vault.STATE vs = Some vstate →
  YassetSpec.run fb ys recv sent k → YassetStaking.CONFIG ys = Some yc →
  query_token_balance q2 token (contract_address env_v) = Ok n →
  contract_address env_v ≠ contract_address env_s →
  let by_registry := mkInfo (Vault.airdrop_registry_contract vc) [] in
  let by_vault := mkInfo (contract_address env_v) [] in
  let claim := VaultMsg.ClaimAirdrop token (AirdropRegistryMsg.airdrop_contract ai)
    (BinAirdrop (Claim stage amount proof)) in
  let deposit := VaultMsg.DepositAirdropReward token in
  let reward_deposit := YassetStakingMsg.DepositRewards [mkAsset (Cw20Asset token) n] in
  ∃ r1 r2,
    AirdropRegistry.execute rs info (AirdropRegistryMsg.FabricateClaim token stage amount proof) = Ok (rs, r1) ∧
    sub_msg <$> messages r1 = [WasmExecute (AirdropRegistry.vault_contract rc) (BinVault claim) []] ∧
    Vault.execute fbv vs q1 env_v by_registry claim = Ok (vs, r2) ∧
    sub_msg <$> messages r2 =
      [WasmExecute (AirdropRegistryMsg.airdrop_contract ai) (BinAirdrop (Claim stage amount proof)) [];
       WasmExecute (contract_address env_v) (BinVault deposit) []] ∧
    if decide (token = Vault.cluna_contract vc)
    then ∃ e, Vault.execute fbv vs q2 env_v by_vault deposit = Err e
    else ∃ r3, Vault.execute fbv vs q2 env_v by_vault deposit = Ok (vs, r3) ∧
      sub_msg <$> messages r3 =
        [WasmExecute token (BinCw20 (Cw20.IncreaseAllowance (Vault.yluna_staking vc) n)) [];
         WasmExecute (Vault.yluna_staking vc) (BinYassetStaking reward_deposit) []] ∧
      ∀ ys' r4, YassetStaking.execute fb ys q3 (answers_of vs coins rates) env_s by_vault reward_deposit = Ok (ys', r4) →
        let staked := map_sum (λ _, YassetStaking.bond_amount) (YassetStaking.BOND_AMOUNTS ys) in
        let reward := reward_of yc (YassetSpec.portion_for staked (Vault.total_bond_amount vstate)) n in
        sub_msg <$> messages r4 =
          [WasmExecute token (BinCw20 (Cw20.TransferFrom (contract_address env_v) (contract_address env_s) n)) [];
           WasmExecute token (BinCw20 (Cw20.Transfer (YassetStaking.collector yc) (n - reward))) []] ∧
        pool_index ys' token = pool_index ys token + reward * DECIMAL_UNIT / staked ∧
        YassetStaking.REWARDS ys' = YassetStaking.REWARDS ys ∧
        YassetStaking.BOND_AMOUNTS ys' = YassetStaking.BOND_AMOUNTS ys.
Proof.
  intros Hrc Hai Hval Hvc Hini Hvs Hrun Hyc Hq Hne by_registry by_vault claim deposit reward_deposit.
  exists (respond [WasmExecute (AirdropRegistry.vault_contract rc) (BinVault claim) []]
    [("action", AStr "fabricate_generic_claim")]). eexists _. split_and!.
  - simpl. unfold AirdropRegistry.execute_fabricate_claim, AirdropRegistry.read_config,
      AirdropRegistry.read_airdrop_info, load. rewrite Hrc. simpl. rewrite Hval. simpl. rewrite Hai. simpl.
    by destruct (AirdropRegistryMsg.claim_type ai).
  - done.
  - by eapply vault_claims.
  - done.
  - case_decide as Htok.
    + subst token. eexists. by eapply vault_refuses_cluna.
    + eexists. split; [by eapply vault_deposits|]. split; [done|].
      intros ys' r4 H staked reward. by eapply staking_deposits.
Qed.
End flow.

(** ** A concrete airdrop *)
Section witnesses.
Import Reference ReferenceAsset YassetSpec.
#[local] Existing Instance Reference.platform.
#[local] Existing Instance ReferenceAsset.cw_asset.
#[local] Existing Instance YassetSpec.reference_terra.
#[local] Existing Instance YassetSpec.reference_terra_laws.

Definition vault_view (n : N) : Querier :=
  mkQuerier (λ _, Ok []) (λ _ _, Ok None) (λ _, Ok None) (Ok []) (λ _ _, Ok 0) (λ _ _, Ok n) (λ _, Ok 0).
(** MIR arrives: the vault has 1000 of it, and reports a million bonded, of
    which Alice and Bob staked 500000. *)
Definition mir_calls : list (Addr * YassetStakingMsg.ExecuteMsg Binary) :=
  [bond_call "alice" 300000; bond_call "bob" 200000;
   ("owner"%string, YassetStakingMsg.WhitelistRewardAsset (Cw20Asset "mir"))].
Definition mir_state : YassetStaking.Storage := (final (play mir_calls)).1.1.
Lemma mir_calls_Ok : play mir_calls = Some (mir_state, 0, 0).
Proof. vm_compute. reflexivity. Qed.
Lemma mir_run : ∃ recv sent, YassetSpec.run parse_hook mir_state recv sent 2 ∧ recv "anc"%string = 0 ∧ sent "anc"%string = 0.
Proof.
  exact (ycalls_run parse_hook chain vault_of_200 here "anc" mir_calls _ (λ _, 0) (λ _, 0) 0 _ 0 0
    yasset_init_run eq_refl mir_calls_Ok).
Qed.

Definition vault_env : Env := mkEnv 1 0 "vault".
Definition registry_config : AirdropRegistry.Config := AirdropRegistry.mkConfig "owner" "vault" ["mir"%string].
(** The owner registered cLuna, which the registry cannot tell apart. *)
Definition cluna_airdrop : AirdropRegistryMsg.AirdropInfo :=
  AirdropRegistryMsg.mkAirdropInfo "mir_airdrop" AirdropRegistryMsg.Generic.
Definition cluna_registry : AirdropRegistry.Storage :=
  match AirdropRegistry.after_messages [AirdropRegistryMsg.AddAirdropInfo "cluna" cluna_airdrop] with
  | Ok st => st
  | _ => AirdropRegistry.empty_storage
  end.
Definition cluna_config : AirdropRegistry.Config := AirdropRegistry.mkConfig "owner" "vault" ["cluna"%string].
Definition vault_config : Vault.Config :=
  Vault.mkConfig "owner" "ystaking" "cluna" "yluna" "pluna" "airdrops" true "admin" 7 "manager".
Definition vault_state_of : Vault.State := Vault.mkState DECIMAL_UNIT 1000000 50 0 0 50 0.
Definition no_coins : Addr → outcome StdError (list Coin) := λ _, Ok [].
Definition no_rates : string → list string → outcome StdError (list string) := λ _ _, Ok [].
Definition run_mir :=
  YassetStaking.execute parse_hook mir_state chain (answers_of VaultSpec.VaultSpec.config_state no_coins no_rates) here
    (mkInfo "vault" []) (YassetStakingMsg.DepositRewards [mkAsset (Cw20Asset "mir") 1000]).

Lemma run_mir_Ok :
  YassetStaking.execute parse_hook mir_state chain (answers_of VaultSpec.VaultSpec.config_state no_coins no_rates) here
    (mkInfo "vault" []) (YassetStakingMsg.DepositRewards [mkAsset (Cw20Asset "mir") 1000]) =
    Ok (new_state run_mir, response_of run_mir).
Proof. apply (yasset_run_Ok run_mir). vm_compute. reflexivity. Qed.

Lemma airdrop_reaches_stakers_witness :
  sub_msg <$> messages (response_of run_mir) =
    [WasmExecute "mir" (BinCw20 (Cw20.TransferFrom "vault" "staking" 1000)) [];
     WasmExecute "mir" (BinCw20 (Cw20.Transfer "collector" 550)) []] ∧
  ∃ e, Vault.execute (λ _, Err ParseErr) VaultSpec.VaultSpec.config_state (vault_view 1000) vault_env
    (mkInfo "vault" []) (VaultMsg.DepositAirdropReward "cluna") = Err e.
Proof.
  destruct mir_run as (recv & sent & Hr & _). split.
  - destruct (airdrop_reaches_stakers (P:=platform) parse_hook (λ _, Err ParseErr) AirdropRegistry.registry_state
      registry_config (AirdropRegistryMsg.mkAirdropInfo "mir_airdrop" AirdropRegistryMsg.Generic)
      VaultSpec.VaultSpec.config_state vault_config vault_state_of mir_state recv sent 2 staking_config
      (mkInfo "anyone" []) "mir" 3 1000 [] vault_env here (vault_view 0) (vault_view 1000) chain no_coins no_rates 1000)
      as (r1 & r2 & _ & _ & _ & _ & H);
      [vm_compute; reflexivity|vm_compute; reflexivity|reflexivity|vm_compute; reflexivity|reflexivity
      |vm_compute; reflexivity|exact Hr|vm_compute; reflexivity|reflexivity|discriminate|].
    rewrite decide_False in H by discriminate. destruct H as (r3 & _ & _ & H).
    destruct (H _ _ run_mir_Ok) as [Hm _]. refine (eq_trans Hm _). vm_compute. reflexivity.
  - destruct (airdrop_reaches_stakers (P:=platform) parse_hook (λ _, Err ParseErr) cluna_registry
      cluna_config cluna_airdrop
      VaultSpec.VaultSpec.config_state vault_config vault_state_of mir_state recv sent 2 staking_config
      (mkInfo "anyone" []) "cluna" 3 1000 [] vault_env here (vault_view 0) (vault_view 1000) chain no_coins no_rates 1000)
      as (r1 & r2 & _ & _ & _ & _ & H);
      [vm_compute; reflexivity|vm_compute; reflexivity|reflexivity|vm_compute; reflexivity|reflexivity
      |vm_compute; reflexivity|exact Hr|vm_compute; reflexivity|reflexivity|discriminate|].
    rewrite decide_True in H by reflexivity. exact H.
Defined.
End witnesses.
End AirdropFlow.
