(* ===== verification/RewardFlow.v ===== *)
(** * Staking rewards on their way to the stakers of yLuna

    Anyone can have the vault collect the rewards of its delegations
    (contracts/prism-vault/src/contract.rs, [execute_update_global]); they
    arrive at the yLuna staking contract, which swaps them to Luna and bonds
    them in the vault (contracts/prism-yasset-staking/src/swaps.rs,
    [process_delegator_rewards], [luna_to_pyluna_hook]); the vault mints pLuna
    and yLuna for it (contracts/prism-vault/src/bond.rs, [execute_bond_split]),
    and the staking contract deposits what it received
    ([deposit_minted_pyluna_hook], src/rewards.rs, [deposit_rewards]). *)
From S2P Require Import Prelude Cosmwasm Protocol Prismswap Arith Vault VaultProofs YassetStaking YassetProofs YassetSpec.
From S2P Require VaultSpec VaultBacking AirdropFlow.

Module RewardFlow.
Import YassetProofs.

Section flow.
Context {P : Cosmwasm} {L : CosmwasmLaws P} {CA : CwAsset} {T : YassetStaking.Terra} {TL : YassetStaking.TerraLaws T}.
Variable fb : Binary → outcome StdError YassetStakingMsg.Cw20HookMsg.
Variable fbv : Binary → outcome StdError VaultMsg.Cw20HookMsg.

(** The vault and the staking contract know each other and the same tokens. *)
Record linked (vc : Vault.Config) (yc : YassetStaking.Config) (env_v env_s : Env) : Prop := mkLinked {
  knows_vault : YassetStaking.vault yc = contract_address env_v;
  knows_staking : Vault.yluna_staking vc = contract_address env_s;
  same_pluna : YassetStaking.pluna_token yc = Vault.pluna_contract vc;
  same_yluna : YassetStaking.yluna_token yc = Vault.yluna_contract vc;
  two_tokens : Vault.pluna_contract vc ≠ Vault.yluna_contract vc;
  two_contracts : contract_address env_v ≠ contract_address env_s }.

(** What a list of messages mints of [token] to [to_]. *)
Definition minted (token to_ : Addr) (m : CosmosMsg) : N :=
  match m with
  | WasmExecute t (BinCw20 (Cw20.Mint r n)) _ => if bool_decide (t = token ∧ r = to_) then n else 0
  | _ => 0
  end.
Definition all_minted (token to_ : Addr) (resp : Response) : N :=
  sum_N (minted token to_ <$> (sub_msg <$> messages resp)).

(** The vault starts the collection. *)
Lemma vault_collects vs q env info c s ds :
  Vault.CONFIG vs = Some c → Vault.initialized c = true → Vault.STATE vs = Some s →
  query_all_delegations q (contract_address env) = Ok ds →
  ∃ r, Vault.execute fbv vs q env info (VaultMsg.UpdateGlobalIndex None) =
      Ok (Vault.set_state (Vault.with_index_time (Vault.now env) s) vs, r) ∧
    sub_msg <$> messages r =
      ((λ d, DistributionWithdrawDelegatorReward (del_validator d)) <$> ds) ++
      [WasmExecute (Vault.yluna_staking c) (BinYassetStaking YassetStakingMsg.ProcessDelegatorRewards) []].
Proof.
  intros Hc Hi Hs Hq. simpl. unfold Vault.execute_update_global, Vault.withdraw_all_rewards.
  rewrite (proj2 (load_initialized_Ok vs c)) by done. rewrite Hq. simpl.
  unfold Vault.load_state, load. rewrite Hs. simpl. eexists. split; [done|]. simpl.
  rewrite fmap_app, <-list_fmap_compose. done.
Qed.

(** What bonding into pLuna and yLuna orders. *)
Lemma bond_split_orders vs q env info v vs' r c :
  Vault.CONFIG vs = Some c → Vault.execute fbv vs q env info (VaultMsg.BondSplit v) = Ok (vs', r) →
  ∃ payment p validator m,
    Vault.PARAMETERS vs = Some p ∧
    info_funds info = [mkCoin (Vault.p_underlying_coin_denom p) payment] ∧ 0 < payment ∧
    sub_msg <$> messages r =
      [StakingDelegate validator (mkCoin (Vault.p_underlying_coin_denom p) payment);
       Vault.wasm_cw20 (Vault.cluna_contract c) (Cw20.Mint (contract_address env) m);
       Vault.wasm_cw20 (Vault.yluna_contract c) (Cw20.Mint (info_sender info) m);
       Vault.wasm_cw20 (Vault.pluna_contract c) (Cw20.Mint (info_sender info) m)] ∧
    is_Some (Vault.STATE vs').
Proof.
  intros Hc H. simpl in H. unfold Vault.execute_bond_split in H. inv_ok H. subst.
  match goal with Hl : Vault.load_initialized _ = Ok ?x |- _ =>
    apply load_initialized_Ok in Hl as [Hl _]; assert (x = c) as -> by congruence end.
  match goal with Hb : Vault.do_execute_bond _ _ _ _ _ = Ok _ |- _ => unfold Vault.do_execute_bond in Hb; inv_ok Hb end.
  subst. match goal with Hp : must_pay _ _ = Ok _ |- _ => apply must_pay_law in Hp as [Hpay Hpos] end.
  VaultBacking.VaultBacking.load_facts. eexists _, _, _, _.
  split_and!; [eassumption|exact Hpay|exact Hpos|done|by eexists].
Qed.

Lemma bond_split_minted vc yc env_v env_s c n validator denom payment r :
  linked vc yc env_v env_s →
  sub_msg <$> messages r =
    [StakingDelegate validator (mkCoin denom payment);
     Vault.wasm_cw20 c (Cw20.Mint (contract_address env_v) n);
     Vault.wasm_cw20 (Vault.yluna_contract vc) (Cw20.Mint (contract_address env_s) n);
     Vault.wasm_cw20 (Vault.pluna_contract vc) (Cw20.Mint (contract_address env_s) n)] →
  all_minted (Vault.pluna_contract vc) (contract_address env_s) r = n ∧
  all_minted (Vault.yluna_contract vc) (contract_address env_s) r = n.
Proof.
  intros [_ _ _ _ H1 H2] Hr. unfold all_minted, minted. rewrite Hr. simpl.
  split; repeat case_bool_decide; try lia; exfalso; naive_solver.
Qed.

(** The deposit of what was minted, by the staking contract itself. *)
Lemma deposit_minted vc yc env_v env_s vs2 vault_state ys recv sent k q coins rates ys' r m :
  linked vc yc env_v env_s → YassetSpec.run fb ys recv sent k → YassetStaking.CONFIG ys = Some yc →
  Vault.STATE vs2 = Some vault_state →
  YassetStaking.execute fb ys q (AirdropFlow.AirdropFlow.answers_of vs2 coins rates)
    env_s (mkInfo (contract_address env_s) []) (YassetStakingMsg.DepositRewards
      [mkAsset (Cw20Asset (Vault.yluna_contract vc)) m; mkAsset (Cw20Asset (Vault.pluna_contract vc)) m]) = Ok (ys', r) →
  let staked := map_sum (λ _, YassetStaking.bond_amount) (YassetStaking.BOND_AMOUNTS ys) in
  let reward := reward_of yc (YassetSpec.portion_for staked (Vault.total_bond_amount vault_state)) m in
  sub_msg <$> messages r =
    [Vault.wasm_cw20 (Vault.yluna_contract vc) (Cw20.Transfer (YassetStaking.collector yc) (m - reward));
     Vault.wasm_cw20 (Vault.pluna_contract vc) (Cw20.Transfer (YassetStaking.collector yc) (m - reward))] ∧
  (∀ t, pool_index ys' t = pool_index ys t +
     if decide (t = Vault.pluna_contract vc ∨ t = Vault.yluna_contract vc) then reward * DECIMAL_UNIT / staked else 0) ∧
  YassetStaking.REWARDS ys' = YassetStaking.REWARDS ys ∧
  YassetStaking.BOND_AMOUNTS ys' = YassetStaking.BOND_AMOUNTS ys.
Proof.
  intros [Hkv Hks Hp Hy Hne Hnc] Hrun Hyc Hvs H staked reward.
  apply YassetSpec.run_cover in Hrun as [HB _]; [|done..].
  assert (staked = total ys) as Hst by apply HB.
  eapply YassetSpec.deposit_execute in H as (_ & Hm & (HR & Hbs & _) & Hi);
    [|exact HB|exact Hyc|simpl; unfold Vault.query_state, Vault.load_state, load; by rewrite Hvs].
  rewrite <-Hst in Hm, Hi. split_and!; [| |done|done].
  - rewrite Hm. simpl. unfold YassetSpec.deposit_messages. simpl. by rewrite !decide_True by done.
  - intros t. rewrite Hi. simpl. f_equal. fold reward.
    repeat case_decide; try lia; exfalso; naive_solver.
Qed.

(** C18: Staking rewards reach the stakers. Anyone can have the vault collect the
    rewards of all its delegations; its last message has the staking contract
    process them, whose last message is for itself: to bond the Luna it holds
    in the vault. If the vault accepts, it mints the same amount of yLuna and
    pLuna to the staking contract; the hook that follows deposits exactly these
    amounts, whatever the contract held before, the stakes included; and if the
    deposit succeeds, the index of each of the two tokens grows by the stakers'
    reward, computed with what the vault now reports as bonded, per staked
    yLuna, the collector gets the rest, and no account's record changes.  The
    staking contract's README says that the deposit is of its entire yLuna and
    pLuna balances; the code (src/swaps.rs, [deposit_minted_pyluna_hook]) takes
    the balances from before the bonding off, without which the stakes would be
    given away, and this is what the theorem states. *)
Theorem rewards_reach_stakers vs vc s ys yc recv sent k env_v env_s info q1 ds q2 peers coins rates q3 n p0 y0 :
  Vault.CONFIG vs = Some vc → Vault.initialized vc = true → Vault.STATE vs = Some s →
  YassetSpec.run fb ys recv sent k → YassetStaking.CONFIG ys = Some yc → linked vc yc env_v env_s →
  let staking := contract_address env_s in
  let pluna := Vault.pluna_contract vc in
  let yluna := Vault.yluna_contract vc in
  query_all_delegations q1 (contract_address env_v) = Ok ds →
  YassetStaking.query_all_balances peers staking = Ok coins →
  YassetStaking.query_exchange_rates peers YassetStaking.REWARD_DENOM (coin_denom <$> coins) = Ok rates →
  query_balance q3 staking YassetStaking.REWARD_DENOM = Ok n →
  query_token_balance q3 pluna staking = Ok p0 → query_token_balance q3 yluna staking = Ok y0 →
  let to_staking m := WasmExecute staking (BinYassetStaking m) [] in
  let itself := mkInfo staking [] in
  let vs1 := Vault.set_state (Vault.with_index_time (Vault.now env_v) s) vs in
  let luna := [mkCoin YassetStaking.REWARD_DENOM n] in
  ∃ r1 r2 r3,
    Vault.execute fbv vs q1 env_v info (VaultMsg.UpdateGlobalIndex None) = Ok (vs1, r1) ∧
    sub_msg <$> messages r1 = ((λ d, DistributionWithdrawDelegatorReward (del_validator d)) <$> ds) ++
      [to_staking YassetStakingMsg.ProcessDelegatorRewards] ∧
    YassetStaking.execute fb ys q2 peers env_s (mkInfo (contract_address env_v) [])
      YassetStakingMsg.ProcessDelegatorRewards = Ok (ys, r2) ∧
    last (sub_msg <$> messages r2) = Some (to_staking YassetStakingMsg.LunaToPylunaHook) ∧
    YassetStaking.execute fb ys q3 peers env_s itself YassetStakingMsg.LunaToPylunaHook = Ok (ys, r3) ∧
    sub_msg <$> messages r3 =
      [WasmExecute (contract_address env_v) (BinVault (VaultMsg.BondSplit None)) luna;
       to_staking (YassetStakingMsg.DepositMintedPylunaHook p0 y0)] ∧
  ∀ q4 vs2 r4,
    Vault.execute fbv vs1 q4 env_v (mkInfo staking luna) (VaultMsg.BondSplit None) = Ok (vs2, r4) →
  ∃ minted validator vault_state,
    sub_msg <$> messages r4 =
      [StakingDelegate validator (mkCoin YassetStaking.REWARD_DENOM n);
       Vault.wasm_cw20 (Vault.cluna_contract vc) (Cw20.Mint (contract_address env_v) minted);
       Vault.wasm_cw20 yluna (Cw20.Mint staking minted);
       Vault.wasm_cw20 pluna (Cw20.Mint staking minted)] ∧
    Vault.STATE vs2 = Some vault_state ∧
  ∀ q5, query_token_balance q5 pluna staking = Ok (p0 + all_minted pluna staking r4) →
    query_token_balance q5 yluna staking = Ok (y0 + all_minted yluna staking r4) →
  let deposit := YassetStakingMsg.DepositRewards
    [mkAsset (Cw20Asset yluna) minted; mkAsset (Cw20Asset pluna) minted] in
  ∃ r5, YassetStaking.execute fb ys q5 peers env_s itself
        (YassetStakingMsg.DepositMintedPylunaHook p0 y0) = Ok (ys, r5) ∧
    sub_msg <$> messages r5 = [to_staking deposit] ∧
  ∀ q6 ys' r6,
    YassetStaking.execute fb ys q6 (AirdropFlow.AirdropFlow.answers_of vs2 (λ _, Ok coins) (λ _ _, Ok rates))
      env_s itself deposit = Ok (ys', r6) →
    let staked := map_sum (λ _, YassetStaking.bond_amount) (YassetStaking.BOND_AMOUNTS ys) in
    let reward := reward_of yc (YassetSpec.portion_for staked (Vault.total_bond_amount vault_state)) minted in
    sub_msg <$> messages r6 =
      [Vault.wasm_cw20 yluna (Cw20.Transfer (YassetStaking.collector yc) (minted - reward));
       Vault.wasm_cw20 pluna (Cw20.Transfer (YassetStaking.collector yc) (minted - reward))] ∧
    (∀ t, pool_index ys' t = pool_index ys t +
       if decide (t = pluna ∨ t = yluna) then reward * DECIMAL_UNIT / staked else 0) ∧
    YassetStaking.REWARDS ys' = YassetStaking.REWARDS ys ∧
    YassetStaking.BOND_AMOUNTS ys' = YassetStaking.BOND_AMOUNTS ys.
Proof.
  intros Hvc Hini Hvs Hrun Hyc Hlink staking pluna yluna Hds Hcoins Hrates Hn Hp0 Hy0 to_staking itself vs1 luna.
  destruct (vault_collects vs q1 env_v info vc s ds) as (r1 & Hex1 & Hm1); [done..|].
  pose proof Hlink as [Hkv Hks Hp Hy Hne Hnc].
  exists r1. eexists _, _. split; [exact Hex1|]. split; [by rewrite Hm1, Hks|]. split.
  { simpl. unfold YassetStaking.process_delegator_rewards. fold staking. rewrite Hcoins. simpl. rewrite Hrates. done. }
  split.
  { simpl. rewrite <-list_fmap_compose, list_fmap_id, last_app. done. }
  split.
  { simpl. unfold YassetStaking.luna_to_pyluna_hook, YassetStaking.load_config, load. rewrite Hyc. simpl.
    unfold query_native_balance. fold staking. rewrite Hn. simpl. rewrite Hp, Hy. fold pluna yluna.
    rewrite Hp0. simpl. rewrite Hy0. done. }
  split; [simpl; by rewrite Hkv|].
  intros q4 vs2 r4 H4.
  destruct (bond_split_orders vs1 q4 env_v (mkInfo staking luna) None vs2 r4 vc Hvc H4) as
    (payment & p & validator & m & _ & [= Hd Hpay] & _ & Hm4 & [vstate Hvs2]).
  subst payment. rewrite <-Hd in Hm4. simpl in Hm4. exists m, validator, vstate. split_and!; [exact Hm4|exact Hvs2|].
  destruct (bond_split_minted _ _ _ _ _ _ _ _ _ _ Hlink Hm4) as [Hmp Hmy]. intros q5 Hp5 Hy5 deposit.
  eexists. split.
  { simpl. unfold YassetStaking.deposit_minted_pyluna_hook, YassetStaking.load_config, load. rewrite Hyc. simpl.
    rewrite bool_decide_eq_false_2 by tauto. rewrite Hp, Hy. fold staking pluna yluna.
    rewrite Hp5. simpl. rewrite Hy5. simpl. unfold pluna, yluna, staking. rewrite Hmp, Hmy.
    unfold checked_sub. rewrite !uint_checked_sub_law, !(proj2 (N.leb_le _ (_ + m))) by lia. simpl.
    rewrite (N.add_comm p0), (N.add_comm y0), !N.add_sub. done. }
  split; [done|].
  intros q6 ys' r6 H6. by eapply deposit_minted.
Qed.
End flow.

(** ** A concrete collection

    The vault of [VaultSpec], of a million Luna, and the staking contract with
    400000 and 200000 yLuna staked.  1000 Luna of rewards arrive. *)
Section witnesses.
Import Reference ReferenceAsset YassetSpec.
#[local] Existing Instance Reference.platform.
#[local] Existing Instance ReferenceAsset.cw_asset.
#[local] Existing Instance YassetSpec.reference_terra.
#[local] Existing Instance YassetSpec.reference_terra_laws.

Definition vault_env : Env := AirdropFlow.AirdropFlow.vault_env.
Definition the_vault : Vault.Storage := VaultSpec.VaultSpec.config_state.
Definition vault_config : Vault.Config := AirdropFlow.AirdropFlow.vault_config.
Definition staking_env : Env := mkEnv 1 0 "ystaking".
Definition a_vault_state : Vault.State := Vault.mkState DECIMAL_UNIT 1000000 50 0 0 50 0.

Definition stakes : list (Addr * YassetStakingMsg.ExecuteMsg Binary) :=
  [bond_call "alice" 400000; bond_call "bob" 200000].
Definition ystate : YassetStaking.Storage := (final (play stakes)).1.1.
Lemma stakes_Ok : play stakes = Some (ystate, 0, 0).
Proof. vm_compute. reflexivity. Qed.
Lemma stakes_run : ∃ recv sent, run parse_hook ystate recv sent 2 ∧ recv "anc"%string = 0 ∧ sent "anc"%string = 0.
Proof.
  exact (ycalls_run parse_hook chain vault_of_200 here "anc" stakes _ (λ _, 0) (λ _, 0) 0 _ 0 0
    yasset_init_run eq_refl stakes_Ok).
Qed.

(** The chain with a million Luna delegated, and the staking contract's balances. *)
Definition balances (pluna yluna : N) : Querier :=
  let q := VaultSpec.VaultSpec.chain 1000000 1000000 1000 in
  mkQuerier (query_all_delegations q) (query_delegation q) (query_validator q) (query_all_validators q)
    (query_balance q) (λ t _, Ok (if bool_decide (t = "pluna"%string) then pluna else yluna)) (query_cw20_supply q).
Definition no_swaps : YassetStaking.Peers :=
  AirdropFlow.AirdropFlow.answers_of the_vault (λ _, Ok []) (λ _ _, Ok []).
Lemma staking_linked : linked vault_config staking_config vault_env staking_env.
Proof. split; vm_compute; [reflexivity..|discriminate|discriminate]. Qed.

Definition vs1 : Vault.Storage := Vault.set_state (Vault.with_index_time (Vault.now vault_env) a_vault_state) the_vault.
Definition run_bond :=
  Vault.execute VaultSpec.VaultSpec.parse_unbond vs1 (balances 7 600000) vault_env
    (mkInfo "ystaking" [mkCoin "uluna" 1000]) (VaultMsg.BondSplit None).
Definition vs2 : Vault.Storage := VaultSpec.VaultSpec.new_state run_bond.
Lemma bonding_Ok :
  Vault.execute VaultSpec.VaultSpec.parse_unbond
    (Vault.set_state (Vault.with_index_time (Vault.now vault_env) a_vault_state) the_vault) (balances 7 600000)
    vault_env (mkInfo "ystaking" [mkCoin "uluna" 1000]) (VaultMsg.BondSplit None) =
    Ok (vs2, VaultSpec.VaultSpec.response_of run_bond).
Proof. by apply VaultSpec.VaultSpec.vault_run_Ok; vm_compute. Qed.
Definition run_deposit :=
  YassetStaking.execute parse_hook ystate (balances 1007 601000)
    (AirdropFlow.AirdropFlow.answers_of vs2 (λ _, Ok []) (λ _ _, Ok [])) staking_env (mkInfo "ystaking" [])
    (YassetStakingMsg.DepositRewards [mkAsset (Cw20Asset "yluna") 1000; mkAsset (Cw20Asset "pluna") 1000]).
Lemma run_deposit_Ok :
  YassetStaking.execute parse_hook ystate (balances 1007 601000)
    (AirdropFlow.AirdropFlow.answers_of vs2 (λ _, Ok []) (λ _ _, Ok [])) staking_env (mkInfo "ystaking" [])
    (YassetStakingMsg.DepositRewards [mkAsset (Cw20Asset "yluna") 1000; mkAsset (Cw20Asset "pluna") 1000]) = Ok (new_state run_deposit, response_of run_deposit).
Proof. apply (yasset_run_Ok run_deposit). vm_compute. reflexivity. Qed.

(** Of 1000 each, 540 go to the stakers: 599 for the portion staked, less 10%. *)
Lemma rewards_reach_stakers_witness :
  pool_index (new_state run_deposit) "pluna" = pool_index ystate "pluna" + 540 * DECIMAL_UNIT / 600000.
Proof.
  destruct stakes_run as (recv & sent & Hr & _).
  destruct (rewards_reach_stakers (P:=platform) parse_hook VaultSpec.VaultSpec.parse_unbond the_vault vault_config
    a_vault_state ystate staking_config recv sent 2 vault_env staking_env (mkInfo "anyone" []) (balances 7 600000)
    [mkDelegation "val1" (mkCoin "uluna" 1000000)] chain no_swaps [] [] (balances 7 600000) 1000 7 600000)
    as (r1 & r2 & r3 & _ & _ & _ & _ & _ & _ & H4);
    [vm_compute; reflexivity|vm_compute; reflexivity|vm_compute; reflexivity|exact Hr|vm_compute; reflexivity
    |exact staking_linked|reflexivity|reflexivity|reflexivity|reflexivity|reflexivity|reflexivity|].
  destruct (H4 (balances 7 600000) vs2 (VaultSpec.VaultSpec.response_of run_bond) bonding_Ok) as (m & validator & vstate & Hm & Hvs & H5).
  assert (sub_msg <$> messages (VaultSpec.VaultSpec.response_of run_bond) =
    [StakingDelegate "val1" (mkCoin "uluna" 1000); Vault.wasm_cw20 "cluna" (Cw20.Mint "vault" 1000);
     Vault.wasm_cw20 "yluna" (Cw20.Mint "ystaking" 1000); Vault.wasm_cw20 "pluna" (Cw20.Mint "ystaking" 1000)])
    as Hmsgs by (vm_compute; reflexivity).
  rewrite Hmsgs in Hm. injection Hm as _ <-.
  assert (Vault.total_bond_amount <$> Vault.STATE vs2 = Some 1001000) as Hbonded by (vm_compute; reflexivity).
  rewrite Hvs in Hbonded. injection Hbonded as Hbonded.
  destruct (H5 (balances 1007 601000)) as (r5 & _ & _ & H6); [vm_compute; reflexivity|vm_compute; reflexivity|].
  destruct (H6 (balances 1007 601000) (new_state run_deposit) (response_of run_deposit) run_deposit_Ok) as (_ & Hi & _).
  rewrite Hi, Hbonded. vm_compute. reflexivity.
Defined.
End witnesses.
End RewardFlow.
