(* ===== verification/Queries.v ===== *)
(** * What a query tells is what the call does

    Stakers ask for their rewards before they claim them: the yLuna staking
    contract (contracts/prism-yasset-staking/src/rewards.rs,
    [query_reward_info]) and the LP staking contract
    (contracts/prism-lp-staking/src/query.rs, [query_staker_info]) compute the
    answers with the code of their claims, but over an unchanged storage. *)
From S2P Require Import Prelude Cosmwasm Protocol Prismswap YassetStaking YassetProofs YassetSpec.
From S2P Require Import LpStaking LpStakingProofs.
From S2P Require LpStakingSpec.

(** ** yLuna staking *)
Module YassetQueries.
Import YassetStakingMsg Prismswap YassetStaking YassetProofs.

Section claims.
Context {P : Cosmwasm} {L : CosmwasmLaws P} {CA : CwAsset} {T : Terra} {TL : TerraLaws T}.
Variable fb : Binary → outcome StdError Cw20HookMsg.

Definition is_token (x : AssetInfo) : Prop := ∃ c, x = Cw20Asset c.
Definition payment (u : Addr) (a : Asset) : CosmosMsg :=
  cw20_msg_to (as_bytes (asset_info a)) (Cw20.Transfer u (asset_amount a)).
Definition owed (l : list Asset) : list Asset := List.filter (λ a, negb (asset_amount a =? 0)) l.

(** The answer for one asset, and for several. *)
Definition asset_reward (st : Storage) (u : string) (b : N) (x : AssetInfo) : outcome StdError Asset :=
  let? i := compute_asset_rewards st u b x in Ok (mkAsset x (pending_reward i)).

(** Storages that agree on what the rewards of [u] in [x] depend on. *)
Definition same_reward (u : string) (st st' : Storage) (x : AssetInfo) : Prop :=
  POOL_INFO st' = POOL_INFO st ∧ REWARDS st' !! (u, as_bytes x) = REWARDS st !! (u, as_bytes x).
Lemma same_asset_reward u b st st' x : same_reward u st st' x → asset_reward st' u b x = asset_reward st u b x.
Proof. intros [Hp Hr]. unfold asset_reward, compute_asset_rewards, pool_info. by rewrite Hp, Hr. Qed.

Lemma claim_step_query u b st msgs cl x :
  is_token x →
  match asset_reward st u b x with
  | Ok a => ∃ i cl', claim_step u b (st, msgs, cl) x =
      Ok (save_reward u (as_bytes x) i st, msgs ++ (payment u <$> owed [a]), cl')
  | Err e => claim_step u b (st, msgs, cl) x = Err e
  | Panic => claim_step u b (st, msgs, cl) x = Panic
  end.
Proof.
  intros [c ->]. unfold asset_reward, claim_step.
  destruct (compute_asset_rewards st u b (Cw20Asset c)) as [i| |]; simpl; [|done..].
  unfold owed. simpl. destruct (pending_reward i =? 0); simpl; eexists _, _; [|done].
  by rewrite app_nil_r.
Qed.

Lemma claim_loop_query u b l : Forall is_token l → NoDup l → ∀ st0 st msgs cl,
  (∀ x, x ∈ l → same_reward u st0 st x) →
  match omapM (asset_reward st0 u b) l with
  | Ok rs => ∃ st' cl', ofold (claim_step u b) (st, msgs, cl) l = Ok (st', msgs ++ (payment u <$> owed rs), cl')
  | Err e => ofold (claim_step u b) (st, msgs, cl) l = Err e
  | Panic => ofold (claim_step u b) (st, msgs, cl) l = Panic
  end.
Proof.
  induction 1 as [|x l Hx Hl IH]; intros Hnd st0 st msgs cl Hsame; cbn [omapM ofold].
  { exists st, cl. simpl. by rewrite app_nil_r. }
  apply NoDup_cons in Hnd as [Hnin Hnd].
  assert (asset_reward st0 u b x = asset_reward st u b x) as ->
    by (symmetry; apply same_asset_reward, Hsame; by left).
  pose proof (claim_step_query u b st msgs cl x Hx) as Hstep.
  destruct (asset_reward st u b x) as [a| |]; cbn [qbind]; [|by rewrite Hstep..].
  destruct Hstep as (i & cl1 & ->). cbn [qbind].
  assert (∀ y, y ∈ l → same_reward u st0 (save_reward u (as_bytes x) i st) y) as Hsame1.
  { intros y Hy. destruct (Hsame y ltac:(by right)) as [Hp Hr]. split; [done|]. simpl.
    rewrite lookup_insert_ne; [done|]. destruct Hx as [c ->]. rewrite Forall_forall in Hl.
    destruct (Hl y Hy) as [d ->]. intros [= ->]. done. }
  specialize (IH Hnd st0 _ (msgs ++ (payment u <$> owed [a])) cl1 Hsame1).
  destruct (omapM (asset_reward st0 u b) l) as [rs| |]; cbn [qbind]; [|done..].
  destruct IH as (st' & cl' & IH). exists st', cl'. rewrite IH, <-app_assoc, <-fmap_app. do 3 f_equal.
  unfold owed. simpl. by destruct (negb _).
Qed.

(** C32: What a staker of yLuna is told is what the claim pays. As long as no
    asset is whitelisted twice, asking for the rewards and claiming them succeed
    and fail together, and the claim transfers to the staker exactly the
    non-zero rewards of the answer, in their order. *)
Theorem yasset_query_is_claim st recv sent k q peers env info :
  YassetSpec.run fb st recv sent k → NoDup (default [] (WHITELISTED_ASSETS st)) →
  match query st (QRewardInfo (info_sender info)) with
  | Ok (AnswerRewardInfo r) => ∃ st' resp,
      execute fb st q peers env info ClaimRewards = Ok (st', resp) ∧
      sub_msg <$> messages resp =
        (λ a, cw20_msg_to (as_bytes (asset_info a)) (Cw20.Transfer (info_sender info) (asset_amount a))) <$>
        List.filter (λ a, negb (asset_amount a =? 0)) (rr_rewards r)
  | Ok _ => False
  | Err _ => ∃ e, execute fb st q peers env info ClaimRewards = Err e
  | Panic => execute fb st q peers env info ClaimRewards = Panic
  end.
Proof.
  intros [HB _]%YassetSpec.run_cover Hnd. pose proof HB as [].
  destruct bk_whitelist0 as [l Hl]. unfold whitelist in *. rewrite Hl in *. simpl in *.
  unfold query_reward_info, claim_rewards, load_whitelist, load_bond, load. rewrite Hl. simpl.
  destruct (BOND_AMOUNTS st !! info_sender info) as [b|]; simpl; [|by eexists].
  pose proof (claim_loop_query (info_sender info) (bond_amount b) l ltac:(by apply Forall_forall) Hnd
    st st [] [] ltac:(done)) as H. fold (asset_reward st (info_sender info) (bond_amount b)).
  destruct (omapM (asset_reward st (info_sender info) (bond_amount b)) l) as [rs|e|]; simpl.
  - destruct H as (st' & cl' & ->). simpl. eexists _, _. split; [done|]. simpl.
    by rewrite <-list_fmap_compose, list_fmap_id.
  - rewrite H. by eexists.
  - by rewrite H.
Qed.
End claims.

Section witnesses.
Import Reference ReferenceAsset YassetSpec.
#[local] Existing Instance Reference.platform.
#[local] Existing Instance ReferenceAsset.cw_asset.
#[local] Existing Instance YassetSpec.reference_terra.
#[local] Existing Instance YassetSpec.reference_terra_laws.

(** Alice is told 270 ANC, and no pLuna or yLuna. *)
Lemma alice_is_told :
  query staking_state (QRewardInfo "alice") = Ok (AnswerRewardInfo (mkRewardInfoResponse "alice" 60
    [mkAsset (Cw20Asset "pluna") 0; mkAsset (Cw20Asset "yluna") 0; anc 270])).
Proof. vm_compute. reflexivity. Qed.
Lemma three_assets : NoDup (default [] (WHITELISTED_ASSETS staking_state)).
Proof. apply (bool_decide_eq_true_1 _). vm_compute. reflexivity. Qed.

Lemma yasset_query_is_claim_witness :
  ∃ st' resp, execute parse_hook staking_state chain vault_of_200 here (mkInfo "alice" []) ClaimRewards = Ok (st', resp) ∧
    sub_msg <$> messages resp = [cw20_msg_to "anc" (Cw20.Transfer "alice" 270)].
Proof.
  destruct staking_run as (recv & sent & Hr & _).
  pose proof (yasset_query_is_claim (P:=platform) parse_hook staking_state recv sent 4 chain vault_of_200 here
    (mkInfo "alice" []) Hr three_assets) as H.
  change (info_sender (mkInfo "alice" [])) with "alice"%string in H. rewrite alice_is_told in H.
  destruct H as (st' & resp & Hex & Hm). exists st', resp. split; [exact Hex|exact Hm].
Defined.
End witnesses.
End YassetQueries.

(** ** LP staking *)
Module LpQueries.
Import LpStakingMsg LpStaking.

Section claims.
Context {P : Cosmwasm} {L : CosmwasmLaws P}.

(** The answer for one staking token. *)
Definition item_of (config : Config) (st : Storage) (t : N) (staker : Addr) (x : Addr * RewardInfo)
    : outcome StdError RewardInfoResponseItem :=
  let? pool := load "PoolInfo" (POOLS st !! x.1) in
  let! pool := compute_pool_reward config pool t in
  updated_reward_info st t staker x.1 pool x.2.

(** Storages that agree on what the answer depends on. *)
Definition same_item (staker : Addr) (st st' : Storage) (token : Addr) : Prop :=
  POOLS st' !! token = POOLS st !! token ∧
  prefix (UNBOND_ORDERS st') (staker, token) = prefix (UNBOND_ORDERS st) (staker, token).
Lemma same_item_of config t staker st st' x :
  same_item staker st st' x.1 → item_of config st' t staker x = item_of config st t staker x.
Proof.
  intros [Hp Ho]. unfold item_of, updated_reward_info, get_withdrawable_amount. by rewrite Hp, Ho.
Qed.

Lemma compute_pool_period config pool t pool' :
  compute_pool_reward config pool t = Some pool' → unbond_period pool' = unbond_period pool.
Proof. unfold compute_pool_reward. intros H. by destruct (is_zero _); simplify_option_eq. Qed.

(** What settling one token leaves alone. *)
Lemma settled_same staker st token ts pool info r pending other :
  staker = info_sender info → other ≠ token →
  same_item staker st (save_pool token pool (update_or_remove_staker_rewards
    (remove_withdrawn st staker token ts) info token r pending)) other.
Proof.
  intros -> Hne. split.
  - unfold update_or_remove_staker_rewards. destruct (_ && _)%bool; simpl; by rewrite lookup_insert_ne.
  - assert (prefix (remove_orders (info_sender info) token ts (UNBOND_ORDERS st)) (info_sender info, other) =
      prefix (UNBOND_ORDERS st) (info_sender info, other)) as Heq.
    { apply map_eq. intros n. rewrite !lookup_prefix, lookup_remove_orders.
      rewrite decide_False; [done|]. by intros (_ & ? & _). }
    unfold update_or_remove_staker_rewards. by destruct (_ && _)%bool; simpl.
Qed.

(** One token of a claim. *)
Lemma claim_step_item config env info st acc x :
  match item_of config st (now env) (info_sender info) x with
  | Ok item =>
      if acc + ri_pending_reward item <? u128_limit
      then ∃ st', claim_step config env info (st, acc) x = Ok (st', acc + ri_pending_reward item) ∧
             ∀ token, token ≠ x.1 → same_item (info_sender info) st st' token
      else claim_step config env info (st, acc) x = Panic
  | _ => is_ok (claim_step config env info (st, acc) x) = false
  end.
Proof.
  destruct x as [token r]. unfold item_of, claim_step, updated_reward_info, pull_expired_withdraw_orders. simpl.
  destruct (load "PoolInfo" (POOLS st !! token)) as [pool|e|]; simpl; [|done..].
  destruct (compute_pool_reward config pool (now env)) as [pool'|] eqn:Hc; simpl.
  - rewrite (compute_pool_period _ _ _ _ Hc).
    destruct (get_withdrawable_amount _ _ _ _ _) as [[[amount ts] count]|e|]; simpl; [|done..].
    destruct (uint_add (withdrawable_amount r) amount) as [w|]; simpl; [|done].
    destruct (compute_staker_reward pool' (with_withdrawable w r)) as [r'|]; simpl; [|done].
    rewrite uint_add_law. unfold checked_width. destruct (_ <? _); simpl; [|done].
    eexists. split; [done|]. intros other Hne. by apply settled_same.
  - destruct (get_withdrawable_amount _ _ _ _ _) as [[[amount ts] count]|e|]; simpl; [|done..].
    destruct (uint_add (withdrawable_amount r) amount); by simpl.
Qed.

Lemma claim_loop_items config env info l : NoDup l.*1 → ∀ st0 st acc,
  (∀ x, x ∈ l → same_item (info_sender info) st0 st x.1) →
  match omapM (item_of config st0 (now env) (info_sender info)) l with
  | Ok items =>
      let total := acc + sum_N (ri_pending_reward <$> items) in
      if total <? u128_limit
      then ∃ st', ofold (claim_step config env info) (st, acc) l = Ok (st', total)
      else acc < u128_limit → is_ok (ofold (claim_step config env info) (st, acc) l) = false
  | _ => is_ok (ofold (claim_step config env info) (st, acc) l) = false
  end.
Proof.
  induction l as [|x l IH]; intros Hnd st0 st acc Hsame; cbn [omapM ofold].
  { simpl. rewrite N.add_0_r. destruct (N.ltb_spec acc u128_limit); [by eexists|lia]. }
  rewrite fmap_cons in Hnd. apply NoDup_cons in Hnd as [Hnin Hnd].
  rewrite <-(same_item_of config (now env) (info_sender info) st0 st x) by (apply Hsame; by left).
  pose proof (claim_step_item config env info st acc x) as Hstep.
  destruct (item_of config st (now env) (info_sender info) x) as [item|e|]; cbn [qbind].
  2, 3: by destruct (claim_step config env info (st, acc) x).
  destruct (N.ltb_spec (acc + ri_pending_reward item) u128_limit) as [Hlt|Hge].
  - destruct Hstep as (st1 & -> & Hst1). cbn [qbind].
    assert (∀ y, y ∈ l → same_item (info_sender info) st0 st1 y.1) as Hsame1.
    { intros y Hy. destruct (Hsame y ltac:(by right)) as [Hp Ho]. destruct (Hst1 y.1) as [Hp1 Ho1].
      - intros Heq. apply Hnin. rewrite <-Heq. by apply list_elem_of_fmap_2.
      - split; congruence. }
    specialize (IH Hnd st0 st1 (acc + ri_pending_reward item) Hsame1).
    destruct (omapM _ l) as [items|e|]; cbn [qbind]; [|done..]. csimpl. rewrite N.add_assoc.
    cbv zeta in IH. destruct (_ <? _); [done|auto].
  - rewrite Hstep. destruct (omapM _ l) as [items|e|]; cbn [qbind]; [|done..]. csimpl.
    rewrite (proj2 (N.ltb_ge _ _)) by lia. done.
Qed.

Lemma omapM_ext {E A B} (f g : A → outcome E B) l : (∀ x, f x = g x) → omapM f l = omapM g l.
Proof. intros Hfg. induction l as [|x l IH]; simpl; [done|]. by rewrite Hfg, IH. Qed.

(** The tokens a claim is about, and a claim of them. *)
Definition claimed_infos (st : Storage) (staker : Addr) (token : option Addr) : option (list (Addr * RewardInfo)) :=
  match token with
  | Some token => r ← REWARD_INFO st !! (staker, token); Some [(token, r)]
  | None => Some (range_addr (prefix (REWARD_INFO st) staker))
  end.
Lemma claimed_infos_NoDup st staker token l : claimed_infos st staker token = Some l → NoDup l.*1.
Proof.
  destruct token as [token|]; simpl; [|intros [= <-]; apply NoDup_range_addr].
  destruct (REWARD_INFO st !! _); simpl; [|done]. intros [= <-]. apply NoDup_singleton.
Qed.

Lemma query_items st env staker token config :
  CONFIG st = Some config →
  match claimed_infos st staker token with
  | Some l =>
      match omapM (item_of config st (now env) staker) l with
      | Ok items => query_staker_info st env staker token = Ok (mkStakerInfo staker items)
      | _ => is_ok (query_staker_info st env staker token) = false
      end
  | None => is_ok (query_staker_info st env staker token) = false
  end.
Proof.
  intros Hc. unfold query_staker_info, read_updated_staker_rewards, load_config, load. rewrite Hc. simpl.
  destruct token as [token|]; simpl.
  - unfold item_of, load. destruct (REWARD_INFO st !! (staker, token)) as [r|]; simpl.
    + destruct (POOLS st !! token) as [pool|]; simpl; [|done].
      destruct (compute_pool_reward config pool (now env)) as [pool'|]; simpl; [|done].
      by destruct (updated_reward_info st (now env) staker token pool' r).
    + by destruct (POOLS st !! token).
  - match goal with |- context [qbind (omapM ?g ?l) _] =>
      rewrite (omapM_ext g (item_of config st (now env) staker) l) by (by intros [? ?]) end.
    by destruct (omapM _ _).
Qed.

Lemma claim_items st env info token config :
  CONFIG st = Some config →
  match claimed_infos st (info_sender info) token with
  | Some l =>
      match ofold (claim_step config env info) (st, 0) l with
      | Ok (st', total) => ∃ resp, claim_rewards st env info token = Ok (st', resp) ∧
          sub_msg <$> messages resp =
            (if total =? 0 then [] else [transfer_msg (prism_token config) (info_sender info) total])
      | _ => is_ok (claim_rewards st env info token) = false
      end
  | None => is_ok (claim_rewards st env info token) = false
  end.
Proof.
  intros Hc. unfold claim_rewards, load_config, load. rewrite Hc. cbn [ok_or qbind].
  replace (match token with Some _ => _ | None => _ end) with
    (ok_or (claimed_infos st (info_sender info) token) InvalidStakingToken).
  2: { destruct token as [token|]; simpl; [by destruct (REWARD_INFO st !! _)|done]. }
  destruct (claimed_infos st (info_sender info) token) as [l|]; cbn [ok_or qbind]; [|done].
  destruct (ofold (claim_step config env info) (st, 0) l) as [[st' total]|e|]; simpl; [|done..].
  eexists. split; [done|]. simpl. unfold is_zero. by destruct (total =? 0).
Qed.

(** C33: What an LP staker is told is what the claim pays. Asking for the rewards,
    of one staking token or of all, and claiming them give the same result: if
    the answer's pending rewards together fit in 128 bits, the claim succeeds
    and transfers exactly their sum to the staker in one message, or none if it
    is zero; otherwise, or if the query fails, the claim fails. *)
Theorem lp_query_is_claim st env info token config :
  CONFIG st = Some config →
  match query_staker_info st env (info_sender info) token with
  | Ok r =>
      let total := sum_N (ri_pending_reward <$> si_reward_infos r) in
      if total <? u128_limit
      then ∃ st' resp, claim_rewards st env info token = Ok (st', resp) ∧
        sub_msg <$> messages resp =
          (if total =? 0 then [] else [transfer_msg (prism_token config) (info_sender info) total])
      else is_ok (claim_rewards st env info token) = false
  | _ => is_ok (claim_rewards st env info token) = false
  end.
Proof.
  intros Hc. pose proof (query_items st env (info_sender info) token config Hc) as Hq.
  pose proof (claim_items st env info token config Hc) as Hcl.
  destruct (claimed_infos st (info_sender info) token) as [l|] eqn:Hl.
  2: { rewrite Hcl. by destruct (query_staker_info _ _ _ _). }
  apply claimed_infos_NoDup in Hl.
  pose proof (claim_loop_items config env info l Hl st st 0 ltac:(done)) as Hloop.
  destruct (omapM _ l) as [items|e|].
  - rewrite Hq. cbv zeta in *. simpl. rewrite N.add_0_l in Hloop. destruct (_ <? u128_limit).
    + destruct Hloop as [st' Hloop]. rewrite Hloop in Hcl. destruct Hcl as (resp & ? & ?). by exists st', resp.
    + destruct (ofold _ _ _) as [[? ?]| |]; [by specialize (Hloop ltac:(done))|done..].
  - destruct (query_staker_info _ _ _ _); [done|..]; by destruct (ofold _ _ _) as [[? ?]| |].
  - destruct (query_staker_info _ _ _ _); [done|..]; by destruct (ofold _ _ _) as [[? ?]| |].
Qed.
End claims.

Section witnesses.
Import Reference LpStakingSpec.LpStakingSpec.
#[local] Existing Instance Reference.platform.

(** Alice has bonded 100; a minute into the run she is told what she earned. *)
Definition bonded_state : Storage := new_state run_bond.
Definition bonded_config : Config := default sample_config (CONFIG bonded_state).
Lemma alice_lp_is_told : query_staker_info bonded_state (at_second 60) "alice" None =
  Ok (mkStakerInfo "alice" [mkRewardInfoItem "lp" 100 500 0]).
Proof. vm_compute. reflexivity. Qed.
Lemma bonded_config_Ok : CONFIG bonded_state = Some bonded_config.
Proof. vm_compute. reflexivity. Qed.

Lemma lp_query_is_claim_witness :
  ∃ st' resp, claim_rewards bonded_state (at_second 60) (by_user "alice") None = Ok (st', resp) ∧
    sub_msg <$> messages resp = [transfer_msg "prism" "alice" 500].
Proof.
  pose proof (lp_query_is_claim (P:=platform) bonded_state (at_second 60) (by_user "alice") None bonded_config
    bonded_config_Ok) as H.
  change (info_sender (by_user "alice")) with "alice"%string in H. rewrite alice_lp_is_told in H.
  destruct H as (st' & resp & Hex & Hm). exists st', resp. split; [exact Hex|exact Hm].
Defined.
End witnesses.
End LpQueries.
