(* ===== verification/ClaimFlow.v ===== *)
(** * Rewards converted on their way to a staker

    A staker of yLuna can have the rewards paid in one token
    (contracts/prism-yasset-staking/src/rewards.rs, [convert_and_claim_rewards]):
    what is not in that token goes through the collector, which takes the
    allowances and swaps them (contracts/prism-collector/src/contract.rs,
    [convert_and_send]); for xPRISM the swaps come back to the staking contract
    as PRISM, from which the governance mints ([mint_xprism_claim_hook];
    contracts/prism-gov/src/xprism.rs, [mint_xprism]). *)
From S2P Require Import Prelude Cosmwasm Protocol Prismswap Collector CollectorSpec Gov YassetStaking YassetProofs YassetSpec.
From S2P Require Queries.
Import Queries.YassetQueries.
Import CollectorSpec YassetStakingMsg Prismswap YassetStaking YassetProofs.

Module ClaimFlow.

(** The allowances a list of messages gives to [spender]. *)
Definition allowance (spender : Addr) (m : CosmosMsg) : option Asset :=
  match m with
  | WasmExecute c (BinCw20 (Cw20.IncreaseAllowance s n)) _ =>
      if bool_decide (s = spender) then Some (mkAsset (Cw20Asset c) n) else None
  | _ => None
  end.
Definition allowances (spender : Addr) (resp : Response) : list Asset :=
  omap (allowance spender) (sub_msg <$> messages resp).
(** The message that takes an asset from [owner] to [to_]. *)
Definition take_msg (owner to_ : Addr) (a : Asset) : CosmosMsg :=
  WasmExecute (as_bytes (asset_info a)) (BinCw20 (Cw20.TransferFrom owner to_ (asset_amount a))) [].

Definition token_amount (a : Asset) : Prop := asset_amount a ≠ 0 ∧ ∃ c, asset_info a = Cw20Asset c.

Section flow.
Context {P : Cosmwasm} {L : CosmwasmLaws P} {CA : CwAsset} {CL : CwAssetLaws CA} {AP : Collector.Astroport}
  {T : Terra} {TL : TerraLaws T}.
Variable fb : Binary → outcome StdError Cw20HookMsg.

(** ** What becomes of a reward

    Converting to [token], with the swaps going to [dest]: a reward in [token]
    is transferred to the staker, any other the collector is allowed to take and
    is asked to swap, except for one that is in [dest] already. *)
Definition order (cfg : Config) (staker token : Addr) (dest : AssetInfo) (a : Asset) : option CosmosMsg :=
  if bool_decide (asset_info a = Cw20Asset token) then Some (cw20_msg_to token (Cw20.Transfer staker (asset_amount a)))
  else if bool_decide (asset_info a = dest) then None
  else Some (cw20_msg_to (as_bytes (asset_info a)) (Cw20.IncreaseAllowance (collector cfg) (asset_amount a))).
Definition swapped (token : Addr) (dest : AssetInfo) (a : Asset) : bool :=
  negb (bool_decide (asset_info a = Cw20Asset token) || bool_decide (asset_info a = dest)).
Definition emptied (a : Asset) : Asset := mkAsset (asset_info a) 0.

(** A claim of [u] over [l] touches its records in [l] and nothing else. *)
Record only_records (u : string) (l : list AssetInfo) (st st' : Storage) : Prop := mkOnlyRecords {
  keeps_config : CONFIG st' = CONFIG st;
  keeps_whitelist : WHITELISTED_ASSETS st' = WHITELISTED_ASSETS st;
  keeps_pools : POOL_INFO st' = POOL_INFO st;
  keeps_bonds : BOND_AMOUNTS st' = BOND_AMOUNTS st;
  keeps_records : ∀ v c, v ≠ u ∨ Cw20Asset c ∉ l → REWARDS st' !! (v, c) = REWARDS st !! (v, c) }.
Lemma only_records_nil u st : only_records u [] st st.
Proof. by split. Qed.
Lemma only_records_cons u x l st st1 st' :
  only_records u [x] st st1 → only_records u l st1 st' → only_records u (x :: l) st st'.
Proof.
  intros [H1 H2 H3 H4 H5] [G1 G2 G3 G4 G5]. split; try congruence. intros v c Hv. rewrite not_elem_of_cons in Hv.
  rewrite G5 by tauto. apply H5. destruct Hv as [?|[? _]]; [by left|right; by rewrite list_elem_of_singleton].
Qed.
Lemma only_records_same u l st st' x :
  only_records u l st st' → is_token x → x ∉ l → same_reward u st st' x.
Proof. intros [] [c ->] Hx. split; [done|]. apply keeps_records0. by right. Qed.

(** A reset reward is zero. *)
Lemma asset_reward_reset st u b x i :
  compute_asset_rewards st u b x = Ok i → pending_reward i ≠ 0 →
  asset_reward (save_reward u (as_bytes x) (mkRewardInfo (index i) 0) st) u b x = Ok (mkAsset x 0).
Proof.
  unfold asset_reward, compute_asset_rewards. simpl. rewrite lookup_insert_eq.
  change (pool_info (save_reward _ _ _ st) x) with (pool_info st x). intros H Hp.
  destruct (REWARDS st !! (u, as_bytes x)) as [j|]; inv_ok H; inv_ok Ha; subst; [|done].
  simpl. match goal with Hw : uint_mul_dec b (reward_index _) = Some _ |- _ => rewrite Hw end. simpl.
  unfold checked_sub. rewrite uint_checked_sub_law, N.leb_refl. simpl. rewrite N.sub_diag.
  by rewrite uint_add_law, checked_width_intro by done.
Qed.

Lemma convert_step_orders cfg u b token dest st msgs cl sw x st' msgs' cl' sw' :
  is_token x → convert_step cfg u b (Cw20Asset token) token dest (st, msgs, cl, sw) x = Ok (st', msgs', cl', sw') →
  ∃ a, asset_reward st u b x = Ok a ∧
    msgs' = msgs ++ omap (order cfg u token dest) (owed [a]) ∧
    sw' = sw ++ List.filter (swapped token dest) (owed [a]) ∧
    asset_reward st' u b x = Ok (emptied a) ∧ only_records u [x] st st'.
Proof.
  intros [c ->]. unfold convert_step. intros H. apply qbind_Ok in H as (i & Hi & H).
  exists (mkAsset (Cw20Asset c) (pending_reward i)). split; [unfold asset_reward; by rewrite Hi|].
  unfold owed, order, swapped, emptied. simpl. destruct (N.eqb_spec (pending_reward i) 0) as [Hz|Hz].
  { injection H as <- <- <- <-. simpl. rewrite !app_nil_r. split_and!; [done|done| |by split].
    unfold asset_reward. rewrite Hi. simpl. by rewrite Hz. }
  assert (only_records u [Cw20Asset c] st (save_reward u c (mkRewardInfo (index i) 0) st)) as HS.
  { split; try done. intros v d Hv. simpl. rewrite lookup_insert_ne; [done|]. intros [= -> ->].
    destruct Hv as [?|[]%not_elem_of_cons]; done. }
  pose proof (asset_reward_reset st u b (Cw20Asset c) i Hi Hz) as H0. simpl in H0 |- *.
  case_bool_decide as Hc; [|case_bool_decide as Hd]; injection H as <- <- <- <-; simpl;
    by rewrite ?app_nil_r.
Qed.

Lemma convert_loop_orders cfg u b token dest l : Forall is_token l → NoDup l →
  ∀ st0 st msgs cl sw st' msgs' cl' sw', (∀ x, x ∈ l → same_reward u st0 st x) →
  ofold (convert_step cfg u b (Cw20Asset token) token dest) (st, msgs, cl, sw) l = Ok (st', msgs', cl', sw') →
  ∃ rs, omapM (asset_reward st0 u b) l = Ok rs ∧
    msgs' = msgs ++ omap (order cfg u token dest) (owed rs) ∧
    sw' = sw ++ List.filter (swapped token dest) (owed rs) ∧
    omapM (asset_reward st' u b) l = Ok (emptied <$> rs) ∧ only_records u l st st'.
Proof.
  induction 1 as [|x l Hx Hl IH]; intros Hnd st0 st msgs cl sw st' msgs' cl' sw' Hsame H; cbn [omapM ofold] in *.
  { injection H as <- <- <- <-. exists []. simpl. rewrite !app_nil_r. by split_and!. }
  apply NoDup_cons in Hnd as [Hnin Hnd]. apply qbind_Ok in H as ([[[st1 msgs1] cl1] sw1] & H1 & H).
  apply convert_step_orders in H1 as (a & Ha & -> & -> & H0 & HS1); [|done].
  assert (∀ y, y ∈ l → same_reward u st0 st1 y) as Hsame1.
  { intros y Hy. destruct (Hsame y ltac:(by right)) as [Hp Hr]. rewrite Forall_forall in Hl.
    destruct (only_records_same u [x] st st1 y HS1 (Hl y Hy)) as [Hp1 Hr1]; [|split; congruence].
    intros ->%list_elem_of_singleton. done. }
  apply (IH Hnd st0) in H as (rs & Hrs & -> & -> & Hz & HS); [|done]. exists (a :: rs).
  rewrite (same_asset_reward u b st0 st x) in Ha by (apply Hsame; by left).
  assert (owed (a :: rs) = owed [a] ++ owed rs) as -> by (unfold owed; simpl; by destruct (negb _)).
  rewrite omap_app, List.filter_app, !app_assoc, Ha, Hrs, Hz.
  rewrite (same_asset_reward u b st1 st' x), H0 by (by eapply only_records_same). cbn [qbind].
  split_and!; [done..|]. by eapply only_records_cons.
Qed.

(** The allowances among the orders. *)
Lemma owed_tokens rs : Forall (λ a, is_token (asset_info a)) rs → Forall (λ a, is_token (asset_info a)) (owed rs).
Proof.
  intros Hrs. apply Forall_forall. intros a. unfold owed. rewrite list_elem_of_In, filter_In, <-list_elem_of_In.
  rewrite Forall_forall in Hrs. intros [Ha _]. by apply Hrs.
Qed.
Lemma rewards_are_tokens st u b l rs : Forall is_token l → omapM (asset_reward st u b) l = Ok rs → Forall (λ a, is_token (asset_info a)) rs.
Proof.
  intros Hl. revert rs. induction Hl as [|x l Hx _ IH]; intros rs H; cbn [omapM] in H.
  { injection H as <-. constructor. }
  apply qbind_Ok in H as (a & Ha & H). apply qbind_Ok in H as (rs' & Hrs & H). injection H as <-.
  constructor; [|by apply IH]. unfold asset_reward in Ha. apply qbind_Ok in Ha as (i & _ & Ha). by injection Ha as <-.
Qed.
Lemma swapped_tokens token dest rs :
  Forall (λ a, is_token (asset_info a)) rs → Forall token_amount (List.filter (swapped token dest) (owed rs)).
Proof.
  intros Hrs. apply Forall_forall. intros a. rewrite list_elem_of_In, filter_In, <-list_elem_of_In. intros [Ha _].
  unfold owed in Ha. rewrite list_elem_of_In, filter_In, <-list_elem_of_In in Ha. destruct Ha as [Ha Hn].
  rewrite Forall_forall in Hrs. split; [|by apply Hrs]. by apply negb_true_iff, N.eqb_neq in Hn.
Qed.
Lemma order_allowances cfg u token dest l :
  Forall (λ a, is_token (asset_info a)) l →
  omap (allowance (collector cfg)) (omap (order cfg u token dest) l) = List.filter (swapped token dest) l.
Proof.
  induction 1 as [|[x n] l [c Hc] _ IH]; [done|]. simpl in Hc. subst x. cbn [omap list_omap List.filter].
  unfold order at 1, swapped at 1. cbn [asset_info].
  case_bool_decide; [done|]. case_bool_decide; [done|]. simpl. rewrite bool_decide_eq_true_2 by done. by f_equal.
Qed.

(** The answer to the staker when its rewards are gone. *)
Definition paid_out (r : RewardInfoResponse) : RewardInfoResponse :=
  mkRewardInfoResponse (rr_staker_addr r) (rr_staked_amount r) (emptied <$> rr_rewards r).

Lemma query_rewards st w u b rs :
  WHITELISTED_ASSETS st = Some w → BOND_AMOUNTS st !! u = Some b → omapM (asset_reward st u (bond_amount b)) w = Ok rs →
  query st (QRewardInfo u) = Ok (AnswerRewardInfo (mkRewardInfoResponse u (bond_amount b) rs)).
Proof.
  intros Hw Hb Hrs. simpl. unfold query_reward_info, load_whitelist, load_bond, load. rewrite Hw, Hb. simpl.
  fold (asset_reward st u (bond_amount b)). by rewrite Hrs.
Qed.

(** The swap messages follow the transfers and allowances. *)
Lemma convert_orders st q env info claim st' resp cfg :
  Forall is_token (default [] (WHITELISTED_ASSETS st)) → NoDup (default [] (WHITELISTED_ASSETS st)) →
  CONFIG st = Some cfg → convert_and_claim_rewards st q env info claim = Ok (st', resp) →
  let u := info_sender info in
  ∃ token r swaps,
    claim = Cw20Asset token ∧ only_records u (default [] (WHITELISTED_ASSETS st)) st st' ∧
    query st (QRewardInfo u) = Ok (AnswerRewardInfo r) ∧
    query st' (QRewardInfo u) = Ok (AnswerRewardInfo (paid_out r)) ∧
    let '(dest, receiver) := swap_destination cfg env u token in
    let swapped_rewards := List.filter (swapped token dest) (owed (rr_rewards r)) in
    sub_msg <$> messages resp = omap (order cfg u token dest) (owed (rr_rewards r)) ++ swaps ∧
    allowances (collector cfg) resp = swapped_rewards ∧ Forall token_amount swapped_rewards ∧
    swap_messages q env cfg u dest receiver swapped_rewards = Ok swaps.
Proof.
  intros Hl Hnd Hc H u. unfold convert_and_claim_rewards, load_config, load in H. rewrite Hc in H. cbn [ok_or qbind] in H.
  apply qbind_Ok in H as (w & Hw & H). apply qbind_Ok in H as (b & Hb & H). apply qbind_Ok in H as (token & Hv & H).
  unfold load_whitelist, load_bond, load in Hw, Hb. apply ok_or_Ok in Hw. fold u in Hb, H, Hv.
  destruct (BOND_AMOUNTS st !! u) as [b'|] eqn:Hbond; [|done]. injection Hb as ->.
  assert (claim = Cw20Asset token) as ->.
  { unfold verify_claim_asset in Hv. destruct claim as [c|]; [|done]. destruct (_ || _)%bool; [by simplify_eq|done]. }
  rewrite Hw in Hl, Hnd |- *. simpl in Hl, Hnd. destruct (swap_destination cfg env u token) as [dest receiver] eqn:Hdest.
  apply qbind_Ok in H as ([[[st1 msgs] cl] sw] & Hloop & H).
  apply (convert_loop_orders _ _ _ _ _ _ Hl Hnd st) in Hloop as (rs & Hrs & -> & -> & Hz & HS); [|done].
  pose proof (rewards_are_tokens _ _ _ _ _ Hl Hrs) as Htok.
  apply qbind_Ok in H as (swaps & Hs & H). injection H as <- <-. rewrite app_nil_l in Hs.
  exists token, (mkRewardInfoResponse u (bond_amount b) rs), swaps. rewrite Hdest. cbv zeta. split_and!; [done|exact HS|..].
  - by eapply query_rewards.
  - apply (query_rewards _ w); [by rewrite (keeps_whitelist _ _ _ _ HS)|by rewrite (keeps_bonds _ _ _ _ HS)|done].
  - simpl. by rewrite <-list_fmap_compose, list_fmap_id.
  - unfold allowances. simpl. rewrite <-list_fmap_compose, list_fmap_id, omap_app, order_allowances by by apply owed_tokens.
    unfold swap_messages in Hs. inv_ok Hs; subst; simpl; by rewrite app_nil_r.
  - by apply swapped_tokens.
  - exact Hs.
Qed.

(** Only a reward that is in the swap destination already is left out. *)
Lemma order_None cfg env u token dest receiver a :
  swap_destination cfg env u token = (dest, receiver) →
  order cfg u token dest a = None ↔
  token = xprism_token cfg ∧ asset_info a = Cw20Asset (prism_token cfg) ∧ asset_info a ≠ Cw20Asset token.
Proof.
  unfold swap_destination, order. case_bool_decide as Ht; intros [= <- <-];
    repeat case_bool_decide; naive_solver.
Qed.

(** The swap, and the hook when the swapped tokens come back here. *)
Lemma swap_messages_shape q env cfg staker dest receiver sw swaps :
  swap_messages q env cfg staker dest receiver sw = Ok swaps →
  sw = [] ∧ swaps = [] ∨
  ∃ hook, swaps = WasmExecute (collector cfg)
      (BinCollector (CollectorMsg.ConvertAndSend sw (Some receiver) dest)) [] :: hook ∧
    if decide (receiver = contract_address env)
    then ∃ prev, query_token_balance q (prism_token cfg) (contract_address env) = Ok prev ∧
           hook = [WasmExecute (contract_address env) (BinYassetStaking (MintXprismClaimHook staker prev)) []]
    else hook = [].
Proof.
  unfold swap_messages. case_bool_decide as Hsw; [intros [= <-]; by left|]. rewrite bool_decide_decide.
  destruct (decide (receiver = contract_address env)) as [Hr|Hr]; intros H; inv_ok H; subst; right.
  - eexists. split; [done|]. by eexists.
  - by eexists.
Qed.

(** ** The collector takes them *)
Lemma nonzero_tokens l : Forall token_amount l → nonzero l = l.
Proof.
  unfold nonzero. induction 1 as [|a l [Ha _] _ IH]; simpl; [done|].
  apply N.eqb_neq in Ha as ->. simpl. by rewrite IH.
Qed.
Lemma pulls_tokens env info l :
  Forall token_amount l → pulls env info l = take_msg (info_sender info) (contract_address env) <$> l.
Proof.
  intros Hl. unfold pulls. rewrite nonzero_tokens by done.
  induction Hl as [|[i n] l [_ [c Hc]] _ IH]; simpl in *; [done|]. subst i. f_equal. exact IH.
Qed.

Lemma collector_takes cfg q peers env staking l receiver dest r :
  Forall token_amount l →
  Collector.execute (Some (Collector.Current cfg)) q peers env (mkInfo staking [])
    (CollectorMsg.ConvertAndSend l (Some receiver) dest) = Ok r →
  ∃ outs hook,
    sub_msg <$> messages r = (take_msg staking (contract_address env) <$> l) ++ outs ++ hook ∧
    Forall2 (λ a m, moves m = Some a ∧
      (pays m = Some receiver ∨ hook ≠ [] ∧
       ∃ pair, Collector.get_astro_direct_swap_msg pair a (contract_address env) = Ok m)) l outs ∧
    (hook = [] ∨ ∃ n, hook = [Collector.hook_msg env receiver n dest]).
Proof.
  intros Hl H. simpl in H. apply qbind_Ok in H as (? & _ & H). apply qbind_Ok in H as (? & _ & H).
  apply convert_spec in H as (outs & need & Hm & _ & _ & Hf & Hb & _). simpl in Hm.
  rewrite nonzero_tokens in Hf by done. rewrite pulls_tokens in Hm by done. exists outs. destruct need.
  - destruct (Hb eq_refl) as (_ & n & Hq & _). rewrite Hq in Hm. eexists. split; [exact Hm|]. split; [|right; by eexists].
    eapply Forall2_impl; [exact Hf|]. intros a m [Hmv [Hp|[_ Hp]]]; auto.
  - exists []. split; [exact Hm|]. split; [|by left].
    eapply Forall2_impl; [exact Hf|]. intros a m [Hmv [Hp|[[=] _]]]; auto.
Qed.

(** ** The governance mints *)
Lemma gov_mints fbg gs q env prism from_ n receiver gs' r :
  fbg (BinGovHook (GovMsg.MintXprism (Some receiver))) = Ok (GovMsg.MintXprism (Some receiver)) →
  Gov.execute fbg gs q env (mkInfo prism []) (GovMsg.Receive
    (mkCw20Receive from_ n (BinGovHook (GovMsg.MintXprism (Some receiver))))) = Ok (gs', r) →
  gs' = gs ∧ ∃ xprism minted, sub_msg <$> messages r = [Gov.mint_msg xprism receiver minted].
Proof.
  intros Hfb H. simpl in H. unfold Gov.receive_cw20 in H. simpl in H. rewrite Hfb in H. inv_ok H.
  unfold Gov.mint_xprism in H. inv_ok H. subst. split; [done|]. by eexists _, _.
Qed.

Lemma mint_hook st q peers env cfg staker prev d :
  CONFIG st = Some cfg →
  query_token_balance q (prism_token cfg) (contract_address env) = Ok (prev + d) →
  ∃ r, execute fb st q peers env (mkInfo (contract_address env) []) (MintXprismClaimHook staker prev) = Ok (st, r) ∧
    sub_msg <$> messages r = [cw20_msg_to (prism_token cfg)
      (Cw20.Send (gov cfg) d (BinGovHook (GovMsg.MintXprism (Some staker))))].
Proof.
  intros Hc Hq. eexists. split.
  - simpl. unfold mint_xprism_claim_hook, load_config, load. rewrite Hc. simpl.
    rewrite bool_decide_eq_false_2 by tauto. rewrite Hq. simpl. unfold checked_sub.
    rewrite uint_checked_sub_law, (proj2 (N.leb_le _ _)) by lia. done.
  - simpl. by rewrite N.add_comm, N.add_sub.
Qed.

Lemma hook_mints st peers env cfg staker q prev d :
  CONFIG st = Some cfg → query_token_balance q (prism_token cfg) (contract_address env) = Ok (prev + d) →
  let mint := BinGovHook (GovMsg.MintXprism (Some staker)) in
  ∃ r, execute fb st q peers env (mkInfo (contract_address env) []) (MintXprismClaimHook staker prev) = Ok (st, r) ∧
    sub_msg <$> messages r = [cw20_msg_to (prism_token cfg) (Cw20.Send (gov cfg) d mint)] ∧
    ∀ fbg gs q4 env_g gs' r4, fbg mint = Ok (GovMsg.MintXprism (Some staker)) →
      Gov.execute fbg gs q4 env_g (mkInfo (prism_token cfg) [])
        (GovMsg.Receive (mkCw20Receive (contract_address env) d mint)) = Ok (gs', r4) →
      gs' = gs ∧ ∃ xprism minted, sub_msg <$> messages r4 = [Gov.mint_msg xprism staker minted].
Proof.
  intros Hc Hq mint. destruct (mint_hook st q peers env cfg staker prev d Hc Hq) as (r & Hr & Hm).
  exists r. split; [exact Hr|]. split; [exact Hm|]. intros fbg gs q4 env_g gs' r4. apply gov_mints.
Qed.

(** C19: What becomes of converted rewards. Let a staker claim its rewards in one
    token, in any state reached without removing a reward asset and with none
    whitelisted twice.  If the claim succeeds, the rewards that a query answered
    before are all zero in the answer after, and no other account's record and
    no bond has changed.  Each non-zero reward of the answer, in order, was
    either transferred to the staker, if it is in that token, or allowed to the
    collector; the one exception, and it is a loss for the staker, is a reward
    in PRISM when xPRISM is claimed: nothing is ordered for it.  What is allowed
    is handed to the collector, which, if it accepts, first takes from the
    staking contract exactly these amounts, asset by asset, and moves each on
    once, towards the staker, or for xPRISM back to the staking contract.  In
    that case a hook follows that sends all the PRISM that came back, and none
    that was there before, to the governance, which mints xPRISM to the staker. *)
Theorem claim_converts ys yc recv sent k q peers env_s info claim ys' r1 :
  YassetSpec.run fb ys recv sent k → NoDup (default [] (WHITELISTED_ASSETS ys)) →
  CONFIG ys = Some yc →
  execute fb ys q peers env_s info (ConvertAndClaimRewards claim) = Ok (ys', r1) →
  let staker := info_sender info in
  let staking := contract_address env_s in
  ∃ token r swaps,
    claim = Cw20Asset token ∧
    query ys (QRewardInfo staker) = Ok (AnswerRewardInfo r) ∧
    query ys' (QRewardInfo staker) = Ok (AnswerRewardInfo (paid_out r)) ∧
    (∀ v c, v ≠ staker → REWARDS ys' !! (v, c) = REWARDS ys !! (v, c)) ∧
    BOND_AMOUNTS ys' = BOND_AMOUNTS ys ∧ CONFIG ys' = Some yc ∧
    let '(dest, receiver) :=
      if decide (token = xprism_token yc) then (Cw20Asset (prism_token yc), staking) else (claim, staker) in
    let allowed := List.filter (swapped token dest) (owed (rr_rewards r)) in
    let convert := CollectorMsg.ConvertAndSend allowed (Some receiver) dest in
    sub_msg <$> messages r1 = omap (order yc staker token dest) (owed (rr_rewards r)) ++ swaps ∧
    (∀ a, order yc staker token dest a = None ↔
       token = xprism_token yc ∧ asset_info a = Cw20Asset (prism_token yc) ∧ asset_info a ≠ claim) ∧
    allowances (collector yc) r1 = allowed ∧
    (allowed = [] ∧ swaps = [] ∨
     ∃ hook, swaps = WasmExecute (collector yc) (BinCollector convert) [] :: hook ∧
       (if decide (receiver = staking)
        then ∃ prev, query_token_balance q (prism_token yc) staking = Ok prev ∧
               hook = [WasmExecute staking (BinYassetStaking (MintXprismClaimHook staker prev)) []]
        else hook = [])) ∧
    (∀ cfg q2 cpeers env_c r2, contract_address env_c = collector yc →
       Collector.execute (Some (Collector.Current cfg)) q2 cpeers env_c (mkInfo staking []) convert = Ok r2 →
       ∃ outs base_hook,
         sub_msg <$> messages r2 = (take_msg staking (collector yc) <$> allowed) ++ outs ++ base_hook ∧
         Forall2 (λ a m, moves m = Some a ∧
           (pays m = Some receiver ∨ base_hook ≠ [] ∧
            ∃ pair, Collector.get_astro_direct_swap_msg pair a (collector yc) = Ok m)) allowed outs ∧
         (base_hook = [] ∨ ∃ n, base_hook = [Collector.hook_msg env_c receiver n dest])) ∧
    (∀ q3 prev d, query_token_balance q3 (prism_token yc) staking = Ok (prev + d) →
       let mint := BinGovHook (GovMsg.MintXprism (Some staker)) in
       ∃ r3, execute fb ys' q3 peers env_s (mkInfo staking []) (MintXprismClaimHook staker prev) = Ok (ys', r3) ∧
         sub_msg <$> messages r3 = [cw20_msg_to (prism_token yc) (Cw20.Send (gov yc) d mint)] ∧
         ∀ fbg gs q4 env_g gs' r4, fbg mint = Ok (GovMsg.MintXprism (Some staker)) →
           Gov.execute fbg gs q4 env_g (mkInfo (prism_token yc) [])
             (GovMsg.Receive (mkCw20Receive staking d mint)) = Ok (gs', r4) →
           gs' = gs ∧ ∃ xprism minted, sub_msg <$> messages r4 = [Gov.mint_msg xprism staker minted]).
Proof.
  intros [HB _]%YassetSpec.run_cover Hnd Hc H staker staking. simpl in H. apply qbind_Ok in H as (? & _ & H).
  assert (Forall is_token (default [] (WHITELISTED_ASSETS ys))) as Htok by (apply Forall_forall; apply HB).
  eapply convert_orders in H as (token & r & swaps & -> & HS & Hq & Hq' & H); [|done..]. fold staker in HS, Hq, Hq', H.
  assert (CONFIG ys' = Some yc) as Hc' by (by rewrite (keeps_config _ _ _ _ HS)).
  assert (∀ v c, v ≠ staker → REWARDS ys' !! (v, c) = REWARDS ys !! (v, c)) as Hoth
    by (intros; apply HS; by left).
  pose proof (order_None yc env_s staker token) as Hnone. exists token, r, swaps.
  unfold swap_destination in H, Hnone. rewrite bool_decide_decide in H, Hnone.
  destruct (decide (token = xprism_token yc)) as [Hx|Hx]; destruct H as (Hm & Hal & Hta & Hs);
    (cbv beta iota zeta; split_and!;
     [done|done|done|done|by apply HS|done|done|intros a; by eapply Hnone|done|by eapply swap_messages_shape
     |intros cfg q2 cpeers env_c r2 He Hx2; rewrite <-He in *; by eapply collector_takes|intros q3 prev d; by apply hook_mints]).
Qed.
End flow.

(** ** A concrete claim

    Alice has 270 ANC of rewards and claims xPRISM; ANC is swapped through astroport. *)
Section witnesses.
Import Reference ReferenceAsset YassetSpec.
#[local] Existing Instance Reference.platform.
#[local] Existing Instance ReferenceAsset.cw_asset.
#[local] Existing Instance YassetSpec.reference_terra.
#[local] Existing Instance YassetSpec.reference_terra_laws.
#[local] Existing Instance CollectorSpec.reference_astroport.

Definition xprism : AssetInfo := Cw20Asset "xprism".
Definition run_claim :=
  execute parse_hook staking_state chain vault_of_200 here (mkInfo "alice" []) (ConvertAndClaimRewards xprism).
Lemma conversion_Ok :
  execute parse_hook staking_state chain vault_of_200 here (mkInfo "alice" []) (ConvertAndClaimRewards xprism) =
    Ok (new_state run_claim, response_of run_claim).
Proof. apply (yasset_run_Ok run_claim). vm_compute. reflexivity. Qed.
Lemma run_claim_allowed : allowances "collector" (response_of run_claim) = [anc 270].
Proof. vm_compute. reflexivity. Qed.
Definition run_collect :=
  Collector.execute (Some (Collector.Current CollectorSpec.config)) (CollectorSpec.chain 1000) CollectorSpec.pairs
    CollectorSpec.here (mkInfo "staking" [])
    (CollectorMsg.ConvertAndSend [anc 270] (Some "staking"%string) (Cw20Asset "prism")).
Definition collected : Response := CollectorSpec.result run_collect.
Lemma run_collect_Ok :
  Collector.execute (Some (Collector.Current CollectorSpec.config)) (CollectorSpec.chain 1000) CollectorSpec.pairs
    CollectorSpec.here (mkInfo "staking" [])
    (CollectorMsg.ConvertAndSend [anc 270] (Some "staking"%string) (Cw20Asset "prism")) = Ok collected.
Proof. apply (CollectorSpec.collector_run_Ok run_collect). vm_compute. reflexivity. Qed.

Lemma claim_converts_witness :
  query staking_state (QRewardInfo "alice") = Ok (AnswerRewardInfo (mkRewardInfoResponse "alice" 60
    [mkAsset (Cw20Asset "pluna") 0; mkAsset (Cw20Asset "yluna") 0; anc 270])) ∧
  (∃ r, query (new_state run_claim) (QRewardInfo "alice") = Ok (AnswerRewardInfo (paid_out r))) ∧
  sub_msg <$> messages collected =
    [take_msg "staking" "collector" (anc 270);
     WasmExecute "anc" (BinCw20 (Cw20.Send "astro_pair" 270 (RawBinary "swap"))) [];
     Collector.hook_msg CollectorSpec.here "staking" 1000 (Cw20Asset "prism")] ∧
  ∃ outs hook, sub_msg <$> messages collected = [take_msg "staking" "collector" (anc 270)] ++ outs ++ hook.
Proof.
  split; [exact alice_is_told|]. destruct staking_run as (recv & sent & Hr & _).
  destruct (claim_converts (P:=platform) parse_hook staking_state staking_config recv sent 4 chain vault_of_200 here
    (mkInfo "alice" []) xprism (new_state run_claim) (response_of run_claim) Hr three_assets staking_state_config
    conversion_Ok) as (token & r & swaps & Ht & _ & Hq' & _ & _ & _ & H).
  split; [by exists r|]. split; [vm_compute; reflexivity|].
  assert (token = "xprism"%string) as -> by (injection Ht as ->; reflexivity).
  rewrite decide_True in H by reflexivity. destruct H as (_ & _ & Hal & _ & H & _).
  change (collector staking_config) with "collector"%string in *. rewrite <-Hal, run_claim_allowed in H.
  destruct (H CollectorSpec.config (CollectorSpec.chain 1000) CollectorSpec.pairs CollectorSpec.here collected
    eq_refl run_collect_Ok) as (outs & hook & Hm & _).
  exists outs, hook. exact Hm.
Defined.
End witnesses.
End ClaimFlow.
